(** * Sweep-and-prune broad phase (collision/b2BroadPhase.js)

    A shallow embedding of [box2d.BroadPhase]: the quantizer, the two
    sorted bound arrays, the stabbing-count range query and the proxy
    life cycle (create / move / destroy), followed by the properties
    of the specification that were checked against it.

    JavaScript numbers are IEEE-754 binary64 values: world coordinates
    are modelled by Rocq's primitive [float]; every quantity that the
    code only ever uses as an integer (quantized values, indices,
    counters, ids) is a [Z].  A property access on [undefined] raises
    a [TypeError]; the embedding returns [None] exactly there. *)

From Stdlib Require Import ZArith Lia Floats.
From stdpp Require Import base option list numbers sets.

Local Open Scope Z_scope.
Set Warnings "-clear-no-such-hyp".
Set Warnings "-inexact-float".

(** Case analysis on the integer tests of a goal. *)
Ltac ztest :=
  repeat match goal with
  | |- context [?x >? ?y] => rewrite (Z.gtb_ltb x y)
  | |- context [?x >=? ?y] => rewrite (Z.geb_leb x y)
  | |- context [?x <=? ?y] => destruct (Z.leb_spec x y)
  | |- context [?x <? ?y] => destruct (Z.ltb_spec x y)
  | |- context [?x =? ?y] => destruct (Z.eqb_spec x y)
  end; try lia; try done.

(** ** Arrays of objects *)

(** [a[i]] for a JavaScript array of objects: [undefined] (here [None])
    outside of the array. *)
Definition js_get {A} (l : list A) (i : Z) : option A :=
  if i <? 0 then None else l !! Z.to_nat i.

(** Overwriting the object stored at an index; the code only does so
    where it has read an object before. *)
Definition js_put {A} (l : list A) (i : Z) (x : A) : list A :=
  if i <? 0 then l else <[Z.to_nat i := x]> l.

(** [a[i] = x] on an array of numbers: JavaScript extends the array when
    [i] is past its end, leaving holes ([None]) in between. *)
Definition js_set {A} (l : list (option A)) (i : Z) (x : A) : list (option A) :=
  if i <? 0 then l
  else if i <? Z.of_nat (length l) then <[Z.to_nat i := Some x]> l
  else l ++ replicate (Z.to_nat i - length l)%nat None ++ [Some x].

Definition js_read {A} (l : list (option A)) (i : Z) : option A :=
  mjoin (js_get l i).

(** [for (i = lo; i < hi; ++i) body(i)] over a state that the body may
    fail on. *)
Definition for_loop {S} (lo hi : Z) (body : Z → S → option S) (s : S) : option S :=
  foldl (λ acc i, acc ≫= body i) (Some s) (seqZ lo (hi - lo)).

(** ** Settings *)

(** Modelled from the spec: [box2d.Settings.USHRT_MAX], the maximum
    16-bit value; the file defining it is not part of the sources. *)
Definition USHRT_MAX : Z := 65535.

(** The two axes of the sweep. *)
Inductive Axis := axis0 | axis1.

#[global] Instance Axis_eq_dec : EqDecision Axis.
Proof. solve_decision. Defined.

Definition sel {A} (a : Axis) (p : A * A) : A :=
  match a with axis0 => fst p | axis1 => snd p end.

Definition upd {A} (a : Axis) (v : A) (p : A * A) : A * A :=
  match a with axis0 => (v, snd p) | axis1 => (fst p, v) end.

(** ** Bound *)

(** Modelled from the spec: [box2d.Bound] (its file is not part of the
    sources): a quantized value, the owning proxy and the stabbing
    count; the role of a bound is read off the parity of its value. *)
Record Bound := mkBound {
  value : Z;
  proxyId : Z;
  stabbingCount : Z
}.

Definition new_Bound : Bound := mkBound 0 0 0.

Definition IsLower (b : Bound) : bool := Z.land (value b) 1 =? 0.
Definition IsUpper (b : Bound) : bool := Z.land (value b) 1 =? 1.

Definition set_value (v : Z) (b : Bound) : Bound :=
  mkBound v (proxyId b) (stabbingCount b).
Definition set_proxyId (p : Z) (b : Bound) : Bound :=
  mkBound (value b) p (stabbingCount b).
Definition set_stabbingCount (c : Z) (b : Bound) : Bound :=
  mkBound (value b) (proxyId b) c.
Definition add_stabbingCount (d : Z) (b : Bound) : Bound :=
  set_stabbingCount (stabbingCount b + d) b.

(** ** BinarySearch *)

Fixpoint BinarySearch_loop (fuel : nat) (bounds : list Bound) (v : Z)
    (low high : Z) : option Z :=
  if low <=? high then
    match fuel with
    | O => None
    | S fuel' =>
        let mid := (low + high) / 2 in
        b ← js_get bounds mid;
        if value b >? v then BinarySearch_loop fuel' bounds v low (mid - 1)
        else if value b <? v then BinarySearch_loop fuel' bounds v (mid + 1) high
        else Some mid
    end
  else Some low.

(** The interval [low..high] loses at least one index per iteration, so
    [count] iterations are enough. *)
Definition BinarySearch (bounds : list Bound) (count : Z) (v : Z) : option Z :=
  BinarySearch_loop (Z.to_nat count) bounds v 0 (count - 1).

(** ** Numbers *)

(** [Math.min] and [Math.max] on binary64 values: a [NaN] argument gives
    [NaN], and [-0] is smaller than [+0]. *)
Definition Math_min (a b : float) : float :=
  if is_nan a || is_nan b then nan
  else if (a <? b)%float then a
  else if (b <? a)%float then b
  else if get_sign a then a else b.

Definition Math_max (a b : float) : float :=
  if is_nan a || is_nan b then nan
  else if (a <? b)%float then b
  else if (b <? a)%float then a
  else if get_sign a then b else a.

(** The conversion a bitwise operator applies to its operands: [NaN],
    zeros and infinities give 0; any other number is truncated towards
    zero and wrapped into the signed 32-bit range. *)
Definition ToInt32 (x : float) : Z :=
  match Prim2SF x with
  | S754_finite s m e =>
      let a := if 0 <=? e then Z.shiftl (Zpos m) e else Z.shiftr (Zpos m) (- e) in
      let i := if s then - a else a in
      let r := i mod 4294967296 in
      if 2147483648 <=? r then r - 4294967296 else r
  | _ => 0
  end.

(** [USHRT_MAX] as a number. *)
Definition USHRT_MAX_f : float := 65535%float.

Record Vec2 := mkVec2 { x : float; y : float }.

Definition coord (a : Axis) (v : Vec2) : float :=
  match a with axis0 => x v | axis1 => y v end.

Record AABB := mkAABB { minVertex : Vec2; maxVertex : Vec2 }.

(** ** The environment of the broad phase *)

(** What the broad phase takes from files that are not part of the
    sources: the opaque payload of a proxy; the pair manager behind its
    interface (buffered additions and removals of pairs, and [Commit]);
    [aabb.IsValid()]; and the settings [box2d.Settings.b2_maxProxies],
    [box2d.Pair.b2_nullProxy] and [box2d.Settings.invalid]. *)
Class Environment := {
  UserData : Type;
  PairManager : Type;
  Pairs : Type;
  PairManager_Initialize : PairManager;
  AddBufferedPair : Z → Z → PairManager → PairManager;
  RemoveBufferedPair : Z → Z → PairManager → PairManager;
  PairManager_Commit : PairManager → Pairs * PairManager;
  AABB_IsValid : AABB → bool;
  b2_maxProxies : Z;
  b2_nullProxy : Z;
  invalid : Z
}.

(** ** Proxy *)

Section BroadPhase.

Context {env : Environment}.

(** Modelled from the spec: [box2d.Proxy] (its file is not part of the
    sources): the positions of its four bounds, the free-list link, the
    query time stamp, the overlap counter and the user payload. *)
Record Proxy := mkProxy {
  lowerBounds : Z * Z;
  upperBounds : Z * Z;
  overlapCount : Z;
  timeStamp : Z;
  userData : option UserData;
  next : Z
}.

Definition new_Proxy : Proxy := mkProxy (0, 0) (0, 0) 0 0 None 0.

Definition GetNext (p : Proxy) : Z := next p.
Definition SetNext (n : Z) (p : Proxy) : Proxy :=
  mkProxy (lowerBounds p) (upperBounds p) (overlapCount p) (timeStamp p) (userData p) n.
Definition Proxy_IsValid (p : Proxy) : bool := negb (overlapCount p =? invalid).

Definition set_lowerBound (a : Axis) (i : Z) (p : Proxy) : Proxy :=
  mkProxy (upd a i (lowerBounds p)) (upperBounds p) (overlapCount p) (timeStamp p)
    (userData p) (next p).
Definition set_upperBound (a : Axis) (i : Z) (p : Proxy) : Proxy :=
  mkProxy (lowerBounds p) (upd a i (upperBounds p)) (overlapCount p) (timeStamp p)
    (userData p) (next p).
Definition set_overlapCount (c : Z) (p : Proxy) : Proxy :=
  mkProxy (lowerBounds p) (upperBounds p) c (timeStamp p) (userData p) (next p).
Definition set_timeStamp (t : Z) (p : Proxy) : Proxy :=
  mkProxy (lowerBounds p) (upperBounds p) (overlapCount p) t (userData p) (next p).
Definition set_userData (u : option UserData) (p : Proxy) : Proxy :=
  mkProxy (lowerBounds p) (upperBounds p) (overlapCount p) (timeStamp p) u (next p).

(** ** The broad phase *)

Record BroadPhase := mkBroadPhase {
  m_pairManager : PairManager;
  proxyPool : list Proxy;
  m_bounds : list Bound * list Bound;
  m_queryResults : list (option Z);
  m_queryResultCount : Z;
  m_quantizationFactor : Vec2;
  m_worldAABB : AABB;
  m_proxyCount : Z;
  m_freeProxy : Z;
  m_timeStamp : Z
}.

Definition with_pairManager (pm : PairManager) (s : BroadPhase) : BroadPhase :=
  mkBroadPhase pm (proxyPool s) (m_bounds s) (m_queryResults s) (m_queryResultCount s)
    (m_quantizationFactor s) (m_worldAABB s) (m_proxyCount s) (m_freeProxy s) (m_timeStamp s).
Definition with_proxyPool (pool : list Proxy) (s : BroadPhase) : BroadPhase :=
  mkBroadPhase (m_pairManager s) pool (m_bounds s) (m_queryResults s) (m_queryResultCount s)
    (m_quantizationFactor s) (m_worldAABB s) (m_proxyCount s) (m_freeProxy s) (m_timeStamp s).
Definition with_bounds (a : Axis) (bs : list Bound) (s : BroadPhase) : BroadPhase :=
  mkBroadPhase (m_pairManager s) (proxyPool s) (upd a bs (m_bounds s)) (m_queryResults s)
    (m_queryResultCount s) (m_quantizationFactor s) (m_worldAABB s) (m_proxyCount s)
    (m_freeProxy s) (m_timeStamp s).
Definition with_queryResults (r : list (option Z)) (c : Z) (s : BroadPhase) : BroadPhase :=
  mkBroadPhase (m_pairManager s) (proxyPool s) (m_bounds s) r c
    (m_quantizationFactor s) (m_worldAABB s) (m_proxyCount s) (m_freeProxy s) (m_timeStamp s).
Definition with_proxyCount (n : Z) (s : BroadPhase) : BroadPhase :=
  mkBroadPhase (m_pairManager s) (proxyPool s) (m_bounds s) (m_queryResults s)
    (m_queryResultCount s) (m_quantizationFactor s) (m_worldAABB s) n (m_freeProxy s)
    (m_timeStamp s).
Definition with_freeProxy (f : Z) (s : BroadPhase) : BroadPhase :=
  mkBroadPhase (m_pairManager s) (proxyPool s) (m_bounds s) (m_queryResults s)
    (m_queryResultCount s) (m_quantizationFactor s) (m_worldAABB s) (m_proxyCount s) f
    (m_timeStamp s).
Definition with_timeStamp (t : Z) (s : BroadPhase) : BroadPhase :=
  mkBroadPhase (m_pairManager s) (proxyPool s) (m_bounds s) (m_queryResults s)
    (m_queryResultCount s) (m_quantizationFactor s) (m_worldAABB s) (m_proxyCount s)
    (m_freeProxy s) t.

Definition bounds_of (a : Axis) (s : BroadPhase) : list Bound := sel a (m_bounds s).

(** [this.m_bounds[axis][i].f = ...]: the bound must exist. *)
Definition upd_bound (a : Axis) (i : Z) (f : Bound → Bound) (s : BroadPhase)
    : option BroadPhase :=
  b ← js_get (bounds_of a s) i;
  Some (with_bounds a (js_put (bounds_of a s) i (f b)) s).

(** [this.proxyPool[id].f = ...]: the proxy must exist. *)
Definition upd_proxy (id : Z) (f : Proxy → Proxy) (s : BroadPhase) : option BroadPhase :=
  p ← js_get (proxyPool s) id;
  Some (with_proxyPool (js_put (proxyPool s) id (f p)) s).

(** *** Constructor *)

Definition free_Proxy (n : Z) : Proxy :=
  set_userData None (set_overlapCount invalid (set_timeStamp 0 (SetNext n new_Proxy))).

Definition new_BroadPhase (worldAABB : AABB) : BroadPhase :=
  let dX := (x (maxVertex worldAABB) - x (minVertex worldAABB))%float in
  let dY := (y (maxVertex worldAABB) - y (minVertex worldAABB))%float in
  {| m_pairManager := PairManager_Initialize;
     proxyPool := ((λ i, free_Proxy (i + 1)) <$> seqZ 0 (b2_maxProxies - 1))
                    ++ [free_Proxy b2_nullProxy];
     m_bounds := (replicate (Z.to_nat (2 * b2_maxProxies)) new_Bound,
                  replicate (Z.to_nat (2 * b2_maxProxies)) new_Bound);
     m_queryResults := replicate (Z.to_nat b2_maxProxies) (Some 0);
     m_queryResultCount := 0;
     m_quantizationFactor := mkVec2 (USHRT_MAX_f / dX) (USHRT_MAX_f / dY);
     m_worldAABB := worldAABB;
     m_proxyCount := 0;
     m_freeProxy := 0;
     m_timeStamp := 1 |}.

(** *** InRange *)

Definition InRange (aabb : AABB) (s : BroadPhase) : bool :=
  let w := m_worldAABB s in
  let dX := (x (minVertex aabb) - x (maxVertex w))%float in
  let dY := (y (minVertex aabb) - y (maxVertex w))%float in
  let d2X := (x (minVertex w) - x (maxVertex aabb))%float in
  let d2Y := (y (minVertex w) - y (maxVertex aabb))%float in
  let dX := Math_max dX d2X in
  let dY := Math_max dY d2Y in
  (Math_max dX dY <? 0)%float.

(** *** GetProxy *)

(** The result is the proxy object or [null] (here the inner [None]). *)
Definition GetProxy (proxyId : Z) (s : BroadPhase) : option (option Proxy) :=
  if proxyId =? b2_nullProxy then Some None
  else
    proxy ← js_get (proxyPool s) proxyId;
    if negb (Proxy_IsValid proxy) then Some None else Some (Some proxy).

(** *** ComputeBounds *)

Definition clamp_to_world (a : Axis) (v : float) (s : BroadPhase) : float :=
  Math_max (Math_min v (coord a (maxVertex (m_worldAABB s))))
           (coord a (minVertex (m_worldAABB s))).

Definition quantize (a : Axis) (v : float) (s : BroadPhase) : float :=
  (coord a (m_quantizationFactor s) * (v - coord a (minVertex (m_worldAABB s))))%float.

Definition ComputeBounds_lower (a : Axis) (aabb : AABB) (s : BroadPhase) : Z :=
  Z.land (ToInt32 (quantize a (clamp_to_world a (coord a (minVertex aabb)) s) s))
         (USHRT_MAX - 1).

Definition ComputeBounds_upper (a : Axis) (aabb : AABB) (s : BroadPhase) : Z :=
  Z.lor (Z.land (ToInt32 (quantize a (clamp_to_world a (coord a (maxVertex aabb)) s) s))
                65535) 1.

(** [lowerValues] and [upperValues], each indexed by the axis. *)
Definition ComputeBounds (aabb : AABB) (s : BroadPhase) : (Z * Z) * (Z * Z) :=
  ((ComputeBounds_lower axis0 aabb s, ComputeBounds_lower axis1 aabb s),
   (ComputeBounds_upper axis0 aabb s, ComputeBounds_upper axis1 aabb s)).

(** *** IncrementOverlapCount and IncrementTimeStamp *)

Definition IncrementOverlapCount (proxyId : Z) (s : BroadPhase) : option BroadPhase :=
  proxy ← js_get (proxyPool s) proxyId;
  if timeStamp proxy <? m_timeStamp s then
    upd_proxy proxyId (λ p, set_overlapCount 1 (set_timeStamp (m_timeStamp s) p)) s
  else
    s1 ← upd_proxy proxyId (set_overlapCount 2) s;
    Some (with_queryResults
            (js_set (m_queryResults s1) (m_queryResultCount s1) proxyId)
            (m_queryResultCount s1 + 1) s1).

Definition IncrementTimeStamp (s : BroadPhase) : option BroadPhase :=
  if m_timeStamp s =? USHRT_MAX then
    s1 ← for_loop 0 b2_maxProxies (λ i, upd_proxy i (set_timeStamp 0)) s;
    Some (with_timeStamp 1 s1)
  else Some (with_timeStamp (m_timeStamp s + 1) s).

(** *** TestOverlapValidate *)

(** [p1] and [p2] are the proxy objects, named by their ids in the pool. *)
Definition TestOverlapValidate_axis (a : Axis) (p1 p2 : Z) (s : BroadPhase) : option bool :=
  px1 ← js_get (proxyPool s) p1;
  px2 ← js_get (proxyPool s) p2;
  b1l ← js_get (bounds_of a s) (sel a (lowerBounds px1));
  b2u ← js_get (bounds_of a s) (sel a (upperBounds px2));
  if value b1l >? value b2u then Some false
  else
    b1u ← js_get (bounds_of a s) (sel a (upperBounds px1));
    b2l ← js_get (bounds_of a s) (sel a (lowerBounds px2));
    if value b1u <? value b2l then Some false else Some true.

Definition TestOverlapValidate (p1 p2 : Z) (s : BroadPhase) : option bool :=
  r0 ← TestOverlapValidate_axis axis0 p1 p2 s;
  if (r0 : bool) then TestOverlapValidate_axis axis1 p1 p2 s else Some false.

(** *** TestOverlap *)

(** [b] holds [lowerValues] and [upperValues]; [p] is the proxy object,
    named by its id in the pool. *)
Definition TestOverlap_axis (a : Axis) (b : (Z * Z) * (Z * Z)) (p : Z) (s : BroadPhase)
    : option bool :=
  px ← js_get (proxyPool s) p;
  bu ← js_get (bounds_of a s) (sel a (upperBounds px));
  if sel a (fst b) >? value bu then Some false
  else
    bl ← js_get (bounds_of a s) (sel a (lowerBounds px));
    if sel a (snd b) <? value bl then Some false else Some true.

Definition TestOverlap (b : (Z * Z) * (Z * Z)) (p : Z) (s : BroadPhase) : option bool :=
  r0 ← TestOverlap_axis axis0 b p s;
  if (r0 : bool) then TestOverlap_axis axis1 b p s else Some false.

(** *** Query *)

(** The easy case: the lower bounds inside the query range. *)
Definition Query_easy (bounds : list Bound) (lowerQuery upperQuery : Z) (s : BroadPhase)
    : option BroadPhase :=
  for_loop lowerQuery upperQuery
    (λ j (s : BroadPhase), b ← js_get bounds j;
            if IsLower b then IncrementOverlapCount (proxyId b) s else Some s) s.

(** The hard case: walk down from [i] until the [c] proxies that span
    [lowerQuery] are found.  [i] loses one per iteration; with no fuel
    left [i] is negative and [bounds[i]] is [undefined]. *)
Fixpoint Query_hard (fuel : nat) (bounds : list Bound) (a : Axis) (lowerQuery : Z)
    (i c : Z) (s : BroadPhase) : option BroadPhase :=
  if c =? 0 then Some s
  else
    match fuel with
    | O => None
    | S fuel' =>
        b ← js_get bounds i;
        if IsLower b then
          proxy ← js_get (proxyPool s) (proxyId b);
          if lowerQuery <=? sel a (upperBounds proxy) then
            s1 ← IncrementOverlapCount (proxyId b) s;
            Query_hard fuel' bounds a lowerQuery (i - 1) (c - 1) s1
          else Query_hard fuel' bounds a lowerQuery (i - 1) c s
        else Query_hard fuel' bounds a lowerQuery (i - 1) c s
    end.

(** Returns [lowerQueryOut[0]] and [upperQueryOut[0]] with the state. *)
Definition Query (lowerValue upperValue : Z) (bounds : list Bound) (boundCount : Z)
    (a : Axis) (s : BroadPhase) : option (Z * Z * BroadPhase) :=
  lowerQuery ← BinarySearch bounds boundCount lowerValue;
  upperQuery ← BinarySearch bounds boundCount upperValue;
  s1 ← Query_easy bounds lowerQuery upperQuery s;
  s2 ← (if lowerQuery >? 0 then
          b ← js_get bounds (lowerQuery - 1);
          Query_hard (Z.to_nat lowerQuery) bounds a lowerQuery (lowerQuery - 1)
            (stabbingCount b) s1
        else Some s1);
  Some (lowerQuery, upperQuery, s2).

(** *** The memmove replacements *)

(** [tArr[j]] receives a copy of [bounds[src + j]] for [j < n]. *)
Definition copy_out (bounds : list Bound) (src n : Z) : option (list Bound) :=
  for_loop 0 n
    (λ j (tArr : list Bound), b ← js_get bounds (src + j);
               Some (tArr ++ [mkBound (value b) (proxyId b) (stabbingCount b)])) [].

(** The fields of [tArr[j]] are written to [bounds[dst + j]]. *)
Definition copy_in (tArr : list Bound) (dst : Z) (bounds : list Bound)
    : option (list Bound) :=
  for_loop 0 (Z.of_nat (length tArr))
    (λ j (bounds : list Bound), t ← js_get tArr j;
                 _ ← js_get bounds (dst + j);
                 Some (js_put bounds (dst + j)
                         (mkBound (value t) (proxyId t) (stabbingCount t)))) bounds.

Definition move_range (src dst n : Z) (bounds : list Bound) : option (list Bound) :=
  tArr ← copy_out bounds src n;
  copy_in tArr dst bounds.

(** The loops that re-point the proxies at their bounds. *)
Definition fix_index (a : Axis) (index : Z) (s : BroadPhase) : option BroadPhase :=
  b ← js_get (bounds_of a s) index;
  if IsLower b then upd_proxy (proxyId b) (set_lowerBound a index) s
  else upd_proxy (proxyId b) (set_upperBound a index) s.

(** Buffering one pair per query result. *)
Definition buffer_results (f : Z → Z → PairManager → PairManager) (proxyId : Z)
    (s : BroadPhase) : option BroadPhase :=
  for_loop 0 (m_queryResultCount s)
    (λ i (s : BroadPhase), r ← js_read (m_queryResults s) i;
            Some (with_pairManager (f proxyId r (m_pairManager s)) s)) s.

(** *** CreateProxy *)

Definition CreateProxy_axis (pid : Z) (lowerValues upperValues : Z * Z) (boundCount : Z)
    (a : Axis) (s : BroadPhase) : option BroadPhase :=
  '(lowerIndex, upperIndex, s) ←
     Query (sel a lowerValues) (sel a upperValues) (bounds_of a s) boundCount a s;
  bounds ← move_range upperIndex (upperIndex + 2) (boundCount - upperIndex) (bounds_of a s);
  bounds ← move_range lowerIndex (lowerIndex + 1) (upperIndex - lowerIndex) bounds;
  let s := with_bounds a bounds s in
  let upperIndex := upperIndex + 1 in
  s ← upd_bound a lowerIndex (set_value (sel a lowerValues)) s;
  s ← upd_bound a lowerIndex (set_proxyId pid) s;
  s ← upd_bound a upperIndex (set_value (sel a upperValues)) s;
  s ← upd_bound a upperIndex (set_proxyId pid) s;
  c ← (if lowerIndex =? 0 then Some 0
       else stabbingCount <$> js_get (bounds_of a s) (lowerIndex - 1));
  s ← upd_bound a lowerIndex (set_stabbingCount c) s;
  bprev ← js_get (bounds_of a s) (upperIndex - 1);
  s ← upd_bound a upperIndex (set_stabbingCount (stabbingCount bprev)) s;
  s ← for_loop lowerIndex upperIndex (λ index, upd_bound a index (add_stabbingCount 1)) s;
  for_loop lowerIndex (boundCount + 2) (fix_index a) s.

Definition commit_pairs (s : BroadPhase) : BroadPhase :=
  with_pairManager (snd (PairManager_Commit (m_pairManager s))) s.

Definition CreateProxy (aabb : AABB) (data : option UserData) (s : BroadPhase)
    : option (Z * BroadPhase) :=
  let pid := m_freeProxy s in
  proxy ← js_get (proxyPool s) pid;
  let s := with_freeProxy (GetNext proxy) s in
  s ← upd_proxy pid (set_overlapCount 0) s;
  s ← upd_proxy pid (set_userData data) s;
  let boundCount := 2 * m_proxyCount s in
  let '(lowerValues, upperValues) := ComputeBounds aabb s in
  s ← CreateProxy_axis pid lowerValues upperValues boundCount axis0 s;
  s ← CreateProxy_axis pid lowerValues upperValues boundCount axis1 s;
  let s := with_proxyCount (m_proxyCount s + 1) s in
  s ← buffer_results AddBufferedPair pid s;
  let s := commit_pairs s in
  let s := with_queryResults (m_queryResults s) 0 s in
  s ← IncrementTimeStamp s;
  Some (pid, s).

(** *** DestroyProxy *)

Definition DestroyProxy_axis (pid : Z) (boundCount : Z) (a : Axis) (s : BroadPhase)
    : option BroadPhase :=
  proxy ← js_get (proxyPool s) pid;
  let lowerIndex := sel a (lowerBounds proxy) in
  let upperIndex := sel a (upperBounds proxy) in
  bl ← js_get (bounds_of a s) lowerIndex;
  bu ← js_get (bounds_of a s) upperIndex;
  let lowerValue := value bl in
  let upperValue := value bu in
  bounds ← move_range (lowerIndex + 1) lowerIndex (upperIndex - lowerIndex - 1)
             (bounds_of a s);
  bounds ← move_range (upperIndex + 1) (upperIndex - 1) (boundCount - upperIndex - 1) bounds;
  let s := with_bounds a bounds s in
  s ← for_loop lowerIndex (boundCount - 2) (fix_index a) s;
  s ← for_loop lowerIndex (upperIndex - 1)
        (λ index2, upd_bound a index2 (add_stabbingCount (-1))) s;
  '(_, _, s) ← Query lowerValue upperValue (bounds_of a s) (boundCount - 2) a s;
  Some s.

Definition DestroyProxy (pid : Z) (s : BroadPhase) : option BroadPhase :=
  _ ← js_get (proxyPool s) pid;
  let boundCount := 2 * m_proxyCount s in
  s ← DestroyProxy_axis pid boundCount axis0 s;
  s ← DestroyProxy_axis pid boundCount axis1 s;
  s ← buffer_results RemoveBufferedPair pid s;
  let s := commit_pairs s in
  let s := with_queryResults (m_queryResults s) 0 s in
  s ← IncrementTimeStamp s;
  s ← upd_proxy pid (set_userData None) s;
  s ← upd_proxy pid (set_overlapCount invalid) s;
  s ← upd_proxy pid (set_lowerBound axis0 invalid) s;
  s ← upd_proxy pid (set_lowerBound axis1 invalid) s;
  s ← upd_proxy pid (set_upperBound axis0 invalid) s;
  s ← upd_proxy pid (set_upperBound axis1 invalid) s;
  s ← upd_proxy pid (SetNext (m_freeProxy s)) s;
  let s := with_freeProxy pid s in
  Some (with_proxyCount (m_proxyCount s - 1) s).

(** *** QueryAABB *)

(** The loop runs for [i = count < min (m_queryResultCount, maxCount)];
    the caller's array [out] receives the payloads. *)
Definition QueryAABB (aabb : AABB) (out : list (option (option UserData))) (maxCount : Z)
    (s : BroadPhase) : option (Z * list (option (option UserData)) * BroadPhase) :=
  let '(lowerValues, upperValues) := ComputeBounds aabb s in
  '(_, _, s) ← Query (sel axis0 lowerValues) (sel axis0 upperValues) (bounds_of axis0 s)
                 (2 * m_proxyCount s) axis0 s;
  '(_, _, s) ← Query (sel axis1 lowerValues) (sel axis1 upperValues) (bounds_of axis1 s)
                 (2 * m_proxyCount s) axis1 s;
  let n := Z.min (m_queryResultCount s) maxCount in
  out ← for_loop 0 n
          (λ i (out : list (option (option UserData))),
             r ← js_read (m_queryResults s) i;
             proxy ← js_get (proxyPool s) r;
             Some (js_set out i (userData proxy))) out;
  let s := with_queryResults (m_queryResults s) 0 s in
  s ← IncrementTimeStamp s;
  Some (Z.max 0 n, out, s).

(** *** Commit *)

Definition Commit (s : BroadPhase) : Pairs * BroadPhase :=
  (fst (PairManager_Commit (m_pairManager s)), commit_pairs s).

(** *** Validate *)

(** The running [stabbingCount] of [Validate] after each bound of one
    axis: the value its (disabled) assertion compares the stored count
    of that bound with. *)
Definition Validate_step (bounds : list Bound) (i : Z) (acc : Z * list Z)
    : option (Z * list Z) :=
  bound ← js_get bounds i;
  let c := if IsLower bound then fst acc + 1 else fst acc - 1 in
  Some (c, snd acc ++ [c]).

Definition Validate_axis (a : Axis) (s : BroadPhase) : option (list Z) :=
  snd <$> for_loop 0 (2 * m_proxyCount s) (Validate_step (bounds_of a s)) (0, []).

(** *** MoveProxy *)

(** [bound.Swap(other)]: the two bounds exchange their contents. *)
Definition Swap (a : Axis) (i j : Z) (s : BroadPhase) : option BroadPhase :=
  bi ← js_get (bounds_of a s) i;
  bj ← js_get (bounds_of a s) j;
  Some (with_bounds a (js_put (js_put (bounds_of a s) i bj) j bi) s).

Definition buffer_pair (f : Z → Z → PairManager → PairManager) (p q : Z) (ov : bool)
    (s : BroadPhase) : BroadPhase :=
  if ov then with_pairManager (f p q (m_pairManager s)) s else s.

Definition bump_lowerBound (a : Axis) (d : Z) (p : Proxy) : Proxy :=
  set_lowerBound a (sel a (lowerBounds p) + d) p.
Definition bump_upperBound (a : Axis) (d : Z) (p : Proxy) : Proxy :=
  set_upperBound a (sel a (upperBounds p) + d) p.

(** Should we move the lower bound down?  One iteration. *)
Definition MoveProxy_lowerDown_step (a : Axis) (pid : Z) (newValues : (Z * Z) * (Z * Z))
    (index : Z) (s : BroadPhase) : option BroadPhase :=
  prevBound ← js_get (bounds_of a s) (index - 1);
  let prevProxyId := proxyId prevBound in
  s ← upd_bound a (index - 1) (add_stabbingCount 1) s;
  s ← (if IsUpper prevBound then
         ov ← TestOverlap newValues prevProxyId s;
         let s := buffer_pair AddBufferedPair pid prevProxyId ov s in
         s ← upd_proxy prevProxyId (bump_upperBound a 1) s;
         upd_bound a index (add_stabbingCount 1) s
       else
         s ← upd_proxy prevProxyId (bump_lowerBound a 1) s;
         upd_bound a index (add_stabbingCount (-1)) s);
  s ← upd_proxy pid (bump_lowerBound a (-1)) s;
  Swap a index (index - 1) s.

(** Should we move the upper bound up?  One iteration. *)
Definition MoveProxy_upperUp_step (a : Axis) (pid : Z) (newValues : (Z * Z) * (Z * Z))
    (index : Z) (s : BroadPhase) : option BroadPhase :=
  nextBound ← js_get (bounds_of a s) (index + 1);
  let nextProxyId := proxyId nextBound in
  s ← upd_bound a (index + 1) (add_stabbingCount 1) s;
  s ← (if IsLower nextBound then
         ov ← TestOverlap newValues nextProxyId s;
         let s := buffer_pair AddBufferedPair pid nextProxyId ov s in
         s ← upd_proxy nextProxyId (bump_lowerBound a (-1)) s;
         upd_bound a index (add_stabbingCount 1) s
       else
         s ← upd_proxy nextProxyId (bump_upperBound a (-1)) s;
         upd_bound a index (add_stabbingCount (-1)) s);
  s ← upd_proxy pid (bump_upperBound a 1) s;
  Swap a index (index + 1) s.

(** Should we move the lower bound up?  One iteration. *)
Definition MoveProxy_lowerUp_step (a : Axis) (pid : Z) (oldValues : (Z * Z) * (Z * Z))
    (index : Z) (s : BroadPhase) : option BroadPhase :=
  nextBound ← js_get (bounds_of a s) (index + 1);
  let nextProxyId := proxyId nextBound in
  s ← upd_bound a (index + 1) (add_stabbingCount (-1)) s;
  s ← (if IsUpper nextBound then
         ov ← TestOverlap oldValues nextProxyId s;
         let s := buffer_pair RemoveBufferedPair pid nextProxyId ov s in
         s ← upd_proxy nextProxyId (bump_upperBound a (-1)) s;
         upd_bound a index (add_stabbingCount (-1)) s
       else
         s ← upd_proxy nextProxyId (bump_lowerBound a (-1)) s;
         upd_bound a index (add_stabbingCount 1) s);
  s ← upd_proxy pid (bump_lowerBound a 1) s;
  Swap a index (index + 1) s.

(** Should we move the upper bound down?  One iteration. *)
Definition MoveProxy_upperDown_step (a : Axis) (pid : Z) (oldValues : (Z * Z) * (Z * Z))
    (index : Z) (s : BroadPhase) : option BroadPhase :=
  prevBound ← js_get (bounds_of a s) (index - 1);
  let prevProxyId := proxyId prevBound in
  s ← upd_bound a (index - 1) (add_stabbingCount (-1)) s;
  s ← (if IsLower prevBound then
         ov ← TestOverlap oldValues prevProxyId s;
         let s := buffer_pair RemoveBufferedPair pid prevProxyId ov s in
         s ← upd_proxy prevProxyId (bump_lowerBound a 1) s;
         upd_bound a index (add_stabbingCount (-1)) s
       else
         s ← upd_proxy prevProxyId (bump_upperBound a 1) s;
         upd_bound a index (add_stabbingCount 1) s);
  s ← upd_proxy pid (bump_upperBound a (-1)) s;
  Swap a index (index - 1) s.

(** [while (index > 0 && v < bounds[index - 1].value) { step; --index }].
    [index] loses one per iteration, so [index] iterations are enough. *)
Fixpoint walk_down (fuel : nat) (step : Z → BroadPhase → option BroadPhase) (a : Axis)
    (v : Z) (index : Z) (s : BroadPhase) : option BroadPhase :=
  if index >? 0 then
    prev ← js_get (bounds_of a s) (index - 1);
    if v <? value prev then
      match fuel with
      | O => None
      | S fuel' => s1 ← step index s; walk_down fuel' step a v (index - 1) s1
      end
    else Some s
  else Some s.

(** [while (index < boundCount - 1 && bounds[index + 1].value <= v)
    { step; index++ }]: [boundCount - 1 - index] iterations are enough. *)
Fixpoint walk_up (fuel : nat) (step : Z → BroadPhase → option BroadPhase) (a : Axis)
    (boundCount : Z) (v : Z) (index : Z) (s : BroadPhase) : option BroadPhase :=
  if index <? boundCount - 1 then
    nxt ← js_get (bounds_of a s) (index + 1);
    if value nxt <=? v then
      match fuel with
      | O => None
      | S fuel' => s1 ← step index s; walk_up fuel' step a boundCount v (index + 1) s1
      end
    else Some s
  else Some s.

Definition MoveProxy_axis (pid : Z) (newValues oldValues : (Z * Z) * (Z * Z))
    (boundCount : Z) (a : Axis) (s : BroadPhase) : option BroadPhase :=
  proxy ← js_get (proxyPool s) pid;
  let lowerIndex := sel a (lowerBounds proxy) in
  let upperIndex := sel a (upperBounds proxy) in
  let lowerValue := sel a (fst newValues) in
  let upperValue := sel a (snd newValues) in
  bl ← js_get (bounds_of a s) lowerIndex;
  bu ← js_get (bounds_of a s) upperIndex;
  let deltaLower := lowerValue - value bl in
  let deltaUpper := upperValue - value bu in
  s ← upd_bound a lowerIndex (set_value lowerValue) s;
  s ← upd_bound a upperIndex (set_value upperValue) s;
  s ← (if deltaLower <? 0 then
         walk_down (Z.to_nat lowerIndex) (MoveProxy_lowerDown_step a pid newValues) a
           lowerValue lowerIndex s
       else Some s);
  s ← (if deltaUpper >? 0 then
         walk_up (Z.to_nat (boundCount - 1 - upperIndex))
           (MoveProxy_upperUp_step a pid newValues) a boundCount upperValue upperIndex s
       else Some s);
  s ← (if deltaLower >? 0 then
         walk_up (Z.to_nat (boundCount - 1 - lowerIndex))
           (MoveProxy_lowerUp_step a pid oldValues) a boundCount lowerValue lowerIndex s
       else Some s);
  if deltaUpper <? 0 then
    walk_down (Z.to_nat upperIndex) (MoveProxy_upperDown_step a pid oldValues) a
      upperValue upperIndex s
  else Some s.

(** The stored values of the proxy's bounds, per axis. *)
Definition old_values (pid : Z) (s : BroadPhase) : option ((Z * Z) * (Z * Z)) :=
  proxy ← js_get (proxyPool s) pid;
  l0 ← js_get (bounds_of axis0 s) (sel axis0 (lowerBounds proxy));
  u0 ← js_get (bounds_of axis0 s) (sel axis0 (upperBounds proxy));
  l1 ← js_get (bounds_of axis1 s) (sel axis1 (lowerBounds proxy));
  u1 ← js_get (bounds_of axis1 s) (sel axis1 (upperBounds proxy));
  Some ((value l0, value l1), (value u0, value u1)).

Definition MoveProxy (pid : Z) (aabb : AABB) (s : BroadPhase) : option BroadPhase :=
  if (pid =? b2_nullProxy) || (b2_maxProxies <=? pid) then Some s
  else if negb (AABB_IsValid aabb) then Some s
  else
    let boundCount := 2 * m_proxyCount s in
    let newValues := ComputeBounds aabb s in
    oldValues ← old_values pid s;
    s ← MoveProxy_axis pid newValues oldValues boundCount axis0 s;
    MoveProxy_axis pid newValues oldValues boundCount axis1 s.

(** * Properties *)

(** ** Arrays and loops *)

Lemma js_get_Some {A} (l : list A) i v :
  js_get l i = Some v → 0 ≤ i < Z.of_nat (length l).
Proof.
  unfold js_get. destruct (i <? 0) eqn:E; [done|].
  intros Hl. apply lookup_lt_Some in Hl. lia.
Qed.

Lemma js_get_in_range {A} (l : list A) i :
  0 ≤ i < Z.of_nat (length l) → ∃ v, js_get l i = Some v.
Proof.
  intros Hi. unfold js_get. destruct (i <? 0) eqn:E; [lia|].
  destruct (lookup_lt_is_Some_2 l (Z.to_nat i)) as [v Hv]; [lia|]. eauto.
Qed.

Lemma js_get_None {A} (l : list A) i :
  ¬ (0 ≤ i < Z.of_nat (length l)) → js_get l i = None.
Proof.
  intros Hi. destruct (js_get l i) eqn:E; [|done].
  apply js_get_Some in E. lia.
Qed.

Lemma length_js_put {A} (l : list A) i v : length (js_put l i v) = length l.
Proof. unfold js_put. destruct (i <? 0); [done|]. apply length_insert. Qed.

Lemma js_get_put_eq {A} (l : list A) i v :
  0 ≤ i < Z.of_nat (length l) → js_get (js_put l i v) i = Some v.
Proof.
  intros Hi. unfold js_get, js_put. destruct (i <? 0) eqn:E; [lia|].
  apply list_lookup_insert_eq. lia.
Qed.

Lemma js_get_put_ne {A} (l : list A) i j v :
  i ≠ j → js_get (js_put l i v) j = js_get l j.
Proof.
  intros Hij. unfold js_get, js_put. destruct (j <? 0) eqn:E; [done|].
  destruct (i <? 0) eqn:E'; [done|].
  apply list_lookup_insert_ne. lia.
Qed.

Lemma js_get_put {A} (l : list A) i j v :
  js_get (js_put l i v) j =
  if decide (i = j ∧ 0 ≤ i < Z.of_nat (length l)) then Some v else js_get l j.
Proof.
  case_decide as H.
  - destruct H as [-> H]. by apply js_get_put_eq.
  - destruct (decide (i = j)) as [->|Hij]; [|by apply js_get_put_ne].
    rewrite !js_get_None; [done|lia|rewrite length_js_put; lia].
Qed.

(** Unfolding a [for] loop. *)
Lemma for_loop_unfold {S} lo hi (body : Z → S → option S) s :
  for_loop lo hi body s =
  if lo <? hi then body lo s ≫= for_loop (lo + 1) hi body else Some s.
Proof.
  unfold for_loop. destruct (lo <? hi) eqn:E.
  - apply Z.ltb_lt in E.
    replace (hi - lo) with (Z.succ (hi - (lo + 1))) by lia.
    rewrite seqZ_cons by lia. simpl.
    replace (Z.pred (Z.succ (hi - (lo + 1)))) with (hi - (lo + 1)) by lia.
    replace (Z.succ lo) with (lo + 1) by lia.
    destruct (body lo s) as [s1|]; simpl; [done|].
    generalize (seqZ (lo + 1) (hi - (lo + 1))).
    intros l. induction l as [|? ? IH]; simpl; done.
  - apply Z.ltb_ge in E. rewrite seqZ_nil by lia. done.
Qed.

Lemma for_loop_done {S} lo hi (body : Z → S → option S) s :
  hi ≤ lo → for_loop lo hi body s = Some s.
Proof. intros H. rewrite for_loop_unfold. destruct (lo <? hi) eqn:E; [lia|done]. Qed.

(** The invariant rule of a [for] loop whose body cannot fail under the
    invariant. *)
Lemma for_loop_inv {S} (P : Z → S → Prop) lo hi (body : Z → S → option S) s :
  lo ≤ hi → P lo s →
  (∀ i s, lo ≤ i < hi → P i s → ∃ s', body i s = Some s' ∧ P (i + 1) s') →
  ∃ s', for_loop lo hi body s = Some s' ∧ P hi s'.
Proof.
  intros Hle HP Hstep.
  remember (Z.to_nat (hi - lo)) as n eqn:Hn.
  revert lo s Hle HP Hstep Hn. induction n as [|n IH]; intros lo s Hle HP Hstep Hn.
  - assert (lo = hi) as -> by lia. exists s. split; [|done].
    apply for_loop_done. lia.
  - rewrite for_loop_unfold. destruct (lo <? hi) eqn:E; [|lia].
    destruct (Hstep lo s) as (s1 & Hb & HP1); [lia|done|].
    rewrite Hb. simpl. apply IH; [lia|done| |lia].
    intros i s2 Hi. apply Hstep. lia.
Qed.

(** ** BinarySearch *)

(** The bound stored at an index of the array (a fresh bound outside of
    it, where the code would read [undefined]). *)
Definition bound_at (bs : list Bound) (i : Z) : Bound := default new_Bound (js_get bs i).

Lemma js_get_bound_at bs i :
  0 ≤ i < Z.of_nat (length bs) → js_get bs i = Some (bound_at bs i).
Proof.
  intros Hi. unfold bound_at. destruct (js_get_in_range bs i Hi) as [b ->]. done.
Qed.

Lemma bound_at_Some bs i b : js_get bs i = Some b → bound_at bs i = b.
Proof. unfold bound_at. by intros ->. Qed.

(** The first [n] bounds are sorted by value. *)
Definition sorted_upto (bs : list Bound) (n : Z) : Prop :=
  ∀ i j, 0 ≤ i → i ≤ j → j < n → value (bound_at bs i) ≤ value (bound_at bs j).

(** What [BinarySearch] returns: an index holding [v], or the index that
    separates the values below [v] from the values above it. *)
Definition search_result (bs : list Bound) (n v r : Z) : Prop :=
  0 ≤ r ≤ n ∧
  ((r < n ∧ value (bound_at bs r) = v) ∨
   ((∀ i, 0 ≤ i < r → value (bound_at bs i) < v) ∧
    (∀ i, r ≤ i < n → v < value (bound_at bs i)))).

Lemma BinarySearch_loop_spec bs n v fuel low high :
  n ≤ Z.of_nat (length bs) → sorted_upto bs n →
  0 ≤ low → high < n → low ≤ high + 1 →
  (high - low + 1 ≤ Z.of_nat fuel) →
  (∀ i, 0 ≤ i < low → value (bound_at bs i) < v) →
  (∀ i, high < i < n → v < value (bound_at bs i)) →
  ∃ r, BinarySearch_loop fuel bs v low high = Some r ∧ search_result bs n v r.
Proof.
  intros Hn Hs. revert low high.
  induction fuel as [|fuel IH]; intros low high Hlow Hhigh Hlh Hfuel Hlt Hgt.
  - simpl. destruct (low <=? high) eqn:E; [lia|].
    exists low. split; [done|]. split; [lia|]. right. split; [done|].
    intros i Hi. apply Hgt. lia.
  - simpl. destruct (low <=? high) eqn:E.
    + apply Z.leb_le in E.
      assert (low ≤ (low + high) / 2 ≤ high) as Hmid.
      { split; [apply Z.div_le_lower_bound|apply Z.div_le_upper_bound]; lia. }
      set (mid := (low + high) / 2) in *.
      rewrite (js_get_bound_at bs mid) by lia. simpl.
      destruct (value (bound_at bs mid) >? v) eqn:E1.
      * apply Z.gtb_lt in E1. apply IH; try lia; [done|].
        intros i Hi. destruct (decide (i ≤ high)); [|apply Hgt; lia].
        specialize (Hs mid i). lia.
      * destruct (value (bound_at bs mid) <? v) eqn:E2.
        -- apply Z.ltb_lt in E2. apply IH; try lia; [|done].
           intros i Hi. destruct (decide (i < low)); [apply Hlt; lia|].
           specialize (Hs i mid). lia.
        -- exists mid. split; [done|]. split; [lia|]. left. lia.
    + exists low. split; [done|]. split; [lia|]. right. split; [done|].
      intros i Hi. apply Hgt. lia.
Qed.

Lemma BinarySearch_spec bs n v :
  0 ≤ n ≤ Z.of_nat (length bs) → sorted_upto bs n →
  ∃ r, BinarySearch bs n v = Some r ∧ search_result bs n v r.
Proof.
  intros Hn Hs. unfold BinarySearch.
  apply BinarySearch_loop_spec; try lia; try done; intros; lia.
Qed.

(** In a sorted array the result of the search splits the values. *)
Lemma search_result_split bs n v r :
  sorted_upto bs n → search_result bs n v r →
  (∀ i, 0 ≤ i < r → value (bound_at bs i) ≤ v) ∧
  (∀ i, r ≤ i < n → v ≤ value (bound_at bs i)).
Proof.
  intros Hs [Hr [[Hrn Hv]|[Hlt Hgt]]].
  - split; intros i Hi.
    + specialize (Hs i r). lia.
    + specialize (Hs r i). lia.
  - split; intros i Hi; [specialize (Hlt i)|specialize (Hgt i)]; lia.
Qed.

(** C6. On an array whose first [count] values are sorted,
    [BinarySearch] returns the insertion point of a value that no
    entry holds (the lowest index whose value is at least the target,
    or [count] when there is none), and the index of a matching entry
    when some entry holds the value. *)
Theorem C6_BinarySearch_insertion_point (bounds : list Bound) (count v : Z) :
  0 ≤ count ≤ Z.of_nat (length bounds) →
  sorted_upto bounds count →
  ∃ r, BinarySearch bounds count v = Some r ∧
    ((∀ i, 0 ≤ i < count → value (bound_at bounds i) ≠ v) →
       0 ≤ r ≤ count ∧
       (∀ i, 0 ≤ i < r → value (bound_at bounds i) < v) ∧
       (r < count → v ≤ value (bound_at bounds r))) ∧
    ((∃ i, 0 ≤ i < count ∧ value (bound_at bounds i) = v) →
       0 ≤ r < count ∧ value (bound_at bounds r) = v).
Proof.
  intros Hn Hs.
  destruct (BinarySearch_spec bounds count v Hn Hs) as (r & Hr & Hres).
  exists r. split; [done|].
  destruct Hres as [Hrange Hcases]. split.
  - intros Hne. destruct Hcases as [[Hrn Hv]|[Hlt Hgt]].
    + exfalso. apply (Hne r); [lia|done].
    + split; [done|]. split; [done|].
      intros Hrn. specialize (Hgt r). lia.
  - intros (i & Hi & Hv). destruct Hcases as [[Hrn Hv']|[Hlt Hgt]]; [split; [lia|done]|].
    exfalso. destruct (decide (i < r)).
    + specialize (Hlt i). lia.
    + specialize (Hgt i). lia.
Qed.

(** ** The guards of MoveProxy *)

(** C7. [MoveProxy] on the null proxy, on an id at or past the capacity
    of the pool, or with an AABB that is not valid returns normally and
    leaves the whole state as it was: the bound arrays, the proxies, the
    free list, the proxy count, the time stamp and the pair manager. *)
Theorem C7_MoveProxy_guards (s : BroadPhase) (pid : Z) (aabb : AABB) :
  pid = b2_nullProxy ∨ b2_maxProxies ≤ pid ∨ AABB_IsValid aabb = false →
  MoveProxy pid aabb s = Some s.
Proof.
  intros Hguard. unfold MoveProxy.
  destruct (pid =? b2_nullProxy) eqn:E1; [done|].
  destruct (b2_maxProxies <=? pid) eqn:E2; [done|]. simpl.
  destruct (AABB_IsValid aabb) eqn:E3; [|done].
  exfalso. apply Z.eqb_neq in E1. apply Z.leb_gt in E2.
  destruct Hguard as [?|[?|?]]; [done|lia|done].
Qed.

(** ** IncrementTimeStamp *)

Lemma js_put_fmap_step (f : Proxy → Proxy) (pool : list Proxy) (i : nat) p :
  pool !! i = Some p →
  <[i := f p]> ((f <$> take i pool) ++ drop i pool)
  = (f <$> take (S i) pool) ++ drop (S i) pool.
Proof.
  intros Hp.
  assert (i < length pool)%nat as Hi by (by eapply lookup_lt_Some).
  rewrite (drop_S _ _ _ Hp), (take_S_r _ _ _ Hp), fmap_app. simpl.
  rewrite <- (assoc_L (++)). simpl.
  rewrite insert_app_r_alt; rewrite length_fmap, length_take; [|lia].
  replace (i - i `min` length pool)%nat with 0%nat by lia. done.
Qed.

Lemma reset_timeStamps (s : BroadPhase) (n : Z) :
  0 ≤ n ≤ Z.of_nat (length (proxyPool s)) →
  for_loop 0 n (λ i, upd_proxy i (set_timeStamp 0)) s
  = Some (with_proxyPool
            ((set_timeStamp 0 <$> take (Z.to_nat n) (proxyPool s))
               ++ drop (Z.to_nat n) (proxyPool s)) s).
Proof.
  intros Hn.
  destruct (for_loop_inv
    (λ i s', s' = with_proxyPool
            ((set_timeStamp 0 <$> take (Z.to_nat i) (proxyPool s))
               ++ drop (Z.to_nat i) (proxyPool s)) s)
    0 n (λ i, upd_proxy i (set_timeStamp 0)) s) as (s' & Hs' & ->); [lia| | |done].
  - simpl. rewrite drop_0. by destruct s.
  - intros i s1 Hi ->. unfold upd_proxy. simpl.
    destruct (js_get_in_range (proxyPool s) i) as [p Hp]; [lia|].
    assert (proxyPool s !! Z.to_nat i = Some p) as Hp'.
    { unfold js_get in Hp. destruct (i <? 0); done. }
    assert (js_get ((set_timeStamp 0 <$> take (Z.to_nat i) (proxyPool s))
                      ++ drop (Z.to_nat i) (proxyPool s)) i = Some p) as ->.
    { unfold js_get. destruct (i <? 0) eqn:E; [lia|].
      rewrite lookup_app_r; rewrite length_fmap, length_take; [|lia].
      rewrite lookup_drop. rewrite <- Hp'. f_equal. lia. }
    simpl. eexists. split; [done|]. unfold with_proxyPool. simpl. f_equal.
    unfold js_put. destruct (i <? 0) eqn:E; [lia|].
    rewrite (js_put_fmap_step _ _ _ _ Hp'). f_equal; [f_equal|]; f_equal; lia.
Qed.

(** C8. When the generation counter is at 65535, [IncrementTimeStamp]
    sets the time stamp of every proxy of the pool to 0 and the counter
    to 1; otherwise it adds one to the counter and changes no proxy. *)
Theorem C8_IncrementTimeStamp (s : BroadPhase) :
  Z.of_nat (length (proxyPool s)) = b2_maxProxies →
  (m_timeStamp s = 65535 →
     IncrementTimeStamp s
     = Some (with_timeStamp 1 (with_proxyPool (set_timeStamp 0 <$> proxyPool s) s))) ∧
  (m_timeStamp s ≠ 65535 →
     IncrementTimeStamp s = Some (with_timeStamp (m_timeStamp s + 1) s)).
Proof.
  intros Hlen. unfold IncrementTimeStamp, USHRT_MAX. split; intros Hts.
  - rewrite Hts. simpl. rewrite reset_timeStamps by lia. simpl.
    replace (Z.to_nat b2_maxProxies) with (length (proxyPool s)) by lia.
    by rewrite firstn_all, drop_all, app_nil_r.
  - destruct (m_timeStamp s =? 65535) eqn:E; [|done].
    apply Z.eqb_eq in E. done.
Qed.

(** ** The quantization factor *)

(** C9 (amended). The constructor stores, per axis, 65535 divided by
    the extent of the world on that axis. *)
Theorem C9_quantizationFactor (worldAABB : AABB) :
  m_quantizationFactor (new_BroadPhase worldAABB)
  = mkVec2 (65535 / (x (maxVertex worldAABB) - x (minVertex worldAABB)))
           (65535 / (y (maxVertex worldAABB) - y (minVertex worldAABB))).
Proof. reflexivity. Qed.

(** ** The invariants of one axis *)

(** The proxy stored at an id of the pool. *)
Definition proxy_at (pool : list Proxy) (p : Z) : Proxy := default new_Proxy (js_get pool p).

Definition in_pool (pool : list Proxy) (p : Z) : Prop := 0 ≤ p < Z.of_nat (length pool).

(** The position a proxy records for its lower ([true]) or upper
    ([false]) bound on an axis. *)
Definition ptr (a : Axis) (lower : bool) (px : Proxy) : Z :=
  if lower then sel a (lowerBounds px) else sel a (upperBounds px).

Definition set_ptr (a : Axis) (lower : bool) (i : Z) (px : Proxy) : Proxy :=
  if lower then set_lowerBound a i px else set_upperBound a i px.

(** The value of the lower ([true]) or upper ([false]) bound of a proxy
    on an axis. *)
Definition valof (a : Axis) (s : BroadPhase) (p : Z) (r : bool) : Z :=
  value (bound_at (bounds_of a s) (ptr a r (proxy_at (proxyPool s) p))).

(** The proxies [L] have the values they had. *)
Definition vals_kept (a : Axis) (L : Z → Prop) (s s' : BroadPhase) : Prop :=
  ∀ p r, L p → valof a s' p r = valof a s p r.

(** What a bound adds to the running count of [Validate]. *)
Definition sgn (b : Bound) : Z := if IsLower b then 1 else -1.

Definition other (a : Axis) : Axis := match a with axis0 => axis1 | axis1 => axis0 end.

Lemma vals_kept_refl a L s : vals_kept a L s s.
Proof. by intros p r _. Qed.

Lemma vals_kept_trans a L s1 s2 s3 :
  vals_kept a L s1 s2 → vals_kept a L s2 s3 → vals_kept a L s1 s3.
Proof. intros H1 H2 p r Hp. rewrite (H2 p r Hp). by apply H1. Qed.

Lemma IsUpper_IsLower b : IsUpper b = negb (IsLower b).
Proof.
  unfold IsUpper, IsLower.
  assert (Z.land (value b) 1 = 0 ∨ Z.land (value b) 1 = 1) as [->| ->]; [|done..].
  pose proof (Z.land_ones (value b) 1) as H. change (Z.ones 1) with 1 in H.
  change (2 ^ 1) with 2 in H. rewrite H by lia.
  pose proof (Z.mod_pos_bound (value b) 2). lia.
Qed.

Lemma bound_eta b : mkBound (value b) (proxyId b) (stabbingCount b) = b.
Proof. by destruct b. Qed.

Lemma js_get_proxy_at pool p : in_pool pool p → js_get pool p = Some (proxy_at pool p).
Proof.
  intros Hp. unfold proxy_at. destruct (js_get_in_range pool p Hp) as [px ->]. done.
Qed.

Lemma proxy_at_Some pool p px : js_get pool p = Some px → proxy_at pool p = px.
Proof. unfold proxy_at. by intros ->. Qed.

Lemma bound_at_put bs i j b :
  0 ≤ i < Z.of_nat (length bs) →
  bound_at (js_put bs i b) j = if decide (i = j) then b else bound_at bs j.
Proof.
  intros Hi. unfold bound_at. rewrite js_get_put.
  destruct (decide (i = j)) as [->|Hij].
  - rewrite decide_True by done. done.
  - rewrite decide_False by (intros [? _]; done). done.
Qed.

Lemma proxy_at_put pool p q px :
  in_pool pool p →
  proxy_at (js_put pool p px) q = if decide (p = q) then px else proxy_at pool q.
Proof.
  intros Hi. unfold proxy_at. rewrite js_get_put.
  destruct (decide (p = q)) as [->|Hij].
  - rewrite decide_True by done. done.
  - rewrite decide_False by (intros [? _]; done). done.
Qed.

Lemma in_pool_put pool p px q : in_pool (js_put pool p px) q ↔ in_pool pool q.
Proof. unfold in_pool. by rewrite length_js_put. Qed.

Lemma sel_upd {A} a a' (v : A) p :
  sel a (upd a' v p) = if decide (a = a') then v else sel a p.
Proof. destruct a, a', p; done. Qed.

Lemma sel_upd_eq {A} a (v : A) p : sel a (upd a v p) = v.
Proof. by destruct a, p. Qed.

Lemma sel_upd_other {A} a (v : A) p : sel (other a) (upd a v p) = sel (other a) p.
Proof. by destruct a, p. Qed.

Lemma ptr_set_ptr a r i px a' r' :
  ptr a' r' (set_ptr a r i px) = if decide (a' = a ∧ r' = r) then i else ptr a' r' px.
Proof. destruct a, a', r, r', px as [[??] [??] ????]; done. Qed.

Lemma set_ptr_fields a r i px :
  overlapCount (set_ptr a r i px) = overlapCount px ∧
  timeStamp (set_ptr a r i px) = timeStamp px ∧
  userData (set_ptr a r i px) = userData px ∧
  next (set_ptr a r i px) = next px.
Proof. by destruct r. Qed.

(** The invariants of the bound array [bs] of axis [a], of which the
    first [bc] entries are in use, for the proxies [L] that own these
    entries.  [e1] and [e2] are positions left out of the order
    ([MoveProxy] puts up to two bounds out of place at a time; no
    position is left out when both are negative). *)
Record axis_inv (e1 e2 : Z) (a : Axis) (bs : list Bound) (bc : Z) (pool : list Proxy)
    (L : Z → Prop) : Prop := {
  ai_range : 0 ≤ bc ≤ Z.of_nat (length bs);
  ai_sorted : ∀ i j, 0 ≤ i → i ≤ j → j < bc →
    i ≠ e1 → i ≠ e2 → j ≠ e1 → j ≠ e2 →
    value (bound_at bs i) ≤ value (bound_at bs j);
  ai_owner : ∀ i, 0 ≤ i < bc →
    L (proxyId (bound_at bs i)) ∧
    in_pool pool (proxyId (bound_at bs i)) ∧
    ptr a (IsLower (bound_at bs i)) (proxy_at pool (proxyId (bound_at bs i))) = i;
  ai_proxy : ∀ p, L p →
    in_pool pool p ∧
    0 ≤ ptr a true (proxy_at pool p) ∧
    ptr a true (proxy_at pool p) < ptr a false (proxy_at pool p) ∧
    ptr a false (proxy_at pool p) < bc ∧
    proxyId (bound_at bs (ptr a true (proxy_at pool p))) = p ∧
    IsLower (bound_at bs (ptr a true (proxy_at pool p))) = true ∧
    proxyId (bound_at bs (ptr a false (proxy_at pool p))) = p ∧
    IsLower (bound_at bs (ptr a false (proxy_at pool p))) = false;
  ai_stab : ∀ i, 0 ≤ i < bc →
    stabbingCount (bound_at bs i)
    = (if i =? 0 then 0 else stabbingCount (bound_at bs (i - 1))) + sgn (bound_at bs i)
}.

(** Two positions of the array in use with the same owner and role are
    the same position. *)
Lemma axis_inv_key_inj e1 e2 a bs bc pool L i j :
  axis_inv e1 e2 a bs bc pool L →
  0 ≤ i < bc → 0 ≤ j < bc →
  proxyId (bound_at bs i) = proxyId (bound_at bs j) →
  IsLower (bound_at bs i) = IsLower (bound_at bs j) →
  i = j.
Proof.
  intros HI Hi Hj Hid Hrole.
  destruct (ai_owner _ _ _ _ _ _ _ HI i Hi) as (_ & _ & Hpi).
  destruct (ai_owner _ _ _ _ _ _ _ HI j Hj) as (_ & _ & Hpj).
  rewrite Hid, Hrole in Hpi. congruence.
Qed.

(** The invariants only read the pool through the length and the
    pointers of the axis. *)
Lemma axis_inv_pool e1 e2 a bs bc pool pool' L :
  axis_inv e1 e2 a bs bc pool L →
  length pool' = length pool →
  (∀ p r, in_pool pool p → ptr a r (proxy_at pool' p) = ptr a r (proxy_at pool p)) →
  axis_inv e1 e2 a bs bc pool' L.
Proof.
  intros [H1 H2 H3 H4 H5] Hlen Hptr. split; try done.
  - intros i Hi. destruct (H3 i Hi) as (? & Hin & ?).
    split; [done|]. split; [unfold in_pool in *; lia|].
    rewrite Hptr; done.
  - intros p Hp. destruct (H4 p Hp) as (Hin & ?).
    split; [unfold in_pool in *; lia|]. rewrite !Hptr; done.
Qed.

Lemma axis_inv_live e1 e2 a bs bc pool (L L' : Z → Prop) :
  axis_inv e1 e2 a bs bc pool L → (∀ p, L p ↔ L' p) → axis_inv e1 e2 a bs bc pool L'.
Proof.
  intros [H1 H2 H3 H4 H5] HL. split; try done.
  - intros i Hi. destruct (H3 i Hi) as (? & ? & ?). split; [by apply HL|done].
  - intros p Hp. apply H4. by apply HL.
Qed.

(** ** Executing the basic updates *)

Lemma upd_proxy_in s id f :
  in_pool (proxyPool s) id →
  upd_proxy id f s
  = Some (with_proxyPool (js_put (proxyPool s) id (f (proxy_at (proxyPool s) id))) s).
Proof. intros Hin. unfold upd_proxy. by rewrite (js_get_proxy_at _ _ Hin). Qed.

Lemma upd_bound_in a s i f :
  0 ≤ i < Z.of_nat (length (bounds_of a s)) →
  upd_bound a i f s
  = Some (with_bounds a (js_put (bounds_of a s) i (f (bound_at (bounds_of a s) i))) s).
Proof. intros Hin. unfold upd_bound. by rewrite (js_get_bound_at _ _ Hin). Qed.

Lemma bounds_of_with_bounds a bs s : bounds_of a (with_bounds a bs s) = bs.
Proof. unfold bounds_of, with_bounds. simpl. apply sel_upd_eq. Qed.

Lemma bounds_of_with_bounds_other a bs s :
  bounds_of (other a) (with_bounds a bs s) = bounds_of (other a) s.
Proof. unfold bounds_of, with_bounds. simpl. apply sel_upd_other. Qed.

Lemma with_bounds_same a s : with_bounds a (bounds_of a s) s = s.
Proof. destruct s as [? ? [??] ? ? ? ? ? ? ?], a; done. Qed.

(** ** Marking proxies *)

(** The effect of [IncrementOverlapCount] on a proxy of the pool. *)
Definition mark (id : Z) (s : BroadPhase) : BroadPhase :=
  let px := proxy_at (proxyPool s) id in
  if timeStamp px <? m_timeStamp s then
    with_proxyPool (js_put (proxyPool s) id (set_overlapCount 1 (set_timeStamp (m_timeStamp s) px))) s
  else
    with_queryResults (js_set (m_queryResults s) (m_queryResultCount s) id)
      (m_queryResultCount s + 1)
      (with_proxyPool (js_put (proxyPool s) id (set_overlapCount 2 px)) s).

Lemma IncrementOverlapCount_in id s :
  in_pool (proxyPool s) id → IncrementOverlapCount id s = Some (mark id s).
Proof.
  intros Hin. unfold IncrementOverlapCount, mark.
  rewrite (js_get_proxy_at _ _ Hin). simpl.
  destruct (timeStamp _ <? m_timeStamp s); rewrite upd_proxy_in by done; done.
Qed.

(** A sequence of calls of [IncrementOverlapCount]. *)
Fixpoint marks (ids : list Z) (s : BroadPhase) : option BroadPhase :=
  match ids with
  | [] => Some s
  | id :: ids => IncrementOverlapCount id s ≫= marks ids
  end.

Lemma marks_app ids1 ids2 s : marks (ids1 ++ ids2) s = marks ids1 s ≫= marks ids2.
Proof.
  revert s. induction ids1 as [|id ids1 IH]; intros s; simpl; [done|].
  destruct (IncrementOverlapCount id s); simpl; [apply IH|done].
Qed.

(** What marking leaves alone: everything but the time stamps and
    overlap counters of the marked proxies and the query results. *)
Record marked_from (ids : list Z) (s s' : BroadPhase) : Prop := {
  mf_bounds : m_bounds s' = m_bounds s;
  mf_pm : m_pairManager s' = m_pairManager s;
  mf_factor : m_quantizationFactor s' = m_quantizationFactor s;
  mf_world : m_worldAABB s' = m_worldAABB s;
  mf_count : m_proxyCount s' = m_proxyCount s;
  mf_free : m_freeProxy s' = m_freeProxy s;
  mf_stamp : m_timeStamp s' = m_timeStamp s;
  mf_len : length (proxyPool s') = length (proxyPool s);
  mf_lower : ∀ p, lowerBounds (proxy_at (proxyPool s') p) = lowerBounds (proxy_at (proxyPool s) p);
  mf_upper : ∀ p, upperBounds (proxy_at (proxyPool s') p) = upperBounds (proxy_at (proxyPool s) p);
  mf_next : ∀ p, next (proxy_at (proxyPool s') p) = next (proxy_at (proxyPool s) p);
  mf_data : ∀ p, userData (proxy_at (proxyPool s') p) = userData (proxy_at (proxyPool s) p);
  mf_overlap : ∀ p,
    overlapCount (proxy_at (proxyPool s') p) = overlapCount (proxy_at (proxyPool s) p) ∨
    (p ∈ ids ∧ (overlapCount (proxy_at (proxyPool s') p) = 1 ∨
                overlapCount (proxy_at (proxyPool s') p) = 2))
}.

Lemma marked_from_refl ids s : marked_from ids s s.
Proof. split; auto. Qed.

Lemma marked_from_trans ids1 ids2 s1 s2 s3 :
  marked_from ids1 s1 s2 → marked_from ids2 s2 s3 → marked_from (ids1 ++ ids2) s1 s3.
Proof.
  intros H1 H2. split.
  - rewrite (mf_bounds _ _ _ H2). apply H1.
  - rewrite (mf_pm _ _ _ H2). apply H1.
  - rewrite (mf_factor _ _ _ H2). apply H1.
  - rewrite (mf_world _ _ _ H2). apply H1.
  - rewrite (mf_count _ _ _ H2). apply H1.
  - rewrite (mf_free _ _ _ H2). apply H1.
  - rewrite (mf_stamp _ _ _ H2). apply H1.
  - rewrite (mf_len _ _ _ H2). apply H1.
  - intros p. rewrite (mf_lower _ _ _ H2). apply H1.
  - intros p. rewrite (mf_upper _ _ _ H2). apply H1.
  - intros p. rewrite (mf_next _ _ _ H2). apply H1.
  - intros p. rewrite (mf_data _ _ _ H2). apply H1.
  - intros p.
    destruct (mf_overlap _ _ _ H2 p) as [E1|[Hin Hv]].
    + destruct (mf_overlap _ _ _ H1 p) as [E0|[Hin Hv]]; [left; congruence|].
      right. split; [set_solver|]. rewrite E1. done.
    + right. split; [set_solver|done].
Qed.

Lemma marked_from_mono ids ids' s s' :
  marked_from ids s s' → ids ⊆ ids' → marked_from ids' s s'.
Proof.
  intros H Hsub. split; try apply H.
  intros p. destruct (mf_overlap _ _ _ H p) as [?|[? ?]];
    [by left|right; split; [set_solver|done]].
Qed.

Lemma mark_marked_from id s : in_pool (proxyPool s) id → marked_from [id] s (mark id s).
Proof.
  intros Hin. unfold mark.
  destruct (timeStamp _ <? m_timeStamp s); split; simpl; try done;
    try (by rewrite length_js_put);
    try (intros p; rewrite proxy_at_put by done; destruct (decide (id = p)) as [->|]; done).
  - intros p. rewrite proxy_at_put by done. destruct (decide (id = p)) as [->|]; [|by left].
    right. split; [set_solver|by left].
  - intros p. rewrite proxy_at_put by done. destruct (decide (id = p)) as [->|]; [|by left].
    right. split; [set_solver|by right].
Qed.

Lemma marks_marked_from ids s :
  (∀ id, id ∈ ids → in_pool (proxyPool s) id) →
  ∃ s', marks ids s = Some s' ∧ marked_from ids s s'.
Proof.
  revert s. induction ids as [|id ids IH]; intros s Hin.
  - exists s. split; [done|apply marked_from_refl].
  - simpl. rewrite IncrementOverlapCount_in by (apply Hin; set_solver). simpl.
    pose proof (mark_marked_from id s) as Hm.
    destruct (IH (mark id s)) as (s' & Hs' & Hmf).
    { intros id' Hid'. unfold in_pool. rewrite (mf_len _ _ _ (Hm ltac:(apply Hin; set_solver))).
      apply Hin. set_solver. }
    exists s'. split; [done|].
    apply (marked_from_trans [id] ids _ (mark id s)); [|done].
    apply Hm, Hin. set_solver.
Qed.

(** ** The range query *)

(** The proxies the easy case marks: the owners of the lower bounds at
    the positions [lq .. lq + n - 1], in this order. *)
Fixpoint easy_ids (bs : list Bound) (lq : Z) (n : nat) : list Z :=
  match n with
  | O => []
  | S n' =>
      (if IsLower (bound_at bs lq) then [proxyId (bound_at bs lq)] else [])
        ++ easy_ids bs (lq + 1) n'
  end.

(** The proxies the hard case looks for: the owners of the lower bounds
    below position [n] whose upper bound is at [lq] or above, from the
    highest position down. *)
Definition spans (bs : list Bound) (a : Axis) (pool : list Proxy) (lq k : Z) : bool :=
  IsLower (bound_at bs k)
  && (lq <=? ptr a false (proxy_at pool (proxyId (bound_at bs k)))).

Fixpoint hard_ids (bs : list Bound) (a : Axis) (pool : list Proxy) (lq : Z) (n : nat)
    : list Z :=
  match n with
  | O => []
  | S n' =>
      (if spans bs a pool lq (Z.of_nat n') then [proxyId (bound_at bs (Z.of_nat n'))] else [])
        ++ hard_ids bs a pool lq n'
  end.

Lemma Query_easy_marks bs lq uq s :
  0 ≤ lq → uq ≤ Z.of_nat (length bs) →
  Query_easy bs lq uq s = marks (easy_ids bs lq (Z.to_nat (uq - lq))) s.
Proof.
  intros Hlq Huq. unfold Query_easy.
  remember (Z.to_nat (uq - lq)) as n eqn:Hn.
  revert lq s Hlq Hn. induction n as [|n IH]; intros lq s Hlq Hn.
  - rewrite for_loop_done by lia. done.
  - rewrite for_loop_unfold. destruct (lq <? uq) eqn:E; [|lia].
    rewrite (js_get_bound_at bs lq) by lia. simpl.
    destruct (IsLower (bound_at bs lq)); simpl.
    + destruct (IncrementOverlapCount _ s); simpl; [|done]. apply IH; lia.
    + apply IH; lia.
Qed.

Lemma hard_ids_agree bs a pool pool' lq n :
  (∀ p, upperBounds (proxy_at pool' p) = upperBounds (proxy_at pool p)) →
  hard_ids bs a pool' lq n = hard_ids bs a pool lq n.
Proof.
  intros Hag. induction n as [|n IH]; simpl; [done|].
  rewrite IH. unfold spans, ptr. by rewrite Hag.
Qed.

Lemma Query_hard_marks bs a lq n fuel s :
  (n ≤ fuel)%nat → Z.of_nat n ≤ Z.of_nat (length bs) →
  (∀ k, 0 ≤ k < Z.of_nat n → in_pool (proxyPool s) (proxyId (bound_at bs k))) →
  Query_hard fuel bs a lq (Z.of_nat n - 1)
    (Z.of_nat (length (hard_ids bs a (proxyPool s) lq n))) s
  = marks (hard_ids bs a (proxyPool s) lq n) s.
Proof.
  revert fuel s. induction n as [|n IH]; intros fuel s Hfuel Hlen Hin.
  - simpl. by destruct fuel.
  - destruct fuel as [|fuel]; [lia|].
    cbn [hard_ids Query_hard].
    replace (Z.of_nat (S n) - 1) with (Z.of_nat n) by lia.
    assert (Z.of_nat n - 1 = Z.of_nat n - 1) as _ by done.
    destruct (spans bs a (proxyPool s) lq (Z.of_nat n)) eqn:Hsp.
    + cbn [app length]. destruct (Z.of_nat (S _) =? 0) eqn:E; [apply Z.eqb_eq in E; lia|].
      rewrite (js_get_bound_at bs (Z.of_nat n)) by lia.
      unfold spans in Hsp. apply andb_prop in Hsp as [Hl Hu].
      cbn [mbind option_bind]. rewrite Hl.
      rewrite (js_get_proxy_at (proxyPool s)) by (apply Hin; lia).
      cbn [mbind option_bind]. unfold ptr in Hu. rewrite Hu.
      rewrite IncrementOverlapCount_in by (apply Hin; lia).
      cbn [mbind option_bind marks].
      rewrite IncrementOverlapCount_in by (apply Hin; lia).
      cbn [mbind option_bind].
      pose proof (mark_marked_from _ s (Hin (Z.of_nat n) ltac:(lia))) as Hm.
      rewrite <- (hard_ids_agree bs a _ _ lq n (mf_upper _ _ _ Hm)).
      replace (Z.of_nat (S (length (hard_ids bs a (proxyPool (mark (proxyId (bound_at bs (Z.of_nat n))) s)) lq n))) - 1)
        with (Z.of_nat (length (hard_ids bs a (proxyPool (mark (proxyId (bound_at bs (Z.of_nat n))) s)) lq n))) by lia.
      apply IH; [lia|lia|].
      intros k Hk. unfold in_pool. rewrite (mf_len _ _ _ Hm). apply Hin. lia.
    + cbn [app]. destruct (Z.of_nat _ =? 0) eqn:E.
      * apply Z.eqb_eq in E. destruct (hard_ids bs a (proxyPool s) lq n); [done|simpl in E; lia].
      * rewrite (js_get_bound_at bs (Z.of_nat n)) by lia.
        cbn [mbind option_bind].
        unfold spans in Hsp. destruct (IsLower (bound_at bs (Z.of_nat n))) eqn:Hl.
        -- rewrite (js_get_proxy_at (proxyPool s)) by (apply Hin; lia).
           cbn [mbind option_bind]. unfold ptr in Hsp. simpl in Hsp. rewrite Hsp.
           apply IH; [lia|lia|]. intros k Hk. apply Hin. lia.
        -- apply IH; [lia|lia|]. intros k Hk. apply Hin. lia.
Qed.

(** Counting the positions below [n] that satisfy a test. *)
Fixpoint cnt (P : Z → bool) (n : nat) : Z :=
  match n with
  | O => 0
  | S n' => cnt P n' + (if P (Z.of_nat n') then 1 else 0)
  end.

Lemma cnt_ext P Q n :
  (∀ k, 0 ≤ k < Z.of_nat n → P k = Q k) → cnt P n = cnt Q n.
Proof.
  induction n as [|n IH]; intros H; simpl; [done|].
  rewrite IH by (intros; apply H; lia). rewrite (H (Z.of_nat n)) by lia. done.
Qed.

Lemma cnt_one P Q n k0 :
  0 ≤ k0 < Z.of_nat n → P k0 = true → Q k0 = false →
  (∀ k, 0 ≤ k < Z.of_nat n → k ≠ k0 → P k = Q k) →
  cnt P n = cnt Q n + 1.
Proof.
  induction n as [|n IH]; intros Hk HP HQ H; [lia|]. simpl.
  destruct (decide (k0 = Z.of_nat n)) as [->|Hne].
  - rewrite HP, HQ. rewrite (cnt_ext P Q n); [lia|].
    intros k Hk'. apply H; lia.
  - rewrite IH by (try done; try lia; intros; apply H; lia).
    rewrite (H (Z.of_nat n)) by lia. lia.
Qed.

Lemma length_hard_ids bs a pool lq n :
  Z.of_nat (length (hard_ids bs a pool lq n)) = cnt (spans bs a pool lq) n.
Proof.
  induction n as [|n IH]; simpl; [done|].
  rewrite length_app, Nat2Z.inj_add, IH.
  destruct (spans bs a pool lq (Z.of_nat n)); simpl; lia.
Qed.

Section AxisFacts.
Context {e1 e2 : Z} {a : Axis} {bs : list Bound} {bc : Z} {pool : list Proxy}
  {L : Z → Prop} (HI : axis_inv e1 e2 a bs bc pool L).

(** The upper bound of the owner of a lower bound lies above it. *)
Lemma lower_below_upper k :
  0 ≤ k < bc → IsLower (bound_at bs k) = true →
  k < ptr a false (proxy_at pool (proxyId (bound_at bs k))) < bc.
Proof.
  intros Hk Hl. destruct (ai_owner _ _ _ _ _ _ _ HI k Hk) as (HL & _ & Hp).
  destruct (ai_proxy _ _ _ _ _ _ _ HI _ HL) as (_ & _ & Hlt & Hbc & _).
  rewrite Hl in Hp. lia.
Qed.

(** The lower bound of the owner of an upper bound lies below it. *)
Lemma upper_above_lower k :
  0 ≤ k < bc → IsLower (bound_at bs k) = false →
  0 ≤ ptr a true (proxy_at pool (proxyId (bound_at bs k))) < k.
Proof.
  intros Hk Hl. destruct (ai_owner _ _ _ _ _ _ _ HI k Hk) as (HL & _ & Hp).
  destruct (ai_proxy _ _ _ _ _ _ _ HI _ HL) as (_ & ? & Hlt & Hbc & _).
  rewrite Hl in Hp. lia.
Qed.

(** The stabbing count below a position counts the proxies that span
    the position. *)
Lemma stab_count_spans (q : nat) :
  0 < Z.of_nat q ≤ bc →
  stabbingCount (bound_at bs (Z.of_nat q - 1)) = cnt (spans bs a pool (Z.of_nat q)) q.
Proof.
  induction q as [|q IH]; intros Hq; [lia|].
  replace (Z.of_nat (S q) - 1) with (Z.of_nat q) by lia.
  rewrite (ai_stab _ _ _ _ _ _ _ HI) by lia.
  cbn [cnt].
  destruct (IsLower (bound_at bs (Z.of_nat q))) eqn:Hl.
  - (* a lower bound: one more proxy spans the next position *)
    pose proof (lower_below_upper (Z.of_nat q) ltac:(lia) Hl) as Hub.
    assert (spans bs a pool (Z.of_nat (S q)) (Z.of_nat q) = true) as ->.
    { unfold spans. rewrite Hl. cbn [andb]. apply Z.leb_le. lia. }
    assert (cnt (spans bs a pool (Z.of_nat (S q))) q
            = cnt (spans bs a pool (Z.of_nat q)) q) as ->.
    { apply cnt_ext. intros k Hk. unfold spans.
      destruct (IsLower (bound_at bs k)) eqn:Hlk; [|done]. cbn [andb].
      destruct (ai_owner _ _ _ _ _ _ _ HI k ltac:(lia)) as (HL & _ & _).
      destruct (ai_proxy _ _ _ _ _ _ _ HI _ HL) as (_ & _ & _ & _ & _ & _ & _ & Hup).
      destruct (decide (ptr a false (proxy_at pool (proxyId (bound_at bs k)))
                        = Z.of_nat q)) as [E|E].
      - rewrite E in Hup. congruence.
      - ztest. }
    unfold sgn. rewrite Hl.
    destruct (Z.of_nat q =? 0) eqn:E.
    + apply Z.eqb_eq in E. destruct q; [cbn [cnt]; lia|lia].
    + apply Z.eqb_neq in E. rewrite IH by lia. lia.
  - (* an upper bound: its owner no longer spans the next position *)
    pose proof (upper_above_lower (Z.of_nat q) ltac:(lia) Hl) as Hlb.
    destruct (ai_owner _ _ _ _ _ _ _ HI (Z.of_nat q) ltac:(lia)) as (HL & _ & Hp).
    rewrite Hl in Hp.
    destruct (ai_proxy _ _ _ _ _ _ _ HI _ HL) as (_ & _ & _ & _ & Hid & Hlo & _ & _).
    set (p := proxyId (bound_at bs (Z.of_nat q))) in *.
    set (k0 := ptr a true (proxy_at pool p)) in *.
    assert (spans bs a pool (Z.of_nat (S q)) (Z.of_nat q) = false) as ->.
    { unfold spans. by rewrite Hl. }
    destruct (Z.of_nat q =? 0) eqn:E; [apply Z.eqb_eq in E; lia|].
    rewrite IH by lia.
    rewrite (cnt_one (spans bs a pool (Z.of_nat q)) (spans bs a pool (Z.of_nat (S q))) q k0).
    + unfold sgn. rewrite Hl. lia.
    + lia.
    + unfold spans. rewrite Hlo, Hid. cbn [andb]. apply Z.leb_le. lia.
    + unfold spans. rewrite Hlo, Hid. cbn [andb]. apply Z.leb_gt. lia.
    + intros k Hk Hne. unfold spans.
      destruct (IsLower (bound_at bs k)) eqn:Hlk; [|done]. cbn [andb].
      destruct (ai_owner _ _ _ _ _ _ _ HI k ltac:(lia)) as (HLk & _ & Hpk).
      rewrite Hlk in Hpk.
      destruct (ai_proxy _ _ _ _ _ _ _ HI _ HLk) as (_ & _ & _ & _ & _ & _ & Hidu & _).
      destruct (decide (ptr a false (proxy_at pool (proxyId (bound_at bs k)))
                        = Z.of_nat q)) as [E'|E'].
      * exfalso. rewrite E' in Hidu. fold p in Hidu. apply Hne.
        rewrite <- Hpk. unfold k0. by rewrite Hidu.
      * ztest.
Qed.
End AxisFacts.

Abbreviation sorted_inv := (axis_inv (-1) (-1)).

Lemma sorted_inv_sorted a bs bc pool L : sorted_inv a bs bc pool L → sorted_upto bs bc.
Proof. intros HI i j Hi Hij Hj. apply (ai_sorted _ _ _ _ _ _ _ HI); lia. Qed.

Lemma marked_from_axis_inv ids e1 e2 a bs bc s s' L :
  marked_from ids s s' →
  axis_inv e1 e2 a bs bc (proxyPool s) L → axis_inv e1 e2 a bs bc (proxyPool s') L.
Proof.
  intros Hm HI. apply (axis_inv_pool _ _ _ _ _ _ _ _ HI); [apply Hm|].
  intros p r _. unfold ptr. by rewrite (mf_lower _ _ _ Hm), (mf_upper _ _ _ Hm).
Qed.

Lemma easy_ids_owner bs lq n id :
  id ∈ easy_ids bs lq n →
  ∃ k, lq ≤ k < lq + Z.of_nat n ∧ IsLower (bound_at bs k) = true ∧ proxyId (bound_at bs k) = id.
Proof.
  revert lq. induction n as [|n IH]; intros lq; simpl; [by intros ?%elem_of_nil|].
  intros [Hin|Hin]%elem_of_app.
  - destruct (IsLower (bound_at bs lq)) eqn:E; [|by apply elem_of_nil in Hin].
    apply list_elem_of_singleton in Hin. exists lq. split; [lia|done].
  - destruct (IH _ Hin) as (k & Hk & ?). exists k. split; [lia|done].
Qed.

Lemma hard_ids_owner bs a pool lq n id :
  id ∈ hard_ids bs a pool lq n →
  ∃ k, 0 ≤ k < Z.of_nat n ∧ spans bs a pool lq k = true ∧ proxyId (bound_at bs k) = id.
Proof.
  induction n as [|n IH]; simpl; [by intros ?%elem_of_nil|].
  intros [Hin|Hin]%elem_of_app.
  - destruct (spans bs a pool lq (Z.of_nat n)) eqn:E; [|by apply elem_of_nil in Hin].
    apply list_elem_of_singleton in Hin. exists (Z.of_nat n). split; [lia|done].
  - destruct (IH Hin) as (k & Hk & ?). exists k. split; [lia|done].
Qed.

(** The proxies one call of [Query] marks, in the order of the calls
    of [IncrementOverlapCount]. *)
Definition query_ids (bs : list Bound) (a : Axis) (pool : list Proxy) (lq uq : Z) : list Z :=
  easy_ids bs lq (Z.to_nat (uq - lq)) ++ hard_ids bs a pool lq (Z.to_nat lq).

Lemma query_ids_owner bs a pool lq uq bc id :
  uq ≤ bc → 0 ≤ lq ≤ bc →
  id ∈ query_ids bs a pool lq uq →
  ∃ k, 0 ≤ k < bc ∧ IsLower (bound_at bs k) = true ∧ proxyId (bound_at bs k) = id ∧
       ((lq ≤ k < uq) ∨
        (k < lq ∧ lq ≤ ptr a false (proxy_at pool id))).
Proof.
  intros Huq Hlq [Hin|Hin]%elem_of_app.
  - destruct (easy_ids_owner _ _ _ _ Hin) as (k & Hk & Hl & Hid).
    exists k. split; [lia|]. split; [done|]. split; [done|]. left. lia.
  - destruct (hard_ids_owner _ _ _ _ _ _ Hin) as (k & Hk & Hsp & Hid).
    unfold spans in Hsp. apply andb_prop in Hsp as [Hl Hu]. apply Z.leb_le in Hu.
    exists k. split; [lia|]. split; [done|]. split; [done|]. right.
    rewrite <- Hid. lia.
Qed.

Lemma Query_spec lv uv a bs bc s L :
  sorted_inv a bs bc (proxyPool s) L →
  ∃ lq uq s',
    Query lv uv bs bc a s = Some (lq, uq, s') ∧
    BinarySearch bs bc lv = Some lq ∧ search_result bs bc lv lq ∧
    BinarySearch bs bc uv = Some uq ∧ search_result bs bc uv uq ∧
    marks (query_ids bs a (proxyPool s) lq uq) s = Some s' ∧
    marked_from (query_ids bs a (proxyPool s) lq uq) s s' ∧
    (∀ id, id ∈ query_ids bs a (proxyPool s) lq uq → L id).
Proof.
  intros HI.
  pose proof (ai_range _ _ _ _ _ _ _ HI) as Hbc.
  pose proof (sorted_inv_sorted _ _ _ _ _ HI) as Hs.
  destruct (BinarySearch_spec bs bc lv Hbc Hs) as (lq & Hlq & Rlq).
  destruct (BinarySearch_spec bs bc uv Hbc Hs) as (uq & Huq & Ruq).
  exists lq, uq.
  assert (∀ id, id ∈ query_ids bs a (proxyPool s) lq uq →
                L id ∧ in_pool (proxyPool s) id) as Hown.
  { intros id Hin.
    destruct (query_ids_owner bs a (proxyPool s) lq uq bc id) as (k & Hk & _ & Hid & _);
      [apply Ruq|apply Rlq|done|].
    destruct (ai_owner _ _ _ _ _ _ _ HI k Hk) as (HL & Hp & _).
    rewrite Hid in HL, Hp. done. }
  destruct (marks_marked_from (query_ids bs a (proxyPool s) lq uq) s) as (s' & Hs' & Hmf).
  { intros id Hin. by apply Hown. }
  exists s'. split; [|split_and!; try done; intros id Hin; by apply Hown].
  unfold Query. rewrite Hlq, Huq. cbn [mbind option_bind].
  rewrite Query_easy_marks by (destruct Rlq, Ruq; lia).
  unfold query_ids in Hs'. rewrite marks_app in Hs'.
  destruct (marks (easy_ids bs lq (Z.to_nat (uq - lq))) s) as [s1|] eqn:Hs1; [|done].
  cbn [mbind option_bind] in *.
  destruct (marks_marked_from (easy_ids bs lq (Z.to_nat (uq - lq))) s) as (s1' & Hs1' & Hmf1).
  { intros id Hin. apply Hown. unfold query_ids. set_solver. }
  rewrite Hs1 in Hs1'. injection Hs1' as <-.
  rewrite <- (hard_ids_agree bs a (proxyPool s) (proxyPool s1) lq _ (mf_upper _ _ _ Hmf1)) in Hs'.
  destruct (lq >? 0) eqn:E.
  - apply Z.gtb_lt in E. rewrite (js_get_bound_at bs (lq - 1)) by (destruct Rlq; lia).
    cbn [mbind option_bind].
    pose proof (marked_from_axis_inv _ _ _ _ _ _ _ _ _ Hmf1 HI) as HI1.
    replace (lq - 1) with (Z.of_nat (Z.to_nat lq) - 1) by lia.
    rewrite (stab_count_spans HI1 (Z.to_nat lq)) by (destruct Rlq; lia).
    rewrite <- length_hard_ids.
    replace (Z.of_nat (Z.to_nat lq)) with lq at 1 2 by lia.
    pose proof (Query_hard_marks bs a lq (Z.to_nat lq) (Z.to_nat lq) s1) as Hh.
    replace (Z.of_nat (Z.to_nat lq)) with lq in Hh by lia.
    rewrite Hh; [by rewrite Hs'|lia|destruct Rlq; lia|].
    intros k Hk. apply (ai_owner _ _ _ _ _ _ _ HI1 k). destruct Rlq. lia.
  - assert (lq = 0) as -> by (destruct Rlq; rewrite Z.gtb_ltb in E; apply Z.ltb_ge in E; lia).
    simpl in Hs'. by rewrite Hs'.
Qed.

(** ** Moving ranges of bounds *)

Lemma bound_at_app_l (l1 l2 : list Bound) i :
  i < Z.of_nat (length l1) → bound_at (l1 ++ l2) i = bound_at l1 i.
Proof.
  intros Hi. unfold bound_at, js_get. destruct (i <? 0) eqn:E; [done|].
  apply Z.ltb_ge in E. rewrite lookup_app_l by lia. done.
Qed.

Lemma bound_at_app_r (l1 : list Bound) b i :
  i = Z.of_nat (length l1) → bound_at (l1 ++ [b]) i = b.
Proof.
  intros ->. unfold bound_at, js_get. destruct (_ <? 0) eqn:E; [apply Z.ltb_lt in E; lia|].
  rewrite lookup_app_r by lia.
  replace (Z.to_nat (Z.of_nat (length l1)) - length l1)%nat with 0%nat by lia. done.
Qed.

Lemma copy_out_spec bs src n :
  0 ≤ src → src + n ≤ Z.of_nat (length bs) →
  ∃ tArr, copy_out bs src n = Some tArr ∧
    Z.of_nat (length tArr) = Z.max 0 n ∧
    ∀ k, 0 ≤ k < n → bound_at tArr k = bound_at bs (src + k).
Proof.
  intros Hsrc Hn. unfold copy_out.
  destruct (decide (0 ≤ n)) as [Hn0|Hn0].
  - destruct (for_loop_inv
      (λ j (tArr : list Bound), Z.of_nat (length tArr) = j ∧
         ∀ k, 0 ≤ k < j → bound_at tArr k = bound_at bs (src + k))
      0 n (λ j (tArr : list Bound), b ← js_get bs (src + j);
               Some (tArr ++ [mkBound (value b) (proxyId b) (stabbingCount b)])) [])
      as (tArr & Ht & Hlen & Hk); [lia|split; [done|intros; lia]| |].
    + intros j tArr Hj [Hlen Hk].
      rewrite (js_get_bound_at bs (src + j)) by lia. cbn [mbind option_bind].
      eexists. split; [done|]. rewrite bound_eta. split.
      * rewrite length_app. simpl. lia.
      * intros k Hk'. destruct (decide (k = j)) as [->|Hne].
        -- by rewrite bound_at_app_r.
        -- rewrite bound_at_app_l by lia. apply Hk. lia.
    + exists tArr. split; [done|]. split; [lia|done].
  - rewrite for_loop_done by lia. exists []. split; [done|]. split; [simpl; lia|intros; lia].
Qed.

Lemma copy_in_spec tArr dst bs :
  0 ≤ dst → dst + Z.of_nat (length tArr) ≤ Z.of_nat (length bs) →
  ∃ bs', copy_in tArr dst bs = Some bs' ∧ length bs' = length bs ∧
    ∀ i, bound_at bs' i =
         if decide (dst ≤ i < dst + Z.of_nat (length tArr))
         then bound_at tArr (i - dst) else bound_at bs i.
Proof.
  intros Hdst Hn. unfold copy_in.
  destruct (for_loop_inv
    (λ j (bs' : list Bound), length bs' = length bs ∧
       ∀ i, bound_at bs' i =
            if decide (dst ≤ i < dst + j) then bound_at tArr (i - dst) else bound_at bs i)
    0 (Z.of_nat (length tArr))
    (λ j (bounds : list Bound), t ← js_get tArr j;
                 _ ← js_get bounds (dst + j);
                 Some (js_put bounds (dst + j)
                         (mkBound (value t) (proxyId t) (stabbingCount t)))) bs)
    as (bs' & Hb & Hlen & Hi); [lia| | |by exists bs'].
  - split; [done|]. intros i. rewrite decide_False by lia. done.
  - intros j bs1 Hj [Hlen Hi].
    rewrite (js_get_bound_at tArr j) by lia. cbn [mbind option_bind].
    rewrite (js_get_bound_at bs1 (dst + j)) by lia. cbn [mbind option_bind].
    eexists. split; [done|]. rewrite bound_eta. split.
    + by rewrite length_js_put.
    + intros i. rewrite bound_at_put by lia.
      destruct (decide (dst + j = i)) as [<-|Hne].
      * rewrite decide_True by lia. f_equal. lia.
      * rewrite Hi. repeat case_decide; try done; lia.
Qed.

(** [move_range src dst n] copies the [n] bounds from [src] on to the
    positions from [dst] on, as [memmove] would. *)
Lemma move_range_spec src dst n bs :
  n ≤ 0 ∨ (0 ≤ src ∧ src + n ≤ Z.of_nat (length bs) ∧
           0 ≤ dst ∧ dst + n ≤ Z.of_nat (length bs)) →
  ∃ bs', move_range src dst n bs = Some bs' ∧ length bs' = length bs ∧
    ∀ i, bound_at bs' i =
         if decide (dst ≤ i < dst + n) then bound_at bs (i - dst + src) else bound_at bs i.
Proof.
  intros Hn. unfold move_range.
  destruct (decide (n ≤ 0)) as [Hn0|Hn0].
  - unfold copy_out. rewrite for_loop_done by lia. cbn [mbind option_bind].
    unfold copy_in. simpl. rewrite for_loop_done by lia.
    exists bs. split; [done|]. split; [done|]. intros i. rewrite decide_False by lia. done.
  - destruct Hn as [?|(H1 & H2 & H3 & H4)]; [lia|].
    destruct (copy_out_spec bs src n H1 H2) as (tArr & -> & Hlen & Hk).
    cbn [mbind option_bind].
    destruct (copy_in_spec tArr dst bs H3 ltac:(lia)) as (bs' & -> & Hlen' & Hi).
    exists bs'. split; [done|]. split; [done|].
    intros i. rewrite Hi. replace (Z.of_nat (length tArr)) with n by lia.
    case_decide; [|done]. rewrite Hk by lia. f_equal. lia.
Qed.

(** A loop that updates the bounds of a range in place. *)
Lemma map_range_spec a lo hi f s :
  hi ≤ lo ∨ (0 ≤ lo ∧ hi ≤ Z.of_nat (length (bounds_of a s))) →
  ∃ bs', for_loop lo hi (λ i, upd_bound a i f) s = Some (with_bounds a bs' s) ∧
    length bs' = length (bounds_of a s) ∧
    ∀ i, bound_at bs' i =
         if decide (lo ≤ i < hi) then f (bound_at (bounds_of a s) i)
         else bound_at (bounds_of a s) i.
Proof.
  intros Hr. destruct (decide (hi ≤ lo)) as [Hle|Hle].
  - rewrite for_loop_done by lia. exists (bounds_of a s).
    rewrite with_bounds_same. split; [done|]. split; [done|].
    intros i. rewrite decide_False by lia. done.
  - destruct Hr as [?|[Hlo Hhi]]; [lia|].
    destruct (for_loop_inv
      (λ j s', ∃ bs', s' = with_bounds a bs' s ∧ length bs' = length (bounds_of a s) ∧
         ∀ i, bound_at bs' i =
              if decide (lo ≤ i < j) then f (bound_at (bounds_of a s) i)
              else bound_at (bounds_of a s) i)
      lo hi (λ i, upd_bound a i f) s) as (s' & Hs' & bs' & -> & Hlen & Hi); [lia| | |by exists bs'].
    + exists (bounds_of a s). rewrite with_bounds_same. split; [done|]. split; [done|].
      intros i. rewrite decide_False by lia. done.
    + intros j s1 Hj (bs1 & -> & Hlen & Hi).
      rewrite upd_bound_in by (rewrite bounds_of_with_bounds; lia).
      rewrite bounds_of_with_bounds.
      eexists. split; [done|]. eexists. split; [|split].
      * destruct s as [? ? [??] ? ? ? ? ? ? ?], a; done.
      * by rewrite length_js_put.
      * intros i. rewrite bound_at_put by lia.
        destruct (decide (j = i)) as [<-|Hne].
        -- rewrite decide_True by lia. rewrite Hi, decide_False by lia. done.
        -- rewrite Hi. repeat case_decide; try done; lia.
Qed.

(** ** Re-pointing the proxies *)

(** Pools that differ at most in the positions recorded for axis [a]. *)
Record reindexed (a : Axis) (pool pool' : list Proxy) : Prop := {
  ri_len : length pool' = length pool;
  ri_other : ∀ p r,
    ptr (other a) r (proxy_at pool' p) = ptr (other a) r (proxy_at pool p);
  ri_overlap : ∀ p, overlapCount (proxy_at pool' p) = overlapCount (proxy_at pool p);
  ri_stamp : ∀ p, timeStamp (proxy_at pool' p) = timeStamp (proxy_at pool p);
  ri_data : ∀ p, userData (proxy_at pool' p) = userData (proxy_at pool p);
  ri_next : ∀ p, next (proxy_at pool' p) = next (proxy_at pool p)
}.

Lemma reindexed_refl a pool : reindexed a pool pool.
Proof. by split. Qed.

Lemma reindexed_trans a p1 p2 p3 :
  reindexed a p1 p2 → reindexed a p2 p3 → reindexed a p1 p3.
Proof.
  intros H1 H2. split.
  - rewrite (ri_len _ _ _ H2). apply H1.
  - intros p r. rewrite (ri_other _ _ _ H2). apply H1.
  - intros p. rewrite (ri_overlap _ _ _ H2). apply H1.
  - intros p. rewrite (ri_stamp _ _ _ H2). apply H1.
  - intros p. rewrite (ri_data _ _ _ H2). apply H1.
  - intros p. rewrite (ri_next _ _ _ H2). apply H1.
Qed.

Lemma in_pool_reindexed a pool pool' p :
  reindexed a pool pool' → in_pool pool' p ↔ in_pool pool p.
Proof. intros H. unfold in_pool. by rewrite (ri_len _ _ _ H). Qed.

Lemma ptr_other_set_ptr a r i px r' :
  ptr (other a) r' (set_ptr a r i px) = ptr (other a) r' px.
Proof. rewrite ptr_set_ptr. rewrite decide_False; [done|]. intros [? _]. by destruct a. Qed.

Lemma reindexed_put a pool p r i :
  in_pool pool p →
  reindexed a pool (js_put pool p (set_ptr a r i (proxy_at pool p))).
Proof.
  intros Hp. split.
  - by rewrite length_js_put.
  - intros q r'. rewrite proxy_at_put by done.
    destruct (decide (p = q)) as [->|]; [|done]. apply ptr_other_set_ptr.
  - intros q. rewrite proxy_at_put by done.
    destruct (decide (p = q)) as [->|]; [|done]. apply set_ptr_fields.
  - intros q. rewrite proxy_at_put by done.
    destruct (decide (p = q)) as [->|]; [|done]. apply set_ptr_fields.
  - intros q. rewrite proxy_at_put by done.
    destruct (decide (p = q)) as [->|]; [|done]. apply set_ptr_fields.
  - intros q. rewrite proxy_at_put by done.
    destruct (decide (p = q)) as [->|]; [|done]. apply set_ptr_fields.
Qed.

Lemma ptr_put a pool p r i q r' :
  in_pool pool p →
  ptr a r' (proxy_at (js_put pool p (set_ptr a r i (proxy_at pool p))) q)
  = if decide (q = p ∧ r' = r) then i else ptr a r' (proxy_at pool q).
Proof.
  intros Hp. rewrite proxy_at_put by done.
  destruct (decide (p = q)) as [->|Hne].
  - rewrite ptr_set_ptr. repeat case_decide; try done; naive_solver.
  - rewrite decide_False; [done|]. intros [? _]. done.
Qed.

Lemma fix_index_exec a index s :
  0 ≤ index < Z.of_nat (length (bounds_of a s)) →
  in_pool (proxyPool s) (proxyId (bound_at (bounds_of a s) index)) →
  fix_index a index s
  = Some (with_proxyPool
            (js_put (proxyPool s) (proxyId (bound_at (bounds_of a s) index))
               (set_ptr a (IsLower (bound_at (bounds_of a s) index)) index
                  (proxy_at (proxyPool s) (proxyId (bound_at (bounds_of a s) index))))) s).
Proof.
  intros Hi Hp. unfold fix_index. rewrite (js_get_bound_at _ _ Hi). cbn [mbind option_bind].
  destruct (IsLower _); by rewrite upd_proxy_in.
Qed.

Lemma fix_loop_spec a lo hi s :
  0 ≤ lo → hi ≤ Z.of_nat (length (bounds_of a s)) →
  (∀ i, lo ≤ i < hi → in_pool (proxyPool s) (proxyId (bound_at (bounds_of a s) i))) →
  (∀ i j, lo ≤ i < hi → lo ≤ j < hi →
     proxyId (bound_at (bounds_of a s) i) = proxyId (bound_at (bounds_of a s) j) →
     IsLower (bound_at (bounds_of a s) i) = IsLower (bound_at (bounds_of a s) j) → i = j) →
  ∃ pool', for_loop lo hi (fix_index a) s = Some (with_proxyPool pool' s) ∧
    reindexed a (proxyPool s) pool' ∧
    (∀ i, lo ≤ i < hi →
       ptr a (IsLower (bound_at (bounds_of a s) i))
         (proxy_at pool' (proxyId (bound_at (bounds_of a s) i))) = i) ∧
    (∀ p r, (∀ i, lo ≤ i < hi →
               ¬ (proxyId (bound_at (bounds_of a s) i) = p ∧
                  IsLower (bound_at (bounds_of a s) i) = r)) →
       ptr a r (proxy_at pool' p) = ptr a r (proxy_at (proxyPool s) p)).
Proof.
  intros Hlo Hhi Hin Hinj.
  destruct (decide (hi ≤ lo)) as [Hle|Hle].
  { rewrite for_loop_done by lia. exists (proxyPool s). split; [by destruct s|].
    split; [apply reindexed_refl|]. split; [intros; lia|done]. }
  set (bs := bounds_of a s) in *.
  destruct (for_loop_inv
    (λ j s', ∃ pool', s' = with_proxyPool pool' s ∧ reindexed a (proxyPool s) pool' ∧
       (∀ i, lo ≤ i < j →
          ptr a (IsLower (bound_at bs i)) (proxy_at pool' (proxyId (bound_at bs i))) = i) ∧
       (∀ p r, (∀ i, lo ≤ i < j →
                  ¬ (proxyId (bound_at bs i) = p ∧ IsLower (bound_at bs i) = r)) →
          ptr a r (proxy_at pool' p) = ptr a r (proxy_at (proxyPool s) p)))
    lo hi (fix_index a) s) as (s' & Hs' & pool' & -> & H1 & H2 & H3); [lia| | |by exists pool'].
  - exists (proxyPool s). split; [by destruct s|]. split; [apply reindexed_refl|].
    split; [intros; lia|done].
  - intros j s1 Hj (pool1 & -> & Hri & Hptr & Hfr).
    assert (bounds_of a (with_proxyPool pool1 s) = bs) as Hbs by done.
    assert (in_pool pool1 (proxyId (bound_at bs j))) as Hp.
    { apply (in_pool_reindexed _ _ _ _ Hri), Hin. lia. }
    rewrite fix_index_exec; rewrite Hbs; [|lia|done].
    eexists. split; [done|]. eexists. split; [done|].
    cbn [proxyPool with_proxyPool]. split; [|split].
    + eapply reindexed_trans; [done|]. by apply reindexed_put.
    + intros i Hi. rewrite ptr_put by done.
      destruct (decide (i = j)) as [->|Hne].
      * rewrite decide_True; done.
      * rewrite decide_False; [apply Hptr; lia|].
        intros [E1 E2]. apply Hne. apply Hinj; [lia|lia|done|done].
    + intros p r Hno. rewrite ptr_put by done.
      rewrite decide_False.
      * apply Hfr. intros i Hi. apply Hno. lia.
      * intros [-> ->]. apply (Hno j); [lia|done].
Qed.

(** ** Inserting the two bounds of a new proxy *)

(** Where the bound at position [k] ends up when a bound is inserted at
    [lq] and another one after position [uq]. *)
Definition shifted (lq uq k : Z) : Z :=
  if decide (k < lq) then k else if decide (k < uq) then k + 1 else k + 2.

Lemma shifted_cases lq uq bc i :
  0 ≤ lq ≤ uq → uq ≤ bc → 0 ≤ i < bc + 2 →
  i = lq ∨ i = uq + 1 ∨ ∃ k, 0 ≤ k < bc ∧ i = shifted lq uq k.
Proof.
  intros Hq Hbc Hi. unfold shifted.
  destruct (decide (i = lq)); [by left|]. destruct (decide (i = uq + 1)); [by right; left|].
  right; right. destruct (decide (i < lq)).
  - exists i. rewrite decide_True by lia. lia.
  - destruct (decide (i ≤ uq)).
    + exists (i - 1). rewrite decide_False, decide_True by lia. lia.
    + exists (i - 2). rewrite !decide_False by lia. lia.
Qed.

Lemma IsLower_even v p c : Z.land v 1 = 0 → IsLower (mkBound v p c) = true.
Proof. intros H. unfold IsLower. simpl. by rewrite H. Qed.

Lemma IsLower_odd v p c : Z.land v 1 = 1 → IsLower (mkBound v p c) = false.
Proof. intros H. unfold IsLower. simpl. by rewrite H. Qed.

Lemma IsLower_add_stabbingCount d b : IsLower (add_stabbingCount d b) = IsLower b.
Proof. done. Qed.

Lemma sgn_add_stabbingCount d b : sgn (add_stabbingCount d b) = sgn b.
Proof. done. Qed.

Section Insert.
Context (a : Axis) (bs B' : list Bound) (bc lq uq lv uv pid : Z)
  (pool pool' : list Proxy) (L : Z → Prop).
Context (HI : sorted_inv a bs bc pool L).
Context (Hlen : bc + 2 ≤ Z.of_nat (length B')).
Context (Hq : 0 ≤ lq ≤ uq) (Hbc : uq ≤ bc).
Context (Hlv1 : ∀ k, 0 ≤ k < lq → value (bound_at bs k) ≤ lv).
Context (Hlv2 : ∀ k, lq ≤ k < bc → lv ≤ value (bound_at bs k)).
Context (Huv1 : ∀ k, 0 ≤ k < uq → value (bound_at bs k) ≤ uv).
Context (Huv2 : ∀ k, uq ≤ k < bc → uv ≤ value (bound_at bs k)).
Context (Hlt : lv < uv) (Heven : Z.land lv 1 = 0) (Hodd : Z.land uv 1 = 1).
Context (HnL : ¬ L pid) (Hpid : in_pool pool pid).
Context (Hold : ∀ k, 0 ≤ k < bc →
  bound_at B' (shifted lq uq k)
  = add_stabbingCount (if decide (lq ≤ k < uq) then 1 else 0) (bound_at bs k)).
Context (Hlo : bound_at B' lq
  = mkBound lv pid ((if lq =? 0 then 0 else stabbingCount (bound_at bs (lq - 1))) + 1)).
Context (Hup : bound_at B' (uq + 1)
  = mkBound uv pid
      (if decide (uq = lq)
       then (if lq =? 0 then 0 else stabbingCount (bound_at bs (lq - 1)))
       else stabbingCount (bound_at bs (uq - 1)))).
Context (Hri : reindexed a pool pool').
Context (Hfix : ∀ i, lq ≤ i < bc + 2 →
  ptr a (IsLower (bound_at B' i)) (proxy_at pool' (proxyId (bound_at B' i))) = i).
Context (Hkeep : ∀ p r,
  (∀ i, lq ≤ i < bc + 2 →
     ¬ (proxyId (bound_at B' i) = p ∧ IsLower (bound_at B' i) = r)) →
  ptr a r (proxy_at pool' p) = ptr a r (proxy_at pool p)).

Local Lemma ins_value k :
  0 ≤ k < bc → value (bound_at B' (shifted lq uq k)) = value (bound_at bs k).
Proof. intros Hk. by rewrite Hold. Qed.

Local Lemma ins_owner k :
  0 ≤ k < bc → proxyId (bound_at B' (shifted lq uq k)) = proxyId (bound_at bs k).
Proof. intros Hk. by rewrite Hold. Qed.

Local Lemma ins_lower k :
  0 ≤ k < bc → IsLower (bound_at B' (shifted lq uq k)) = IsLower (bound_at bs k).
Proof. intros Hk. by rewrite Hold. Qed.

Local Lemma ins_sorted i j :
  0 ≤ i → i ≤ j → j < bc + 2 → value (bound_at B' i) ≤ value (bound_at B' j).
Proof.
  intros Hi Hij Hj.
  pose proof (sorted_inv_sorted _ _ _ _ _ HI) as Hs.
  destruct (shifted_cases lq uq bc i Hq Hbc ltac:(lia)) as [->|[->|(k & Hk & ->)]];
  destruct (shifted_cases lq uq bc j Hq Hbc ltac:(lia)) as [->|[->|(k' & Hk' & ->)]];
    rewrite ?Hlo, ?Hup, ?ins_value by done; cbn [value]; try lia.
  - apply Hlv2. unfold shifted in Hij. repeat case_decide; lia.
  - apply Huv2. unfold shifted in Hij. repeat case_decide; lia.
  - apply Hlv1. unfold shifted in Hij. repeat case_decide; lia.
  - apply Huv1. unfold shifted in Hij. repeat case_decide; lia.
  - apply Hs; unfold shifted in Hij; repeat case_decide; lia.
Qed.

Local Lemma ins_stab i :
  0 ≤ i < bc + 2 →
  stabbingCount (bound_at B' i)
  = (if i =? 0 then 0 else stabbingCount (bound_at B' (i - 1))) + sgn (bound_at B' i).
Proof.
  intros Hi.
  assert (∀ k, 0 ≤ k < bc → stabbingCount (bound_at bs k)
    = (if k =? 0 then 0 else stabbingCount (bound_at bs (k - 1))) + sgn (bound_at bs k))
    as Hst by apply HI.
  destruct (shifted_cases lq uq bc i Hq Hbc ltac:(lia)) as [->|[->|(k & Hk & ->)]].
  - (* the new lower bound *)
    rewrite Hlo. unfold sgn. rewrite IsLower_even by done. cbn [stabbingCount].
    destruct (Z.eqb_spec lq 0) as [->|Hne]; [done|].
    replace (lq - 1) with (shifted lq uq (lq - 1))
      by (unfold shifted; rewrite decide_True by lia; done).
    rewrite Hold by lia. rewrite decide_False by lia. simpl.
    unfold shifted; rewrite decide_True by lia. lia.
  - (* the new upper bound *)
    rewrite Hup. unfold sgn. rewrite IsLower_odd by done. cbn [stabbingCount].
    destruct (Z.eqb_spec (uq + 1) 0) as [?|_]; [lia|].
    replace (uq + 1 - 1) with uq by lia.
    destruct (decide (uq = lq)) as [->|Hne].
    + rewrite Hlo. cbn [stabbingCount]. lia.
    + replace uq with (shifted lq uq (uq - 1)) at 2
        by (unfold shifted; rewrite decide_False, decide_True by lia; lia).
      rewrite Hold by lia. rewrite decide_True by lia. simpl. lia.
  - (* a bound that was there before *)
    rewrite Hold by done. rewrite sgn_add_stabbingCount. cbn [stabbingCount add_stabbingCount set_stabbingCount].
    rewrite (Hst k Hk). unfold shifted.
    destruct (decide (k < lq)) as [H1|H1].
    + rewrite decide_False by lia.
      destruct (Z.eqb_spec k 0) as [->|Hne]; [lia|].
      replace (k - 1) with (shifted lq uq (k - 1)) at 2
        by (unfold shifted; rewrite decide_True by lia; done).
      rewrite Hold by lia. rewrite decide_False by lia. simpl. lia.
    + destruct (decide (k < uq)) as [H2|H2].
      * rewrite decide_True by lia.
        destruct (Z.eqb_spec (k + 1) 0) as [?|_]; [lia|].
        replace (k + 1 - 1) with k by lia.
        destruct (decide (k = lq)) as [->|Hne].
        -- rewrite Hlo. cbn [stabbingCount]. lia.
        -- destruct (Z.eqb_spec k 0) as [?|_]; [lia|].
           replace k with (shifted lq uq (k - 1)) at 3
             by (unfold shifted; rewrite decide_False, decide_True by lia; lia).
           rewrite Hold by lia. rewrite decide_True by lia. simpl. lia.
      * rewrite decide_False by lia.
        destruct (Z.eqb_spec (k + 2) 0) as [?|_]; [lia|].
        replace (k + 2 - 1) with (k + 1) by lia.
        destruct (decide (k = uq)) as [->|Hne].
        -- rewrite Hup. cbn [stabbingCount].
           destruct (decide (uq = lq)) as [->|Hne']; [lia|].
           destruct (Z.eqb_spec uq 0) as [?|_]; [lia|]. lia.
        -- destruct (Z.eqb_spec k 0) as [?|_]; [lia|].
           replace (k + 1) with (shifted lq uq (k - 1))
             by (unfold shifted; rewrite !decide_False by lia; lia).
           rewrite Hold by lia. rewrite decide_False by lia. simpl. lia.
Qed.

Local Lemma ins_key_inj i j :
  0 ≤ i < bc + 2 → 0 ≤ j < bc + 2 →
  proxyId (bound_at B' i) = proxyId (bound_at B' j) →
  IsLower (bound_at B' i) = IsLower (bound_at B' j) → i = j.
Proof.
  intros Hi Hj.
  destruct (shifted_cases lq uq bc i Hq Hbc ltac:(lia)) as [->|[->|(k & Hk & ->)]];
  destruct (shifted_cases lq uq bc j Hq Hbc ltac:(lia)) as [->|[->|(k' & Hk' & ->)]];
    rewrite ?Hlo, ?Hup, ?ins_owner, ?ins_lower, ?(IsLower_even lv), ?(IsLower_odd uv) by done;
    cbn [proxyId]; try done.
  - intros E _. exfalso. apply HnL. rewrite E. by apply (ai_owner _ _ _ _ _ _ _ HI).
  - intros E _. exfalso. apply HnL. rewrite E. by apply (ai_owner _ _ _ _ _ _ _ HI).
  - intros E _. exfalso. apply HnL. rewrite <- E. by apply (ai_owner _ _ _ _ _ _ _ HI).
  - intros E _. exfalso. apply HnL. rewrite <- E. by apply (ai_owner _ _ _ _ _ _ _ HI).
  - intros E1 E2. f_equal. by apply (axis_inv_key_inj _ _ _ _ _ _ _ _ _ HI).
Qed.

Local Lemma ins_ai_owner i :
  0 ≤ i < bc + 2 →
  (L (proxyId (bound_at B' i)) ∨ proxyId (bound_at B' i) = pid) ∧
  in_pool pool' (proxyId (bound_at B' i)) ∧
  ptr a (IsLower (bound_at B' i)) (proxy_at pool' (proxyId (bound_at B' i))) = i.
Proof.
  intros Hi. split; [|split].
  - destruct (shifted_cases lq uq bc i Hq Hbc ltac:(lia)) as [->|[->|(k & Hk & ->)]];
      rewrite ?Hlo, ?Hup, ?ins_owner by done; [by right..|].
    left. by apply (ai_owner _ _ _ _ _ _ _ HI).
  - apply (in_pool_reindexed _ _ _ _ Hri).
    destruct (shifted_cases lq uq bc i Hq Hbc ltac:(lia)) as [->|[->|(k & Hk & ->)]];
      rewrite ?Hlo, ?Hup, ?ins_owner by done; [done..|].
    by apply (ai_owner _ _ _ _ _ _ _ HI).
  - destruct (decide (lq ≤ i)) as [Hge|Hlt']; [apply Hfix; lia|].
    rewrite Hkeep.
    + assert (shifted lq uq i = i) as E by (unfold shifted; rewrite decide_True by lia; done).
      rewrite <- E at 1 2. rewrite ins_lower, ins_owner by lia.
      apply (ai_owner _ _ _ _ _ _ _ HI). lia.
    + intros j Hj [E1 E2]. assert (j = i); [|lia].
      apply ins_key_inj; [lia|lia|done|done].
Qed.

Local Lemma shifted_mono k k' : k < k' → shifted lq uq k < shifted lq uq k'.
Proof. intros H. unfold shifted. repeat case_decide; lia. Qed.

Local Lemma ins_ai_proxy p :
  L p ∨ p = pid →
  in_pool pool' p ∧
  0 ≤ ptr a true (proxy_at pool' p) ∧
  ptr a true (proxy_at pool' p) < ptr a false (proxy_at pool' p) ∧
  ptr a false (proxy_at pool' p) < bc + 2 ∧
  proxyId (bound_at B' (ptr a true (proxy_at pool' p))) = p ∧
  IsLower (bound_at B' (ptr a true (proxy_at pool' p))) = true ∧
  proxyId (bound_at B' (ptr a false (proxy_at pool' p))) = p ∧
  IsLower (bound_at B' (ptr a false (proxy_at pool' p))) = false.
Proof.
  intros [Hp| ->].
  - destruct (ai_proxy _ _ _ _ _ _ _ HI p Hp) as (Hin & H0 & Hlu & Hu & Hl1 & Hl2 & Hu1 & Hu2).
    set (l := ptr a true (proxy_at pool p)) in *.
    set (u := ptr a false (proxy_at pool p)) in *.
    assert (ptr a true (proxy_at pool' p) = shifted lq uq l) as ->.
    { destruct (ins_ai_owner (shifted lq uq l)) as (_ & _ & E).
      { unfold shifted. repeat case_decide; lia. }
      rewrite ins_lower, ins_owner in E by lia. by rewrite Hl1, Hl2 in E. }
    assert (ptr a false (proxy_at pool' p) = shifted lq uq u) as ->.
    { destruct (ins_ai_owner (shifted lq uq u)) as (_ & _ & E).
      { unfold shifted. repeat case_decide; lia. }
      rewrite ins_lower, ins_owner in E by lia. by rewrite Hu1, Hu2 in E. }
    rewrite !ins_lower, !ins_owner by lia.
    split; [by apply (in_pool_reindexed _ _ _ _ Hri)|].
    split; [unfold shifted; repeat case_decide; lia|].
    split; [by apply shifted_mono|].
    split; [unfold shifted; repeat case_decide; lia|done].
  - assert (ptr a true (proxy_at pool' pid) = lq) as ->.
    { pose proof (Hfix lq ltac:(lia)) as E.
      by rewrite Hlo, IsLower_even in E by done. }
    assert (ptr a false (proxy_at pool' pid) = uq + 1) as ->.
    { pose proof (Hfix (uq + 1) ltac:(lia)) as E.
      by rewrite Hup, IsLower_odd in E by done. }
    rewrite Hlo, Hup, IsLower_even, IsLower_odd by done. cbn [proxyId].
    split; [by apply (in_pool_reindexed _ _ _ _ Hri)|]. lia.
Qed.

(** The bounds of the proxies in use keep their values, and the new
    proxy has the two values inserted. *)
Lemma insert_values p r :
  L p → value (bound_at B' (ptr a r (proxy_at pool' p)))
        = value (bound_at bs (ptr a r (proxy_at pool p))).
Proof.
  intros Hp.
  destruct (ai_proxy _ _ _ _ _ _ _ HI p Hp) as (Hin & H0 & Hlu & Hu & Hl1 & Hl2 & Hu1 & Hu2).
  set (i := ptr a r (proxy_at pool p)).
  assert (0 ≤ i < bc) as Hi by (unfold i; destruct r; cbn [ptr] in *; lia).
  assert (proxyId (bound_at bs i) = p ∧ IsLower (bound_at bs i) = r) as [Hid Hrole]
    by (unfold i; by destruct r).
  destruct (ins_ai_owner (shifted lq uq i)) as (_ & _ & E).
  { unfold shifted. repeat case_decide; lia. }
  rewrite ins_lower, ins_owner, Hid, Hrole in E by done.
  by rewrite E, ins_value.
Qed.

Lemma insert_new :
  value (bound_at B' (ptr a true (proxy_at pool' pid))) = lv ∧
  value (bound_at B' (ptr a false (proxy_at pool' pid))) = uv.
Proof.
  assert (ptr a true (proxy_at pool' pid) = lq) as ->.
  { pose proof (Hfix lq ltac:(lia)) as E.
    by rewrite Hlo, IsLower_even in E by done. }
  assert (ptr a false (proxy_at pool' pid) = uq + 1) as ->.
  { pose proof (Hfix (uq + 1) ltac:(lia)) as E.
    by rewrite Hup, IsLower_odd in E by done. }
  by rewrite Hlo, Hup.
Qed.

Lemma insert_axis_inv : sorted_inv a B' (bc + 2) pool' (λ p, L p ∨ p = pid).
Proof.
  split.
  - pose proof (ai_range _ _ _ _ _ _ _ HI). lia.
  - intros i j Hi Hij Hj _ _ _ _. by apply ins_sorted.
  - apply ins_ai_owner.
  - apply ins_ai_proxy.
  - apply ins_stab.
Qed.
End Insert.

Lemma upd_bound_with_bounds a i f B s :
  0 ≤ i < Z.of_nat (length B) →
  upd_bound a i f (with_bounds a B s)
  = Some (with_bounds a (js_put B i (f (bound_at B i))) s).
Proof.
  intros Hi. rewrite upd_bound_in by (by rewrite bounds_of_with_bounds).
  rewrite bounds_of_with_bounds. by destruct s as [? ? [??] ? ? ? ? ? ? ?], a.
Qed.

Lemma with_bounds_twice a B B' s : with_bounds a B' (with_bounds a B s) = with_bounds a B' s.
Proof. by destruct s as [? ? [??] ? ? ? ? ? ? ?], a. Qed.

Lemma search_results_le bs bc lv uv lq uq :
  sorted_upto bs bc → search_result bs bc lv lq → search_result bs bc uv uq →
  lv < uv → lq ≤ uq.
Proof.
  intros Hs Hl Hu Hlt.
  destruct (search_result_split _ _ _ _ Hs Hl) as [Hl1 _].
  destruct (search_result_split _ _ _ _ Hs Hu) as [_ Hu2].
  destruct (decide (lq ≤ uq)) as [|Hgt]; [done|].
  destruct Hl as [? _], Hu as [? _].
  specialize (Hl1 uq ltac:(lia)). specialize (Hu2 uq ltac:(lia)). lia.
Qed.

Lemma add_stabbingCount_0 b : add_stabbingCount 0 b = b.
Proof. destruct b. unfold add_stabbingCount, set_stabbingCount. simpl. f_equal. lia. Qed.

(** Settling the index tests of a goal by arithmetic. *)
Ltac settle :=
  repeat match goal with
  | |- context [decide ?P] =>
      first [rewrite (decide_True (P := P)) by lia | rewrite (decide_False (P := P)) by lia]
  end.

(** Reading a bound of an array after a series of writes. *)
Ltac read_bounds :=
  repeat first
    [ progress settle
    | rewrite bound_at_put by (rewrite ?length_js_put; lia)
    | match goal with
      | H : ∀ i, bound_at ?B i = _ |- context [bound_at ?B _] => rewrite H
      end ];
  unfold add_stabbingCount, set_stabbingCount, set_proxyId, set_value;
  cbn [value proxyId stabbingCount].

Lemma CreateProxy_axis_spec a pid lvs uvs bc s L :
  sorted_inv a (bounds_of a s) bc (proxyPool s) L →
  bc + 2 ≤ Z.of_nat (length (bounds_of a s)) →
  ¬ L pid → in_pool (proxyPool s) pid →
  sel a lvs < sel a uvs → Z.land (sel a lvs) 1 = 0 → Z.land (sel a uvs) 1 = 1 →
  ∃ lq uq sq B' pool',
    CreateProxy_axis pid lvs uvs bc a s = Some (with_proxyPool pool' (with_bounds a B' sq)) ∧
    search_result (bounds_of a s) bc (sel a lvs) lq ∧
    search_result (bounds_of a s) bc (sel a uvs) uq ∧
    marks (query_ids (bounds_of a s) a (proxyPool s) lq uq) s = Some sq ∧
    marked_from (query_ids (bounds_of a s) a (proxyPool s) lq uq) s sq ∧
    (∀ id, id ∈ query_ids (bounds_of a s) a (proxyPool s) lq uq → L id) ∧
    length B' = length (bounds_of a s) ∧
    reindexed a (proxyPool sq) pool' ∧
    sorted_inv a B' (bc + 2) pool' (λ p, L p ∨ p = pid) ∧
    (∀ p r, L p → value (bound_at B' (ptr a r (proxy_at pool' p)))
                  = value (bound_at (bounds_of a s) (ptr a r (proxy_at (proxyPool s) p)))) ∧
    value (bound_at B' (ptr a true (proxy_at pool' pid))) = sel a lvs ∧
    value (bound_at B' (ptr a false (proxy_at pool' pid))) = sel a uvs.
Proof.
  intros HI Hlen HnL Hpid Hlt Heven Hodd.
  set (bs := bounds_of a s) in *. set (lv := sel a lvs) in *. set (uv := sel a uvs) in *.
  destruct (Query_spec lv uv a bs bc s L HI)
    as (lq & uq & sq & HQ & _ & Rl & _ & Ru & Hmarks & Hmf & HinL).
  pose proof (sorted_inv_sorted _ _ _ _ _ HI) as Hs.
  pose proof (search_results_le _ _ _ _ _ _ Hs Rl Ru Hlt) as Hle.
  destruct (search_result_split _ _ _ _ Hs Rl) as [Hlv1 Hlv2].
  destruct (search_result_split _ _ _ _ Hs Ru) as [Huv1 Huv2].
  assert (0 ≤ lq ∧ uq ≤ bc) as [Hlq Huq] by (destruct Rl, Ru; lia).
  assert (bounds_of a sq = bs) as Hbsq by (unfold bs, bounds_of; by rewrite (mf_bounds _ _ _ Hmf)).
  pose proof (marked_from_axis_inv _ _ _ _ _ _ _ _ _ Hmf HI) as HIq.
  assert (in_pool (proxyPool sq) pid) as Hpidq.
  { unfold in_pool. by rewrite (mf_len _ _ _ Hmf). }
  unfold CreateProxy_axis. fold bs lv uv. rewrite HQ. cbn [mbind option_bind]. rewrite Hbsq.
  destruct (move_range_spec uq (uq + 2) (bc - uq) bs) as (B1 & -> & Hl1 & H1); [lia|].
  cbn [mbind option_bind].
  destruct (move_range_spec lq (lq + 1) (uq - lq) B1) as (B2 & -> & Hl2 & H2); [lia|].
  cbn [mbind option_bind].
  rewrite upd_bound_with_bounds by lia. cbn [mbind option_bind].
  rewrite upd_bound_with_bounds by (rewrite ?length_js_put; lia). cbn [mbind option_bind].
  rewrite upd_bound_with_bounds by (rewrite ?length_js_put; lia). cbn [mbind option_bind].
  rewrite upd_bound_with_bounds by (rewrite ?length_js_put; lia). cbn [mbind option_bind].
  rewrite bounds_of_with_bounds.
  set (B6 := js_put _ (uq + 1) (set_proxyId pid _)).
  assert (length B6 = length bs) as Hl6 by (unfold B6; rewrite !length_js_put; lia).
  set (P := if lq =? 0 then 0 else stabbingCount (bound_at bs (lq - 1))).
  assert ((if lq =? 0 then Some 0 else stabbingCount <$> js_get B6 (lq - 1)) = Some P) as ->.
  { unfold P. destruct (Z.eqb_spec lq 0) as [|Hne]; [done|].
    rewrite (js_get_bound_at B6) by lia. cbn [fmap option_fmap option_map]. do 2 f_equal.
    unfold B6. read_bounds. done. }
  cbn [mbind option_bind].
  rewrite upd_bound_with_bounds by lia. cbn [mbind option_bind].
  rewrite bounds_of_with_bounds.
  set (B7 := js_put B6 lq _).
  assert (length B7 = length bs) as Hl7 by (unfold B7; rewrite !length_js_put; lia).
  rewrite (js_get_bound_at B7) by lia. cbn [mbind option_bind].
  replace (uq + 1 - 1) with uq by lia.
  rewrite upd_bound_with_bounds by lia. cbn [mbind option_bind].
  set (B8 := js_put B7 (uq + 1) _).
  assert (length B8 = length bs) as Hl8 by (unfold B8; rewrite !length_js_put; lia).
  destruct (map_range_spec a lq (uq + 1) (add_stabbingCount 1) (with_bounds a B8 sq))
    as (B9 & -> & Hl9 & H9); [rewrite bounds_of_with_bounds; lia|].
  rewrite bounds_of_with_bounds in Hl9, H9.
  cbn [mbind option_bind]. rewrite with_bounds_twice.
  assert (∀ k, 0 ≤ k < bc →
    bound_at B9 (shifted lq uq k)
    = add_stabbingCount (if decide (lq ≤ k < uq) then 1 else 0) (bound_at bs k)) as Hold.
  { intros k Hk. rewrite H9. unfold shifted, B8, B7, B6.
    destruct (decide (k < lq)); [|destruct (decide (k < uq))]; read_bounds.
    - destruct (bound_at bs k); cbn; f_equal; lia.
    - replace (k + 1 - (lq + 1) + lq) with k by lia. done.
    - replace (k + 2 - (uq + 2) + uq) with k by lia.
      destruct (bound_at bs k); cbn; f_equal; lia. }
  assert (bound_at B9 lq = mkBound lv pid (P + 1)) as Hlo.
  { rewrite H9. unfold B8, B7, B6. read_bounds. done. }
  assert (bound_at B9 (uq + 1)
          = mkBound uv pid (if decide (uq = lq) then P else stabbingCount (bound_at bs (uq - 1))))
    as Hup.
  { rewrite H9. unfold B8, B7, B6.
    destruct (decide (uq = lq)) as [->|Hne]; read_bounds; [done|].
    replace (uq - (lq + 1) + lq) with (uq - 1) by lia. done. }
  clearbody B6 B7 B8. clear H1 H2 H9.
  assert (∀ i j, 0 ≤ i < bc + 2 → 0 ≤ j < bc + 2 →
    proxyId (bound_at B9 i) = proxyId (bound_at B9 j) →
    IsLower (bound_at B9 i) = IsLower (bound_at B9 j) → i = j) as Hinj.
  { intros i j. eapply (ins_key_inj a bs B9 bc lq uq lv uv pid); eauto. }
  destruct (fix_loop_spec a lq (bc + 2) (with_bounds a B9 sq))
    as (pool' & -> & Hri & Hfix & Hkeep).
  { lia. }
  { rewrite bounds_of_with_bounds. lia. }
  { rewrite bounds_of_with_bounds. cbn [proxyPool with_bounds]. intros i Hi.
    destruct (shifted_cases lq uq bc i ltac:(lia) Huq ltac:(lia)) as [->|[->|(k & Hk & ->)]].
    - by rewrite Hlo.
    - by rewrite Hup.
    - rewrite Hold by done. by apply (ai_owner _ _ _ _ _ _ _ HIq). }
  { rewrite bounds_of_with_bounds. intros i j Hi Hj. apply Hinj; lia. }
  rewrite bounds_of_with_bounds in Hfix, Hkeep. cbn [proxyPool with_bounds] in Hri, Hkeep.
  assert (∀ p r, ptr a r (proxy_at (proxyPool sq) p) = ptr a r (proxy_at (proxyPool s) p))
    as Hptrq.
  { intros p r. unfold ptr. by rewrite (mf_lower _ _ _ Hmf), (mf_upper _ _ _ Hmf). }
  assert (value (bound_at B9 (ptr a true (proxy_at pool' pid))) = lv ∧
          value (bound_at B9 (ptr a false (proxy_at pool' pid))) = uv) as [Nl Nu]
    by (eapply (insert_new a bs B9 bc lq uq lv uv pid pool'); eauto; lia).
  exists lq, uq, sq, B9, pool'. split_and!; try done; [lia| |].
  - eapply (insert_axis_inv a bs B9 bc lq uq lv uv pid (proxyPool sq) pool' L); eauto; lia.
  - intros p r Hp. rewrite <- Hptrq.
    eapply (insert_values a bs B9 bc lq uq lv uv pid (proxyPool sq) pool' L); eauto; lia.
Qed.

Lemma other_other a : other (other a) = a.
Proof. by destruct a. Qed.

Lemma reindexed_other_axis_inv e1 e2 a bs bc pool pool' L :
  reindexed (other a) pool pool' →
  axis_inv e1 e2 a bs bc pool L → axis_inv e1 e2 a bs bc pool' L.
Proof.
  intros Hri HI. apply (axis_inv_pool _ _ _ _ _ _ _ _ HI); [apply Hri|].
  intros p r _. pose proof (ri_other _ _ _ Hri p r) as E. by rewrite other_other in E.
Qed.

(** ** Removing the two bounds of a proxy *)

(** The position whose bound ends up at position [i] when the bounds at
    [li] and [ui] are removed. *)
Definition removed (li ui i : Z) : Z :=
  if decide (i < li) then i else if decide (i < ui - 1) then i + 1 else i + 2.

(** Where the bound at position [k] ends up. *)
Definition unshifted (li ui k : Z) : Z :=
  if decide (k < li) then k else if decide (k < ui) then k - 1 else k - 2.

Section Remove.
Context (a : Axis) (bs B' : list Bound) (bc li ui pid : Z)
  (pool pool' : list Proxy) (L : Z → Prop).
Context (HI : sorted_inv a bs bc pool L).
Context (HL : L pid).
Context (Hli : li = ptr a true (proxy_at pool pid)).
Context (Hui : ui = ptr a false (proxy_at pool pid)).
Context (Hnew_v : ∀ i, 0 ≤ i < bc - 2 →
  value (bound_at B' i) = value (bound_at bs (removed li ui i))).
Context (Hnew_o : ∀ i, 0 ≤ i < bc - 2 →
  proxyId (bound_at B' i) = proxyId (bound_at bs (removed li ui i))).
Context (Hnew_s : ∀ i, 0 ≤ i < bc - 2 →
  stabbingCount (bound_at B' i)
  = stabbingCount (bound_at bs (removed li ui i))
    + (if decide (li ≤ i < ui - 1) then -1 else 0)).
Context (Hlen : bc - 2 ≤ Z.of_nat (length B')).
Context (Hri : reindexed a pool pool').
Context (Hfix : ∀ i, li ≤ i < bc - 2 →
  ptr a (IsLower (bound_at B' i)) (proxy_at pool' (proxyId (bound_at B' i))) = i).
Context (Hkeep : ∀ p r,
  (∀ i, li ≤ i < bc - 2 →
     ¬ (proxyId (bound_at B' i) = p ∧ IsLower (bound_at B' i) = r)) →
  ptr a r (proxy_at pool' p) = ptr a r (proxy_at pool p)).

Local Lemma rem_range : 0 ≤ li ∧ li < ui ∧ ui < bc.
Proof. destruct (ai_proxy _ _ _ _ _ _ _ HI pid HL) as (_ & ? & ? & ? & _). lia. Qed.

Local Lemma rem_src i :
  0 ≤ i < bc - 2 →
  0 ≤ removed li ui i < bc ∧ removed li ui i ≠ li ∧ removed li ui i ≠ ui.
Proof. pose proof rem_range. intros Hi. unfold removed. repeat case_decide; lia. Qed.

Local Lemma rem_value i :
  0 ≤ i < bc - 2 → value (bound_at B' i) = value (bound_at bs (removed li ui i)).
Proof. apply Hnew_v. Qed.

Local Lemma rem_owner i :
  0 ≤ i < bc - 2 → proxyId (bound_at B' i) = proxyId (bound_at bs (removed li ui i)).
Proof. apply Hnew_o. Qed.

Local Lemma rem_lower i :
  0 ≤ i < bc - 2 → IsLower (bound_at B' i) = IsLower (bound_at bs (removed li ui i)).
Proof. intros Hi. unfold IsLower. by rewrite Hnew_v. Qed.

Local Lemma rem_not_pid i : 0 ≤ i < bc - 2 → proxyId (bound_at B' i) ≠ pid.
Proof.
  intros Hi E. rewrite rem_owner in E by done.
  destruct (rem_src i Hi) as (Hr & Hne1 & Hne2).
  destruct (ai_owner _ _ _ _ _ _ _ HI _ Hr) as (_ & _ & Hp). rewrite E in Hp.
  destruct (IsLower (bound_at bs (removed li ui i))); congruence.
Qed.

Local Lemma rem_key_inj i j :
  0 ≤ i < bc - 2 → 0 ≤ j < bc - 2 →
  proxyId (bound_at B' i) = proxyId (bound_at B' j) →
  IsLower (bound_at B' i) = IsLower (bound_at B' j) → i = j.
Proof.
  intros Hi Hj. rewrite !rem_owner, !rem_lower by done. intros E1 E2.
  pose proof (axis_inv_key_inj _ _ _ _ _ _ _ _ _ HI
                (proj1 (rem_src i Hi)) (proj1 (rem_src j Hj)) E1 E2) as E.
  unfold removed in E. repeat case_decide; lia.
Qed.

Local Lemma rem_sorted i j :
  0 ≤ i → i ≤ j → j < bc - 2 → value (bound_at B' i) ≤ value (bound_at B' j).
Proof.
  intros Hi Hij Hj. rewrite !rem_value by lia.
  apply (sorted_inv_sorted _ _ _ _ _ HI); unfold removed; repeat case_decide; lia.
Qed.

Local Lemma rem_stab i :
  0 ≤ i < bc - 2 →
  stabbingCount (bound_at B' i)
  = (if i =? 0 then 0 else stabbingCount (bound_at B' (i - 1))) + sgn (bound_at B' i).
Proof.
  intros Hi. pose proof rem_range as Hr.
  assert (∀ k, 0 ≤ k < bc → stabbingCount (bound_at bs k)
    = (if k =? 0 then 0 else stabbingCount (bound_at bs (k - 1))) + sgn (bound_at bs k))
    as Hst by apply HI.
  assert (sgn (bound_at bs li) = 1) as Hsl.
  { destruct (ai_proxy _ _ _ _ _ _ _ HI pid HL) as (_ & _ & _ & _ & _ & E & _).
    unfold sgn. by rewrite Hli, E. }
  assert (sgn (bound_at bs ui) = -1) as Hsu.
  { destruct (ai_proxy _ _ _ _ _ _ _ HI pid HL) as (_ & _ & _ & _ & _ & _ & _ & E).
    unfold sgn. by rewrite Hui, E. }
  rewrite Hnew_s by done.
  assert (sgn (bound_at B' i) = sgn (bound_at bs (removed li ui i))) as ->
    by (unfold sgn; by rewrite rem_lower).
  destruct (Z.eqb_spec i 0) as [->|Hne].
  - unfold removed. destruct (decide (0 < li)).
    + settle. rewrite (Hst 0) by lia. simpl. lia.
    + assert (li = 0) as Hl0 by lia.
      destruct (decide (0 < ui - 1)).
      * settle. rewrite (Hst (0 + 1)) by lia.
        replace (0 + 1 - 1) with li by lia. rewrite (Hst li) by lia.
        destruct (Z.eqb_spec (0 + 1) 0); [lia|].
        destruct (Z.eqb_spec li 0); [|lia]. lia.
      * settle. rewrite (Hst (0 + 2)) by lia.
        replace (0 + 2 - 1) with ui by lia. rewrite (Hst ui) by lia.
        replace (ui - 1) with li by lia. rewrite (Hst li) by lia.
        destruct (Z.eqb_spec (0 + 2) 0); [lia|].
        destruct (Z.eqb_spec ui 0); [lia|].
        destruct (Z.eqb_spec li 0); [|lia]. lia.
  - rewrite Hnew_s by lia. unfold removed.
    destruct (decide (i < li)).
    + settle. rewrite (Hst i) by lia.
      destruct (Z.eqb_spec i 0); [lia|]. lia.
    + destruct (decide (i < ui - 1)).
      * destruct (decide (i = li)) as [->|Hne'].
        -- settle. rewrite (Hst (li + 1)) by lia.
           destruct (Z.eqb_spec (li + 1) 0); [lia|].
           replace (li + 1 - 1) with li by lia.
           rewrite (Hst li) by lia. destruct (Z.eqb_spec li 0); [lia|]. lia.
        -- settle. rewrite (Hst (i + 1)) by lia.
           destruct (Z.eqb_spec (i + 1) 0); [lia|].
           replace (i + 1 - 1) with i by lia.
           replace (i - 1 + 1) with i by lia. lia.
      * destruct (decide (i = ui - 1)) as [Hu|Hne'].
        -- destruct (decide (i = li)) as [Hl|Hne''].
           ++ settle. rewrite (Hst (i + 2)) by lia.
              destruct (Z.eqb_spec (i + 2) 0); [lia|].
              replace (i + 2 - 1) with ui by lia. rewrite (Hst ui) by lia.
              destruct (Z.eqb_spec ui 0); [lia|].
              replace (ui - 1) with li by lia. rewrite (Hst li) by lia.
              destruct (Z.eqb_spec li 0); [lia|].
              replace (li - 1) with (i - 1) by lia. lia.
           ++ settle. rewrite (Hst (i + 2)) by lia.
              destruct (Z.eqb_spec (i + 2) 0); [lia|].
              replace (i + 2 - 1) with ui by lia. rewrite (Hst ui) by lia.
              destruct (Z.eqb_spec ui 0); [lia|].
              replace (i - 1 + 1) with (ui - 1) by lia. lia.
        -- settle. rewrite (Hst (i + 2)) by lia.
           destruct (Z.eqb_spec (i + 2) 0); [lia|].
           replace (i + 2 - 1) with (i + 1) by lia.
           replace (i - 1 + 2) with (i + 1) by lia. lia.
Qed.

Local Lemma rem_ai_owner i :
  0 ≤ i < bc - 2 →
  (L (proxyId (bound_at B' i)) ∧ proxyId (bound_at B' i) ≠ pid) ∧
  in_pool pool' (proxyId (bound_at B' i)) ∧
  ptr a (IsLower (bound_at B' i)) (proxy_at pool' (proxyId (bound_at B' i))) = i.
Proof.
  intros Hi. destruct (rem_src i Hi) as (Hr & _).
  destruct (ai_owner _ _ _ _ _ _ _ HI _ Hr) as (HLi & Hin & Hp).
  split; [|split].
  - split; [by rewrite rem_owner|by apply rem_not_pid].
  - apply (in_pool_reindexed _ _ _ _ Hri). by rewrite rem_owner.
  - destruct (decide (li ≤ i)) as [Hge|Hlt']; [apply Hfix; lia|].
    rewrite Hkeep.
    + rewrite rem_lower, rem_owner by done. rewrite Hp.
      unfold removed. by rewrite decide_True by lia.
    + intros j Hj [E1 E2]. assert (j = i); [|lia].
      pose proof rem_range. apply rem_key_inj; [lia|lia|done|done].
Qed.

Local Lemma removed_unshifted k :
  0 ≤ k < bc → k ≠ li → k ≠ ui →
  0 ≤ unshifted li ui k < bc - 2 ∧ removed li ui (unshifted li ui k) = k.
Proof.
  pose proof rem_range. intros Hk H1 H2. unfold removed, unshifted.
  repeat case_decide; lia.
Qed.

Local Lemma rem_ai_proxy p :
  L p ∧ p ≠ pid →
  in_pool pool' p ∧
  0 ≤ ptr a true (proxy_at pool' p) ∧
  ptr a true (proxy_at pool' p) < ptr a false (proxy_at pool' p) ∧
  ptr a false (proxy_at pool' p) < bc - 2 ∧
  proxyId (bound_at B' (ptr a true (proxy_at pool' p))) = p ∧
  IsLower (bound_at B' (ptr a true (proxy_at pool' p))) = true ∧
  proxyId (bound_at B' (ptr a false (proxy_at pool' p))) = p ∧
  IsLower (bound_at B' (ptr a false (proxy_at pool' p))) = false.
Proof.
  intros [Hp Hne]. pose proof rem_range as Hrg.
  destruct (ai_proxy _ _ _ _ _ _ _ HI p Hp) as (Hin & H0 & Hlu & Hu & Hl1 & Hl2 & Hu1 & Hu2).
  destruct (ai_proxy _ _ _ _ _ _ _ HI pid HL) as (_ & _ & _ & _ & Hpl & _ & Hpu & _).
  rewrite <- Hli in Hpl. rewrite <- Hui in Hpu.
  set (l := ptr a true (proxy_at pool p)) in *.
  set (u := ptr a false (proxy_at pool p)) in *.
  assert (l ≠ li ∧ l ≠ ui ∧ u ≠ li ∧ u ≠ ui) as (? & ? & ? & ?).
  { split_and!; intros E; rewrite E in *; congruence. }
  destruct (removed_unshifted l) as [Hrl El]; [lia|done|done|].
  destruct (removed_unshifted u) as [Hru Eu]; [lia|done|done|].
  assert (ptr a true (proxy_at pool' p) = unshifted li ui l) as ->.
  { destruct (rem_ai_owner (unshifted li ui l) Hrl) as (_ & _ & E).
    rewrite rem_lower, rem_owner in E by done. by rewrite El, Hl1, Hl2 in E. }
  assert (ptr a false (proxy_at pool' p) = unshifted li ui u) as ->.
  { destruct (rem_ai_owner (unshifted li ui u) Hru) as (_ & _ & E).
    rewrite rem_lower, rem_owner in E by done. by rewrite Eu, Hu1, Hu2 in E. }
  rewrite !rem_lower, !rem_owner by done. rewrite El, Eu.
  split; [by apply (in_pool_reindexed _ _ _ _ Hri)|].
  split; [lia|]. split; [unfold unshifted; repeat case_decide; lia|].
  split; [lia|done].
Qed.

Lemma remove_values p r :
  L p → p ≠ pid →
  value (bound_at B' (ptr a r (proxy_at pool' p))) = value (bound_at bs (ptr a r (proxy_at pool p))).
Proof.
  intros Hp Hne. pose proof rem_range as Hrg.
  destruct (ai_proxy _ _ _ _ _ _ _ HI p Hp) as (Hin & H0 & Hlu & Hu & Hl1 & Hl2 & Hu1 & Hu2).
  destruct (ai_proxy _ _ _ _ _ _ _ HI pid HL) as (_ & _ & _ & _ & Hpl & _ & Hpu & _).
  rewrite <- Hli in Hpl. rewrite <- Hui in Hpu.
  set (k := ptr a r (proxy_at pool p)).
  assert (0 ≤ k < bc ∧ proxyId (bound_at bs k) = p ∧ IsLower (bound_at bs k) = r)
    as (Hk & Ek & Er) by (unfold k; destruct r; split_and!; try done; lia).
  assert (k ≠ li ∧ k ≠ ui) as [? ?] by (split; intros E; rewrite E in *; congruence).
  destruct (removed_unshifted k) as [Hrk Ek']; [lia|done|done|].
  assert (ptr a r (proxy_at pool' p) = unshifted li ui k) as ->.
  { destruct (rem_ai_owner (unshifted li ui k) Hrk) as (_ & _ & E).
    rewrite rem_lower, rem_owner in E by done. by rewrite Ek', Ek, Er in E. }
  by rewrite rem_value, Ek'.
Qed.

Lemma remove_axis_inv : sorted_inv a B' (bc - 2) pool' (λ p, L p ∧ p ≠ pid).
Proof.
  pose proof rem_range. split.
  - lia.
  - intros i j Hi Hij Hj _ _ _ _. by apply rem_sorted.
  - apply rem_ai_owner.
  - apply rem_ai_proxy.
  - apply rem_stab.
Qed.
End Remove.

Lemma with_bounds_with_proxyPool a B pool s :
  with_bounds a B (with_proxyPool pool s) = with_proxyPool pool (with_bounds a B s).
Proof. done. Qed.

Lemma DestroyProxy_axis_spec a pid bc s L :
  sorted_inv a (bounds_of a s) bc (proxyPool s) L → L pid →
  ∃ B' pool' lq uq sq,
    DestroyProxy_axis pid bc a s = Some sq ∧
    length B' = length (bounds_of a s) ∧
    reindexed a (proxyPool s) pool' ∧
    sorted_inv a B' (bc - 2) pool' (λ p, L p ∧ p ≠ pid) ∧
    marks (query_ids B' a pool' lq uq) (with_proxyPool pool' (with_bounds a B' s)) = Some sq ∧
    marked_from (query_ids B' a pool' lq uq) (with_proxyPool pool' (with_bounds a B' s)) sq ∧
    (∀ id, id ∈ query_ids B' a pool' lq uq → L id ∧ id ≠ pid) ∧
    (∀ p r, L p → p ≠ pid →
       value (bound_at B' (ptr a r (proxy_at pool' p)))
       = value (bound_at (bounds_of a s) (ptr a r (proxy_at (proxyPool s) p)))) ∧
    search_result B' (bc - 2) (valof a s pid true) lq ∧
    search_result B' (bc - 2) (valof a s pid false) uq.
Proof.
  intros HI HL. unfold valof.
  set (bs := bounds_of a s) in *.
  destruct (ai_proxy _ _ _ _ _ _ _ HI pid HL) as (Hin & H0 & Hlu & Hu & Hl1 & Hl2 & Hu1 & Hu2).
  pose proof (ai_range _ _ _ _ _ _ _ HI) as Hbc.
  set (li := ptr a true (proxy_at (proxyPool s) pid)) in *.
  set (ui := ptr a false (proxy_at (proxyPool s) pid)) in *.
  unfold DestroyProxy_axis. rewrite (js_get_proxy_at _ _ Hin). cbn [mbind option_bind].
  fold bs. change (sel a (lowerBounds (proxy_at (proxyPool s) pid))) with li.
  change (sel a (upperBounds (proxy_at (proxyPool s) pid))) with ui.
  rewrite (js_get_bound_at bs li), (js_get_bound_at bs ui) by lia. cbn [mbind option_bind].
  destruct (move_range_spec (li + 1) li (ui - li - 1) bs) as (B1 & -> & Hlen1 & H1); [lia|].
  cbn [mbind option_bind].
  destruct (move_range_spec (ui + 1) (ui - 1) (bc - ui - 1) B1) as (B2 & -> & Hlen2 & H2); [lia|].
  cbn [mbind option_bind].
  assert (∀ i, 0 ≤ i < bc - 2 → bound_at B2 i = bound_at bs (removed li ui i)) as HB2.
  { intros i Hi. unfold removed.
    destruct (decide (i < li)); [|destruct (decide (i < ui - 1))]; read_bounds;
      f_equal; lia. }
  clear H1 H2.
  destruct (fix_loop_spec a li (bc - 2) (with_bounds a B2 s))
    as (pool' & -> & Hri & Hfix & Hkeep).
  { lia. }
  { rewrite bounds_of_with_bounds. lia. }
  { rewrite bounds_of_with_bounds. cbn [proxyPool with_bounds]. intros i Hi.
    rewrite HB2 by lia. apply (ai_owner _ _ _ _ _ _ _ HI).
    unfold removed. repeat case_decide; lia. }
  { rewrite bounds_of_with_bounds. intros i j Hi Hj.
    apply (rem_key_inj a bs B2 bc li ui pid (proxyPool s) L HI HL eq_refl eq_refl);
      try lia; intros k Hk; by rewrite HB2. }
  rewrite bounds_of_with_bounds in Hfix, Hkeep. cbn [proxyPool with_bounds] in Hri, Hkeep.
  cbn [mbind option_bind].
  destruct (map_range_spec a li (ui - 1) (add_stabbingCount (-1))
              (with_proxyPool pool' (with_bounds a B2 s))) as (B3 & -> & Hlen3 & H3).
  { change (bounds_of a (with_proxyPool pool' (with_bounds a B2 s)))
      with (bounds_of a (with_bounds a B2 s)). rewrite bounds_of_with_bounds. lia. }
  change (bounds_of a (with_proxyPool pool' (with_bounds a B2 s)))
    with (bounds_of a (with_bounds a B2 s)) in Hlen3, H3.
  rewrite bounds_of_with_bounds in Hlen3, H3.
  cbn [mbind option_bind].
  rewrite with_bounds_with_proxyPool, with_bounds_twice.
  change (bounds_of a (with_proxyPool pool' (with_bounds a B3 s)))
    with (bounds_of a (with_bounds a B3 s)). rewrite bounds_of_with_bounds.
  assert (∀ i, 0 ≤ i < bc - 2 →
            value (bound_at B3 i) = value (bound_at bs (removed li ui i))) as Hv3.
  { intros i Hi. rewrite H3, <- HB2 by done. by case_decide. }
  assert (∀ i, 0 ≤ i < bc - 2 →
            proxyId (bound_at B3 i) = proxyId (bound_at bs (removed li ui i))) as Ho3.
  { intros i Hi. rewrite H3, <- HB2 by done. by case_decide. }
  assert (∀ i, 0 ≤ i < bc - 2 →
            stabbingCount (bound_at B3 i)
            = stabbingCount (bound_at bs (removed li ui i))
              + (if decide (li ≤ i < ui - 1) then -1 else 0)) as Hs3.
  { intros i Hi. rewrite H3, <- HB2 by done. case_decide; [done|simpl; lia]. }
  assert (∀ i, li ≤ i < bc - 2 →
            ptr a (IsLower (bound_at B3 i)) (proxy_at pool' (proxyId (bound_at B3 i))) = i)
    as Hfix3.
  { intros i Hi. rewrite H3. specialize (Hfix i Hi). by case_decide. }
  assert (∀ p r,
            (∀ i, li ≤ i < bc - 2 →
               ¬ (proxyId (bound_at B3 i) = p ∧ IsLower (bound_at B3 i) = r)) →
            ptr a r (proxy_at pool' p) = ptr a r (proxy_at (proxyPool s) p)) as Hkeep3.
  { intros p r Hno. apply Hkeep. intros i Hi. specialize (Hno i Hi).
    rewrite H3 in Hno. by case_decide. }
  assert (sorted_inv a B3 (bc - 2) pool' (λ p, L p ∧ p ≠ pid)) as HI'.
  { apply (remove_axis_inv a bs B3 bc li ui pid (proxyPool s) pool' L HI HL eq_refl eq_refl);
      try done; lia. }
  destruct (Query_spec (value (bound_at bs li)) (value (bound_at bs ui)) a B3 (bc - 2)
              (with_proxyPool pool' (with_bounds a B3 s)) (λ p, L p ∧ p ≠ pid) HI')
    as (lq & uq & sq & HQ & _ & Rl & _ & Ru & Hmarks & Hmf & HinL).
  rewrite HQ. cbn [mbind option_bind].
  exists B3, pool', lq, uq, sq. split_and!; try done; [lia|].
  intros p r Hp Hne.
  eapply (remove_values a bs B3 bc li ui pid (proxyPool s) pool' L HI HL eq_refl eq_refl);
    try done; lia.
Qed.

(** ** One bound crossing its neighbour *)

(** The bound at [k] (the mover) and its neighbour at [k'] exchange
    their positions; the running counts follow. *)
Definition cross_bounds (k k' : Z) (bs : list Bound) : list Bound :=
  let m := bound_at bs k in
  let n := bound_at bs k' in
  let d := if k' <? k then -1 else 1 in
  js_put (js_put bs k' (add_stabbingCount (d * sgn n) m)) k (add_stabbingCount (- d * sgn m) n).

(** The owner of the neighbour and the mover record the new positions. *)
Definition cross_pool (a : Axis) (k k' : Z) (pid : Z) (rm : bool) (bs : list Bound)
    (pool : list Proxy) : list Proxy :=
  let n := bound_at bs k' in
  let pool1 := js_put pool (proxyId n) (set_ptr a (IsLower n) k (proxy_at pool (proxyId n))) in
  js_put pool1 pid (set_ptr a rm k' (proxy_at pool1 pid)).

Section Cross.
Context (a : Axis) (bs : list Bound) (bc : Z) (pool : list Proxy) (L : Z → Prop)
  (k k' o pid : Z) (rm : bool).
Context (HI : axis_inv k o a bs bc pool L).
Context (HL : L pid).
Context (Hk : k = ptr a rm (proxy_at pool pid)).
Context (Ho : o = ptr a (negb rm) (proxy_at pool pid)).
Context (Hk' : 0 ≤ k' < bc) (Hadj : k' = k - 1 ∨ k' = k + 1) (Hko : k' ≠ o).

Local Lemma cross_mover :
  0 ≤ k < bc ∧ 0 ≤ o < bc ∧ k ≠ o ∧ in_pool pool pid ∧
  proxyId (bound_at bs k) = pid ∧ IsLower (bound_at bs k) = rm ∧
  proxyId (bound_at bs o) = pid ∧ IsLower (bound_at bs o) = negb rm ∧
  (if rm then k < o else o < k).
Proof.
  destruct (ai_proxy _ _ _ _ _ _ _ HI pid HL) as (Hin & H0 & Hlu & Hu & Hl1 & Hl2 & Hu1 & Hu2).
  destruct rm; cbn [negb] in *; subst k o; split_and!; try done; lia.
Qed.

Local Lemma cross_neighbour :
  proxyId (bound_at bs k') ≠ pid ∧ in_pool pool (proxyId (bound_at bs k')) ∧
  L (proxyId (bound_at bs k')) ∧
  ptr a (IsLower (bound_at bs k')) (proxy_at pool (proxyId (bound_at bs k'))) = k'.
Proof.
  destruct cross_mover as (? & ? & ? & ? & ? & ? & ? & ? & ?).
  destruct (ai_owner _ _ _ _ _ _ _ HI k' Hk') as (HLn & Hin & Hp).
  split; [|done]. intros E. rewrite E in Hp.
  destruct (decide (IsLower (bound_at bs k') = rm)) as [Er|Er].
  - rewrite Er in Hp. lia.
  - assert (IsLower (bound_at bs k') = negb rm) as Er'
      by (clear -Er; destruct rm, (IsLower (bound_at bs k')); cbn; congruence).
    rewrite Er' in Hp. lia.
Qed.

Local Lemma cross_length : 0 ≤ bc ≤ Z.of_nat (length bs).
Proof. apply HI. Qed.

Local Lemma cross_read i :
  bound_at (cross_bounds k k' bs) i
  = if decide (i = k) then
      add_stabbingCount (- (if k' <? k then -1 else 1) * sgn (bound_at bs k)) (bound_at bs k')
    else if decide (i = k') then
      add_stabbingCount ((if k' <? k then -1 else 1) * sgn (bound_at bs k')) (bound_at bs k)
    else bound_at bs i.
Proof.
  pose proof cross_length. destruct cross_mover as (? & _).
  unfold cross_bounds. cbv zeta.
  rewrite !bound_at_put by (rewrite ?length_js_put; lia).
  repeat (destruct (decide _); try lia); done.
Qed.

Local Lemma cross_ptr p r :
  ptr a r (proxy_at (cross_pool a k k' pid rm bs pool) p)
  = if decide (p = pid ∧ r = rm) then k'
    else if decide (p = proxyId (bound_at bs k') ∧ r = IsLower (bound_at bs k')) then k
    else ptr a r (proxy_at pool p).
Proof.
  destruct cross_mover as (_ & _ & _ & Hin & _).
  destruct cross_neighbour as (Hne & Hinn & _).
  unfold cross_pool. cbv zeta.
  rewrite ptr_put by (by apply in_pool_put).
  destruct (decide (p = pid ∧ r = rm)) as [|Hn1]; [done|].
  rewrite ptr_put by done. done.
Qed.

Local Lemma cross_reindexed : reindexed a pool (cross_pool a k k' pid rm bs pool).
Proof.
  destruct cross_mover as (_ & _ & _ & Hin & _).
  destruct cross_neighbour as (Hne & Hinn & _).
  unfold cross_pool. cbv zeta.
  eapply reindexed_trans; [by apply reindexed_put|].
  apply reindexed_put. by apply in_pool_put.
Qed.

(** The position a position of the new array takes its bound from. *)
Definition swapped (i : Z) : Z :=
  if decide (i = k) then k' else if decide (i = k') then k else i.

Local Lemma cross_value i :
  value (bound_at (cross_bounds k k' bs) i) = value (bound_at bs (swapped i)).
Proof. rewrite cross_read. unfold swapped. by repeat case_decide. Qed.

Local Lemma cross_owner i :
  proxyId (bound_at (cross_bounds k k' bs) i) = proxyId (bound_at bs (swapped i)).
Proof. rewrite cross_read. unfold swapped. by repeat case_decide. Qed.

Local Lemma cross_lower i :
  IsLower (bound_at (cross_bounds k k' bs) i) = IsLower (bound_at bs (swapped i)).
Proof. rewrite cross_read. unfold swapped. by repeat case_decide. Qed.

Local Lemma cross_ptr_swapped p r :
  L p → ptr a r (proxy_at (cross_pool a k k' pid rm bs pool) p)
        = swapped (ptr a r (proxy_at pool p)).
Proof.
  intros Hp. rewrite cross_ptr.
  destruct cross_mover as (Hkr & Hor & Hkne & Hin & Hmk & Hml & Hok & Hol & Hord).
  destruct cross_neighbour as (Hne & Hinn & HLn & Hpn).
  destruct (ai_proxy _ _ _ _ _ _ _ HI p Hp) as (_ & H0 & Hlu & Hu & Hl1 & Hl2 & Hu1 & Hu2).
  assert (proxyId (bound_at bs (ptr a r (proxy_at pool p))) = p ∧
          IsLower (bound_at bs (ptr a r (proxy_at pool p))) = r) as [Hid Hrole]
    by (by destruct r).
  unfold swapped.
  destruct (decide (p = pid ∧ r = rm)) as [[-> ->]|Hn1].
  { rewrite <- Hk. by rewrite decide_True. }
  destruct (decide (ptr a r (proxy_at pool p) = k)) as [E|Hn2].
  { exfalso. apply Hn1. rewrite E in Hid, Hrole. split; congruence. }
  destruct (decide (p = proxyId (bound_at bs k') ∧ r = IsLower (bound_at bs k')))
    as [[-> ->]|Hn3].
  { rewrite Hpn. by rewrite decide_True. }
  rewrite decide_False; [done|].
  intros E. apply Hn3. rewrite E in Hid, Hrole. split; congruence.
Qed.

Local Lemma swapped_range i : 0 ≤ i < bc → 0 ≤ swapped i < bc.
Proof.
  destruct cross_mover as (? & _). intros Hi. unfold swapped. repeat case_decide; lia.
Qed.

Local Lemma swapped_swapped i : swapped (swapped i) = i.
Proof. unfold swapped. repeat case_decide; lia. Qed.

Local Lemma cross_sorted i j :
  0 ≤ i → i ≤ j → j < bc → i ≠ k' → i ≠ o → j ≠ k' → j ≠ o →
  value (bound_at (cross_bounds k k' bs) i) ≤ value (bound_at (cross_bounds k k' bs) j).
Proof.
  intros Hi Hij Hj H1 H2 H3 H4. rewrite !cross_value.
  destruct cross_mover as (? & ? & ? & _).
  apply (ai_sorted _ _ _ _ _ _ _ HI); unfold swapped; repeat case_decide; lia.
Qed.

Local Lemma cross_ai_owner i :
  0 ≤ i < bc →
  L (proxyId (bound_at (cross_bounds k k' bs) i)) ∧
  in_pool (cross_pool a k k' pid rm bs pool) (proxyId (bound_at (cross_bounds k k' bs) i)) ∧
  ptr a (IsLower (bound_at (cross_bounds k k' bs) i))
    (proxy_at (cross_pool a k k' pid rm bs pool) (proxyId (bound_at (cross_bounds k k' bs) i)))
  = i.
Proof.
  intros Hi. rewrite cross_owner, cross_lower.
  destruct (ai_owner _ _ _ _ _ _ _ HI _ (swapped_range i Hi)) as (HLi & Hin & Hp).
  split; [done|]. split; [by apply (in_pool_reindexed _ _ _ _ cross_reindexed)|].
  rewrite cross_ptr_swapped by done. rewrite Hp. apply swapped_swapped.
Qed.

Local Lemma cross_ai_proxy p :
  L p →
  in_pool (cross_pool a k k' pid rm bs pool) p ∧
  0 ≤ ptr a true (proxy_at (cross_pool a k k' pid rm bs pool) p) ∧
  ptr a true (proxy_at (cross_pool a k k' pid rm bs pool) p)
    < ptr a false (proxy_at (cross_pool a k k' pid rm bs pool) p) ∧
  ptr a false (proxy_at (cross_pool a k k' pid rm bs pool) p) < bc ∧
  proxyId (bound_at (cross_bounds k k' bs)
             (ptr a true (proxy_at (cross_pool a k k' pid rm bs pool) p))) = p ∧
  IsLower (bound_at (cross_bounds k k' bs)
             (ptr a true (proxy_at (cross_pool a k k' pid rm bs pool) p))) = true ∧
  proxyId (bound_at (cross_bounds k k' bs)
             (ptr a false (proxy_at (cross_pool a k k' pid rm bs pool) p))) = p ∧
  IsLower (bound_at (cross_bounds k k' bs)
             (ptr a false (proxy_at (cross_pool a k k' pid rm bs pool) p))) = false.
Proof.
  intros Hp. rewrite !cross_ptr_swapped by done.
  rewrite !cross_owner, !cross_lower, !swapped_swapped.
  destruct (ai_proxy _ _ _ _ _ _ _ HI p Hp) as (Hin & H0 & Hlu & Hu & Hl1 & Hl2 & Hu1 & Hu2).
  destruct cross_mover as (Hkr & Hor & Hkne & _ & Hmk & Hml & Hok & Hol & Hord).
  destruct cross_neighbour as (Hne & _).
  split; [by apply (in_pool_reindexed _ _ _ _ cross_reindexed)|].
  set (l := ptr a true (proxy_at pool p)) in *.
  set (u := ptr a false (proxy_at pool p)) in *.
  assert (¬ (l = k ∧ u = k') ∧ ¬ (l = k' ∧ u = k)) as [Hx Hy].
  { split; intros [E1 E2]; rewrite E1, E2 in *; congruence. }
  assert (l = k → u = o) as Hlk.
  { intros E. rewrite E in *. assert (p = pid) as -> by congruence.
    assert (rm = true) as -> by congruence. done. }
  assert (u = k → l = o) as Huk.
  { intros E. rewrite E in *. assert (p = pid) as -> by congruence.
    assert (rm = false) as -> by congruence. done. }
  split_and!; try done; unfold swapped; repeat case_decide; lia.
Qed.

Local Lemma cross_stab i :
  0 ≤ i < bc →
  stabbingCount (bound_at (cross_bounds k k' bs) i)
  = (if i =? 0 then 0 else stabbingCount (bound_at (cross_bounds k k' bs) (i - 1)))
    + sgn (bound_at (cross_bounds k k' bs) i).
Proof.
  intros Hi.
  assert (∀ j, 0 ≤ j < bc → stabbingCount (bound_at bs j)
    = (if j =? 0 then 0 else stabbingCount (bound_at bs (j - 1))) + sgn (bound_at bs j))
    as Hst by apply HI.
  destruct cross_mover as (Hkr & _).
  rewrite !cross_read.
  destruct Hadj as [E|E]; subst k'.
  - (* the mover goes down *)
    destruct (Z.ltb_spec (k - 1) k) as [_|?]; [|lia].
    destruct (decide (i = k - 1)) as [->|H1]; [|destruct (decide (i = k)) as [->|H2];
      [|destruct (decide (i = k + 1)) as [->|H3]]].
    + settle. rewrite sgn_add_stabbingCount.
      cbn [stabbingCount add_stabbingCount set_stabbingCount].
      rewrite (Hst k), (Hst (k - 1)) by lia.
      destruct (Z.eqb_spec k 0); [lia|]. destruct (Z.eqb_spec (k - 1) 0); lia.
    + settle. rewrite sgn_add_stabbingCount.
      cbn [stabbingCount add_stabbingCount set_stabbingCount].
      rewrite (Hst k) by lia.
      destruct (Z.eqb_spec k 0); [lia|]. lia.
    + settle. replace (k + 1 - 1) with k by lia. settle.
      cbn [stabbingCount add_stabbingCount set_stabbingCount].
      rewrite (Hst (k + 1)) by lia.
      replace (k + 1 - 1) with k by lia. rewrite (Hst k) by lia.
      destruct (Z.eqb_spec (k + 1) 0); [lia|]. destruct (Z.eqb_spec k 0); lia.
    + settle. rewrite (Hst i) by lia. destruct (Z.eqb_spec i 0); [done|]. settle. done.
  - (* the mover goes up *)
    destruct (Z.ltb_spec (k + 1) k) as [?|_]; [lia|].
    destruct (decide (i = k)) as [->|H1]; [|destruct (decide (i = k + 1)) as [->|H2];
      [|destruct (decide (i = k + 2)) as [->|H3]]].
    + settle. rewrite sgn_add_stabbingCount.
      cbn [stabbingCount add_stabbingCount set_stabbingCount].
      rewrite (Hst (k + 1)) by lia.
      replace (k + 1 - 1) with k by lia. rewrite (Hst k) by lia.
      destruct (Z.eqb_spec (k + 1) 0); [lia|]. destruct (Z.eqb_spec k 0); lia.
    + settle. replace (k + 1 - 1) with k by lia. settle. rewrite sgn_add_stabbingCount.
      cbn [stabbingCount add_stabbingCount set_stabbingCount].
      rewrite (Hst (k + 1)) by lia. replace (k + 1 - 1) with k by lia.
      destruct (Z.eqb_spec (k + 1) 0); [lia|]. lia.
    + settle. replace (k + 2 - 1) with (k + 1) by lia. settle.
      cbn [stabbingCount add_stabbingCount set_stabbingCount].
      rewrite (Hst (k + 2)) by lia.
      replace (k + 2 - 1) with (k + 1) by lia. rewrite (Hst (k + 1)) by lia.
      replace (k + 1 - 1) with k by lia.
      destruct (Z.eqb_spec (k + 2) 0); [lia|]. destruct (Z.eqb_spec (k + 1) 0); lia.
    + settle. rewrite (Hst i) by lia. destruct (Z.eqb_spec i 0); [done|]. settle. done.
Qed.

(** The bounds keep their values as they cross. *)
Lemma cross_valof p r :
  L p →
  value (bound_at (cross_bounds k k' bs)
           (ptr a r (proxy_at (cross_pool a k k' pid rm bs pool) p)))
  = value (bound_at bs (ptr a r (proxy_at pool p))).
Proof.
  intros Hp. rewrite cross_ptr_swapped by done. by rewrite cross_value, swapped_swapped.
Qed.

Lemma cross_axis_inv :
  axis_inv k' o a (cross_bounds k k' bs) bc (cross_pool a k k' pid rm bs pool) L.
Proof.
  split.
  - pose proof cross_length. destruct cross_mover as (? & _).
    unfold cross_bounds. cbv zeta. rewrite !length_js_put. lia.
  - apply cross_sorted.
  - apply cross_ai_owner.
  - apply cross_ai_proxy.
  - apply cross_stab.
Qed.
End Cross.

(** ** Executing one iteration of the loops of MoveProxy *)

Lemma js_ext {A} (l1 l2 : list A) : (∀ i, js_get l1 i = js_get l2 i) → l1 = l2.
Proof.
  intros H. apply list_eq. intros n. specialize (H (Z.of_nat n)).
  unfold js_get in H. destruct (Z.of_nat n <? 0) eqn:E; [apply Z.ltb_lt in E; lia|].
  by rewrite Nat2Z.id in H.
Qed.

Lemma TestOverlap_total b p s :
  in_pool (proxyPool s) p →
  (∀ ax r, 0 ≤ ptr ax r (proxy_at (proxyPool s) p) < Z.of_nat (length (bounds_of ax s))) →
  ∃ ov, TestOverlap b p s = Some ov.
Proof.
  intros Hin Hr.
  assert (∀ ax, ∃ ov, TestOverlap_axis ax b p s = Some ov) as Hax.
  { intros ax. unfold TestOverlap_axis. rewrite (js_get_proxy_at _ _ Hin).
    cbn [mbind option_bind].
    rewrite (js_get_bound_at (bounds_of ax s) (sel ax (upperBounds _))) by apply (Hr ax false).
    cbn [mbind option_bind]. destruct (_ >? _); [by eexists|].
    rewrite (js_get_bound_at (bounds_of ax s) (sel ax (lowerBounds _))) by apply (Hr ax true).
    cbn [mbind option_bind]. destruct (_ <? _); by eexists. }
  unfold TestOverlap. destruct (Hax axis0) as [ov0 ->]. cbn [mbind option_bind].
  destruct ov0; [apply Hax|by eexists].
Qed.

Ltac state_simpl :=
  cbn [bounds_of with_bounds with_proxyPool with_pairManager with_queryResults
       with_proxyCount with_freeProxy with_timeStamp buffer_pair commit_pairs
       sel upd fst snd other
       m_pairManager proxyPool m_bounds m_queryResults m_queryResultCount
       m_quantizationFactor m_worldAABB m_proxyCount m_freeProxy m_timeStamp] in *.

(** The state after one crossing: the bound array of the axis and the
    pool are as [cross_bounds] and [cross_pool] say, and nothing else
    changed but that the pair manager may have buffered a pair. *)
Definition crossed (a : Axis) (k k' pid : Z) (rm : bool) (s s' : BroadPhase) : Prop :=
  ∃ pm, s' = with_pairManager pm
               (with_proxyPool (cross_pool a k k' pid rm (bounds_of a s) (proxyPool s))
                  (with_bounds a (cross_bounds k k' (bounds_of a s)) s)).

(** The pair manager after the mover [pid] has crossed the bound at
    [k']: a bound with the role the loop tests, of a proxy that
    [TestOverlap] accepts for [vals], makes the loop call [f]. *)
Definition pm_crossed (f : Z → Z → PairManager → PairManager) (role : bool)
    (vals : (Z * Z) * (Z * Z)) (a : Axis) (pid : Z) (s : BroadPhase) (k' : Z) : PairManager :=
  let n := bound_at (bounds_of a s) k' in
  if decide (IsLower n = role) then
    match TestOverlap vals (proxyId n) s with
    | Some true => f pid (proxyId n) (m_pairManager s)
    | _ => m_pairManager s
    end
  else m_pairManager s.

(** [TestOverlap] reads the values of the bounds only. *)
Lemma TestOverlap_stab a b p s i x :
  0 ≤ i < Z.of_nat (length (bounds_of a s)) →
  value x = value (bound_at (bounds_of a s) i) →
  TestOverlap b p (with_bounds a (js_put (bounds_of a s) i x) s) = TestOverlap b p s.
Proof.
  intros Hi Hx.
  assert (∀ ax j, value <$> js_get (bounds_of ax (with_bounds a (js_put (bounds_of a s) i x) s)) j
                  = value <$> js_get (bounds_of ax s) j) as Hget.
  { intros ax j. destruct (decide (ax = a)) as [->|Hne].
    - rewrite bounds_of_with_bounds, js_get_put. case_decide as E; [|done].
      destruct E as [<- _]. rewrite (js_get_bound_at _ i) by done. cbn. by rewrite Hx.
    - replace ax with (other a) by (by destruct a, ax).
      by rewrite bounds_of_with_bounds_other. }
  assert (∀ ax, TestOverlap_axis ax b p (with_bounds a (js_put (bounds_of a s) i x) s)
                = TestOverlap_axis ax b p s) as Hax.
  { intros ax. unfold TestOverlap_axis. cbn [proxyPool with_bounds].
    destruct (js_get (proxyPool s) p) as [px|]; [|done]. cbn [mbind option_bind].
    pose proof (Hget ax (sel ax (upperBounds px))) as Hu.
    pose proof (Hget ax (sel ax (lowerBounds px))) as Hl.
    destruct (js_get (bounds_of ax (with_bounds a _ s)) (sel ax (upperBounds px))) as [bu|],
             (js_get (bounds_of ax s) (sel ax (upperBounds px))) as [bu'|];
      cbn in Hu; try done. injection Hu as Hu. cbn [mbind option_bind]. rewrite Hu.
    destruct (_ >? _); [done|].
    destruct (js_get (bounds_of ax (with_bounds a _ s)) (sel ax (lowerBounds px))) as [bl|],
             (js_get (bounds_of ax s) (sel ax (lowerBounds px))) as [bl'|];
      cbn in Hl; try done. injection Hl as Hl. cbn [mbind option_bind]. by rewrite Hl. }
  unfold TestOverlap. by rewrite !Hax.
Qed.

Section CrossExec.
Context (a : Axis) (s : BroadPhase) (bc : Z) (L : Z → Prop) (k k' o pid : Z) (rm : bool).
Context (e1 e2 bc' : Z).
Context (HI : axis_inv k o a (bounds_of a s) bc (proxyPool s) L).
Context (HO : axis_inv e1 e2 (other a) (bounds_of (other a) s) bc' (proxyPool s) L).
Context (HL : L pid).
Context (Hk : k = ptr a rm (proxy_at (proxyPool s) pid)).
Context (Ho : o = ptr a (negb rm) (proxy_at (proxyPool s) pid)).
Context (Hk' : 0 ≤ k' < bc) (Hadj : k' = k - 1 ∨ k' = k + 1) (Hko : k' ≠ o).

Local Lemma exec_overlap vals sc1 pm :
  ∃ ov, TestOverlap vals (proxyId (bound_at (bounds_of a s) k'))
          (with_pairManager pm
             (with_bounds a (js_put (bounds_of a s) k' sc1) s)) = Some ov.
Proof.
  destruct (cross_neighbour a _ bc _ L k k' o pid rm HI HL Hk Ho Hk' Hadj Hko)
    as (Hne & Hin & HLn & Hp).
  apply TestOverlap_total; [done|].
  intros ax r. cbn [proxyPool with_bounds with_pairManager].
  destruct (ai_proxy _ _ _ _ _ _ _ HI _ HLn) as (_ & ? & ? & ? & _).
  destruct (ai_proxy _ _ _ _ _ _ _ HO _ HLn) as (_ & ? & ? & ? & _).
  pose proof (ai_range _ _ _ _ _ _ _ HI). pose proof (ai_range _ _ _ _ _ _ _ HO).
  destruct s as [? ? [b0 b1] ? ? ? ? ? ? ?], a, ax, r; state_simpl;
    rewrite ?length_js_put; lia.
Qed.

(** The facts the execution of an iteration needs. *)
Local Lemma exec_facts :
  let bs := bounds_of a s in
  let n := bound_at bs k' in
  0 ≤ k < Z.of_nat (length bs) ∧ 0 ≤ k' < Z.of_nat (length bs) ∧ k ≠ k' ∧
  in_pool (proxyPool s) pid ∧ in_pool (proxyPool s) (proxyId n) ∧
  proxyId n ≠ pid ∧
  IsLower (bound_at bs k) = rm ∧
  ptr a (IsLower n) (proxy_at (proxyPool s) (proxyId n)) = k'.
Proof.
  destruct (cross_neighbour a _ bc _ L k k' o pid rm HI HL Hk Ho Hk' Hadj Hko)
    as (Hne & Hin & HLn & Hp).
  destruct (cross_mover a _ bc _ L k k' o pid rm HI HL Hk Ho Hk' Hadj Hko)
    as (Hkr & Hor & Hkne & Hinp & Hmk & Hml & _).
  pose proof (ai_range _ _ _ _ _ _ _ HI).
  cbv zeta. split_and!; try done; lia.
Qed.
End CrossExec.

Lemma bounds_of_with_proxyPool a p s : bounds_of a (with_proxyPool p s) = bounds_of a s.
Proof. done. Qed.
Lemma bounds_of_with_pairManager a p s : bounds_of a (with_pairManager p s) = bounds_of a s.
Proof. done. Qed.
Lemma bounds_of_buffer_pair a f p q ov s : bounds_of a (buffer_pair f p q ov s) = bounds_of a s.
Proof. by destruct ov. Qed.
Lemma proxyPool_with_bounds a B s : proxyPool (with_bounds a B s) = proxyPool s.
Proof. done. Qed.
Lemma proxyPool_with_proxyPool p s : proxyPool (with_proxyPool p s) = p.
Proof. done. Qed.
Lemma proxyPool_with_pairManager p s : proxyPool (with_pairManager p s) = proxyPool s.
Proof. done. Qed.
Lemma proxyPool_buffer_pair f p q ov s : proxyPool (buffer_pair f p q ov s) = proxyPool s.
Proof. by destruct ov. Qed.

Create Rewrite HintDb bp.
#[local] Hint Rewrite bounds_of_with_bounds bounds_of_with_bounds_other
  bounds_of_with_proxyPool bounds_of_with_pairManager bounds_of_buffer_pair
  proxyPool_with_bounds proxyPool_with_proxyPool proxyPool_with_pairManager
  proxyPool_buffer_pair @length_js_put : bp.

Lemma with_bounds_with_pairManager a B pm s :
  with_bounds a B (with_pairManager pm s) = with_pairManager pm (with_bounds a B s).
Proof. done. Qed.
Lemma with_proxyPool_with_pairManager P pm s :
  with_proxyPool P (with_pairManager pm s) = with_pairManager pm (with_proxyPool P s).
Proof. done. Qed.
Lemma with_proxyPool_twice P P' s : with_proxyPool P (with_proxyPool P' s) = with_proxyPool P s.
Proof. done. Qed.
Lemma with_pairManager_twice pm pm' s :
  with_pairManager pm (with_pairManager pm' s) = with_pairManager pm s.
Proof. done. Qed.
Lemma with_pairManager_same a P B s :
  with_pairManager (m_pairManager s) (with_proxyPool P (with_bounds a B s))
  = with_proxyPool P (with_bounds a B s).
Proof. done. Qed.

Create Rewrite HintDb norm.
#[local] Hint Rewrite with_bounds_with_proxyPool with_bounds_with_pairManager
  with_proxyPool_with_pairManager with_bounds_twice with_proxyPool_twice
  with_pairManager_twice : norm.

Lemma swap_puts (bs : list Bound) k k' x y :
  k ≠ k' → 0 ≤ k < Z.of_nat (length bs) → 0 ≤ k' < Z.of_nat (length bs) →
  js_put (js_put (js_put (js_put bs k' x) k y) k
            (bound_at (js_put (js_put bs k' x) k y) k')) k'
         (bound_at (js_put (js_put bs k' x) k y) k)
  = js_put (js_put bs k' y) k x.
Proof.
  intros Hne Hk Hk'. apply js_ext. intros i.
  rewrite !bound_at_put by (rewrite ?length_js_put; lia).
  rewrite !js_get_put, !length_js_put.
  repeat (case_decide; try lia); try done; naive_solver lia.
Qed.

Lemma Swap_exec a i j s :
  0 ≤ i < Z.of_nat (length (bounds_of a s)) → 0 ≤ j < Z.of_nat (length (bounds_of a s)) →
  Swap a i j s
  = Some (with_bounds a (js_put (js_put (bounds_of a s) i (bound_at (bounds_of a s) j)) j
                           (bound_at (bounds_of a s) i)) s).
Proof.
  intros Hi Hj. unfold Swap.
  by rewrite (js_get_bound_at _ i), (js_get_bound_at _ j) by done.
Qed.

Lemma lowerDown_step_exec a s bc L k o pid e1 e2 bc' vals :
  axis_inv k o a (bounds_of a s) bc (proxyPool s) L →
  axis_inv e1 e2 (other a) (bounds_of (other a) s) bc' (proxyPool s) L →
  L pid →
  k = ptr a true (proxy_at (proxyPool s) pid) →
  o = ptr a false (proxy_at (proxyPool s) pid) →
  0 ≤ k - 1 < bc → k - 1 ≠ o →
  ∃ s', MoveProxy_lowerDown_step a pid vals k s = Some s' ∧ crossed a k (k - 1) pid true s s' ∧
    m_pairManager s' = pm_crossed AddBufferedPair false vals a pid s (k - 1).
Proof.
  intros HI HO HL Hk Ho Hk' Hko.
  pose proof (exec_facts a s bc L k (k - 1) o pid true HI HL Hk Ho Hk' ltac:(lia) Hko)
    as (F1 & F2 & F3 & F4 & F5 & F6 & F7 & F8).
  cbv zeta in *.
  unfold MoveProxy_lowerDown_step.
  rewrite (js_get_bound_at _ (k - 1)) by lia. cbn [mbind option_bind].
  rewrite upd_bound_in by lia. cbn [mbind option_bind].
  rewrite IsUpper_IsLower.
  set (bs := bounds_of a s) in *. set (nb := bound_at bs (k - 1)) in *.
  set (q := proxyId nb) in *.
  destruct (exec_overlap a s bc L k (k - 1) o pid true e1 e2 bc' HI HO HL Hk Ho Hk'
              ltac:(lia) Hko vals (add_stabbingCount 1 nb) (m_pairManager s)) as [ov Hov].
  fold bs nb q in Hov.
  assert (with_pairManager (m_pairManager s) (with_bounds a (js_put bs (k - 1) (add_stabbingCount 1 nb)) s)
          = with_bounds a (js_put bs (k - 1) (add_stabbingCount 1 nb)) s) as Epm by (by destruct s).
  rewrite Epm in Hov. clear Epm.
  assert (TestOverlap vals q s = Some ov) as Hov0.
  { rewrite <- Hov. symmetry. apply TestOverlap_stab; [fold bs; lia|done]. }
  destruct (IsLower nb) eqn:Hn; cbn [negb].
  - rewrite upd_proxy_in by (autorewrite with bp; done). cbn [mbind option_bind].
    rewrite upd_bound_in by (autorewrite with bp; fold bs; lia).
    cbn [mbind option_bind].
    rewrite upd_proxy_in by (autorewrite with bp; by apply in_pool_put).
    cbn [mbind option_bind].
    rewrite Swap_exec by (autorewrite with bp; fold bs; lia).
    autorewrite with bp. fold bs nb q.
    eexists. split; [done|].
    split; [|unfold pm_crossed; cbv zeta; fold bs nb; rewrite Hn; by rewrite decide_False].
    exists (m_pairManager s).
    autorewrite with norm. rewrite with_pairManager_same. fold bs.
    f_equal; [|f_equal].
    + unfold cross_pool. cbv zeta. fold nb q. rewrite Hn.
      rewrite !proxy_at_put by done. rewrite !(decide_False (P := q = pid)) by done.
      f_equal; [f_equal|].
      * unfold bump_lowerBound, set_ptr. f_equal. change (ptr a true ?p) with (sel a (lowerBounds p)) in F8. lia.
      * unfold bump_lowerBound, set_ptr. f_equal.
        change (ptr a true ?p) with (sel a (lowerBounds p)) in Hk. lia.
    + rewrite (bound_at_put bs (k - 1) k) by lia. rewrite decide_False by lia.
      rewrite swap_puts by lia. unfold cross_bounds. cbv zeta. fold nb.
      destruct (Z.ltb_spec (k - 1) k); [|lia].
      unfold sgn. rewrite Hn, F7. done.
  - rewrite Hov. cbn [mbind option_bind].
    set (pm1 := if ov then AddBufferedPair pid q (m_pairManager s) else m_pairManager s).
    assert (buffer_pair AddBufferedPair pid q ov
              (with_bounds a (js_put bs (k - 1) (add_stabbingCount 1 nb)) s)
            = with_pairManager pm1
                (with_bounds a (js_put bs (k - 1) (add_stabbingCount 1 nb)) s)) as ->
      by (unfold pm1; destruct ov, s; done).
    rewrite upd_proxy_in by (autorewrite with bp; done). cbn [mbind option_bind].
    rewrite upd_bound_in by (autorewrite with bp; fold bs; lia).
    cbn [mbind option_bind].
    rewrite upd_proxy_in by (autorewrite with bp; by apply in_pool_put).
    cbn [mbind option_bind].
    rewrite Swap_exec by (autorewrite with bp; fold bs; lia).
    autorewrite with bp. fold bs nb q.
    eexists. split; [done|].
    split; [|unfold pm_crossed; cbv zeta; fold bs nb q; rewrite Hn, decide_True, Hov0 by done;
             unfold pm1; by destruct ov].
    exists pm1.
    autorewrite with norm. fold bs.
    f_equal. f_equal; [|f_equal].
    + unfold cross_pool. cbv zeta. fold nb q. rewrite Hn.
      rewrite !proxy_at_put by done. rewrite !(decide_False (P := q = pid)) by done.
      f_equal; [f_equal|].
      * unfold bump_upperBound, set_ptr. f_equal.
        change (ptr a false ?p) with (sel a (upperBounds p)) in F8. lia.
      * unfold bump_lowerBound, set_ptr. f_equal.
        change (ptr a true ?p) with (sel a (lowerBounds p)) in Hk. lia.
    + rewrite (bound_at_put bs (k - 1) k) by lia. rewrite decide_False by lia.
      rewrite swap_puts by lia. unfold cross_bounds. cbv zeta. fold nb.
      destruct (Z.ltb_spec (k - 1) k); [|lia].
      unfold sgn. rewrite Hn, F7. done.
Qed.

Lemma upperUp_step_exec a s bc L k o pid e1 e2 bc' vals :
  axis_inv k o a (bounds_of a s) bc (proxyPool s) L →
  axis_inv e1 e2 (other a) (bounds_of (other a) s) bc' (proxyPool s) L →
  L pid →
  k = ptr a false (proxy_at (proxyPool s) pid) →
  o = ptr a true (proxy_at (proxyPool s) pid) →
  0 ≤ k + 1 < bc → k + 1 ≠ o →
  ∃ s', MoveProxy_upperUp_step a pid vals k s = Some s' ∧ crossed a k (k + 1) pid false s s' ∧
    m_pairManager s' = pm_crossed AddBufferedPair true vals a pid s (k + 1).
Proof.
  intros HI HO HL Hk Ho Hk' Hko.
  pose proof (exec_facts a s bc L k (k + 1) o pid false HI HL Hk Ho Hk' ltac:(lia) Hko)
    as (F1 & F2 & F3 & F4 & F5 & F6 & F7 & F8).
  cbv zeta in *.
  unfold MoveProxy_upperUp_step.
  rewrite (js_get_bound_at _ (k + 1)) by lia. cbn [mbind option_bind].
  rewrite upd_bound_in by lia. cbn [mbind option_bind].
  set (bs := bounds_of a s) in *. set (nb := bound_at bs (k + 1)) in *.
  set (q := proxyId nb) in *.
  destruct (exec_overlap a s bc L k (k + 1) o pid false e1 e2 bc' HI HO HL Hk Ho Hk'
              ltac:(lia) Hko vals (add_stabbingCount 1 nb) (m_pairManager s)) as [ov Hov].
  fold bs nb q in Hov.
  assert (with_pairManager (m_pairManager s)
            (with_bounds a (js_put bs (k + 1) (add_stabbingCount 1 nb)) s)
          = with_bounds a (js_put bs (k + 1) (add_stabbingCount 1 nb)) s) as Epm
    by (by destruct s).
  rewrite Epm in Hov. clear Epm.
  assert (TestOverlap vals q s = Some ov) as Hov0.
  { rewrite <- Hov. symmetry. apply TestOverlap_stab; [fold bs; lia|done]. }
  destruct (IsLower nb) eqn:Hn.
  - rewrite Hov. cbn [mbind option_bind].
    set (pm1 := if ov then AddBufferedPair pid q (m_pairManager s) else m_pairManager s).
    assert (buffer_pair AddBufferedPair pid q ov
              (with_bounds a (js_put bs (k + 1) (add_stabbingCount 1 nb)) s)
            = with_pairManager pm1
                (with_bounds a (js_put bs (k + 1) (add_stabbingCount 1 nb)) s)) as ->
      by (unfold pm1; destruct ov, s; done).
    rewrite upd_proxy_in by (autorewrite with bp; done). cbn [mbind option_bind].
    rewrite upd_bound_in by (autorewrite with bp; fold bs; lia).
    cbn [mbind option_bind].
    rewrite upd_proxy_in by (autorewrite with bp; by apply in_pool_put).
    cbn [mbind option_bind].
    rewrite Swap_exec by (autorewrite with bp; fold bs; lia).
    autorewrite with bp. fold bs nb q.
    eexists. split; [done|].
    split; [|unfold pm_crossed; cbv zeta; fold bs nb q; rewrite Hn, decide_True, Hov0 by done;
             unfold pm1; by destruct ov].
    exists pm1.
    autorewrite with norm. fold bs.
    f_equal. f_equal; [|f_equal].
    + unfold cross_pool. cbv zeta. fold nb q. rewrite Hn.
      rewrite !proxy_at_put by done. rewrite !(decide_False (P := q = pid)) by done.
      f_equal; [f_equal|].
      * unfold bump_lowerBound, set_ptr. f_equal.
        change (ptr a true ?p) with (sel a (lowerBounds p)) in F8. lia.
      * unfold bump_upperBound, set_ptr. f_equal.
        change (ptr a false ?p) with (sel a (upperBounds p)) in Hk. lia.
    + rewrite (bound_at_put bs (k + 1) k) by lia. rewrite decide_False by lia.
      rewrite swap_puts by lia. unfold cross_bounds. cbv zeta. fold nb.
      destruct (Z.ltb_spec (k + 1) k); [lia|].
      unfold sgn. rewrite Hn, F7. done.
  - rewrite upd_proxy_in by (autorewrite with bp; done). cbn [mbind option_bind].
    rewrite upd_bound_in by (autorewrite with bp; fold bs; lia).
    cbn [mbind option_bind].
    rewrite upd_proxy_in by (autorewrite with bp; by apply in_pool_put).
    cbn [mbind option_bind].
    rewrite Swap_exec by (autorewrite with bp; fold bs; lia).
    autorewrite with bp. fold bs nb q.
    eexists. split; [done|].
    split; [|unfold pm_crossed; cbv zeta; fold bs nb; rewrite Hn; by rewrite decide_False].
    exists (m_pairManager s).
    autorewrite with norm. rewrite with_pairManager_same. fold bs.
    f_equal; [|f_equal].
    + unfold cross_pool. cbv zeta. fold nb q. rewrite Hn.
      rewrite !proxy_at_put by done. rewrite !(decide_False (P := q = pid)) by done.
      f_equal; [f_equal|].
      * unfold bump_upperBound, set_ptr. f_equal.
        change (ptr a false ?p) with (sel a (upperBounds p)) in F8. lia.
      * unfold bump_upperBound, set_ptr. f_equal.
        change (ptr a false ?p) with (sel a (upperBounds p)) in Hk. lia.
    + rewrite (bound_at_put bs (k + 1) k) by lia. rewrite decide_False by lia.
      rewrite swap_puts by lia. unfold cross_bounds. cbv zeta. fold nb.
      destruct (Z.ltb_spec (k + 1) k); [lia|].
      unfold sgn. rewrite Hn, F7. done.
Qed.

Lemma lowerUp_step_exec a s bc L k o pid e1 e2 bc' vals :
  axis_inv k o a (bounds_of a s) bc (proxyPool s) L →
  axis_inv e1 e2 (other a) (bounds_of (other a) s) bc' (proxyPool s) L →
  L pid →
  k = ptr a true (proxy_at (proxyPool s) pid) →
  o = ptr a false (proxy_at (proxyPool s) pid) →
  0 ≤ k + 1 < bc → k + 1 ≠ o →
  ∃ s', MoveProxy_lowerUp_step a pid vals k s = Some s' ∧ crossed a k (k + 1) pid true s s' ∧
    m_pairManager s' = pm_crossed RemoveBufferedPair false vals a pid s (k + 1).
Proof.
  intros HI HO HL Hk Ho Hk' Hko.
  pose proof (exec_facts a s bc L k (k + 1) o pid true HI HL Hk Ho Hk' ltac:(lia) Hko)
    as (F1 & F2 & F3 & F4 & F5 & F6 & F7 & F8).
  cbv zeta in *.
  unfold MoveProxy_lowerUp_step.
  rewrite (js_get_bound_at _ (k + 1)) by lia. cbn [mbind option_bind].
  rewrite upd_bound_in by lia. cbn [mbind option_bind].
  rewrite IsUpper_IsLower.
  set (bs := bounds_of a s) in *. set (nb := bound_at bs (k + 1)) in *.
  set (q := proxyId nb) in *.
  destruct (exec_overlap a s bc L k (k + 1) o pid true e1 e2 bc' HI HO HL Hk Ho Hk'
              ltac:(lia) Hko vals (add_stabbingCount (-1) nb) (m_pairManager s)) as [ov Hov].
  fold bs nb q in Hov.
  assert (with_pairManager (m_pairManager s)
            (with_bounds a (js_put bs (k + 1) (add_stabbingCount (-1) nb)) s)
          = with_bounds a (js_put bs (k + 1) (add_stabbingCount (-1) nb)) s) as Epm
    by (by destruct s).
  rewrite Epm in Hov. clear Epm.
  assert (TestOverlap vals q s = Some ov) as Hov0.
  { rewrite <- Hov. symmetry. apply TestOverlap_stab; [fold bs; lia|done]. }
  destruct (IsLower nb) eqn:Hn; cbn [negb].
  - rewrite upd_proxy_in by (autorewrite with bp; done). cbn [mbind option_bind].
    rewrite upd_bound_in by (autorewrite with bp; fold bs; lia).
    cbn [mbind option_bind].
    rewrite upd_proxy_in by (autorewrite with bp; by apply in_pool_put).
    cbn [mbind option_bind].
    rewrite Swap_exec by (autorewrite with bp; fold bs; lia).
    autorewrite with bp. fold bs nb q.
    eexists. split; [done|].
    split; [|unfold pm_crossed; cbv zeta; fold bs nb; rewrite Hn; by rewrite decide_False].
    exists (m_pairManager s).
    autorewrite with norm. rewrite with_pairManager_same. fold bs.
    f_equal; [|f_equal].
    + unfold cross_pool. cbv zeta. fold nb q. rewrite Hn.
      rewrite !proxy_at_put by done. rewrite !(decide_False (P := q = pid)) by done.
      f_equal; [f_equal|].
      * unfold bump_lowerBound, set_ptr. f_equal.
        change (ptr a true ?p) with (sel a (lowerBounds p)) in F8. lia.
      * unfold bump_lowerBound, set_ptr. f_equal.
        change (ptr a true ?p) with (sel a (lowerBounds p)) in Hk. lia.
    + rewrite (bound_at_put bs (k + 1) k) by lia. rewrite decide_False by lia.
      rewrite swap_puts by lia. unfold cross_bounds. cbv zeta. fold nb.
      destruct (Z.ltb_spec (k + 1) k); [lia|].
      unfold sgn. rewrite Hn, F7. done.
  - rewrite Hov. cbn [mbind option_bind].
    set (pm1 := if ov then RemoveBufferedPair pid q (m_pairManager s) else m_pairManager s).
    assert (buffer_pair RemoveBufferedPair pid q ov
              (with_bounds a (js_put bs (k + 1) (add_stabbingCount (-1) nb)) s)
            = with_pairManager pm1
                (with_bounds a (js_put bs (k + 1) (add_stabbingCount (-1) nb)) s)) as ->
      by (unfold pm1; destruct ov, s; done).
    rewrite upd_proxy_in by (autorewrite with bp; done). cbn [mbind option_bind].
    rewrite upd_bound_in by (autorewrite with bp; fold bs; lia).
    cbn [mbind option_bind].
    rewrite upd_proxy_in by (autorewrite with bp; by apply in_pool_put).
    cbn [mbind option_bind].
    rewrite Swap_exec by (autorewrite with bp; fold bs; lia).
    autorewrite with bp. fold bs nb q.
    eexists. split; [done|].
    split; [|unfold pm_crossed; cbv zeta; fold bs nb q; rewrite Hn, decide_True, Hov0 by done;
             unfold pm1; by destruct ov].
    exists pm1.
    autorewrite with norm. fold bs.
    f_equal. f_equal; [|f_equal].
    + unfold cross_pool. cbv zeta. fold nb q. rewrite Hn.
      rewrite !proxy_at_put by done. rewrite !(decide_False (P := q = pid)) by done.
      f_equal; [f_equal|].
      * unfold bump_upperBound, set_ptr. f_equal.
        change (ptr a false ?p) with (sel a (upperBounds p)) in F8. lia.
      * unfold bump_lowerBound, set_ptr. f_equal.
        change (ptr a true ?p) with (sel a (lowerBounds p)) in Hk. lia.
    + rewrite (bound_at_put bs (k + 1) k) by lia. rewrite decide_False by lia.
      rewrite swap_puts by lia. unfold cross_bounds. cbv zeta. fold nb.
      destruct (Z.ltb_spec (k + 1) k); [lia|].
      unfold sgn. rewrite Hn, F7. done.
Qed.

Lemma upperDown_step_exec a s bc L k o pid e1 e2 bc' vals :
  axis_inv k o a (bounds_of a s) bc (proxyPool s) L →
  axis_inv e1 e2 (other a) (bounds_of (other a) s) bc' (proxyPool s) L →
  L pid →
  k = ptr a false (proxy_at (proxyPool s) pid) →
  o = ptr a true (proxy_at (proxyPool s) pid) →
  0 ≤ k - 1 < bc → k - 1 ≠ o →
  ∃ s', MoveProxy_upperDown_step a pid vals k s = Some s' ∧ crossed a k (k - 1) pid false s s' ∧
    m_pairManager s' = pm_crossed RemoveBufferedPair true vals a pid s (k - 1).
Proof.
  intros HI HO HL Hk Ho Hk' Hko.
  pose proof (exec_facts a s bc L k (k - 1) o pid false HI HL Hk Ho Hk' ltac:(lia) Hko)
    as (F1 & F2 & F3 & F4 & F5 & F6 & F7 & F8).
  cbv zeta in *.
  unfold MoveProxy_upperDown_step.
  rewrite (js_get_bound_at _ (k - 1)) by lia. cbn [mbind option_bind].
  rewrite upd_bound_in by lia. cbn [mbind option_bind].
  set (bs := bounds_of a s) in *. set (nb := bound_at bs (k - 1)) in *.
  set (q := proxyId nb) in *.
  destruct (exec_overlap a s bc L k (k - 1) o pid false e1 e2 bc' HI HO HL Hk Ho Hk'
              ltac:(lia) Hko vals (add_stabbingCount (-1) nb) (m_pairManager s)) as [ov Hov].
  fold bs nb q in Hov.
  assert (with_pairManager (m_pairManager s)
            (with_bounds a (js_put bs (k - 1) (add_stabbingCount (-1) nb)) s)
          = with_bounds a (js_put bs (k - 1) (add_stabbingCount (-1) nb)) s) as Epm
    by (by destruct s).
  rewrite Epm in Hov. clear Epm.
  assert (TestOverlap vals q s = Some ov) as Hov0.
  { rewrite <- Hov. symmetry. apply TestOverlap_stab; [fold bs; lia|done]. }
  destruct (IsLower nb) eqn:Hn.
  - rewrite Hov. cbn [mbind option_bind].
    set (pm1 := if ov then RemoveBufferedPair pid q (m_pairManager s) else m_pairManager s).
    assert (buffer_pair RemoveBufferedPair pid q ov
              (with_bounds a (js_put bs (k - 1) (add_stabbingCount (-1) nb)) s)
            = with_pairManager pm1
                (with_bounds a (js_put bs (k - 1) (add_stabbingCount (-1) nb)) s)) as ->
      by (unfold pm1; destruct ov, s; done).
    rewrite upd_proxy_in by (autorewrite with bp; done). cbn [mbind option_bind].
    rewrite upd_bound_in by (autorewrite with bp; fold bs; lia).
    cbn [mbind option_bind].
    rewrite upd_proxy_in by (autorewrite with bp; by apply in_pool_put).
    cbn [mbind option_bind].
    rewrite Swap_exec by (autorewrite with bp; fold bs; lia).
    autorewrite with bp. fold bs nb q.
    eexists. split; [done|].
    split; [|unfold pm_crossed; cbv zeta; fold bs nb q; rewrite Hn, decide_True, Hov0 by done;
             unfold pm1; by destruct ov].
    exists pm1.
    autorewrite with norm. fold bs.
    f_equal. f_equal; [|f_equal].
    + unfold cross_pool. cbv zeta. fold nb q. rewrite Hn.
      rewrite !proxy_at_put by done. rewrite !(decide_False (P := q = pid)) by done.
      f_equal; [f_equal|].
      * unfold bump_lowerBound, set_ptr. f_equal.
        change (ptr a true ?p) with (sel a (lowerBounds p)) in F8. lia.
      * unfold bump_upperBound, set_ptr. f_equal.
        change (ptr a false ?p) with (sel a (upperBounds p)) in Hk. lia.
    + rewrite (bound_at_put bs (k - 1) k) by lia. rewrite decide_False by lia.
      rewrite swap_puts by lia. unfold cross_bounds. cbv zeta. fold nb.
      destruct (Z.ltb_spec (k - 1) k); [|lia].
      unfold sgn. rewrite Hn, F7. done.
  - rewrite upd_proxy_in by (autorewrite with bp; done). cbn [mbind option_bind].
    rewrite upd_bound_in by (autorewrite with bp; fold bs; lia).
    cbn [mbind option_bind].
    rewrite upd_proxy_in by (autorewrite with bp; by apply in_pool_put).
    cbn [mbind option_bind].
    rewrite Swap_exec by (autorewrite with bp; fold bs; lia).
    autorewrite with bp. fold bs nb q.
    eexists. split; [done|].
    split; [|unfold pm_crossed; cbv zeta; fold bs nb; rewrite Hn; by rewrite decide_False].
    exists (m_pairManager s).
    autorewrite with norm. rewrite with_pairManager_same. fold bs.
    f_equal; [|f_equal].
    + unfold cross_pool. cbv zeta. fold nb q. rewrite Hn.
      rewrite !proxy_at_put by done. rewrite !(decide_False (P := q = pid)) by done.
      f_equal; [f_equal|].
      * unfold bump_upperBound, set_ptr. f_equal.
        change (ptr a false ?p) with (sel a (upperBounds p)) in F8. lia.
      * unfold bump_upperBound, set_ptr. f_equal.
        change (ptr a false ?p) with (sel a (upperBounds p)) in Hk. lia.
    + rewrite (bound_at_put bs (k - 1) k) by lia. rewrite decide_False by lia.
      rewrite swap_puts by lia. unfold cross_bounds. cbv zeta. fold nb.
      destruct (Z.ltb_spec (k - 1) k); [|lia].
      unfold sgn. rewrite Hn, F7. done.
Qed.

(** ** The walks of MoveProxy *)

(** What [MoveProxy] leaves alone while it works on axis [a]. *)
Record moved (a : Axis) (s s' : BroadPhase) : Prop := {
  mv_other : bounds_of (other a) s' = bounds_of (other a) s;
  mv_len : length (bounds_of a s') = length (bounds_of a s);
  mv_pool : reindexed a (proxyPool s) (proxyPool s');
  mv_results : m_queryResults s' = m_queryResults s;
  mv_rcount : m_queryResultCount s' = m_queryResultCount s;
  mv_factor : m_quantizationFactor s' = m_quantizationFactor s;
  mv_world : m_worldAABB s' = m_worldAABB s;
  mv_count : m_proxyCount s' = m_proxyCount s;
  mv_free : m_freeProxy s' = m_freeProxy s;
  mv_stamp : m_timeStamp s' = m_timeStamp s
}.

Lemma moved_refl a s : moved a s s.
Proof. split; try done; apply reindexed_refl. Qed.

Lemma moved_trans a s1 s2 s3 : moved a s1 s2 → moved a s2 s3 → moved a s1 s3.
Proof.
  intros H1 H2. split.
  - rewrite (mv_other _ _ _ H2). apply H1.
  - rewrite (mv_len _ _ _ H2). apply H1.
  - eapply reindexed_trans; [apply H1|apply H2].
  - rewrite (mv_results _ _ _ H2). apply H1.
  - rewrite (mv_rcount _ _ _ H2). apply H1.
  - rewrite (mv_factor _ _ _ H2). apply H1.
  - rewrite (mv_world _ _ _ H2). apply H1.
  - rewrite (mv_count _ _ _ H2). apply H1.
  - rewrite (mv_free _ _ _ H2). apply H1.
  - rewrite (mv_stamp _ _ _ H2). apply H1.
Qed.

(** The values left of a position are at most [v]; the values right of
    it are at least [v]; position [o] is not looked at. *)
Definition left_ok (bs : list Bound) (k o v : Z) : Prop :=
  ∀ i, 0 ≤ i < k → i ≠ o → value (bound_at bs i) ≤ v.
Definition right_ok (bs : list Bound) (bc k o v : Z) : Prop :=
  ∀ j, k < j < bc → j ≠ o → v ≤ value (bound_at bs j).

(** The state of a walk: the mover [pid] has its bound of role [rm] at
    [k], holding [v], and its other bound at [o], holding [vo]. *)
Record walking (a : Axis) (pid : Z) (rm : bool) (bc bc' : Z) (L : Z → Prop) (e1 e2 : Z)
    (v vo : Z) (k o : Z) (s : BroadPhase) : Prop := {
  wk_inv : axis_inv k o a (bounds_of a s) bc (proxyPool s) L;
  wk_other : axis_inv e1 e2 (other a) (bounds_of (other a) s) bc' (proxyPool s) L;
  wk_live : L pid;
  wk_k : k = ptr a rm (proxy_at (proxyPool s) pid);
  wk_o : o = ptr a (negb rm) (proxy_at (proxyPool s) pid);
  wk_v : value (bound_at (bounds_of a s) k) = v;
  wk_vo : value (bound_at (bounds_of a s) o) = vo
}.

Section Walk.
Context (a : Axis) (pid : Z) (rm : bool) (bc bc' : Z) (L : Z → Prop) (e1 e2 : Z)
  (v vo : Z).

(** One crossing, from a walking state. *)
Lemma walking_crossed k k' o s s' :
  walking a pid rm bc bc' L e1 e2 v vo k o s →
  0 ≤ k' < bc → k' = k - 1 ∨ k' = k + 1 → k' ≠ o →
  crossed a k k' pid rm s s' →
  walking a pid rm bc bc' L e1 e2 v vo k' o s' ∧ moved a s s' ∧
  (∀ i, value (bound_at (bounds_of a s') i)
        = value (bound_at (bounds_of a s)
                   (if decide (i = k) then k' else if decide (i = k') then k else i))) ∧
  vals_kept a L s s'.
Proof.
  intros [HI HO HL Hk Ho Hv Hvo] Hk' Hadj Hko [pm ->].
  pose proof (cross_axis_inv a _ bc _ L k k' o pid rm HI HL Hk Ho Hk' Hadj Hko) as HI'.
  pose proof (cross_reindexed a _ bc _ L k k' o pid rm HI HL Hk Ho Hk' Hadj Hko) as Hri.
  pose proof (cross_mover a _ bc _ L k k' o pid rm HI HL Hk Ho Hk' Hadj Hko)
    as (Hkr & Hor & Hkne & Hin & _).
  pose proof (cross_neighbour a _ bc _ L k k' o pid rm HI HL Hk Ho Hk' Hadj Hko)
    as (Hne & _).
  assert (∀ i, value (bound_at (cross_bounds k k' (bounds_of a s)) i)
        = value (bound_at (bounds_of a s)
                   (if decide (i = k) then k' else if decide (i = k') then k else i))) as Hval.
  { intros i. rewrite (cross_read a _ bc _ L k k' o pid rm HI HL Hk Ho Hk' Hadj Hko).
    by repeat case_decide. }
  split; [|split; [|split]]; [| | |intros p r Hp; unfold valof; autorewrite with bp;
    by apply (cross_valof a _ bc _ L k k' o pid rm HI HL Hk Ho Hk' Hadj Hko)].
  - split; autorewrite with bp; try done.
    + apply (reindexed_other_axis_inv _ _ (other a) _ _ (proxyPool s)); [|done].
      by rewrite other_other.
    + rewrite (cross_ptr a _ bc _ L k k' o pid rm HI HL Hk Ho Hk' Hadj Hko).
      by rewrite decide_True.
    + rewrite (cross_ptr a _ bc _ L k k' o pid rm HI HL Hk Ho Hk' Hadj Hko).
      rewrite decide_False by (intros [_ ?]; by destruct rm).
      rewrite decide_False by (intros [? _]; done). done.
    + rewrite Hval. rewrite decide_False, decide_True by lia. done.
    + rewrite Hval. rewrite !decide_False by lia. done.
  - split; autorewrite with bp; try done.
    unfold cross_bounds. cbv zeta. by rewrite !length_js_put.
  - autorewrite with bp. done.
Qed.
End Walk.

Lemma walking_range a pid rm bc bc' L e1 e2 v vo k o s :
  walking a pid rm bc bc' L e1 e2 v vo k o s →
  0 ≤ k < bc ∧ 0 ≤ o < bc ∧ (if rm then k < o else o < k).
Proof.
  intros [HI HO HL Hk Ho Hv Hvo].
  destruct (ai_proxy _ _ _ _ _ _ _ HI pid HL) as (Hin & H0 & Hlu & Hu & _).
  destruct rm; cbn [negb] in *; subst k o; split_and!; try done; lia.
Qed.

(** The mover never walks over its own other bound: the loop stops
    there because of the order of the two new values. *)
Lemma walk_down_spec a pid rm bc bc' L e1 e2 v vo step o (T : BroadPhase → Prop) :
  (∀ s k, axis_inv k o a (bounds_of a s) bc (proxyPool s) L →
     axis_inv e1 e2 (other a) (bounds_of (other a) s) bc' (proxyPool s) L →
     L pid →
     k = ptr a rm (proxy_at (proxyPool s) pid) →
     o = ptr a (negb rm) (proxy_at (proxyPool s) pid) →
     0 ≤ k - 1 < bc → k - 1 ≠ o → T s →
     ∃ s', step k s = Some s' ∧ crossed a k (k - 1) pid rm s s' ∧ T s') →
  ∀ fuel k s,
    (Z.to_nat k ≤ fuel)%nat →
    walking a pid rm bc bc' L e1 e2 v vo k o s →
    (o < k → vo ≤ v) →
    right_ok (bounds_of a s) bc k o v →
    T s →
    ∃ s' k',
      walk_down fuel step a v k s = Some s' ∧
      walking a pid rm bc bc' L e1 e2 v vo k' o s' ∧
      moved a s s' ∧
      right_ok (bounds_of a s') bc k' o v ∧
      ((o < k → left_ok (bounds_of a s) o k vo) → left_ok (bounds_of a s') k' o v) ∧
      (left_ok (bounds_of a s) o k vo → left_ok (bounds_of a s') o k' vo) ∧
      (right_ok (bounds_of a s) bc o k vo → right_ok (bounds_of a s') bc o k' vo) ∧
      vals_kept a L s s' ∧ T s'.
Proof.
  intros Hstep fuel. induction fuel as [|fuel IH]; intros k s Hfuel W Hbar HR HT.
  all: pose proof W as [HI HO HL Hk Ho Hv Hvo].
  all: pose proof (walking_range _ _ _ _ _ _ _ _ _ _ _ _ _ W) as (Hkr & Hor & Hkne).
  all: pose proof (ai_range _ _ _ _ _ _ _ HI) as Hrange.
  all: assert (k ≤ 0 ∨ (0 < k ∧ value (bound_at (bounds_of a s) (k - 1)) ≤ v)
               ∨ (0 < k ∧ v < value (bound_at (bounds_of a s) (k - 1)))) as Hcase by lia.
  all: destruct Hcase as [Hc|[[Hc Hc']|[Hc Hc']]]; try lia.
  all: unfold walk_down; fold walk_down.
  all: destruct (Z.gtb_spec k 0); try lia.
  all: rewrite ?(js_get_bound_at _ (k - 1)) by lia; cbn [mbind option_bind].
  all: try match goal with
           | |- context [?y <? ?x] => destruct (Z.ltb_spec y x); try lia
           end.
  1, 2, 3: exists s, k; split_and!; try done; try apply moved_refl;
    try apply vals_kept_refl.
  1, 2: intros _ i Hi; lia.
  - (* the loop stops at a smaller or equal value *)
    intros HOL i Hi Hio.
    destruct (decide (k - 1 = o)) as [Eo|No].
    + destruct (decide (i = k - 1)) as [->|]; [done|].
      specialize (HOL ltac:(lia) i ltac:(lia) ltac:(lia)). lia.
    + pose proof (ai_sorted _ _ _ _ _ _ _ HI i (k - 1)
                    ltac:(lia) ltac:(lia) ltac:(lia) ltac:(lia) ltac:(lia) ltac:(lia) ltac:(lia)).
      lia.
  - (* one crossing, then the rest of the walk *)
    assert (k - 1 ≠ o) as Hko.
    { intros E. pose proof Hvo as Hvo'. rewrite <- E in Hvo'. lia. }
    destruct (Hstep s k HI HO HL Hk Ho ltac:(lia) Hko HT) as (s1 & -> & Hcr & HT1).
    cbn [mbind option_bind].
    destruct (walking_crossed a pid rm bc bc' L e1 e2 v vo k (k - 1) o s s1 W
                ltac:(lia) ltac:(lia) Hko Hcr) as (W1 & M1 & Hval & V1).
    destruct (IH (k - 1) s1 ltac:(lia) W1 ltac:(lia))
      as (s' & k' & -> & W' & M' & HR' & HL1 & HL2 & HR2 & V' & HT');
      [|exact HT1|].
    { intros j Hj Hjo. rewrite Hval.
      repeat case_decide; try lia. apply HR; lia. }
    exists s', k'. split_and!; try done.
    + by eapply moved_trans.
    + intros HOL. apply HL1. intros Hlt i Hi Hik. rewrite Hval.
      repeat case_decide; try lia. all: apply HOL; lia.
    + intros HOL. apply HL2. intros i Hi Hik. rewrite Hval.
      repeat case_decide; try lia. all: apply HOL; lia.
    + intros HOR. apply HR2. intros j Hj Hjk. rewrite Hval.
      repeat case_decide; try lia. all: apply HOR; lia.
    + by eapply vals_kept_trans.
Qed.

Lemma walk_up_spec a pid rm bc bc' L e1 e2 v vo step o (T : BroadPhase → Prop) :
  (∀ s k, axis_inv k o a (bounds_of a s) bc (proxyPool s) L →
     axis_inv e1 e2 (other a) (bounds_of (other a) s) bc' (proxyPool s) L →
     L pid →
     k = ptr a rm (proxy_at (proxyPool s) pid) →
     o = ptr a (negb rm) (proxy_at (proxyPool s) pid) →
     0 ≤ k + 1 < bc → k + 1 ≠ o → T s →
     ∃ s', step k s = Some s' ∧ crossed a k (k + 1) pid rm s s' ∧ T s') →
  ∀ fuel k s,
    (Z.to_nat (bc - 1 - k) ≤ fuel)%nat →
    walking a pid rm bc bc' L e1 e2 v vo k o s →
    (k < o → v < vo) →
    left_ok (bounds_of a s) k o v →
    T s →
    ∃ s' k',
      walk_up fuel step a bc v k s = Some s' ∧
      walking a pid rm bc bc' L e1 e2 v vo k' o s' ∧
      moved a s s' ∧
      left_ok (bounds_of a s') k' o v ∧
      ((k < o → right_ok (bounds_of a s) bc o k vo) → right_ok (bounds_of a s') bc k' o v) ∧
      (left_ok (bounds_of a s) o k vo → left_ok (bounds_of a s') o k' vo) ∧
      (right_ok (bounds_of a s) bc o k vo → right_ok (bounds_of a s') bc o k' vo) ∧
      vals_kept a L s s' ∧ T s'.
Proof.
  intros Hstep fuel. induction fuel as [|fuel IH]; intros k s Hfuel W Hbar HLt HT.
  all: pose proof W as [HI HO HL Hk Ho Hv Hvo].
  all: pose proof (walking_range _ _ _ _ _ _ _ _ _ _ _ _ _ W) as (Hkr & Hor & Hkne).
  all: pose proof (ai_range _ _ _ _ _ _ _ HI) as Hrange.
  all: assert (bc - 1 ≤ k ∨ (k < bc - 1 ∧ v < value (bound_at (bounds_of a s) (k + 1)))
               ∨ (k < bc - 1 ∧ value (bound_at (bounds_of a s) (k + 1)) ≤ v)) as Hcase by lia.
  all: destruct Hcase as [Hc|[[Hc Hc']|[Hc Hc']]]; try lia.
  all: unfold walk_up; fold walk_up.
  all: destruct (Z.ltb_spec k (bc - 1)); try lia.
  all: rewrite ?(js_get_bound_at _ (k + 1)) by lia; cbn [mbind option_bind].
  all: try match goal with
           | |- context [?y <=? ?x] => destruct (Z.leb_spec y x); try lia
           end.
  1, 2, 3: exists s, k; split_and!; try done; try apply moved_refl;
    try apply vals_kept_refl.
  1, 2: intros _ j Hj; lia.
  - (* the loop stops at a larger value *)
    intros HOR j Hj Hjo.
    destruct (decide (k + 1 = o)) as [Eo|No].
    + destruct (decide (j = k + 1)) as [->|]; [done|].
      specialize (HOR ltac:(lia) j ltac:(lia) ltac:(lia)). lia.
    + pose proof (ai_sorted _ _ _ _ _ _ _ HI (k + 1) j
                    ltac:(lia) ltac:(lia) ltac:(lia) ltac:(lia) ltac:(lia) ltac:(lia) ltac:(lia)).
      lia.
  - (* one crossing, then the rest of the walk *)
    assert (k + 1 ≠ o) as Hko.
    { intros E. pose proof Hvo as Hvo'. rewrite <- E in Hvo'. lia. }
    destruct (Hstep s k HI HO HL Hk Ho ltac:(lia) Hko HT) as (s1 & -> & Hcr & HT1).
    cbn [mbind option_bind].
    destruct (walking_crossed a pid rm bc bc' L e1 e2 v vo k (k + 1) o s s1 W
                ltac:(lia) ltac:(lia) Hko Hcr) as (W1 & M1 & Hval & V1).
    destruct (IH (k + 1) s1 ltac:(lia) W1 ltac:(lia))
      as (s' & k' & -> & W' & M' & HR' & HL1 & HL2 & HR2 & V' & HT');
      [|exact HT1|].
    { intros j Hj Hjo. rewrite Hval.
      repeat case_decide; try lia. apply HLt; lia. }
    exists s', k'. split_and!; try done.
    + by eapply moved_trans.
    + intros HOR. apply HL1. intros Hlt i Hi Hik. rewrite Hval.
      repeat case_decide; try lia. all: apply HOR; lia.
    + intros HOL. apply HL2. intros i Hi Hik. rewrite Hval.
      repeat case_decide; try lia. all: apply HOL; lia.
    + intros HOR. apply HR2. intros j Hj Hjk. rewrite Hval.
      repeat case_decide; try lia. all: apply HOR; lia.
    + by eapply vals_kept_trans.
Qed.

Lemma axis_inv_swap e1 e2 a bs bc pool L :
  axis_inv e1 e2 a bs bc pool L → axis_inv e2 e1 a bs bc pool L.
Proof.
  intros [H1 H2 H3 H4 H5]. split; try done.
  intros i j ???????. by apply H2.
Qed.

Lemma walking_flip a pid rm bc bc' L e1 e2 v vo k o s :
  walking a pid rm bc bc' L e1 e2 v vo k o s →
  walking a pid (negb rm) bc bc' L e1 e2 vo v o k s.
Proof.
  intros [HI HO HL Hk Ho Hv Hvo]. split; try done.
  - by apply axis_inv_swap.
  - by rewrite negb_involutive.
Qed.

(** [T] survives the crossings of one loop of [MoveProxy]: the bound of
    role [rm] of the mover goes from [k] to [k + d], and the loop calls
    [f] as [pm_crossed] says. *)
Definition keeps (T : BroadPhase → Prop) (a : Axis) (pid bc : Z) (L : Z → Prop)
    (rm : bool) (d : Z) (f : Z → Z → PairManager → PairManager) (role : bool)
    (vals : (Z * Z) * (Z * Z)) : Prop :=
  ∀ s k o s',
    axis_inv k o a (bounds_of a s) bc (proxyPool s) L →
    sorted_inv (other a) (bounds_of (other a) s) bc (proxyPool s) L →
    L pid →
    k = ptr a rm (proxy_at (proxyPool s) pid) →
    o = ptr a (negb rm) (proxy_at (proxyPool s) pid) →
    0 ≤ k + d < bc → k + d ≠ o →
    crossed a k (k + d) pid rm s s' →
    m_pairManager s' = pm_crossed f role vals a pid s (k + d) →
    T s → T s'.

(** The state of [MoveProxy] on one axis between its loops: the lower
    bound of the mover is at [l] and holds [lv], the upper bound is at
    [u] and holds [uv]; the four flags say which sides of the two bounds
    are known to be in order. *)
Definition placed (a : Axis) (pid bc : Z) (L : Z → Prop) (lv uv : Z)
    (cLL cLR cUL cUR : Prop) (l u : Z) (s : BroadPhase) : Prop :=
  walking a pid true bc bc L (-1) (-1) lv uv l u s ∧ lv < uv ∧
  (cLL → left_ok (bounds_of a s) l u lv) ∧
  (cLR → right_ok (bounds_of a s) bc l u lv) ∧
  (cUL → left_ok (bounds_of a s) u l uv) ∧
  (cUR → right_ok (bounds_of a s) bc u l uv).

Lemma placed_weaken a pid bc L lv uv (c1 c2 c3 c4 d1 d2 d3 d4 : Prop) l u s :
  placed a pid bc L lv uv c1 c2 c3 c4 l u s →
  (d1 → c1) → (d2 → c2) → (d3 → c3) → (d4 → c4) →
  placed a pid bc L lv uv d1 d2 d3 d4 l u s.
Proof. unfold placed. naive_solver. Qed.

Lemma phase_lowerDown a pid bc L lv uv (cLL cLR cUL cUR : Prop) l u s nv
    (T : BroadPhase → Prop) :
  placed a pid bc L lv uv cLL cLR cUL cUR l u s → cLR →
  keeps T a pid bc L true (-1) AddBufferedPair false nv → T s →
  ∃ s' l', walk_down (Z.to_nat l) (MoveProxy_lowerDown_step a pid nv) a lv l s = Some s' ∧
    placed a pid bc L lv uv True True cUL cUR l' u s' ∧ moved a s s' ∧ vals_kept a L s s' ∧
    T s'.
Proof.
  intros (W & Hlt & HLL & HLR & HUL & HUR) Hc HK HT.
  pose proof (walking_range _ _ _ _ _ _ _ _ _ _ _ _ _ W) as (Hkr & Hor & Hkne).
  destruct (walk_down_spec a pid true bc bc L (-1) (-1) lv uv
              (MoveProxy_lowerDown_step a pid nv) u T) with (fuel := Z.to_nat l) (k := l) (s := s)
    as (s' & l' & E & W' & M & F1 & F2 & F3 & F4 & V & HT'); try done; try lia.
  { intros s1 k1 X1 X2 X3 X4 X5 X6 X7 X8.
    destruct (lowerDown_step_exec a s1 bc L k1 u pid (-1) (-1) bc nv X1 X2 X3 X4 X5 X6 X7)
      as (s2 & E2 & C2 & Hpm).
    exists s2. split_and!; [done..|].
    apply (HK s1 k1 u s2); try done; by replace (k1 + -1) with (k1 - 1) by lia. }
  { by apply HLR. }
  exists s', l'. split; [done|]. split; [|done].
  split_and!; try done.
  - intros _. apply F2. lia.
  - intros ?. apply F3. by apply HUL.
  - intros ?. apply F4. by apply HUR.
Qed.

Lemma phase_lowerUp a pid bc L lv uv (cLL cLR cUL cUR : Prop) l u s ov
    (T : BroadPhase → Prop) :
  placed a pid bc L lv uv cLL cLR cUL cUR l u s → cLL → cUR →
  keeps T a pid bc L true 1 RemoveBufferedPair false ov → T s →
  ∃ s' l', walk_up (Z.to_nat (bc - 1 - l)) (MoveProxy_lowerUp_step a pid ov) a bc lv l s
           = Some s' ∧
    placed a pid bc L lv uv True True cUL cUR l' u s' ∧ moved a s s' ∧ vals_kept a L s s' ∧
    T s'.
Proof.
  intros (W & Hlt & HLL & HLR & HUL & HUR) Hc Hc' HK HT.
  pose proof (walking_range _ _ _ _ _ _ _ _ _ _ _ _ _ W) as (Hkr & Hor & Hkne).
  destruct (walk_up_spec a pid true bc bc L (-1) (-1) lv uv
              (MoveProxy_lowerUp_step a pid ov) u T) with (fuel := Z.to_nat (bc - 1 - l))
              (k := l) (s := s)
    as (s' & l' & E & W' & M & F1 & F2 & F3 & F4 & V & HT'); try done; try lia.
  { intros s1 k1 X1 X2 X3 X4 X5 X6 X7 X8.
    destruct (lowerUp_step_exec a s1 bc L k1 u pid (-1) (-1) bc ov X1 X2 X3 X4 X5 X6 X7)
      as (s2 & E2 & C2 & Hpm).
    exists s2. split_and!; [done..|].
    by apply (HK s1 k1 u s2). }
  { by apply HLL. }
  exists s', l'. split; [done|]. split; [|done].
  split_and!; try done.
  - intros _. apply F2. intros _. by apply HUR.
  - intros ?. apply F3. by apply HUL.
  - intros ?. apply F4. by apply HUR.
Qed.

Lemma phase_upperUp a pid bc L lv uv (cLL cLR cUL cUR : Prop) l u s nv
    (T : BroadPhase → Prop) :
  placed a pid bc L lv uv cLL cLR cUL cUR l u s → cUL →
  keeps T a pid bc L false 1 AddBufferedPair true nv → T s →
  ∃ s' u', walk_up (Z.to_nat (bc - 1 - u)) (MoveProxy_upperUp_step a pid nv) a bc uv u s
           = Some s' ∧
    placed a pid bc L lv uv cLL cLR True True l u' s' ∧ moved a s s' ∧ vals_kept a L s s' ∧
    T s'.
Proof.
  intros (W & Hlt & HLL & HLR & HUL & HUR) Hc HK HT.
  pose proof (walking_range _ _ _ _ _ _ _ _ _ _ _ _ _ W) as (Hkr & Hor & Hkne).
  apply walking_flip in W. cbn [negb] in W.
  destruct (walk_up_spec a pid false bc bc L (-1) (-1) uv lv
              (MoveProxy_upperUp_step a pid nv) l T) with (fuel := Z.to_nat (bc - 1 - u))
              (k := u) (s := s)
    as (s' & u' & E & W' & M & F1 & F2 & F3 & F4 & V & HT'); try done; try lia.
  { intros s1 k1 X1 X2 X3 X4 X5 X6 X7 X8.
    destruct (upperUp_step_exec a s1 bc L k1 l pid (-1) (-1) bc nv X1 X2 X3 X4 X5 X6 X7)
      as (s2 & E2 & C2 & Hpm).
    exists s2. split_and!; [done..|].
    by apply (HK s1 k1 l s2). }
  { by apply HUL. }
  exists s', u'. split; [done|]. split; [|done].
  apply walking_flip in W'. cbn [negb] in W'.
  split_and!; try done.
  - intros ?. apply F3. by apply HLL.
  - intros ?. apply F4. by apply HLR.
  - intros _. apply F2. lia.
Qed.

Lemma phase_upperDown a pid bc L lv uv (cLL cLR cUL cUR : Prop) l u s ov
    (T : BroadPhase → Prop) :
  placed a pid bc L lv uv cLL cLR cUL cUR l u s → cUR → cLL →
  keeps T a pid bc L false (-1) RemoveBufferedPair true ov → T s →
  ∃ s' u', walk_down (Z.to_nat u) (MoveProxy_upperDown_step a pid ov) a uv u s = Some s' ∧
    placed a pid bc L lv uv cLL cLR True True l u' s' ∧ moved a s s' ∧ vals_kept a L s s' ∧
    T s'.
Proof.
  intros (W & Hlt & HLL & HLR & HUL & HUR) Hc Hc' HK HT.
  pose proof (walking_range _ _ _ _ _ _ _ _ _ _ _ _ _ W) as (Hkr & Hor & Hkne).
  apply walking_flip in W. cbn [negb] in W.
  destruct (walk_down_spec a pid false bc bc L (-1) (-1) uv lv
              (MoveProxy_upperDown_step a pid ov) l T) with (fuel := Z.to_nat u) (k := u) (s := s)
    as (s' & u' & E & W' & M & F1 & F2 & F3 & F4 & V & HT'); try done; try lia.
  { intros s1 k1 X1 X2 X3 X4 X5 X6 X7 X8.
    destruct (upperDown_step_exec a s1 bc L k1 l pid (-1) (-1) bc ov X1 X2 X3 X4 X5 X6 X7)
      as (s2 & E2 & C2 & Hpm).
    exists s2. split_and!; [done..|].
    apply (HK s1 k1 l s2); try done; by replace (k1 + -1) with (k1 - 1) by lia. }
  { by apply HUR. }
  exists s', u'. split; [done|]. split; [|done].
  apply walking_flip in W'. cbn [negb] in W'.
  split_and!; try done.
  - intros ?. apply F3. by apply HLL.
  - intros ?. apply F4. by apply HLR.
  - intros _. apply F2. intros _. by apply HLL.
Qed.

(** Writing the two new values, before any bound is moved. *)
Lemma revalue_placed a pid bc L lv uv s :
  sorted_inv a (bounds_of a s) bc (proxyPool s) L →
  sorted_inv (other a) (bounds_of (other a) s) bc (proxyPool s) L →
  L pid → Z.land lv 1 = 0 → Z.land uv 1 = 1 → lv < uv →
  let bs := bounds_of a s in
  let l := ptr a true (proxy_at (proxyPool s) pid) in
  let u := ptr a false (proxy_at (proxyPool s) pid) in
  let B := js_put (js_put bs l (set_value lv (bound_at bs l))) u
             (set_value uv (bound_at bs u)) in
  placed a pid bc L lv uv
    (value (bound_at bs l) ≤ lv) (lv ≤ value (bound_at bs l))
    (value (bound_at bs u) ≤ uv) (uv ≤ value (bound_at bs u))
    l u (with_bounds a B s).
Proof.
  intros HI HO HL Hlv Huv Hlt bs l u B.
  destruct (ai_proxy _ _ _ _ _ _ _ HI pid HL)
    as (Hin & H0 & Hlu & Hu & Hl1 & Hl2 & Hu1 & Hu2).
  fold bs l u in H0, Hlu, Hu, Hl1, Hl2, Hu1, Hu2.
  pose proof (ai_range _ _ _ _ _ _ _ HI) as Hrange. fold bs in Hrange.
  assert (∀ i, bound_at B i
               = if decide (i = l) then set_value lv (bound_at bs l)
                 else if decide (i = u) then set_value uv (bound_at bs u)
                 else bound_at bs i) as HB.
  { intros i. unfold B. rewrite !bound_at_put by (rewrite ?length_js_put; lia).
    repeat case_decide; try done; lia. }
  assert (∀ i, proxyId (bound_at B i) = proxyId (bound_at bs i)) as HBp.
  { intros i. rewrite HB.
    destruct (decide (i = l)) as [->|]; [done|]. by destruct (decide (i = u)) as [->|]. }
  assert (∀ i, stabbingCount (bound_at B i) = stabbingCount (bound_at bs i)) as HBs.
  { intros i. rewrite HB.
    destruct (decide (i = l)) as [->|]; [done|]. by destruct (decide (i = u)) as [->|]. }
  assert (∀ i, IsLower (bound_at B i) = IsLower (bound_at bs i)) as HBl.
  { intros i. rewrite HB.
    destruct (decide (i = l)) as [->|].
    { unfold set_value. by rewrite (IsLower_even lv). }
    destruct (decide (i = u)) as [->|]; [|done].
    unfold set_value. by rewrite (IsLower_odd uv). }
  assert (∀ i, sgn (bound_at B i) = sgn (bound_at bs i)) as HBg.
  { intros i. unfold sgn. by rewrite HBl. }
  assert (∀ i, value (bound_at B i)
               = if decide (i = l) then lv else if decide (i = u) then uv
                 else value (bound_at bs i)) as HBv.
  { intros i. rewrite HB. by repeat case_decide. }
  unfold placed. autorewrite with bp. split_and!; try done.
  - split; autorewrite with bp; try done.
    + split.
      * unfold B. rewrite !length_js_put. done.
      * intros i j ???????. rewrite !HBv, !decide_False by done.
        apply (ai_sorted _ _ _ _ _ _ _ HI); lia.
      * intros i Hi. rewrite HBp, HBl. by apply (ai_owner _ _ _ _ _ _ _ HI).
      * intros p Hp. rewrite !HBp, !HBl. by apply (ai_proxy _ _ _ _ _ _ _ HI).
      * intros i Hi. rewrite !HBs, HBg. by apply (ai_stab _ _ _ _ _ _ _ HI).
    + rewrite HBv. by rewrite decide_True.
    + rewrite HBv. rewrite decide_False, decide_True by (done || lia). done.
  - intros Hc i Hi Hiu. rewrite HBv, !decide_False by lia.
    pose proof (ai_sorted _ _ _ _ _ _ _ HI i l). fold bs in H. lia.
  - intros Hc j Hj Hju. rewrite HBv, !decide_False by lia.
    pose proof (ai_sorted _ _ _ _ _ _ _ HI l j). fold bs in H. lia.
  - intros Hc i Hi Hil. rewrite HBv, !decide_False by lia.
    pose proof (ai_sorted _ _ _ _ _ _ _ HI i u). fold bs in H. lia.
  - intros Hc j Hj Hjl. rewrite HBv, !decide_False by lia.
    pose proof (ai_sorted _ _ _ _ _ _ _ HI u j). fold bs in H. lia.
Qed.

(** When both bounds of the mover are in order with all the others, the
    array is sorted again. *)
Lemma placed_sorted a pid bc L lv uv l u s :
  placed a pid bc L lv uv True True True True l u s →
  sorted_inv a (bounds_of a s) bc (proxyPool s) L ∧
  sorted_inv (other a) (bounds_of (other a) s) bc (proxyPool s) L ∧
  l = ptr a true (proxy_at (proxyPool s) pid) ∧
  u = ptr a false (proxy_at (proxyPool s) pid) ∧
  value (bound_at (bounds_of a s) l) = lv ∧ value (bound_at (bounds_of a s) u) = uv.
Proof.
  intros (W & Hlt & HLL & HLR & HUL & HUR).
  pose proof (walking_range _ _ _ _ _ _ _ _ _ _ _ _ _ W) as (Hkr & Hor & Hkne).
  destruct W as [HI HO HL Hk Ho Hv Hvo].
  specialize (HLL I). specialize (HLR I). specialize (HUL I). specialize (HUR I).
  split_and!; try done.
  destruct HI as [H1 H2 H3 H4 H5]. split; try done.
  intros i j Hi Hij Hj _ _ _ _.
  destruct (decide (i = j)) as [->|]; [lia|].
  destruct (decide (i = l)) as [->|], (decide (j = u)) as [->|]; [lia|..].
  - rewrite Hv. apply HLR; lia.
  - rewrite Hvo. apply HUL; lia.
  - destruct (decide (i = u)) as [->|]; [rewrite Hvo; apply HUR; lia|].
    destruct (decide (j = l)) as [->|]; [rewrite Hv; apply HLL; lia|].
    apply H2; lia.
Qed.

(** The state after [MoveProxy] has written the new values of an axis,
    before it moves a bound. *)
Definition revalued (a : Axis) (pid lv uv : Z) (s : BroadPhase) : BroadPhase :=
  let bs := bounds_of a s in
  let l := ptr a true (proxy_at (proxyPool s) pid) in
  let u := ptr a false (proxy_at (proxyPool s) pid) in
  with_bounds a (js_put (js_put bs l (set_value lv (bound_at bs l))) u
                   (set_value uv (bound_at bs u))) s.

(** One axis of [MoveProxy], with a property [T] that the crossings of
    the loops that run keep. *)
Lemma MoveProxy_axis_trace pid nv ov bc a s L (T : BroadPhase → Prop) :
  sorted_inv a (bounds_of a s) bc (proxyPool s) L →
  sorted_inv (other a) (bounds_of (other a) s) bc (proxyPool s) L →
  L pid →
  Z.land (sel a (fst nv)) 1 = 0 → Z.land (sel a (snd nv)) 1 = 1 →
  sel a (fst nv) < sel a (snd nv) →
  (sel a (fst nv) < valof a s pid true →
     keeps T a pid bc L true (-1) AddBufferedPair false nv) →
  (valof a s pid false < sel a (snd nv) →
     keeps T a pid bc L false 1 AddBufferedPair true nv) →
  (valof a s pid true < sel a (fst nv) →
     keeps T a pid bc L true 1 RemoveBufferedPair false ov) →
  (sel a (snd nv) < valof a s pid false →
     keeps T a pid bc L false (-1) RemoveBufferedPair true ov) →
  T (revalued a pid (sel a (fst nv)) (sel a (snd nv)) s) →
  ∃ s', MoveProxy_axis pid nv ov bc a s = Some s' ∧
    sorted_inv a (bounds_of a s') bc (proxyPool s') L ∧
    sorted_inv (other a) (bounds_of (other a) s') bc (proxyPool s') L ∧
    moved a s s' ∧
    value (bound_at (bounds_of a s') (ptr a true (proxy_at (proxyPool s') pid)))
      = sel a (fst nv) ∧
    value (bound_at (bounds_of a s') (ptr a false (proxy_at (proxyPool s') pid)))
      = sel a (snd nv) ∧
    (∀ p r, L p → p ≠ pid → valof a s' p r = valof a s p r) ∧
    T s'.
Proof.
  intros HI HO HL Hlv Huv Hlt K1 K2 K3 K4 HT0.
  unfold revalued in HT0. cbv zeta in HT0. unfold valof in K1, K2, K3, K4.
  pose proof (revalue_placed a pid bc L _ _ s HI HO HL Hlv Huv Hlt) as P0.
  cbv zeta in P0.
  destruct (ai_proxy _ _ _ _ _ _ _ HI pid HL) as (Hin & H0 & Hlu & Hu & _).
  pose proof (ai_range _ _ _ _ _ _ _ HI) as Hrange.
  unfold MoveProxy_axis. rewrite (js_get_proxy_at _ _ Hin). cbn [mbind option_bind].
  change (sel a (lowerBounds ?p)) with (ptr a true p).
  change (sel a (upperBounds ?p)) with (ptr a false p).
  set (l := ptr a true (proxy_at (proxyPool s) pid)) in *.
  set (u := ptr a false (proxy_at (proxyPool s) pid)) in *.
  set (lv := sel a (fst nv)) in *. set (uv := sel a (snd nv)) in *.
  rewrite (js_get_bound_at _ l), (js_get_bound_at _ u) by lia. cbn [mbind option_bind].
  rewrite upd_bound_in by lia. cbn [mbind option_bind].
  rewrite upd_bound_in by (autorewrite with bp; rewrite ?length_js_put; lia).
  cbn [mbind option_bind]. autorewrite with bp.
  rewrite with_bounds_twice.
  rewrite (bound_at_put _ l u) by lia. rewrite decide_False by lia.
  set (s0 := with_bounds a _ s) in *.
  set (dl := lv - value (bound_at (bounds_of a s) l)) in *.
  set (du := uv - value (bound_at (bounds_of a s) u)) in *.
  assert (moved a s s0) as M0.
  { unfold s0. split; autorewrite with bp; rewrite ?length_js_put; try done;
      apply reindexed_refl. }
  assert (∀ p r, L p → p ≠ pid → valof a s0 p r = valof a s p r) as V0.
  { intros p r Hp Hne. unfold valof, s0. autorewrite with bp.
    destruct (ai_proxy _ _ _ _ _ _ _ HI p Hp) as (_ & _ & _ & _ & Hl1 & _ & Hu1 & _).
    destruct (ai_proxy _ _ _ _ _ _ _ HI pid HL) as (_ & _ & _ & _ & Hm1 & _ & Hm2 & _).
    fold l u in Hm1, Hm2.
    assert (ptr a r (proxy_at (proxyPool s) p) ≠ l ∧ ptr a r (proxy_at (proxyPool s) p) ≠ u)
      as [Hnl Hnu] by (destruct r; split; intros E; rewrite E in *; congruence).
    rewrite !bound_at_put by (rewrite ?length_js_put; lia).
    by rewrite !decide_False by done. }
  apply (placed_weaken _ _ _ _ _ _ _ _ _ _ (0 ≤ dl) (dl ≤ 0) (0 ≤ du) (du ≤ 0)) in P0;
    [|unfold dl, du; lia..].
  fold l u in K1, K2, K3, K4.
  assert (T s0) as T0 by exact HT0.
  (* the lower bound moves down *)
  assert (∃ s1 l1, (if dl <? 0 then
                      walk_down (Z.to_nat l) (MoveProxy_lowerDown_step a pid nv) a lv l s0
                    else Some s0) = Some s1 ∧
            placed a pid bc L lv uv True (dl ≤ 0) (0 ≤ du) (du ≤ 0) l1 u s1 ∧
            moved a s s1 ∧ (0 ≤ dl → l1 = l) ∧ vals_kept a L s0 s1 ∧ T s1)
    as (s1 & l1 & -> & P1 & M1 & El & V1 & T1).
  { destruct (Z.ltb_spec dl 0).
    - destruct (phase_lowerDown _ _ _ _ _ _ _ _ _ _ _ _ _ nv T P0)
        as (s1 & l1 & E & P1 & M1 & V1 & T1); [lia|apply K1; unfold dl in *; lia|done|].
      exists s1, l1. split_and!; [done| |by eapply moved_trans|lia|done|done].
      eapply placed_weaken; [exact P1|tauto..].
    - exists s0, l. split_and!; [done| |done|done|apply vals_kept_refl|done].
      eapply placed_weaken; [exact P0|tauto..]. }
  cbn [mbind option_bind].
  (* the upper bound moves up *)
  assert (∃ s2 u2, (if du >? 0 then
                      walk_up (Z.to_nat (bc - 1 - u)) (MoveProxy_upperUp_step a pid nv) a bc
                        uv u s1
                    else Some s1) = Some s2 ∧
            placed a pid bc L lv uv True (dl ≤ 0) (0 ≤ du) True l1 u2 s2 ∧
            moved a s s2 ∧ (du ≤ 0 → u2 = u) ∧ vals_kept a L s0 s2 ∧ T s2)
    as (s2 & u2 & -> & P2 & M2 & Eu & V2 & T2).
  { destruct (Z.gtb_spec du 0).
    - destruct (phase_upperUp _ _ _ _ _ _ _ _ _ _ _ _ _ nv T P1)
        as (s2 & u2 & E & P2 & M2 & V2 & T2); [lia|apply K2; unfold du in *; lia|done|].
      exists s2, u2.
      split_and!; [done| |by eapply moved_trans|lia|by eapply vals_kept_trans|done].
      eapply placed_weaken; [exact P2|tauto..].
    - exists s1, u. split_and!; [done| |done|done|done|done].
      eapply placed_weaken; [exact P1|tauto..]. }
  cbn [mbind option_bind].
  (* the lower bound moves up *)
  assert (∃ s3 l3, (if dl >? 0 then
                      walk_up (Z.to_nat (bc - 1 - l)) (MoveProxy_lowerUp_step a pid ov) a bc
                        lv l s2
                    else Some s2) = Some s3 ∧
            placed a pid bc L lv uv True True (0 ≤ du) True l3 u2 s3 ∧
            moved a s s3 ∧ vals_kept a L s0 s3 ∧ T s3)
    as (s3 & l3 & -> & P3 & M3 & V3 & T3).
  { destruct (Z.gtb_spec dl 0).
    - rewrite El in P2 by lia.
      destruct (phase_lowerUp _ _ _ _ _ _ _ _ _ _ _ _ _ ov T P2)
        as (s3 & l3 & E & P3 & M3 & V3 & T3);
        [done|done|apply K3; unfold dl in *; lia|done|].
      exists s3, l3.
      split_and!; [done|done|by eapply moved_trans|by eapply vals_kept_trans|done].
    - exists s2, l1. split_and!; [done| |done|done|done].
      eapply placed_weaken; [exact P2|tauto..]. }
  cbn [mbind option_bind].
  (* the upper bound moves down *)
  assert (∃ s4 u4, (if du <? 0 then
                      walk_down (Z.to_nat u) (MoveProxy_upperDown_step a pid ov) a uv u s3
                    else Some s3) = Some s4 ∧
            placed a pid bc L lv uv True True True True l3 u4 s4 ∧
            moved a s s4 ∧ vals_kept a L s0 s4 ∧ T s4)
    as (s4 & u4 & -> & P4 & M4 & V4 & T4).
  { destruct (Z.ltb_spec du 0).
    - rewrite Eu in P3 by lia.
      destruct (phase_upperDown _ _ _ _ _ _ _ _ _ _ _ _ _ ov T P3)
        as (s4 & u4 & E & P4 & M4 & V4 & T4);
        [done|done|apply K4; unfold du in *; lia|done|].
      exists s4, u4.
      split_and!; [done|done|by eapply moved_trans|by eapply vals_kept_trans|done].
    - exists s3, u2. split_and!; [done| |done|done|done].
      eapply placed_weaken; [exact P3|tauto..]. }
  exists s4. split; [done|].
  destruct (placed_sorted _ _ _ _ _ _ _ _ _ P4) as (R1 & R2 & R3 & R4 & R5 & R6).
  split_and!; try done.
  - by rewrite <- R3.
  - by rewrite <- R4.
  - intros p r Hp Hne. rewrite (V4 p r Hp). by apply V0.
Qed.

Lemma MoveProxy_axis_spec pid nv ov bc a s L :
  sorted_inv a (bounds_of a s) bc (proxyPool s) L →
  sorted_inv (other a) (bounds_of (other a) s) bc (proxyPool s) L →
  L pid →
  Z.land (sel a (fst nv)) 1 = 0 → Z.land (sel a (snd nv)) 1 = 1 →
  sel a (fst nv) < sel a (snd nv) →
  ∃ s', MoveProxy_axis pid nv ov bc a s = Some s' ∧
    sorted_inv a (bounds_of a s') bc (proxyPool s') L ∧
    sorted_inv (other a) (bounds_of (other a) s') bc (proxyPool s') L ∧
    moved a s s' ∧
    value (bound_at (bounds_of a s') (ptr a true (proxy_at (proxyPool s') pid)))
      = sel a (fst nv) ∧
    value (bound_at (bounds_of a s') (ptr a false (proxy_at (proxyPool s') pid)))
      = sel a (snd nv) ∧
    (∀ p r, L p → p ≠ pid → valof a s' p r = valof a s p r).
Proof.
  intros HI HO HL Hlv Huv Hlt.
  destruct (MoveProxy_axis_trace pid nv ov bc a s L (λ _, True) HI HO HL Hlv Huv Hlt)
    as (s' & E & H1 & H2 & H3 & H4 & H5 & H6 & _); try done.
  by exists s'.
Qed.

(** * The invariant of the broad phase *)

(** The free list: from [p], the [next] links visit the proxies [fl] and
    end at the null proxy. *)
Fixpoint chain (pool : list Proxy) (p : Z) (fl : list Z) : Prop :=
  match fl with
  | [] => p = b2_nullProxy
  | q :: fl' => p = q ∧ in_pool pool q ∧ chain pool (next (proxy_at pool q)) fl'
  end.

(** The query results are all there, up to their count. *)
Definition results_ok (s : BroadPhase) : Prop :=
  0 ≤ m_queryResultCount s ∧
  ∀ i, 0 ≤ i < m_queryResultCount s → is_Some (js_read (m_queryResults s) i).

(** No proxy carries a time stamp of the future. *)
Definition stamps_le (s : BroadPhase) : Prop :=
  ∀ p, in_pool (proxyPool s) p → timeStamp (proxy_at (proxyPool s) p) ≤ m_timeStamp s.

(** The state between two operations; [L] holds of the ids of the
    proxies in use. *)
Record Inv (L : Z → Prop) (s : BroadPhase) : Prop := {
  inv_pool : Z.of_nat (length (proxyPool s)) = b2_maxProxies;
  inv_bounds : ∀ a, Z.of_nat (length (bounds_of a s)) = 2 * b2_maxProxies;
  inv_axis : ∀ a, sorted_inv a (bounds_of a s) (2 * m_proxyCount s) (proxyPool s) L;
  inv_free : ∃ fl, chain (proxyPool s) (m_freeProxy s) fl ∧ NoDup fl ∧
                   (∀ q, q ∈ fl → ¬ L q) ∧
                   m_proxyCount s + Z.of_nat (length fl) = b2_maxProxies;
  inv_stamps : ∀ p, in_pool (proxyPool s) p →
                    timeStamp (proxy_at (proxyPool s) p) < m_timeStamp s;
  inv_results : m_queryResultCount s = 0
}.

Lemma chain_ext pool pool' p fl :
  length pool' = length pool →
  (∀ q, q ∈ fl → next (proxy_at pool' q) = next (proxy_at pool q)) →
  chain pool p fl → chain pool' p fl.
Proof.
  intros Hlen. revert p. induction fl as [|q fl IH]; intros p Hn; simpl; [done|].
  intros (-> & Hin & Hc). split; [done|]. split; [unfold in_pool in *; lia|].
  rewrite Hn by set_solver. apply IH; [|done]. intros ??. apply Hn. set_solver.
Qed.

Lemma js_read_set {A} (l : list (option A)) i j x :
  0 ≤ i → js_read (js_set l i x) j = if decide (j = i) then Some x else js_read l j.
Proof.
  intros Hi. unfold js_read, js_set, js_get.
  destruct (Z.ltb_spec i 0); [lia|].
  destruct (Z.ltb_spec j 0); [by rewrite decide_False by lia|].
  destruct (Z.ltb_spec i (Z.of_nat (length l))).
  - destruct (decide (j = i)) as [->|].
    + rewrite list_lookup_insert_eq by lia. done.
    + rewrite list_lookup_insert_ne by lia. done.
  - destruct (decide (j = i)) as [->|].
    + rewrite lookup_app_r by lia.
      rewrite lookup_app_r; rewrite length_replicate; [|lia].
      replace (Z.to_nat i - length l - (Z.to_nat i - length l))%nat with 0%nat by lia.
      done.
    + destruct (decide (Z.to_nat j < length l)%nat).
      * rewrite lookup_app_l by lia. done.
      * rewrite lookup_app_r by lia.
        rewrite (lookup_ge_None_2 l) by lia.
        destruct (decide (Z.to_nat j - length l < Z.to_nat i - length l)%nat).
        -- rewrite lookup_app_l by (rewrite length_replicate; lia).
           rewrite lookup_replicate_2 by lia. done.
        -- rewrite lookup_app_r by (rewrite length_replicate; lia).
           rewrite length_replicate.
           rewrite lookup_ge_None_2; [done|]. simpl. lia.
Qed.

Lemma mark_ok id s :
  in_pool (proxyPool s) id → results_ok s → stamps_le s →
  results_ok (mark id s) ∧ stamps_le (mark id s).
Proof.
  intros Hin [Hc Hr] Hs. unfold mark. cbv zeta.
  destruct (Z.ltb_spec (timeStamp (proxy_at (proxyPool s) id)) (m_timeStamp s)).
  - split; [done|].
    intros p Hp. cbn [proxyPool with_proxyPool m_timeStamp] in *. apply (proj1 (in_pool_put _ _ _ _)) in Hp.
    rewrite proxy_at_put by done.
    destruct (decide (id = p)); cbn [timeStamp set_overlapCount set_timeStamp];
      [lia|by apply Hs].
  - split.
    + split; cbn [m_queryResultCount m_queryResults with_queryResults]; [lia|].
      intros i Hi. rewrite js_read_set by done.
      destruct (decide _); [done|]. apply Hr. lia.
    + intros p Hp.
      cbn [proxyPool with_proxyPool with_queryResults m_timeStamp] in *.
      apply (proj1 (in_pool_put _ _ _ _)) in Hp. rewrite proxy_at_put by done.
      destruct (decide (id = p)) as [->|]; cbn [timeStamp set_overlapCount]; by apply Hs.
Qed.

Lemma marks_ok ids s s' :
  (∀ id, id ∈ ids → in_pool (proxyPool s) id) →
  marks ids s = Some s' → results_ok s → stamps_le s →
  results_ok s' ∧ stamps_le s'.
Proof.
  revert s. induction ids as [|id ids IH]; intros s Hin; simpl.
  - by intros [= ->].
  - rewrite IncrementOverlapCount_in by (apply Hin; set_solver). simpl.
    intros Hm Hr Hs.
    destruct (mark_ok id s) as [Hr' Hs']; [apply Hin; set_solver|done..|].
    apply (IH (mark id s)); try done.
    intros id' Hid'. unfold in_pool.
    rewrite (mf_len _ _ _ (mark_marked_from id s ltac:(apply Hin; set_solver))).
    apply Hin. set_solver.
Qed.

Lemma buffer_results_exec f pid s :
  results_ok s → ∃ pm, buffer_results f pid s = Some (with_pairManager pm s).
Proof.
  intros [Hc Hr]. unfold buffer_results.
  destruct (for_loop_inv (λ (_ : Z) s', ∃ pm, s' = with_pairManager pm s)
              0 (m_queryResultCount s)
              (λ i (s : BroadPhase), r ← js_read (m_queryResults s) i;
                 Some (with_pairManager (f pid r (m_pairManager s)) s)) s)
    as (s' & -> & pm & ->); [done| | |by exists pm].
  - exists (m_pairManager s). by destruct s.
  - intros i s1 Hi [pm ->]. simpl. destruct (Hr i Hi) as [r ->]. simpl.
    eexists. split; [done|]. by eexists.
Qed.

Lemma IncrementTimeStamp_exec s :
  Z.of_nat (length (proxyPool s)) = b2_maxProxies →
  IncrementTimeStamp s
  = Some (if decide (m_timeStamp s = 65535)
          then with_timeStamp 1 (with_proxyPool (set_timeStamp 0 <$> proxyPool s) s)
          else with_timeStamp (m_timeStamp s + 1) s).
Proof.
  intros Hlen. unfold IncrementTimeStamp, USHRT_MAX.
  destruct (Z.eqb_spec (m_timeStamp s) 65535) as [Hts|Hts].
  - rewrite decide_True by done. rewrite reset_timeStamps by lia. simpl.
    replace (Z.to_nat b2_maxProxies) with (length (proxyPool s)) by lia.
    by rewrite firstn_all, drop_all, app_nil_r.
  - by rewrite decide_False.
Qed.

(** What every step of an operation keeps: the sizes of the arrays, the
    links of the free list, the quantization frame, and the counters. *)
Record kept (s s' : BroadPhase) : Prop := {
  kp_len : length (proxyPool s') = length (proxyPool s);
  kp_next : ∀ p, next (proxy_at (proxyPool s') p) = next (proxy_at (proxyPool s) p);
  kp_blen : ∀ a, length (bounds_of a s') = length (bounds_of a s);
  kp_factor : m_quantizationFactor s' = m_quantizationFactor s;
  kp_world : m_worldAABB s' = m_worldAABB s;
  kp_count : m_proxyCount s' = m_proxyCount s;
  kp_free : m_freeProxy s' = m_freeProxy s;
  kp_stamp : m_timeStamp s' = m_timeStamp s;
  kp_data : ∀ p, userData (proxy_at (proxyPool s') p) = userData (proxy_at (proxyPool s) p)
}.

Lemma kept_refl s : kept s s.
Proof. by split. Qed.

Lemma kept_trans s1 s2 s3 : kept s1 s2 → kept s2 s3 → kept s1 s3.
Proof.
  intros H1 H2. split.
  - rewrite (kp_len _ _ H2). apply H1.
  - intros p. rewrite (kp_next _ _ H2). apply H1.
  - intros a. rewrite (kp_blen _ _ H2). apply H1.
  - rewrite (kp_factor _ _ H2). apply H1.
  - rewrite (kp_world _ _ H2). apply H1.
  - rewrite (kp_count _ _ H2). apply H1.
  - rewrite (kp_free _ _ H2). apply H1.
  - rewrite (kp_stamp _ _ H2). apply H1.
  - intros p. rewrite (kp_data _ _ H2). apply H1.
Qed.

Lemma marked_from_kept ids s s' : marked_from ids s s' → kept s s'.
Proof.
  intros H. split; try apply H.
  intros a. unfold bounds_of. by rewrite (mf_bounds _ _ _ H).
Qed.

Lemma moved_kept a s s' : moved a s s' → kept s s'.
Proof.
  intros H. split; try apply H.
  intros b. destruct (decide (b = a)) as [->|Hb]; [apply H|].
    replace b with (other a) by (by destruct a, b). by rewrite (mv_other _ _ _ H).
Qed.

Lemma reindexed_kept a B' pool' s :
  length B' = length (bounds_of a s) → reindexed a (proxyPool s) pool' →
  kept s (with_proxyPool pool' (with_bounds a B' s)).
Proof.
  intros Hlen Hri. split; try done.
  - apply Hri.
  - apply Hri.
  - intros b. rewrite bounds_of_with_proxyPool.
    destruct (decide (b = a)) as [->|Hb]; [by rewrite bounds_of_with_bounds|].
    replace b with (other a) by (by destruct a, b). by rewrite bounds_of_with_bounds_other.
  - apply Hri.
Qed.

Lemma reindexed_stamps_le a B' pool' s :
  reindexed a (proxyPool s) pool' → stamps_le s →
  stamps_le (with_proxyPool pool' (with_bounds a B' s)).
Proof.
  intros Hri Hs p Hp. cbn [proxyPool with_proxyPool m_timeStamp with_bounds] in *.
  rewrite (ri_stamp _ _ _ Hri). apply Hs. unfold in_pool in *.
  by rewrite <- (ri_len _ _ _ Hri).
Qed.

(** The overlap counters after marks on proxies of [L]: a counter
    differs only for a proxy of [L], and is then 1 or 2. *)
Definition counts_kept (L : Z → Prop) (s s' : BroadPhase) : Prop :=
  ∀ p, overlapCount (proxy_at (proxyPool s') p) = overlapCount (proxy_at (proxyPool s) p) ∨
       (L p ∧ (overlapCount (proxy_at (proxyPool s') p) = 1 ∨
               overlapCount (proxy_at (proxyPool s') p) = 2)).

Lemma counts_kept_refl L s : counts_kept L s s.
Proof. intros p. by left. Qed.

Lemma counts_kept_trans L s1 s2 s3 :
  counts_kept L s1 s2 → counts_kept L s2 s3 → counts_kept L s1 s3.
Proof.
  intros H1 H2 p. destruct (H2 p) as [E|H]; [|by right].
  rewrite E. apply H1.
Qed.

Lemma counts_kept_mono (L L' : Z → Prop) s s' :
  (∀ p, L p → L' p) → counts_kept L s s' → counts_kept L' s s'.
Proof. intros HL H p. destruct (H p) as [E|[Hp H']]; [by left|right; auto]. Qed.

Lemma marked_from_counts ids L s s' :
  marked_from ids s s' → (∀ id, id ∈ ids → L id) → counts_kept L s s'.
Proof.
  intros Hmf HL p. destruct (mf_overlap _ _ _ Hmf p) as [E|[Hp H']]; [by left|right; auto].
Qed.

(** ** One axis of CreateProxy, DestroyProxy and MoveProxy *)

Lemma CreateProxy_axis_step a pid lvs uvs bc bc2 s L L2 :
  sorted_inv a (bounds_of a s) bc (proxyPool s) L →
  sorted_inv (other a) (bounds_of (other a) s) bc2 (proxyPool s) L2 →
  bc + 2 ≤ Z.of_nat (length (bounds_of a s)) →
  ¬ L pid → in_pool (proxyPool s) pid →
  sel a lvs < sel a uvs → Z.land (sel a lvs) 1 = 0 → Z.land (sel a uvs) 1 = 1 →
  results_ok s → stamps_le s →
  ∃ s', CreateProxy_axis pid lvs uvs bc a s = Some s' ∧
    sorted_inv a (bounds_of a s') (bc + 2) (proxyPool s') (λ p, L p ∨ p = pid) ∧
    sorted_inv (other a) (bounds_of (other a) s') bc2 (proxyPool s') L2 ∧
    kept s s' ∧ results_ok s' ∧ stamps_le s' ∧
    (∀ p r, L p → valof a s' p r = valof a s p r) ∧
    (∀ p r, valof (other a) s' p r = valof (other a) s p r) ∧
    valof a s' pid true = sel a lvs ∧ valof a s' pid false = sel a uvs ∧
    counts_kept L s s'.
Proof.
  intros HI HO Hlen HnL Hpid Hlt Hev Hodd Hr Hs.
  destruct (CreateProxy_axis_spec a pid lvs uvs bc s L HI Hlen HnL Hpid Hlt Hev Hodd)
    as (lq & uq & sq & B' & pool' & -> & _ & _ & Hm & Hmf & HinL & HlenB & Hri & HI'
        & Hv & Hnl & Hnu).
  eexists. split; [done|].
  assert (∀ id, id ∈ query_ids (bounds_of a s) a (proxyPool s) lq uq
                → in_pool (proxyPool s) id) as Hin.
  { intros id Hid. by destruct (ai_proxy _ _ _ _ _ _ _ HI id (HinL id Hid)). }
  destruct (marks_ok _ _ _ Hin Hm Hr Hs) as [Hr' Hs'].
  assert (bounds_of a sq = bounds_of a s) as Eb
    by (unfold bounds_of; by rewrite (mf_bounds _ _ _ Hmf)).
  assert (bounds_of (other a) sq = bounds_of (other a) s) as Eo
    by (unfold bounds_of; by rewrite (mf_bounds _ _ _ Hmf)).
  unfold valof. autorewrite with bp. split_and!; try done.
  - rewrite Eo. eapply reindexed_other_axis_inv; [by rewrite other_other|].
    by eapply marked_from_axis_inv.
  - eapply kept_trans; [by eapply marked_from_kept|].
    apply reindexed_kept; [by rewrite Eb|done].
  - by apply reindexed_stamps_le.
  - intros p r. rewrite Eo, (ri_other _ _ _ Hri). unfold ptr.
    by rewrite (mf_lower _ _ _ Hmf), (mf_upper _ _ _ Hmf).
  - intros p. cbn [proxyPool with_proxyPool]. rewrite (ri_overlap _ _ _ Hri).
    by apply (marked_from_counts _ _ _ _ Hmf).
Qed.

Lemma DestroyProxy_axis_step a pid bc bc2 s L L2 :
  sorted_inv a (bounds_of a s) bc (proxyPool s) L →
  sorted_inv (other a) (bounds_of (other a) s) bc2 (proxyPool s) L2 →
  L pid → results_ok s → stamps_le s →
  ∃ s', DestroyProxy_axis pid bc a s = Some s' ∧
    sorted_inv a (bounds_of a s') (bc - 2) (proxyPool s') (λ p, L p ∧ p ≠ pid) ∧
    sorted_inv (other a) (bounds_of (other a) s') bc2 (proxyPool s') L2 ∧
    kept s s' ∧ results_ok s' ∧ stamps_le s' ∧
    (∀ p r, L p → p ≠ pid → valof a s' p r = valof a s p r) ∧
    (∀ p r, valof (other a) s' p r = valof (other a) s p r) ∧
    counts_kept (λ p, L p ∧ p ≠ pid) s s'.
Proof.
  intros HI HO HL Hr Hs.
  destruct (DestroyProxy_axis_spec a pid bc s L HI HL)
    as (B' & pool' & lq & uq & sq & -> & HlenB & Hri & HI' & Hm & Hmf & HinL & Hv & _).
  exists sq. split; [done|].
  set (s1 := with_proxyPool pool' (with_bounds a B' s)) in *.
  assert (∀ id, id ∈ query_ids B' a pool' lq uq → in_pool (proxyPool s1) id) as Hin.
  { intros id Hid. by destruct (ai_proxy _ _ _ _ _ _ _ HI' id (HinL id Hid)). }
  destruct (marks_ok _ _ _ Hin Hm) as [Hr' Hs']; [done|by apply reindexed_stamps_le|].
  assert (bounds_of a sq = B') as Eb.
  { unfold bounds_of. rewrite (mf_bounds _ _ _ Hmf). apply bounds_of_with_bounds. }
  assert (bounds_of (other a) sq = bounds_of (other a) s) as Eo.
  { unfold bounds_of. rewrite (mf_bounds _ _ _ Hmf). apply bounds_of_with_bounds_other. }
  split_and!; try done.
  - rewrite Eb. by eapply marked_from_axis_inv.
  - rewrite Eo. eapply marked_from_axis_inv; [done|].
    eapply reindexed_other_axis_inv; [by rewrite other_other|done].
  - eapply kept_trans; [|by eapply marked_from_kept].
    by apply reindexed_kept.
  - intros p r Hp Hne. unfold valof. rewrite Eb, <- (Hv p r Hp Hne). unfold ptr.
    by rewrite (mf_lower _ _ _ Hmf), (mf_upper _ _ _ Hmf).
  - intros p r. unfold valof. rewrite Eo, <- (ri_other _ _ _ Hri). unfold ptr.
    by rewrite (mf_lower _ _ _ Hmf), (mf_upper _ _ _ Hmf).
  - intros p. rewrite <- (ri_overlap _ _ _ Hri p).
    destruct (marked_from_counts _ _ _ _ Hmf HinL p) as [E|H]; [by left|by right].
Qed.

Lemma moved_results_ok a s s' : moved a s s' → results_ok s → results_ok s'.
Proof.
  intros H [H1 H2]. unfold results_ok.
  by rewrite (mv_results _ _ _ H), (mv_rcount _ _ _ H).
Qed.

Lemma moved_timeStamp a s s' p :
  moved a s s' →
  timeStamp (proxy_at (proxyPool s') p) = timeStamp (proxy_at (proxyPool s) p).
Proof. intros H. apply (ri_stamp _ _ _ (mv_pool _ _ _ H)). Qed.

Lemma moved_in_pool a s s' p :
  moved a s s' → in_pool (proxyPool s') p ↔ in_pool (proxyPool s) p.
Proof. intros H. unfold in_pool. by rewrite (ri_len _ _ _ (mv_pool _ _ _ H)). Qed.

(** ** ComputeBounds *)

Lemma ComputeBounds_lower_even a aabb s : Z.land (ComputeBounds_lower a aabb s) 1 = 0.
Proof.
  unfold ComputeBounds_lower. rewrite <- Z.land_assoc. apply Z.land_0_r.
Qed.

Lemma ComputeBounds_upper_odd a aabb s : Z.land (ComputeBounds_upper a aabb s) 1 = 1.
Proof.
  unfold ComputeBounds_upper. rewrite Z.land_lor_distr_l.
  change (Z.land 1 1) with 1.
  generalize (Z.land (ToInt32 (quantize a (clamp_to_world a (coord a (maxVertex aabb)) s) s))
                65535).
  intros z. pose proof (Z.land_ones z 1 ltac:(lia)) as H. change (Z.ones 1) with 1 in H.
  rewrite H. change (2 ^ 1) with 2.
  destruct (Z.mod_pos_bound z 2 ltac:(lia)) as [H0 H1].
  assert (z mod 2 = 0 ∨ z mod 2 = 1) as [-> | ->] by lia; done.
Qed.

Lemma sel_ComputeBounds_fst a aabb s :
  sel a (fst (ComputeBounds aabb s)) = ComputeBounds_lower a aabb s.
Proof. by destruct a. Qed.

Lemma sel_ComputeBounds_snd a aabb s :
  sel a (snd (ComputeBounds aabb s)) = ComputeBounds_upper a aabb s.
Proof. by destruct a. Qed.

Lemma ComputeBounds_ext aabb s s' :
  m_worldAABB s' = m_worldAABB s → m_quantizationFactor s' = m_quantizationFactor s →
  ComputeBounds aabb s' = ComputeBounds aabb s.
Proof.
  intros Hw Hf.
  unfold ComputeBounds, ComputeBounds_lower, ComputeBounds_upper, quantize, clamp_to_world.
  by rewrite Hw, Hf.
Qed.

(** The quantized box is not inverted: on each axis the lower value is
    below the upper value. *)
Definition quantizes (aabb : AABB) (s : BroadPhase) : Prop :=
  ∀ a, ComputeBounds_lower a aabb s < ComputeBounds_upper a aabb s.

(** ** The end of an operation *)

(** The state [IncrementTimeStamp] leaves. *)
Definition tick (s : BroadPhase) : BroadPhase :=
  if decide (m_timeStamp s = 65535)
  then with_timeStamp 1 (with_proxyPool (set_timeStamp 0 <$> proxyPool s) s)
  else with_timeStamp (m_timeStamp s + 1) s.

Lemma proxy_at_reset pool p :
  proxy_at (set_timeStamp 0 <$> pool) p = set_timeStamp 0 (proxy_at pool p).
Proof.
  unfold proxy_at, js_get. destruct (p <? 0); [done|].
  rewrite list_lookup_fmap. by destruct (pool !! Z.to_nat p).
Qed.

Lemma tick_pool s p :
  proxy_at (proxyPool (tick s)) p
  = if decide (m_timeStamp s = 65535) then set_timeStamp 0 (proxy_at (proxyPool s) p)
    else proxy_at (proxyPool s) p.
Proof. unfold tick. case_decide; [apply proxy_at_reset|done]. Qed.

Lemma tick_length s : length (proxyPool (tick s)) = length (proxyPool s).
Proof. unfold tick. case_decide; [apply length_fmap|done]. Qed.

Lemma tick_ptr s p a r :
  ptr a r (proxy_at (proxyPool (tick s)) p) = ptr a r (proxy_at (proxyPool s) p).
Proof. rewrite tick_pool. by case_decide. Qed.

Lemma tick_next s p :
  next (proxy_at (proxyPool (tick s)) p) = next (proxy_at (proxyPool s) p).
Proof. rewrite tick_pool. by case_decide. Qed.

Lemma tick_bounds s a : bounds_of a (tick s) = bounds_of a s.
Proof. unfold tick. by case_decide. Qed.

Lemma tick_valof s a p r : valof a (tick s) p r = valof a s p r.
Proof. unfold valof. by rewrite tick_bounds, tick_ptr. Qed.

Lemma tick_stamp_ext s s' :
  m_timeStamp s' = m_timeStamp s → m_timeStamp (tick s') = m_timeStamp (tick s).
Proof. intros E. unfold tick. rewrite E. by repeat case_decide. Qed.

Lemma tick_overlap s p :
  overlapCount (proxy_at (proxyPool (tick s)) p) = overlapCount (proxy_at (proxyPool s) p).
Proof. rewrite tick_pool. by case_decide. Qed.

Lemma tick_data s p :
  userData (proxy_at (proxyPool (tick s)) p) = userData (proxy_at (proxyPool s) p).
Proof. rewrite tick_pool. by case_decide. Qed.

Lemma tick_count s : m_proxyCount (tick s) = m_proxyCount s.
Proof. unfold tick. by case_decide. Qed.

Lemma tick_free s : m_freeProxy (tick s) = m_freeProxy s.
Proof. unfold tick. by case_decide. Qed.

Lemma tick_world s : m_worldAABB (tick s) = m_worldAABB s.
Proof. unfold tick. by case_decide. Qed.

Lemma tick_factor s : m_quantizationFactor (tick s) = m_quantizationFactor s.
Proof. unfold tick. by case_decide. Qed.

Lemma tick_rcount s : m_queryResultCount (tick s) = m_queryResultCount s.
Proof. unfold tick. by case_decide. Qed.

Lemma tick_stamps s p :
  stamps_le s → in_pool (proxyPool s) p →
  timeStamp (proxy_at (proxyPool (tick s)) p) < m_timeStamp (tick s).
Proof.
  intros Hs Hp. rewrite tick_pool. unfold tick. case_decide; simpl; [lia|].
  specialize (Hs p Hp). lia.
Qed.

Lemma IncrementTimeStamp_tick s :
  Z.of_nat (length (proxyPool s)) = b2_maxProxies → IncrementTimeStamp s = Some (tick s).
Proof. apply IncrementTimeStamp_exec. Qed.

Lemma axis_inv_pool_live e1 e2 a bs bc pool pool' (L : Z → Prop) :
  axis_inv e1 e2 a bs bc pool L →
  length pool' = length pool →
  (∀ p r, L p → ptr a r (proxy_at pool' p) = ptr a r (proxy_at pool p)) →
  axis_inv e1 e2 a bs bc pool' L.
Proof.
  intros [H1 H2 H3 H4 H5] Hlen Hptr. split; try done.
  - intros i Hi. destruct (H3 i Hi) as (? & Hin & ?).
    split; [done|]. split; [unfold in_pool in *; lia|].
    rewrite Hptr; done.
  - intros p Hp. destruct (H4 p Hp) as (Hin & ?).
    split; [unfold in_pool in *; lia|]. rewrite !Hptr; done.
Qed.

Lemma tick_axis_inv e1 e2 a bc s L :
  axis_inv e1 e2 a (bounds_of a s) bc (proxyPool s) L →
  axis_inv e1 e2 a (bounds_of a (tick s)) bc (proxyPool (tick s)) L.
Proof.
  intros HI. rewrite tick_bounds.
  apply (axis_inv_pool _ _ _ _ _ _ _ _ HI); [apply tick_length|].
  intros p r _. apply tick_ptr.
Qed.

Lemma tick_chain s p fl : chain (proxyPool s) p fl → chain (proxyPool (tick s)) p fl.
Proof. apply chain_ext; [apply tick_length|]. intros q _. apply tick_next. Qed.

(** ** The operations keep the invariant *)

Lemma CreateProxy_full L s aabb data :
  Inv L s → m_freeProxy s ≠ b2_nullProxy → quantizes aabb s →
  ∃ s', CreateProxy aabb data s = Some (m_freeProxy s, s') ∧
    ¬ L (m_freeProxy s) ∧
    Inv (λ p, L p ∨ p = m_freeProxy s) s' ∧
    m_proxyCount s' = m_proxyCount s + 1 ∧
    m_freeProxy s' = next (proxy_at (proxyPool s) (m_freeProxy s)) ∧
    (∀ p, next (proxy_at (proxyPool s') p) = next (proxy_at (proxyPool s) p)) ∧
    m_worldAABB s' = m_worldAABB s ∧ m_quantizationFactor s' = m_quantizationFactor s ∧
    (∀ a p r, L p → valof a s' p r = valof a s p r) ∧
    (∀ a, valof a s' (m_freeProxy s) true = ComputeBounds_lower a aabb s ∧
          valof a s' (m_freeProxy s) false = ComputeBounds_upper a aabb s) ∧
    (∀ p, userData (proxy_at (proxyPool s') p)
          = if decide (p = m_freeProxy s) then data else userData (proxy_at (proxyPool s) p)) ∧
    overlapCount (proxy_at (proxyPool s') (m_freeProxy s)) = 0 ∧
    (∀ p, p ≠ m_freeProxy s →
       overlapCount (proxy_at (proxyPool s') p) = overlapCount (proxy_at (proxyPool s) p) ∨
       (L p ∧ (overlapCount (proxy_at (proxyPool s') p) = 1 ∨
               overlapCount (proxy_at (proxyPool s') p) = 2))) ∧
    m_timeStamp s' = m_timeStamp (tick s).
Proof.
  intros [Hpool Hblen Hax (fl & Hch & Hnd & HflL & Hcnt) Hst Hres] Hfree HQ.
  destruct fl as [|pid fl']; [done|]. destruct Hch as (Epid & Hin & Hch').
  inversion_clear Hnd as [|? ? Hnotin Hnd'].
  assert (¬ L pid) as HnL by (apply HflL; set_solver).
  rewrite Epid in *.
  set (px := proxy_at (proxyPool s) pid) in *.
  set (pool1 := js_put (js_put (proxyPool s) pid (set_overlapCount 0 px)) pid
                  (set_userData data (set_overlapCount 0 px))).
  set (s1 := with_proxyPool pool1 (with_freeProxy (next px) s)).
  set (lvs := fst (ComputeBounds aabb s)). set (uvs := snd (ComputeBounds aabb s)).
  set (bc := 2 * m_proxyCount s) in *.
  assert (CreateProxy aabb data s =
    (s ← CreateProxy_axis pid lvs uvs bc axis0 s1;
     s ← CreateProxy_axis pid lvs uvs bc axis1 s;
     let s := with_proxyCount (m_proxyCount s + 1) s in
     s ← buffer_results AddBufferedPair pid s;
     let s := commit_pairs s in
     let s := with_queryResults (m_queryResults s) 0 s in
     s ← IncrementTimeStamp s;
     Some (pid, s))) as ->.
  { unfold CreateProxy. rewrite !Epid.
    rewrite (js_get_proxy_at _ _ Hin). cbn [mbind option_bind].
    rewrite upd_proxy_in by done. cbn [mbind option_bind].
    rewrite upd_proxy_in by (by apply in_pool_put). cbn [mbind option_bind].
    cbn [proxyPool with_proxyPool with_freeProxy].
    rewrite proxy_at_put, decide_True by done. done. }
  (* the pool after the proxy has been claimed *)
  assert (∀ p, proxy_at pool1 p
               = if decide (p = pid) then set_userData data (set_overlapCount 0 px)
                 else proxy_at (proxyPool s) p) as Hpool1.
  { intros p. unfold pool1. rewrite !proxy_at_put by (by rewrite ?in_pool_put).
    repeat case_decide; try done; congruence. }
  assert (length pool1 = length (proxyPool s)) as Hlen1
    by (unfold pool1; by rewrite !length_js_put).
  assert (∀ p a r, ptr a r (proxy_at pool1 p) = ptr a r (proxy_at (proxyPool s) p)) as Hptr1.
  { intros p a r. rewrite Hpool1. case_decide as E; [rewrite E|]; done. }
  assert (∀ a, sorted_inv a (bounds_of a s1) bc (proxyPool s1) L) as Hax1.
  { intros a. apply (axis_inv_pool _ _ _ _ _ _ _ _ (Hax a)); [done|].
    intros p r _. apply Hptr1. }
  assert (results_ok s1) as Hr1 by (split; cbn; rewrite Hres; [done|lia]).
  assert (stamps_le s1) as Hs1.
  { intros p Hp. cbn in Hp |- *. fold pool1 in Hp |- *. rewrite Hpool1.
    assert (in_pool (proxyPool s) p) as Hp' by (unfold in_pool in *; lia).
    specialize (Hst p Hp'). case_decide as E; [rewrite E in Hst|]; cbn; fold px in Hst; lia. }
  assert (∀ a, sel a lvs < sel a uvs) as Hlt.
  { intros a. unfold lvs, uvs. rewrite sel_ComputeBounds_fst, sel_ComputeBounds_snd.
    apply HQ. }
  assert (∀ a, Z.land (sel a lvs) 1 = 0) as Hev.
  { intros a. unfold lvs. rewrite sel_ComputeBounds_fst. apply ComputeBounds_lower_even. }
  assert (∀ a, Z.land (sel a uvs) 1 = 1) as Hodd.
  { intros a. unfold uvs. rewrite sel_ComputeBounds_snd. apply ComputeBounds_upper_odd. }
  assert (in_pool (proxyPool s1) pid) as Hin1 by (unfold in_pool in *; cbn; lia).
  assert (bc + 2 ≤ 2 * b2_maxProxies) as Hroom by (cbn [length] in Hcnt; lia).
  (* the two axes *)
  destruct (CreateProxy_axis_step axis0 pid lvs uvs bc bc s1 L L)
    as (s2 & -> & I0 & I1 & K2 & R2 & S2 & V2 & W2 & Nl2 & Nu2 & C2); try done.
  { change (bounds_of axis0 s1) with (bounds_of axis0 s). rewrite (Hblen axis0). lia. }
  cbn [mbind option_bind].
  destruct (CreateProxy_axis_step axis1 pid lvs uvs bc (bc + 2) s2 L (λ p, L p ∨ p = pid))
    as (s3 & -> & J1 & J0 & K3 & R3 & S3 & V3 & W3 & Nl3 & Nu3 & C3); try done.
  { rewrite (kp_blen _ _ K2). change (bounds_of axis1 s1) with (bounds_of axis1 s).
    rewrite (Hblen axis1). lia. }
  { unfold in_pool. rewrite (kp_len _ _ K2). done. }
  cbn [mbind option_bind]. cbv zeta.
  destruct (buffer_results_exec AddBufferedPair pid (with_proxyCount (m_proxyCount s3 + 1) s3))
    as [pm ->]; [done|].
  cbn [mbind option_bind].
  pose proof (kept_trans _ _ _ K2 K3) as K.
  rewrite IncrementTimeStamp_tick
    by (cbn; rewrite (kp_len _ _ K); cbn; lia).
  cbn [mbind option_bind]. eexists. split; [done|].
  set (s4 := with_queryResults _ 0 _).
  assert (proxyPool s4 = proxyPool s3) as E4 by done.
  assert (∀ a, bounds_of a s4 = bounds_of a s3) as B4 by done.
  split_and!; try done.
  - split.
    + rewrite tick_length, E4, (kp_len _ _ K). cbn. lia.
    + intros a. rewrite tick_bounds, B4, (kp_blen _ _ K). apply Hblen.
    + intros a. rewrite tick_count.
      replace (2 * m_proxyCount s4) with (bc + 2)
        by (unfold s4; cbn; rewrite (kp_count _ _ K); cbn; lia).
      apply tick_axis_inv. rewrite B4, E4. by destruct a.
    + exists fl'. rewrite tick_free, tick_count. split_and!; try done.
      * apply tick_chain. rewrite E4.
        apply (chain_ext (proxyPool s)); [by rewrite (kp_len _ _ K)| |].
        -- intros q Hq. rewrite (kp_next _ _ K). cbn. fold pool1. rewrite Hpool1.
           case_decide as E; [rewrite E|]; done.
        -- unfold s4. cbn. rewrite (kp_free _ _ K). done.
      * intros q Hq [HLq| ->]; [|done]. apply (HflL q); [set_solver|done].
      * unfold s4. cbn. rewrite (kp_count _ _ K). cbn. cbn [length] in Hcnt. lia.
    + intros p Hp. apply tick_stamps; [exact S3|].
      unfold in_pool in *. by rewrite tick_length in Hp.
    + by rewrite tick_rcount.
  - rewrite tick_count. unfold s4. cbn. rewrite (kp_count _ _ K). done.
  - rewrite tick_free. unfold s4. cbn. rewrite (kp_free _ _ K). done.
  - intros p. rewrite tick_next, E4, (kp_next _ _ K). cbn. fold pool1. rewrite Hpool1.
    case_decide as E; [rewrite E|]; done.
  - rewrite tick_world. unfold s4. cbn. by rewrite (kp_world _ _ K).
  - rewrite tick_factor. unfold s4. cbn. by rewrite (kp_factor _ _ K).
  - intros a p r Hp. rewrite tick_valof. change (valof a s4 p r) with (valof a s3 p r).
    cbn [other] in W2, W3.
    transitivity (valof a s1 p r).
    + destruct a; [rewrite (W3 p r); by apply V2|rewrite (V3 p r Hp); apply W2].
    + unfold valof. by rewrite Hptr1.
  - intros a. rewrite !tick_valof.
    change (valof a s4 pid ?r) with (valof a s3 pid r).
    unfold lvs, uvs in Nl2, Nu2, Nl3, Nu3.
    rewrite sel_ComputeBounds_fst in Nl2, Nl3. rewrite sel_ComputeBounds_snd in Nu2, Nu3.
    cbn [other] in W3. destruct a; [|done]. by rewrite !(W3 pid).
  - intros p. rewrite tick_data, E4, (kp_data _ _ K). cbn. fold pool1. rewrite Hpool1.
    case_decide; done.
  - rewrite tick_overlap, E4.
    destruct (counts_kept_trans _ _ _ _ C2 C3 pid) as [E|[HLp _]]; [|done].
    rewrite E. cbn [proxyPool s1 with_proxyPool]. fold pool1. rewrite Hpool1.
    by rewrite decide_True.
  - intros p Hne. rewrite tick_overlap, E4.
    destruct (counts_kept_trans _ _ _ _ C2 C3 p) as [E|H]; [left|by right].
    rewrite E. cbn [proxyPool s1 with_proxyPool]. fold pool1. rewrite Hpool1.
    by rewrite decide_False.
  - apply tick_stamp_ext. unfold s4. cbn. by rewrite (kp_stamp _ _ K).
Qed.

Lemma CreateProxy_spec L s aabb data :
  Inv L s → m_freeProxy s ≠ b2_nullProxy → quantizes aabb s →
  ∃ s', CreateProxy aabb data s = Some (m_freeProxy s, s') ∧
    ¬ L (m_freeProxy s) ∧
    Inv (λ p, L p ∨ p = m_freeProxy s) s' ∧
    m_proxyCount s' = m_proxyCount s + 1 ∧
    m_freeProxy s' = next (proxy_at (proxyPool s) (m_freeProxy s)) ∧
    (∀ p, next (proxy_at (proxyPool s') p) = next (proxy_at (proxyPool s) p)) ∧
    m_worldAABB s' = m_worldAABB s ∧ m_quantizationFactor s' = m_quantizationFactor s.
Proof.
  intros HI Hf HQ.
  destruct (CreateProxy_full L s aabb data HI Hf HQ)
    as (s' & E & H1 & H2 & H3 & H4 & H5 & H6 & H7 & _).
  by exists s'.
Qed.

Ltac upd_step :=
  rewrite upd_proxy_in
    by (cbn [proxyPool with_proxyPool]; rewrite ?in_pool_put; done);
  cbn [mbind option_bind proxyPool with_proxyPool];
  try (rewrite proxy_at_put by (rewrite ?in_pool_put; done); rewrite decide_True by done).

Lemma DestroyProxy_full L s pid :
  Inv L s → L pid →
  ∃ s', DestroyProxy pid s = Some s' ∧
    Inv (λ p, L p ∧ p ≠ pid) s' ∧
    m_proxyCount s' = m_proxyCount s - 1 ∧
    m_freeProxy s' = pid ∧
    (∀ p, next (proxy_at (proxyPool s') p)
          = if decide (p = pid) then m_freeProxy s else next (proxy_at (proxyPool s) p)) ∧
    m_worldAABB s' = m_worldAABB s ∧ m_quantizationFactor s' = m_quantizationFactor s ∧
    (∀ a p r, L p → p ≠ pid → valof a s' p r = valof a s p r) ∧
    (∀ p, userData (proxy_at (proxyPool s') p)
          = if decide (p = pid) then None else userData (proxy_at (proxyPool s) p)) ∧
    overlapCount (proxy_at (proxyPool s') pid) = invalid ∧
    (∀ p, p ≠ pid →
       overlapCount (proxy_at (proxyPool s') p) = overlapCount (proxy_at (proxyPool s) p) ∨
       (L p ∧ (overlapCount (proxy_at (proxyPool s') p) = 1 ∨
               overlapCount (proxy_at (proxyPool s') p) = 2))) ∧
    lowerBounds (proxy_at (proxyPool s') pid) = (invalid, invalid) ∧
    upperBounds (proxy_at (proxyPool s') pid) = (invalid, invalid) ∧
    m_timeStamp s' = m_timeStamp (tick s).
Proof.
  intros [Hpool Hblen Hax (fl & Hch & Hnd & HflL & Hcnt) Hst Hres] HL.
  destruct (ai_proxy _ _ _ _ _ _ _ (Hax axis0) pid HL) as (Hin & _).
  set (bc := 2 * m_proxyCount s) in *.
  assert (results_ok s) as Hr0 by (split; rewrite Hres; [done|lia]).
  assert (stamps_le s) as Hs0 by (intros p Hp; specialize (Hst p Hp); lia).
  unfold DestroyProxy. rewrite (js_get_proxy_at _ _ Hin). cbn [mbind option_bind]. cbv zeta.
  fold bc.
  destruct (DestroyProxy_axis_step axis0 pid bc bc s L L)
    as (s1 & -> & I0 & I1 & K1 & R1 & S1 & V1 & W1 & C1); try done; [apply Hax..|].
  cbn [mbind option_bind].
  destruct (DestroyProxy_axis_step axis1 pid bc (bc - 2) s1 L (λ p, L p ∧ p ≠ pid))
    as (s2 & -> & J1 & J0 & K2 & R2 & S2 & V2 & W2 & C2); try done.
  cbn [other] in W1, W2.
  cbn [mbind option_bind].
  destruct (buffer_results_exec RemoveBufferedPair pid s2) as [pm ->]; [done|].
  cbn [mbind option_bind].
  pose proof (kept_trans _ _ _ K1 K2) as K.
  rewrite IncrementTimeStamp_tick by (cbn; rewrite (kp_len _ _ K); lia).
  cbn [mbind option_bind].
  set (s3 := with_queryResults _ 0 _).
  assert (proxyPool s3 = proxyPool s2) as E3 by done.
  assert (∀ a, bounds_of a s3 = bounds_of a s2) as B3 by done.
  assert (in_pool (proxyPool (tick s3)) pid) as Hin3.
  { unfold in_pool in *. rewrite tick_length, E3, (kp_len _ _ K). done. }
  do 7 upd_step.
  set (p0 := proxy_at (proxyPool (tick s3)) pid).
  set (v7 := SetNext _ _). set (poolF := js_put _ pid v7).
  eexists. split; [done|].
  assert (∀ p, proxy_at poolF p = if decide (p = pid) then v7 else proxy_at (proxyPool (tick s3)) p)
    as HpoolF.
  { intros p. unfold poolF. rewrite !proxy_at_put by (rewrite ?in_pool_put; done).
    destruct (decide (pid = p)) as [->|]; [by rewrite decide_True|by rewrite decide_False]. }
  assert (length poolF = length (proxyPool s)) as HlenF.
  { unfold poolF. rewrite !length_js_put, tick_length, E3. apply K. }
  assert (m_freeProxy (tick s3) = m_freeProxy s) as Hfree3.
  { rewrite tick_free. unfold s3. cbn. apply K. }
  assert (m_proxyCount (tick s3) = m_proxyCount s) as Hcount3.
  { rewrite tick_count. unfold s3. cbn. apply K. }
  assert (pid ∉ fl) as Hpfl by (intros Hq; by apply (HflL pid Hq)).
  assert (∀ p, next (proxy_at poolF p)
          = if decide (p = pid) then m_freeProxy s else next (proxy_at (proxyPool s) p)) as HnextF.
  { intros p. rewrite HpoolF. case_decide; [unfold v7; cbn; by rewrite Hfree3|].
    rewrite tick_next, E3. apply K. }
  cbn [m_proxyCount m_freeProxy with_proxyCount with_freeProxy with_proxyPool proxyPool
       m_worldAABB m_quantizationFactor].
  split_and!; try done.
  - split; cbn [m_proxyCount m_freeProxy with_proxyCount with_freeProxy with_proxyPool
                proxyPool m_timeStamp m_queryResultCount].
    + lia.
    + intros a. change (bounds_of a _) with (bounds_of a (tick s3)).
      rewrite tick_bounds, B3, (kp_blen _ _ K). apply Hblen.
    + intros a. change (bounds_of a _) with (bounds_of a (tick s3)).
      rewrite Hcount3. replace (2 * (m_proxyCount s - 1)) with (bc - 2) by (unfold bc; lia).
      apply (axis_inv_pool_live _ _ _ _ _ (proxyPool (tick s3))).
      * apply tick_axis_inv. rewrite B3, E3. by destruct a.
      * rewrite HlenF, tick_length, E3. symmetry. apply K.
      * intros p r [_ Hp]. rewrite HpoolF. by rewrite decide_False.
    + exists (pid :: fl). split_and!.
      * cbn [chain]. split; [done|]. split; [unfold in_pool in *; lia|].
        rewrite HnextF, decide_True by done.
        apply (chain_ext (proxyPool s)); [done| |done].
        intros q Hq. rewrite HnextF, decide_False; [done|]. intros ->. done.
      * by constructor.
      * intros q Hq [HLq Hne]. apply elem_of_cons in Hq as [->|Hq]; [done|].
        by apply (HflL q).
      * rewrite Hcount3. cbn [length]. lia.
    + intros p Hp. rewrite HpoolF.
      assert (in_pool (proxyPool s3) p) as Hp3.
      { unfold in_pool in *. rewrite HlenF in Hp. rewrite E3, (kp_len _ _ K). done. }
      pose proof (tick_stamps s3 p S2 Hp3) as Ht.
      pose proof (tick_stamps s3 pid S2 ltac:(unfold in_pool in *; by rewrite tick_length in Hin3)).
      case_decide; [|done]. unfold v7. cbn. done.
    + rewrite tick_rcount. done.
  - lia.
  - rewrite tick_world. unfold s3. cbn. apply K.
  - rewrite tick_factor. unfold s3. cbn. apply K.
  - intros a p r Hp Hne. unfold valof at 1.
    cbn [proxyPool with_proxyCount with_freeProxy with_proxyPool].
    change (bounds_of a _) with (bounds_of a (tick s3)).
    rewrite HpoolF, decide_False by done.
    change (value _) with (valof a (tick s3) p r). rewrite tick_valof.
    change (valof a s3 p r) with (valof a s2 p r).
    destruct a; [rewrite (W2 p r); by apply V1|rewrite (V2 p r Hp Hne); apply W1].
  - intros p. rewrite HpoolF. case_decide; [done|].
    rewrite tick_data, E3. apply K.
  - by rewrite HpoolF, decide_True.
  - intros p Hne. rewrite HpoolF, decide_False, tick_overlap, E3 by done.
    destruct (counts_kept_trans _ _ _ _ C1 C2 p) as [E|[[Hp _] H]]; [by left|by right].
  - by rewrite HpoolF, decide_True.
  - by rewrite HpoolF, decide_True.
  - cbn [m_timeStamp with_proxyCount with_freeProxy with_proxyPool].
    apply tick_stamp_ext. unfold s3. cbn. apply K.
Qed.

Lemma DestroyProxy_spec L s pid :
  Inv L s → L pid →
  ∃ s', DestroyProxy pid s = Some s' ∧
    Inv (λ p, L p ∧ p ≠ pid) s' ∧
    m_proxyCount s' = m_proxyCount s - 1 ∧
    m_freeProxy s' = pid ∧
    (∀ p, next (proxy_at (proxyPool s') p)
          = if decide (p = pid) then m_freeProxy s else next (proxy_at (proxyPool s) p)) ∧
    m_worldAABB s' = m_worldAABB s ∧ m_quantizationFactor s' = m_quantizationFactor s.
Proof.
  intros HI HL.
  destruct (DestroyProxy_full L s pid HI HL)
    as (s' & E & H1 & H2 & H3 & H4 & H5 & H6 & _).
  by exists s'.
Qed.

Lemma old_values_total L s pid :
  Inv L s → L pid → ∃ ov, old_values pid s = Some ov.
Proof.
  intros HI HL. unfold old_values.
  destruct (ai_proxy _ _ _ _ _ _ _ (inv_axis _ _ HI axis0) pid HL)
    as (Hin & H0 & Hlu0 & Hu0 & _).
  destruct (ai_proxy _ _ _ _ _ _ _ (inv_axis _ _ HI axis1) pid HL)
    as (_ & H1 & Hlu1 & Hu1 & _).
  pose proof (ai_range _ _ _ _ _ _ _ (inv_axis _ _ HI axis0)) as R0.
  pose proof (ai_range _ _ _ _ _ _ _ (inv_axis _ _ HI axis1)) as R1.
  change (ptr axis0 true ?p) with (sel axis0 (lowerBounds p)) in *.
  change (ptr axis0 false ?p) with (sel axis0 (upperBounds p)) in *.
  change (ptr axis1 true ?p) with (sel axis1 (lowerBounds p)) in *.
  change (ptr axis1 false ?p) with (sel axis1 (upperBounds p)) in *.
  rewrite (js_get_proxy_at _ _ Hin). cbn [mbind option_bind].
  rewrite !js_get_bound_at by lia. cbn [mbind option_bind]. by eexists.
Qed.

Lemma moved_valof_other a s s' p r :
  moved a s s' → valof (other a) s' p r = valof (other a) s p r.
Proof.
  intros M. unfold valof.
  by rewrite (mv_other _ _ _ M), (ri_other _ _ _ (mv_pool _ _ _ M)).
Qed.

Lemma MoveProxy_spec L s pid aabb :
  Inv L s → L pid → quantizes aabb s →
  ∃ s', MoveProxy pid aabb s = Some s' ∧ Inv L s' ∧ kept s s' ∧
    (∀ a p r, L p → p ≠ pid → valof a s' p r = valof a s p r) ∧
    (pid ≠ b2_nullProxy → AABB_IsValid aabb = true →
     ∀ a, valof a s' pid true = ComputeBounds_lower a aabb s ∧
          valof a s' pid false = ComputeBounds_upper a aabb s) ∧
    (∀ p, overlapCount (proxy_at (proxyPool s') p) = overlapCount (proxy_at (proxyPool s) p)).
Proof.
  intros HI HL HQ. unfold MoveProxy.
  destruct (_ || _) eqn:G.
  { exists s; split_and!; [done..|apply kept_refl|done| |done].
    intros Hnn _. exfalso.
    destruct (ai_proxy _ _ _ _ _ _ _ (inv_axis _ _ HI axis0) pid HL) as (Hin & _).
    unfold in_pool in Hin. rewrite (inv_pool _ _ HI) in Hin.
    apply orb_true_iff in G as [G|G]; [apply Z.eqb_eq in G; done|apply Z.leb_le in G; lia]. }
  destruct (negb _) eqn:G2.
  { exists s; split_and!; [done..|apply kept_refl|done| |done].
    intros _ Hv. rewrite Hv in G2. done. }
  cbv zeta.
  destruct (old_values_total L s pid HI HL) as [ov ->]. cbn [mbind option_bind].
  destruct HI as [Hpool Hblen Hax (fl & Hch & Hnd & HflL & Hcnt) Hst Hres].
  set (bc := 2 * m_proxyCount s) in *. set (nv := ComputeBounds aabb s).
  destruct (MoveProxy_axis_spec pid nv ov bc axis0 s L)
    as (s1 & -> & I0 & I1 & M1 & Vl0 & Vu0 & O0); try done.
  { unfold nv. rewrite sel_ComputeBounds_fst. apply ComputeBounds_lower_even. }
  { unfold nv. rewrite sel_ComputeBounds_snd. apply ComputeBounds_upper_odd. }
  { unfold nv. rewrite sel_ComputeBounds_fst, sel_ComputeBounds_snd. apply HQ. }
  cbn [mbind option_bind].
  destruct (MoveProxy_axis_spec pid nv ov bc axis1 s1 L)
    as (s2 & -> & J1 & J0 & M2 & Vl1 & Vu1 & O1); try done.
  { unfold nv. rewrite sel_ComputeBounds_fst. apply ComputeBounds_lower_even. }
  { unfold nv. rewrite sel_ComputeBounds_snd. apply ComputeBounds_upper_odd. }
  { unfold nv. rewrite sel_ComputeBounds_fst, sel_ComputeBounds_snd. apply HQ. }
  pose proof (kept_trans _ _ _ (moved_kept _ _ _ M1) (moved_kept _ _ _ M2)) as K.
  exists s2. split; [done|]. split; [|split; [done|]].
  2:{ assert (∀ p r, valof axis0 s2 p r = valof axis0 s1 p r) as X0
        by (intros p r; apply (moved_valof_other axis1 s1 s2 p r M2)).
      assert (∀ p r, valof axis1 s1 p r = valof axis1 s p r) as X1
        by (intros p r; apply (moved_valof_other axis0 s s1 p r M1)).
      split_and!.
      - intros a p r Hp Hne. destruct a.
        + rewrite X0. by apply O0.
        + rewrite (O1 p r Hp Hne). apply X1.
      - intros _ _ a. unfold nv in *. rewrite sel_ComputeBounds_fst in Vl0, Vl1.
        rewrite sel_ComputeBounds_snd in Vu0, Vu1. destruct a.
        + by rewrite !X0.
        + done.
      - intros p. rewrite (ri_overlap _ _ _ (mv_pool _ _ _ M2)).
        apply (ri_overlap _ _ _ (mv_pool _ _ _ M1)). }
  split.
  - rewrite (kp_len _ _ K). done.
  - intros a. rewrite (kp_blen _ _ K). apply Hblen.
  - intros a. rewrite (kp_count _ _ K). fold bc. by destruct a.
  - exists fl. rewrite (kp_free _ _ K), (kp_count _ _ K). split_and!; try done.
    apply (chain_ext (proxyPool s)); [apply K| |done]. intros q _. apply K.
  - intros p Hp. rewrite (kp_stamp _ _ K).
    rewrite (moved_timeStamp _ _ _ _ M2), (moved_timeStamp _ _ _ _ M1).
    apply Hst. unfold in_pool in *. by rewrite <- (kp_len _ _ K).
  - rewrite (mv_rcount _ _ _ M2), (mv_rcount _ _ _ M1). done.
Qed.

Lemma Commit_spec L s : Inv L s → Inv L (snd (Commit s)).
Proof. intros [H1 H2 H3 H4 H5 H6]. by split. Qed.

(** ** One generation of marks *)

(** A generation starts with every time stamp in the past. *)
Definition fresh (s : BroadPhase) : Prop :=
  ∀ p, in_pool (proxyPool s) p → timeStamp (proxy_at (proxyPool s) p) < m_timeStamp s.

(** [r] occurs in [ids] after an earlier occurrence. *)
Definition twice (r : Z) (ids : list Z) : Prop :=
  ∃ l1 l2, ids = l1 ++ r :: l2 ∧ r ∈ l1.

(** The state after [IncrementOverlapCount] has been called for the
    proxies [pre], in this order, since the generation began in [s0]. *)
Record marking (s0 : BroadPhase) (pre : list Z) (s : BroadPhase) : Prop := {
  mk_stamp : m_timeStamp s = m_timeStamp s0;
  mk_len : length (proxyPool s) = length (proxyPool s0);
  mk_le : ∀ p, in_pool (proxyPool s) p →
               timeStamp (proxy_at (proxyPool s) p) ≤ m_timeStamp s0;
  mk_seen : ∀ p, in_pool (proxyPool s) p →
                 (timeStamp (proxy_at (proxyPool s) p) = m_timeStamp s0 ↔ p ∈ pre);
  mk_data : ∀ p, userData (proxy_at (proxyPool s) p) = userData (proxy_at (proxyPool s0) p);
  mk_count : m_queryResultCount s0 ≤ m_queryResultCount s;
  mk_old : ∀ i, 0 ≤ i < m_queryResultCount s0 →
                js_read (m_queryResults s) i = js_read (m_queryResults s0) i;
  mk_new : ∀ i, m_queryResultCount s0 ≤ i < m_queryResultCount s →
                ∃ r, js_read (m_queryResults s) i = Some r ∧ twice r pre
}.

Lemma twice_snoc r pre id : twice r pre → twice r (pre ++ [id]).
Proof.
  intros (l1 & l2 & -> & Hr). exists l1, (l2 ++ [id]). split; [|done].
  by rewrite <- (assoc_L (++)).
Qed.

Lemma twice_app r pre ids : twice r pre → twice r (pre ++ ids).
Proof.
  intros (l1 & l2 & -> & Hr). exists l1, (l2 ++ ids). split; [|done].
  by rewrite <- (assoc_L (++)).
Qed.

Lemma marking_start s0 : fresh s0 → marking s0 [] s0.
Proof.
  intros Hf. split; try done.
  - intros p Hp. specialize (Hf p Hp). lia.
  - intros p Hp. specialize (Hf p Hp). split; [lia|by intros ?%elem_of_nil].
  - intros i Hi. lia.
Qed.

(** The call appends its proxy to the results exactly when the proxy
    has been marked before in this generation. *)
Lemma marking_step s0 pre s id :
  0 ≤ m_queryResultCount s0 → marking s0 pre s → in_pool (proxyPool s) id →
  marking s0 (pre ++ [id]) (mark id s) ∧
  (id ∈ pre →
     m_queryResultCount (mark id s) = m_queryResultCount s + 1 ∧
     js_read (m_queryResults (mark id s)) (m_queryResultCount s) = Some id) ∧
  (id ∉ pre →
     m_queryResultCount (mark id s) = m_queryResultCount s ∧
     m_queryResults (mark id s) = m_queryResults s).
Proof.
  intros Hc0 [H1 H2 H3 H4 H5 H6 H7 H8] Hin. unfold mark. cbv zeta. rewrite H1.
  destruct (Z.ltb_spec (timeStamp (proxy_at (proxyPool s) id)) (m_timeStamp s0)) as [Hlt|Hge].
  - assert (id ∉ pre) as Hnot by (intros Hp; apply (H4 id Hin) in Hp; lia).
    split; [|split; [done|by intros _]].
    split; cbn [m_timeStamp m_queryResultCount m_queryResults proxyPool with_proxyPool];
      try done.
    + by rewrite length_js_put.
    + intros p Hp. apply (proj1 (in_pool_put _ _ _ _)) in Hp.
      rewrite proxy_at_put by done. case_decide; cbn; [lia|by apply H3].
    + intros p Hp. apply (proj1 (in_pool_put _ _ _ _)) in Hp.
      rewrite proxy_at_put by done. case_decide as E; cbn.
      * rewrite <- E. split; [intros _; set_solver|done].
      * rewrite (H4 p Hp). set_solver.
    + intros p. rewrite proxy_at_put by done. case_decide as E; [rewrite <- E|]; cbn; apply H5.
    + intros i Hi. destruct (H8 i Hi) as (r & Hr & Ht). exists r. split; [done|].
      by apply twice_snoc.
  - assert (id ∈ pre) as Hpre by (apply (H4 id Hin); specialize (H3 id Hin); lia).
    split; [|split; [intros _|done]].
    + split; cbn [m_timeStamp m_queryResultCount m_queryResults proxyPool with_proxyPool
                  with_queryResults]; try done.
      * by rewrite length_js_put.
      * intros p Hp. apply (proj1 (in_pool_put _ _ _ _)) in Hp.
        rewrite proxy_at_put by done. case_decide as E; cbn; by apply H3.
      * intros p Hp. apply (proj1 (in_pool_put _ _ _ _)) in Hp.
        rewrite proxy_at_put by done. case_decide as E; cbn.
        -- rewrite <- E. rewrite (H4 id Hin). set_solver.
        -- rewrite (H4 p Hp). set_solver.
      * intros p. rewrite proxy_at_put by done.
        case_decide as E; [rewrite <- E|]; cbn; apply H5.
      * lia.
      * intros i Hi. rewrite js_read_set by lia. rewrite decide_False by lia. by apply H7.
      * intros i Hi. rewrite js_read_set by lia. case_decide as E.
        -- exists id. split; [done|]. exists pre, []. done.
        -- destruct (H8 i ltac:(lia)) as (r & Hr & Ht). exists r. split; [done|].
           by apply twice_snoc.
    + cbn [m_queryResultCount m_queryResults with_queryResults]. split; [done|].
      rewrite js_read_set by lia. by rewrite decide_True.
Qed.

Lemma marking_marks s0 ids : ∀ pre s s',
  0 ≤ m_queryResultCount s0 → marking s0 pre s →
  (∀ id, id ∈ ids → in_pool (proxyPool s0) id) →
  marks ids s = Some s' → marking s0 (pre ++ ids) s'.
Proof.
  induction ids as [|id ids IH]; intros pre s s' Hc0 Hm Hin; simpl.
  - intros [= <-]. by rewrite app_nil_r.
  - assert (in_pool (proxyPool s) id) as Hid.
    { unfold in_pool. rewrite (mk_len _ _ _ Hm). apply Hin. set_solver. }
    rewrite IncrementOverlapCount_in by done. simpl. intros Hs'.
    destruct (marking_step s0 pre s id Hc0 Hm Hid) as (Hm' & _).
    rewrite (cons_middle id), (assoc_L (++)).
    apply (IH _ (mark id s)); try done. intros ??. apply Hin. set_solver.
Qed.

(** ** The proxies a query marks are distinct *)

Lemma hard_ids_elem bs a pool lq n id :
  id ∈ hard_ids bs a pool lq n ↔
  ∃ k, 0 ≤ k < Z.of_nat n ∧ spans bs a pool lq k = true ∧ proxyId (bound_at bs k) = id.
Proof.
  split; [apply hard_ids_owner|].
  intros (k & Hk & Hs & Hid). induction n as [|n IH]; [lia|]. simpl.
  apply elem_of_app. destruct (decide (k = Z.of_nat n)) as [->|Hne].
  - left. rewrite Hs. set_solver.
  - right. apply IH. lia.
Qed.

Lemma easy_ids_elem bs lq n id :
  id ∈ easy_ids bs lq n ↔
  ∃ k, lq ≤ k < lq + Z.of_nat n ∧ IsLower (bound_at bs k) = true ∧
       proxyId (bound_at bs k) = id.
Proof.
  split; [apply easy_ids_owner|].
  intros (k & Hk & Hs & Hid). revert lq Hk. induction n as [|n IH]; intros lq Hk; [lia|].
  simpl. apply elem_of_app. destruct (decide (k = lq)) as [->|Hne].
  - left. rewrite Hs. set_solver.
  - right. apply IH. lia.
Qed.

Section Distinct.
Context {e1 e2 : Z} {a : Axis} {bs : list Bound} {bc : Z} {pool : list Proxy}
  {L : Z → Prop} (HI : axis_inv e1 e2 a bs bc pool L).

Lemma NoDup_hard_ids lq n : Z.of_nat n ≤ bc → NoDup (hard_ids bs a pool lq n).
Proof.
  induction n as [|n IH]; intros Hn; simpl; [constructor|].
  apply NoDup_app. split_and!.
  - destruct (spans _ _ _ _ _); [apply NoDup_singleton|constructor].
  - intros id Hid Hin. destruct (spans bs a pool lq (Z.of_nat n)) eqn:Hs; [|set_solver].
    apply list_elem_of_singleton in Hid. subst id.
    apply hard_ids_elem in Hin as (k & Hk & Hsk & Hidk).
    unfold spans in Hs, Hsk.
    apply andb_true_iff in Hs as [Hs _]. apply andb_true_iff in Hsk as [Hsk _].
    assert (k = Z.of_nat n); [|lia].
    apply (axis_inv_key_inj _ _ _ _ _ _ _ _ _ HI); [lia|lia|done|congruence].
  - apply IH. lia.
Qed.

Lemma NoDup_easy_ids lq n : 0 ≤ lq → lq + Z.of_nat n ≤ bc → NoDup (easy_ids bs lq n).
Proof.
  revert lq. induction n as [|n IH]; intros lq Hlq Hn; simpl; [constructor|].
  apply NoDup_app. split_and!.
  - destruct (IsLower _); [apply NoDup_singleton|constructor].
  - intros id Hid Hin. destruct (IsLower (bound_at bs lq)) eqn:Hs; [|set_solver].
    apply list_elem_of_singleton in Hid. subst id.
    apply easy_ids_elem in Hin as (k & Hk & Hsk & Hidk).
    assert (k = lq); [|lia].
    apply (axis_inv_key_inj _ _ _ _ _ _ _ _ _ HI); [lia|lia|done|congruence].
  - apply IH; lia.
Qed.

Lemma NoDup_query_ids lq uq : 0 ≤ lq ≤ bc → uq ≤ bc → NoDup (query_ids bs a pool lq uq).
Proof.
  intros Hlq Huq. unfold query_ids. apply NoDup_app. split_and!.
  - apply NoDup_easy_ids; lia.
  - intros id (k & Hk & Hl & Hid)%easy_ids_elem (k' & Hk' & Hs & Hid')%hard_ids_elem.
    unfold spans in Hs. apply andb_true_iff in Hs as [Hs _].
    assert (k = k'); [|lia].
    apply (axis_inv_key_inj _ _ _ _ _ _ _ _ _ HI); [lia|lia|congruence|congruence].
  - apply NoDup_hard_ids. lia.
Qed.

(** A marked proxy meets the query range: its lower value is at most
    the upper value of the query, and its upper value at least the
    lower value of the query. *)
Lemma query_ids_overlap lv uv lq uq id :
  e1 = -1 → e2 = -1 →
  search_result bs bc lv lq → search_result bs bc uv uq → lv < uv →
  id ∈ query_ids bs a pool lq uq →
  value (bound_at bs (ptr a true (proxy_at pool id))) ≤ uv ∧
  lv ≤ value (bound_at bs (ptr a false (proxy_at pool id))).
Proof.
  intros -> -> Rl Ru Hlt Hin.
  pose proof (sorted_inv_sorted _ _ _ _ _ HI) as Hs.
  pose proof (search_results_le _ _ _ _ _ _ Hs Rl Ru Hlt) as Hle.
  destruct (search_result_split _ _ _ _ Hs Rl) as [_ Hl2].
  destruct (search_result_split _ _ _ _ Hs Ru) as [Hu1 _].
  assert (0 ≤ lq ∧ uq ≤ bc) as [Hlq Huq] by (destruct Rl, Ru; lia).
  destruct (query_ids_owner bs a pool lq uq bc id) as (k & Hk & Hlow & Hid & Hpos);
    [lia|lia|done|].
  destruct (ai_owner _ _ _ _ _ _ _ HI k Hk) as (HL & _ & Hp).
  rewrite Hlow, Hid in Hp. rewrite Hid in HL.
  destruct (ai_proxy _ _ _ _ _ _ _ HI id HL) as (_ & _ & Hlu & Hub & _).
  rewrite Hp. split; [apply Hu1|apply Hl2]; lia.
Qed.
End Distinct.

(** ** QueryAABB *)

(** The proxies the pass of [QueryAABB] over one axis marks. *)
Definition marked_on (a : Axis) (aabb : AABB) (s : BroadPhase) : list Z :=
  let bs := bounds_of a s in
  let bc := 2 * m_proxyCount s in
  match BinarySearch bs bc (ComputeBounds_lower a aabb s),
        BinarySearch bs bc (ComputeBounds_upper a aabb s) with
  | Some lq, Some uq => query_ids bs a (proxyPool s) lq uq
  | _, _ => []
  end.

Lemma twice_app_NoDup r l1 l2 : NoDup l1 → NoDup l2 → twice r (l1 ++ l2) → r ∈ l1 ∧ r ∈ l2.
Proof.
  intros H1 H2 (p1 & p2 & E & Hr).
  apply list_elem_of_lookup in Hr as [i Hi].
  pose proof (lookup_lt_Some _ _ _ Hi) as Hlt.
  assert ((l1 ++ l2) !! i = Some r) as Ei by (rewrite E; by rewrite lookup_app_l).
  assert ((l1 ++ l2) !! length p1 = Some r) as Ej.
  { rewrite E. rewrite lookup_app_r by lia. by rewrite Nat.sub_diag. }
  destruct (decide (length p1 < length l1)%nat) as [Hj|Hj].
  - rewrite lookup_app_l in Ei, Ej by lia.
    pose proof (NoDup_lookup _ _ _ _ H1 Ei Ej). lia.
  - rewrite (lookup_app_r _ _ (length p1)) in Ej by lia.
    destruct (decide (i < length l1)%nat) as [Hi1|Hi1].
    + rewrite lookup_app_l in Ei by lia.
      split; by eapply list_elem_of_lookup_2.
    + rewrite lookup_app_r in Ei by lia.
      pose proof (NoDup_lookup _ _ _ _ H2 Ei Ej). lia.
Qed.

Lemma Inv_fresh L s : Inv L s → fresh s.
Proof. intros HI p Hp. by apply (inv_stamps _ _ HI). Qed.

Lemma query_ids_agree bs a pool pool' lq uq :
  (∀ p, upperBounds (proxy_at pool' p) = upperBounds (proxy_at pool p)) →
  query_ids bs a pool' lq uq = query_ids bs a pool lq uq.
Proof. intros H. unfold query_ids. by rewrite (hard_ids_agree _ _ pool pool'). Qed.

Lemma QueryAABB_full L s aabb out maxCount :
  Inv L s →
  ∃ n out' s', QueryAABB aabb out maxCount s = Some (n, out', s') ∧
    Inv L s' ∧ 0 ≤ n ≤ Z.max 0 maxCount ∧
    m_proxyCount s' = m_proxyCount s ∧ m_freeProxy s' = m_freeProxy s ∧
    m_worldAABB s' = m_worldAABB s ∧ m_quantizationFactor s' = m_quantizationFactor s ∧
    (∀ a, bounds_of a s' = bounds_of a s) ∧
    (∀ i, 0 ≤ i < n →
       ∃ r, js_read out' i = Some (userData (proxy_at (proxyPool s) r)) ∧
            r ∈ marked_on axis0 aabb s ∧ r ∈ marked_on axis1 aabb s) ∧
    (∀ a p r, valof a s' p r = valof a s p r) ∧
    (∀ p, userData (proxy_at (proxyPool s') p) = userData (proxy_at (proxyPool s) p)) ∧
    counts_kept L s s' ∧
    (∀ p, next (proxy_at (proxyPool s') p) = next (proxy_at (proxyPool s) p)) ∧
    m_timeStamp s' = m_timeStamp (tick s).
Proof.
  intros HI. pose proof HI as [Hpool Hblen Hax (fl & Hch & Hnd & HflL & Hcnt) Hst Hres].
  unfold QueryAABB. cbv beta iota delta [ComputeBounds sel fst snd].
  set (bc := 2 * m_proxyCount s) in *.
  (* the pass over axis 0 *)
  destruct (Query_spec (ComputeBounds_lower axis0 aabb s) (ComputeBounds_upper axis0 aabb s)
              axis0 (bounds_of axis0 s) bc s L (Hax axis0))
    as (lq0 & uq0 & s1 & -> & Bl0 & Rl0 & Bu0 & Ru0 & Hm0 & Hmf0 & HL0).
  cbn [mbind option_bind].
  set (ids0 := query_ids (bounds_of axis0 s) axis0 (proxyPool s) lq0 uq0) in *.
  assert (marked_on axis0 aabb s = ids0) as E0.
  { unfold marked_on. cbv zeta. fold bc. by rewrite Bl0, Bu0. }
  (* the pass over axis 1 *)
  assert (bounds_of axis1 s1 = bounds_of axis1 s) as Eb1
    by (unfold bounds_of; by rewrite (mf_bounds _ _ _ Hmf0)).
  rewrite Eb1, (mf_count _ _ _ Hmf0). fold bc.
  destruct (Query_spec (ComputeBounds_lower axis1 aabb s) (ComputeBounds_upper axis1 aabb s)
              axis1 (bounds_of axis1 s) bc s1 L)
    as (lq1 & uq1 & s2 & -> & Bl1 & Rl1 & Bu1 & Ru1 & Hm1 & Hmf1 & HL1).
  { eapply marked_from_axis_inv; [done|apply Hax]. }
  cbn [mbind option_bind].
  rewrite (query_ids_agree _ _ (proxyPool s) (proxyPool s1)) in Hm1, Hmf1, HL1
    by apply (mf_upper _ _ _ Hmf0).
  set (ids1 := query_ids (bounds_of axis1 s) axis1 (proxyPool s) lq1 uq1) in *.
  assert (marked_on axis1 aabb s = ids1) as E1.
  { unfold marked_on. cbv zeta. fold bc. by rewrite Bl1, Bu1. }
  rewrite E0, E1.
  assert (∀ id, L id → in_pool (proxyPool s) id) as HLin.
  { intros id Hid. by destruct (ai_proxy _ _ _ _ _ _ _ (Hax axis0) id Hid). }
  (* the marks of both passes form one generation *)
  assert (marking s (ids0 ++ ids1) s2) as Hmk.
  { apply (marking_marks s ids1 ids0 s1); [lia| |by intros; apply HLin, HL1|done].
    apply (marking_marks s ids0 [] s); [lia| |by intros; apply HLin, HL0|done].
    apply marking_start. by eapply Inv_fresh. }
  assert (NoDup ids0) as Hnd0.
  { apply (NoDup_query_ids (Hax axis0)); destruct Rl0, Ru0; lia. }
  assert (NoDup ids1) as Hnd1.
  { apply (NoDup_query_ids (Hax axis1)); destruct Rl1, Ru1; lia. }
  assert (∀ i, 0 ≤ i < m_queryResultCount s2 →
            ∃ r, js_read (m_queryResults s2) i = Some r ∧ r ∈ ids0 ∧ r ∈ ids1) as Hres2.
  { intros i Hi. destruct (mk_new _ _ _ Hmk i ltac:(lia)) as (r & Hr & Ht).
    exists r. split; [done|]. by apply twice_app_NoDup. }
  (* copying the payloads *)
  set (n := Z.min (m_queryResultCount s2) maxCount).
  assert (∃ out', for_loop 0 n
            (λ i (out : list (option (option UserData))),
               r ← js_read (m_queryResults s2) i;
               proxy ← js_get (proxyPool s2) r;
               Some (js_set out i (userData proxy))) out = Some out' ∧
            ∀ i, 0 ≤ i < n →
              ∃ r, js_read out' i = Some (userData (proxy_at (proxyPool s) r)) ∧
                   r ∈ ids0 ∧ r ∈ ids1) as (out' & -> & Hout).
  { destruct (decide (n ≤ 0)) as [Hn|Hn].
    { exists out. rewrite for_loop_done by lia. split; [done|]. intros; lia. }
    apply (for_loop_inv
      (λ k (o : list (option (option UserData))),
         ∀ i, 0 ≤ i < k →
           ∃ r, js_read o i = Some (userData (proxy_at (proxyPool s) r)) ∧
                r ∈ ids0 ∧ r ∈ ids1)); [lia|intros; lia|].
    intros i o Hi Ho. destruct (Hres2 i ltac:(lia)) as (r & -> & Hr0 & Hr1).
    cbn [mbind option_bind].
    assert (in_pool (proxyPool s2) r) as Hrin.
    { unfold in_pool. rewrite (mk_len _ _ _ Hmk). by apply HLin, HL0. }
    rewrite (js_get_proxy_at _ _ Hrin). cbn [mbind option_bind].
    eexists. split; [done|]. intros j Hj. rewrite js_read_set by lia.
    case_decide as E.
    - exists r. rewrite (mk_data _ _ _ Hmk). done.
    - apply Ho. lia. }
  cbn [mbind option_bind].
  pose proof (kept_trans _ _ _ (marked_from_kept _ _ _ Hmf0) (marked_from_kept _ _ _ Hmf1)) as K.
  rewrite IncrementTimeStamp_tick by (cbn; rewrite (kp_len _ _ K); lia).
  cbn [mbind option_bind].
  set (s3 := with_queryResults _ 0 s2).
  assert (∀ a, bounds_of a s3 = bounds_of a s) as B3.
  { intros a. change (bounds_of a s3) with (bounds_of a s2). unfold bounds_of.
    by rewrite (mf_bounds _ _ _ Hmf1), (mf_bounds _ _ _ Hmf0). }
  do 3 eexists. split; [done|].
  split_and!.
  - split.
    + rewrite tick_length. change (proxyPool s3) with (proxyPool s2).
      rewrite (kp_len _ _ K). done.
    + intros a. rewrite tick_bounds, B3. apply Hblen.
    + intros a. rewrite tick_count. change (m_proxyCount s3) with (m_proxyCount s2).
      rewrite (kp_count _ _ K). apply tick_axis_inv. rewrite B3.
      change (proxyPool s3) with (proxyPool s2).
      eapply marked_from_axis_inv; [done|].
      eapply marked_from_axis_inv; [done|]. apply Hax.
    + exists fl. rewrite tick_free, tick_count.
      change (m_proxyCount s3) with (m_proxyCount s2).
      change (m_freeProxy s3) with (m_freeProxy s2).
      rewrite (kp_free _ _ K), (kp_count _ _ K). split_and!; try done.
      apply tick_chain. change (proxyPool s3) with (proxyPool s2).
      apply (chain_ext (proxyPool s)); [apply K| |done]. intros q _. apply K.
    + intros p Hp. apply tick_stamps.
      * intros q Hq. change (proxyPool s3) with (proxyPool s2) in *.
        change (m_timeStamp s3) with (m_timeStamp s2).
        rewrite (mk_stamp _ _ _ Hmk). by apply (mk_le _ _ _ Hmk).
      * unfold in_pool in *. by rewrite tick_length in Hp.
    + by rewrite tick_rcount.
  - lia.
  - lia.
  - rewrite tick_count. change (m_proxyCount s3) with (m_proxyCount s2). apply K.
  - rewrite tick_free. change (m_freeProxy s3) with (m_freeProxy s2). apply K.
  - rewrite tick_world. change (m_worldAABB s3) with (m_worldAABB s2). apply K.
  - rewrite tick_factor. change (m_quantizationFactor s3) with (m_quantizationFactor s2).
    apply K.
  - intros a. by rewrite tick_bounds, B3.
  - intros i Hi. apply Hout. lia.
  - intros a p r. rewrite tick_valof. unfold valof. rewrite B3.
    change (proxyPool s3) with (proxyPool s2). unfold ptr.
    by rewrite (mf_lower _ _ _ Hmf1), (mf_upper _ _ _ Hmf1),
      (mf_lower _ _ _ Hmf0), (mf_upper _ _ _ Hmf0).
  - intros p. rewrite tick_data. change (proxyPool s3) with (proxyPool s2). apply K.
  - intros p. rewrite tick_overlap. change (proxyPool s3) with (proxyPool s2).
    apply (counts_kept_trans L s s1 s2); by eapply marked_from_counts.
  - intros p. rewrite tick_next. change (proxyPool s3) with (proxyPool s2). apply K.
  - apply tick_stamp_ext. change (m_timeStamp s3) with (m_timeStamp s2). apply K.
Qed.

Lemma QueryAABB_spec L s aabb out maxCount :
  Inv L s →
  ∃ n out' s', QueryAABB aabb out maxCount s = Some (n, out', s') ∧
    Inv L s' ∧ 0 ≤ n ≤ Z.max 0 maxCount ∧
    m_proxyCount s' = m_proxyCount s ∧ m_freeProxy s' = m_freeProxy s ∧
    m_worldAABB s' = m_worldAABB s ∧ m_quantizationFactor s' = m_quantizationFactor s ∧
    (∀ a, bounds_of a s' = bounds_of a s) ∧
    (∀ i, 0 ≤ i < n →
       ∃ r, js_read out' i = Some (userData (proxy_at (proxyPool s) r)) ∧
            r ∈ marked_on axis0 aabb s ∧ r ∈ marked_on axis1 aabb s).
Proof.
  intros HI.
  destruct (QueryAABB_full L s aabb out maxCount HI)
    as (n & out' & s' & E & H1 & H2 & H3 & H4 & H5 & H6 & H7 & H8 & _).
  by exists n, out', s'.
Qed.

(** * The reachable states *)

(** What the settings have to provide: room for one proxy at least, and
    a null proxy that is not an id of the pool. *)
Definition settings_ok : Prop :=
  0 < b2_maxProxies ∧ ¬ (0 ≤ b2_nullProxy < b2_maxProxies).

Lemma Inv_live (L L' : Z → Prop) s : (∀ p, L p ↔ L' p) → Inv L s → Inv L' s.
Proof.
  intros HL [H1 H2 H3 (fl & F1 & F2 & F3 & F4) H5 H6]. split; try done.
  - intros a. by apply (axis_inv_live _ _ _ _ _ _ L).
  - exists fl. split_and!; try done. intros q Hq HLq. apply (F3 q Hq). by apply HL.
Qed.

Lemma new_pool_at i :
  0 < b2_maxProxies → 0 ≤ i < b2_maxProxies →
  proxy_at (((λ i, free_Proxy (i + 1)) <$> seqZ 0 (b2_maxProxies - 1))
              ++ [free_Proxy b2_nullProxy]) i
  = free_Proxy (if decide (i = b2_maxProxies - 1) then b2_nullProxy else i + 1).
Proof.
  intros Hm Hi. unfold proxy_at, js_get. destruct (Z.ltb_spec i 0); [lia|].
  case_decide as E.
  - rewrite lookup_app_r; rewrite length_fmap, length_seqZ; [|lia].
    replace (Z.to_nat i - Z.to_nat (b2_maxProxies - 1))%nat with 0%nat by lia. done.
  - rewrite lookup_app_l by (rewrite length_fmap, length_seqZ; lia).
    rewrite list_lookup_fmap, lookup_seqZ_lt by lia. simpl.
    by replace (0 + Z.of_nat (Z.to_nat i)) with i by lia.
Qed.

Lemma chain_seq pool m :
  Z.of_nat (length pool) = m →
  (∀ i, 0 ≤ i < m →
     next (proxy_at pool i) = if decide (i = m - 1) then b2_nullProxy else i + 1) →
  ∀ (n : nat) k, 0 ≤ k → k + Z.of_nat n = m →
    chain pool (if decide (k = m) then b2_nullProxy else k) (seqZ k (Z.of_nat n)).
Proof.
  intros Hlen Hnext n. induction n as [|n IH]; intros k Hk Hkn.
  - rewrite decide_True by lia. done.
  - rewrite decide_False by lia.
    replace (Z.of_nat (S n)) with (Z.succ (Z.of_nat n)) by lia.
    rewrite seqZ_cons by lia. cbn [chain]. split; [done|]. split; [unfold in_pool; lia|].
    rewrite Hnext by lia.
    replace (Z.pred (Z.succ (Z.of_nat n))) with (Z.of_nat n) by lia.
    replace (Z.succ k) with (k + 1) by lia.
    specialize (IH (k + 1) ltac:(lia) ltac:(lia)).
    destruct (decide (k = m - 1)), (decide (k + 1 = m)); try lia; done.
Qed.

Lemma new_BroadPhase_Inv w : settings_ok → Inv (λ _, False) (new_BroadPhase w).
Proof.
  intros [Hm Hnull].
  assert (Z.of_nat (length (proxyPool (new_BroadPhase w))) = b2_maxProxies) as Hlen.
  { cbn. rewrite length_app, length_fmap, length_seqZ. cbn. lia. }
  split.
  - done.
  - intros a. destruct a; cbn; rewrite length_replicate; lia.
  - intros a. split; try (intros; cbn in *; lia); try done.
  - exists (seqZ 0 b2_maxProxies). split_and!.
    + pose proof (chain_seq (proxyPool (new_BroadPhase w)) b2_maxProxies Hlen) as Hc.
      specialize (Hc ltac:(intros i Hi; cbn [new_BroadPhase proxyPool];
                           by rewrite new_pool_at by lia)
                     (Z.to_nat b2_maxProxies) 0 ltac:(lia) ltac:(lia)).
      rewrite decide_False in Hc by lia.
      by replace (Z.of_nat (Z.to_nat b2_maxProxies)) with b2_maxProxies in Hc by lia.
    + apply NoDup_seqZ.
    + by intros ? ? ?.
    + rewrite length_seqZ. cbn. lia.
  - intros p Hp. cbn [new_BroadPhase proxyPool m_timeStamp].
    rewrite new_pool_at by (unfold in_pool in Hp; lia). cbn. lia.
  - done.
Qed.

(** The states a client reaches that creates proxies from boxes that
    are not inverted once quantized, and moves and destroys the proxies
    it holds; [ids] are the proxies it holds. *)
Inductive reachable : list Z → BroadPhase → Prop :=
  | reach_new w : reachable [] (new_BroadPhase w)
  | reach_create ids s aabb data pid s' :
      reachable ids s → quantizes aabb s →
      CreateProxy aabb data s = Some (pid, s') →
      reachable (pid :: ids) s'
  | reach_destroy ids s pid s' :
      reachable ids s → pid ∈ ids →
      DestroyProxy pid s = Some s' →
      reachable (filter (λ p, p ≠ pid) ids) s'
  | reach_move ids s pid aabb s' :
      reachable ids s → pid ∈ ids → quantizes aabb s →
      MoveProxy pid aabb s = Some s' →
      reachable ids s'
  | reach_move_rejected ids s pid aabb s' :
      reachable ids s →
      pid = b2_nullProxy ∨ b2_maxProxies ≤ pid ∨ AABB_IsValid aabb = false →
      MoveProxy pid aabb s = Some s' →
      reachable ids s'
  | reach_query ids s aabb out maxCount n out' s' :
      reachable ids s →
      QueryAABB aabb out maxCount s = Some (n, out', s') →
      reachable ids s'
  | reach_commit ids s :
      reachable ids s → reachable ids (snd (Commit s)).

Lemma MoveProxy_rejected s pid aabb :
  pid = b2_nullProxy ∨ b2_maxProxies ≤ pid ∨ AABB_IsValid aabb = false →
  MoveProxy pid aabb s = Some s.
Proof.
  intros H. unfold MoveProxy.
  destruct (Z.eqb_spec pid b2_nullProxy); [done|].
  destruct (Z.leb_spec b2_maxProxies pid); [done|].
  destruct H as [?|[?|E]]; [done|lia|by rewrite E].
Qed.

Lemma reachable_Inv ids s :
  settings_ok → reachable ids s → Inv (λ p, p ∈ ids) s ∧ NoDup ids.
Proof.
  intros Hset Hr.
  induction Hr as [w|ids s aabb data pid s' Hr IH HQ Hc|ids s pid s' Hr IH Hin Hd
                  |ids s pid aabb s' Hr IH Hin HQ Hm|ids s pid aabb s' Hr IH Hg Hm
                  |ids s aabb out maxCount n out' s' Hr IH Hq|ids s Hr IH];
    try destruct IH as [IH Hnd].
  - split; [|constructor].
    apply (Inv_live (λ _, False)); [set_solver|by apply new_BroadPhase_Inv].
  - assert (m_freeProxy s ≠ b2_nullProxy) as Hfree.
    { intros E. unfold CreateProxy in Hc. rewrite E in Hc.
      destruct (js_get (proxyPool s) b2_nullProxy) as [px|] eqn:Hg; [|done].
      apply js_get_Some in Hg. destruct Hset as [_ Hnull]. apply Hnull.
      rewrite <- (inv_pool _ _ IH). lia. }
    destruct (CreateProxy_spec _ s aabb data IH Hfree HQ) as (s'' & E & HnL & HI' & _).
    rewrite E in Hc. injection Hc as <- <-. split.
    + apply (Inv_live (λ p, p ∈ ids ∨ p = m_freeProxy s)); [set_solver|done].
    + by constructor.
  - destruct (DestroyProxy_spec _ s pid IH Hin) as (s'' & E & HI' & _).
    rewrite E in Hd. injection Hd as <-. split.
    + apply (Inv_live (λ p, p ∈ ids ∧ p ≠ pid)); [|done].
      intros p. rewrite list_elem_of_filter. tauto.
    + by apply NoDup_filter.
  - destruct (MoveProxy_spec _ s pid aabb IH Hin HQ) as (s'' & E & HI' & _).
    rewrite E in Hm. injection Hm as <-. done.
  - rewrite MoveProxy_rejected in Hm by done. injection Hm as <-. done.
  - destruct (QueryAABB_spec _ s aabb out maxCount IH) as (n' & o' & s'' & E & HI' & _).
    rewrite E in Hq. injection Hq as <- <- <-. done.
  - split; [by apply Commit_spec|done].
Qed.

(** ** The scan of Validate *)

Lemma Validate_axis_scan a s L :
  sorted_inv a (bounds_of a s) (2 * m_proxyCount s) (proxyPool s) L →
  ∃ cs, Validate_axis a s = Some cs ∧
    Z.of_nat (length cs) = 2 * m_proxyCount s ∧
    ∀ i, 0 ≤ i < 2 * m_proxyCount s →
      cs !! Z.to_nat i = Some (stabbingCount (bound_at (bounds_of a s) i)).
Proof.
  intros HI. set (bs := bounds_of a s) in *. set (bc := 2 * m_proxyCount s) in *.
  pose proof (ai_range _ _ _ _ _ _ _ HI) as Hbc.
  unfold Validate_axis. fold bs bc.
  destruct (for_loop_inv
    (λ k (acc : Z * list Z),
       Z.of_nat (length (snd acc)) = k ∧
       fst acc = (if k =? 0 then 0 else stabbingCount (bound_at bs (k - 1))) ∧
       ∀ i, 0 ≤ i < k → snd acc !! Z.to_nat i = Some (stabbingCount (bound_at bs i)))
    0 bc (Validate_step bs) (0, [])) as ([c cs] & -> & Hlen & _ & Hcs).
  - lia.
  - split_and!; [done|done|]. intros; lia.
  - intros k [c cs] Hk (Hlen & Hc & Hcs). cbn [fst snd] in *. unfold Validate_step.
    rewrite (js_get_bound_at bs k) by lia. cbn [mbind option_bind fst snd].
    eexists. split; [done|]. cbn [fst snd].
    assert ((if IsLower (bound_at bs k) then c + 1 else c - 1)
            = stabbingCount (bound_at bs k)) as Hnew.
    { rewrite (ai_stab _ _ _ _ _ _ _ HI k) by lia. rewrite <- Hc. unfold sgn.
      destruct (IsLower _); lia. }
    split_and!.
    + rewrite length_app. cbn. lia.
    + destruct (Z.eqb_spec (k + 1) 0); [lia|].
      replace (k + 1 - 1) with k by lia. done.
    + intros i Hi. destruct (decide (i = k)) as [->|].
      * rewrite lookup_app_r by lia.
        replace (Z.to_nat k - length cs)%nat with 0%nat by lia. cbn. by rewrite Hnew.
      * rewrite lookup_app_l by lia. apply Hcs. lia.
  - exists cs. cbn [fmap option_fmap option_map snd] in *. done.
Qed.

(** Position [i] lies in the interval of the proxy [p] on the axis: at
    or above its lower bound and below its upper bound. *)
Definition contains (a : Axis) (s : BroadPhase) (i : Z) (p : Z) : Prop :=
  ptr a true (proxy_at (proxyPool s) p) ≤ i < ptr a false (proxy_at (proxyPool s) p).

#[global] Instance contains_dec a s i p : Decision (contains a s i p).
Proof. unfold contains. apply _. Defined.

Lemma stab_count_live a s ids i :
  sorted_inv a (bounds_of a s) (2 * m_proxyCount s) (proxyPool s) (λ p, p ∈ ids) →
  NoDup ids → 0 ≤ i < 2 * m_proxyCount s →
  stabbingCount (bound_at (bounds_of a s) i)
  = Z.of_nat (length (filter (contains a s i) ids)).
Proof.
  intros HI Hnd Hi. set (bs := bounds_of a s) in *. set (bc := 2 * m_proxyCount s) in *.
  pose proof (stab_count_spans HI (Z.to_nat (i + 1)) ltac:(lia)) as Hc.
  replace (Z.of_nat (Z.to_nat (i + 1)) - 1) with i in Hc by lia.
  rewrite Hc, <- length_hard_ids. f_equal. apply Permutation_length.
  apply NoDup_Permutation.
  - apply (NoDup_hard_ids HI). lia.
  - by apply NoDup_filter.
  - intros p. rewrite hard_ids_elem, list_elem_of_filter. unfold contains, spans.
    replace (Z.of_nat (Z.to_nat (i + 1))) with (i + 1) by lia. split.
    + intros (k & Hk & Hs & Hid). apply andb_true_iff in Hs as [Hlow Hup].
      apply Z.leb_le in Hup.
      destruct (ai_owner _ _ _ _ _ _ _ HI k ltac:(lia)) as (HL & _ & Hp).
      rewrite Hlow, Hid in *. split; [lia|done].
    + intros [[Hl Hu] Hin].
      destruct (ai_proxy _ _ _ _ _ _ _ HI p Hin) as (_ & H0 & _ & _ & Hid & Hlow & _).
      exists (ptr a true (proxy_at (proxyPool s) p)). split; [lia|]. split; [|done].
      rewrite Hlow, Hid. cbn [andb]. apply Z.leb_le. lia.
Qed.

Lemma IncrementOverlapCount_Some id s s' :
  IncrementOverlapCount id s = Some s' → in_pool (proxyPool s) id ∧ s' = mark id s.
Proof.
  intros H.
  assert (in_pool (proxyPool s) id) as Hin.
  { unfold IncrementOverlapCount in H.
    destruct (js_get (proxyPool s) id) eqn:E; [|done]. apply js_get_Some in E.
    unfold in_pool. lia. }
  rewrite IncrementOverlapCount_in in H by done. by injection H as <-.
Qed.

Lemma marks_Some ids s s' :
  marks ids s = Some s' → ∀ id, id ∈ ids → in_pool (proxyPool s) id.
Proof.
  revert s. induction ids as [|id ids IH]; intros s H q Hq; [set_solver|].
  simpl in H. destruct (IncrementOverlapCount id s) as [s1|] eqn:E; [|done].
  apply IncrementOverlapCount_Some in E as [Hin ->]. simpl in H.
  apply elem_of_cons in Hq as [->|Hq]; [done|].
  specialize (IH _ H q Hq). unfold in_pool in *.
  by rewrite (mf_len _ _ _ (mark_marked_from id s Hin)) in IH.
Qed.

(** * Binary64 arithmetic *)

(** ** Signs *)

Definition SFneg (x : spec_float) : bool :=
  match x with
  | S754_infinity true | S754_finite true _ _ => true
  | _ => false
  end.

Lemma SFltb_zero x : SFltb x (S754_zero false) = SFneg x.
Proof. destruct x as [[]|[]| |[] ? ?]; reflexivity. Qed.

Lemma ltb_zero x : (x <? 0)%float = SFneg (Prim2SF x).
Proof. rewrite ltb_spec. apply SFltb_zero. Qed.

Lemma SFcompare_refl x : x <> S754_nan -> SFcompare x x = Some Eq.
Proof.
  destruct x as [s|s| |s m e]; try (destruct s; reflexivity); [easy|].
  intros _. simpl. rewrite Z.compare_refl, Pos.compare_cont_refl. destruct s; reflexivity.
Qed.

Lemma is_nan_spec x : is_nan x = true <-> Prim2SF x = S754_nan.
Proof.
  unfold is_nan. rewrite FloatAxioms.eqb_spec. unfold SFeqb. split.
  - intros H. destruct (Prim2SF x) eqn:E; try reflexivity; rewrite SFcompare_refl in H;
      try discriminate; simpl in H; discriminate.
  - intros ->. reflexivity.
Qed.

Lemma SFltb_neg_l x y : SFltb x y = true -> SFneg y = true -> SFneg x = true.
Proof.
  unfold SFltb. destruct x as [[]|[]| |[] ? ?], y as [[]|[]| |[] ? ?]; simpl; try discriminate; auto.
Qed.

Lemma SFno_order_neg x y :
  x <> S754_nan -> y <> S754_nan -> SFltb x y = false -> SFltb y x = false ->
  SFneg x = SFneg y.
Proof.
  unfold SFltb. destruct x as [[]|[]| |[] ? ?], y as [[]|[]| |[] ? ?]; simpl; try discriminate; auto;
    try easy.
Qed.

(** ** Digits *)

Lemma digits2_pos_bounds m :
  2 ^ (Zpos (digits2_pos m) - 1) <= Zpos m < 2 ^ Zpos (digits2_pos m).
Proof.
  induction m as [m IH|m IH|]; cbn [digits2_pos].
  - rewrite Pos2Z.inj_succ. replace (Z.succ (Zpos (digits2_pos m)) - 1) with (Zpos (digits2_pos m) - 1 + 1) by lia.
    rewrite Z.pow_succ_r by lia.
    rewrite Z.pow_add_r by lia. change (2 ^ 1) with 2. lia.
  - rewrite Pos2Z.inj_succ. replace (Z.succ (Zpos (digits2_pos m)) - 1) with (Zpos (digits2_pos m) - 1 + 1) by lia.
    rewrite Z.pow_succ_r by lia.
    rewrite Z.pow_add_r by lia. change (2 ^ 1) with 2. lia.
  - simpl. lia.
Qed.

(** ** Shifting to the right *)

Lemma shr_m_shr_1 x : 0 <= shr_m x -> shr_m (shr_1 x) = Z.div2 (shr_m x).
Proof. destruct x as [[|[p|p|]|p] r s]; simpl; intros H; try reflexivity; lia. Qed.

Lemma shr_m_iter p : forall x,
  0 <= shr_m x -> shr_m (SpecFloat.iter_pos shr_1 p x) = Z.shiftr (shr_m x) (Zpos p).
Proof.
  induction p as [p IH|p IH|]; intros x Hx; cbn [SpecFloat.iter_pos].
  - assert (0 <= shr_m (shr_1 x)) as H1.
    { rewrite shr_m_shr_1 by assumption. rewrite Z.div2_spec. apply Z.shiftr_nonneg. assumption. }
    assert (0 <= shr_m (SpecFloat.iter_pos shr_1 p (shr_1 x))) as H2.
    { rewrite IH by assumption. apply Z.shiftr_nonneg. assumption. }
    rewrite IH by assumption. rewrite IH by assumption. rewrite shr_m_shr_1 by assumption.
    rewrite Z.div2_spec. rewrite !Z.shiftr_shiftr by lia. f_equal. lia.
  - assert (0 <= shr_m (SpecFloat.iter_pos shr_1 p x)) as H2.
    { rewrite IH by assumption. apply Z.shiftr_nonneg. assumption. }
    rewrite IH by assumption. rewrite IH by assumption.
    rewrite !Z.shiftr_shiftr by lia. f_equal. lia.
  - rewrite shr_m_shr_1 by assumption. apply Z.div2_spec.
Qed.

Lemma shiftr_pos m p :
  Zpos p < Zpos (digits2_pos m) -> 0 < Z.shiftr (Zpos m) (Zpos p).
Proof.
  intros H. rewrite Z.shiftr_div_pow2 by lia.
  pose proof (digits2_pos_bounds m) as [Hlo _].
  assert (2 ^ Zpos p <= 2 ^ (Zpos (digits2_pos m) - 1)) by (apply Z.pow_le_mono_r; lia).
  apply Z.div_str_pos. lia.
Qed.

Abbreviation emin64 := (-1074).

Lemma fexp_eq e : fexp prec emax e = Z.max (e - 53) emin64.
Proof. reflexivity. Qed.

(** The mantissa a right shift leaves is positive when the exponent is
    not below [emin64]. *)
Lemma shr_fexp_pos m e l :
  emin64 <= e ->
  exists m', shr_m (fst (shr_fexp prec emax (Zpos m) e l)) = Zpos m' /\
             emin64 <= snd (shr_fexp prec emax (Zpos m) e l).
Proof.
  intros He. unfold shr_fexp, shr. rewrite fexp_eq. cbn [Zdigits2].
  destruct (Z.max (Zpos (digits2_pos m) + e - 53) emin64 - e) as [|p|p] eqn:En.
  - exists m. split; [destruct l as [|[]]; reflexivity|simpl; lia].
  - cbn [fst snd]. rewrite shr_m_iter by (destruct l as [|[]]; simpl; lia).
    assert (shr_m (shr_record_of_loc (Zpos m) l) = Zpos m) as -> by (destruct l as [|[]]; reflexivity).
    pose proof (shiftr_pos m p ltac:(lia)) as Hpos.
    destruct (Z.shiftr (Zpos m) (Zpos p)) as [|m'|m'] eqn:E; try lia.
    exists m'. split; [reflexivity|lia].
  - exists m. split; [destruct l as [|[]]; reflexivity|simpl; lia].
Qed.

Lemma round_nearest_even_pos m l : 0 < m -> 0 < round_nearest_even m l.
Proof.
  intros H. destruct l as [|[]]; simpl; try lia. destruct (Z.even m); lia.
Qed.

Lemma binary_round_aux_sign s m e :
  emin64 <= e -> SFneg (binary_round_aux prec emax s (Zpos m) e loc_Exact) = s.
Proof.
  intros He. unfold binary_round_aux.
  destruct (shr_fexp_pos m e loc_Exact He) as (m1 & H1 & He1).
  destruct (shr_fexp prec emax (Zpos m) e loc_Exact) as [mrs1 e1]. cbn [fst snd] in *.
  rewrite H1.
  pose proof (round_nearest_even_pos (Zpos m1) (loc_of_shr_record mrs1) ltac:(lia)) as Hr.
  destruct (round_nearest_even (Zpos m1) (loc_of_shr_record mrs1)) as [|m2|m2]; try lia.
  destruct (shr_fexp_pos m2 e1 loc_Exact He1) as (m3 & H3 & He3).
  destruct (shr_fexp prec emax (Zpos m2) e1 loc_Exact) as [mrs3 e3]. cbn [fst snd] in *.
  rewrite H3. destruct (e3 <=? emax - prec); destruct s; reflexivity.
Qed.

Lemma shl_align_exp m e e' : Z.min e e' <= snd (shl_align m e e').
Proof. unfold shl_align. destruct (e' - e) eqn:E; simpl; lia. Qed.

Lemma binary_round_sign s m e :
  emin64 <= e -> SFneg (binary_round prec emax s m e) = s.
Proof.
  intros He. unfold binary_round.
  pose proof (shl_align_exp m e (fexp prec emax (Zpos (digits2_pos m) + e))) as Hs.
  destruct (shl_align m e _) as [mz ez]. cbn [snd] in Hs.
  apply binary_round_aux_sign. rewrite fexp_eq in Hs. lia.
Qed.

Lemma binary_normalize_sign d e :
  emin64 <= e -> SFneg (binary_normalize prec emax d e false) = (d <? 0).
Proof.
  intros He. destruct d as [|m|m]; cbn [binary_normalize].
  - reflexivity.
  - apply binary_round_sign. assumption.
  - apply binary_round_sign. assumption.
Qed.

(** ** Aligning two mantissas *)

Lemma iter_xO m d : Zpos (Pos.iter xO m d) = Zpos m * 2 ^ Zpos d.
Proof.
  induction d as [|d IH] using Pos.peano_ind.
  - simpl. lia.
  - rewrite Pos.iter_succ, Pos2Z.inj_xO, IH, Pos2Z.inj_succ, Z.pow_succ_r by lia. lia.
Qed.

Lemma shl_align_val m e e' :
  e' <= e -> Zpos (fst (shl_align m e e')) = Zpos m * 2 ^ (e - e').
Proof.
  intros H. unfold shl_align. destruct (e' - e) as [|d|d] eqn:E; try lia.
  - replace (e - e') with 0 by lia. simpl. lia.
  - cbn [fst]. rewrite iter_xO. f_equal. f_equal. lia.
Qed.

(** ** Canonical floats *)

Lemma bounded_inv m e :
  bounded prec emax m e = true ->
  emin64 <= e /\ Zpos m < 2 ^ 53 /\ (emin64 < e -> 2 ^ 52 <= Zpos m).
Proof.
  unfold bounded, canonical_mantissa. rewrite fexp_eq.
  intros [H _]%andb_prop. apply Z.eqb_eq in H.
  pose proof (digits2_pos_bounds m) as [Hlo Hhi].
  split; [lia|]. split.
  - assert (2 ^ Zpos (digits2_pos m) <= 2 ^ 53) by (apply Z.pow_le_mono_r; lia). lia.
  - intros He. replace (Zpos (digits2_pos m)) with 53 in Hlo by lia. exact Hlo.
Qed.

Lemma lower_exponent_smaller mx ex my ey :
  bounded prec emax mx ex = true -> bounded prec emax my ey = true ->
  ex < ey -> Zpos mx < Zpos my * 2 ^ (ey - ex).
Proof.
  intros Hx Hy Hlt.
  destruct (bounded_inv _ _ Hx) as (Hex & Hmx & _).
  destruct (bounded_inv _ _ Hy) as (Hey & _ & Hmy). specialize (Hmy ltac:(lia)).
  assert (2 ^ 1 <= 2 ^ (ey - ex)) by (apply Z.pow_le_mono_r; lia).
  change (2 ^ 1) with 2 in *. change (2 ^ 53) with (2 ^ 52 * 2) in Hmx. nia.
Qed.

(** The order of two canonical finite floats is the order of their
    aligned mantissas. *)
Lemma SFltb_finite sx mx ex sy my ey :
  bounded prec emax mx ex = true -> bounded prec emax my ey = true ->
  SFltb (S754_finite sx mx ex) (S754_finite sy my ey)
  = (cond_Zopp sx (Zpos (fst (shl_align mx ex (Z.min ex ey))))
     - cond_Zopp sy (Zpos (fst (shl_align my ey (Z.min ex ey)))) <? 0).
Proof.
  intros Hx Hy.
  rewrite !shl_align_val by lia.
  assert (0 < 2 ^ (ex - Z.min ex ey)) by (apply Z.pow_pos_nonneg; lia).
  assert (0 < 2 ^ (ey - Z.min ex ey)) by (apply Z.pow_pos_nonneg; lia).
  unfold SFltb, SFcompare.
  destruct sx, sy; cbn [cond_Zopp].
  - (* both negative *)
    destruct (Z.compare_spec ex ey) as [E|E|E].
    + subst ey. rewrite Z.min_id, Z.sub_diag. change (2 ^ 0) with 1. rewrite !Z.mul_1_r.
      rewrite Pos.compare_cont_spec. cbn [Pos.switch_Eq].
      destruct (Pos.compare_spec mx my) as [E|E|E]; cbn [CompOpp]; symmetry.
      * apply Z.ltb_ge. lia.
      * apply Z.ltb_ge. lia.
      * apply Z.ltb_lt. lia.
    + pose proof (lower_exponent_smaller _ _ _ _ Hx Hy E).
      rewrite Z.min_l, Z.sub_diag by lia. change (2 ^ 0) with 1. symmetry.
      apply Z.ltb_ge. lia.
    + pose proof (lower_exponent_smaller _ _ _ _ Hy Hx E).
      rewrite Z.min_r, Z.sub_diag by lia. change (2 ^ 0) with 1. symmetry.
      apply Z.ltb_lt. lia.
  - symmetry. apply Z.ltb_lt. lia.
  - symmetry. apply Z.ltb_ge. lia.
  - (* both positive *)
    destruct (Z.compare_spec ex ey) as [E|E|E].
    + subst ey. rewrite Z.min_id, Z.sub_diag. change (2 ^ 0) with 1. rewrite !Z.mul_1_r.
      rewrite Pos.compare_cont_spec. cbn [Pos.switch_Eq].
      destruct (Pos.compare_spec mx my) as [E|E|E]; symmetry.
      * apply Z.ltb_ge. lia.
      * apply Z.ltb_lt. lia.
      * apply Z.ltb_ge. lia.
    + pose proof (lower_exponent_smaller _ _ _ _ Hx Hy E).
      rewrite Z.min_l, Z.sub_diag by lia. change (2 ^ 0) with 1. symmetry.
      apply Z.ltb_lt. lia.
    + pose proof (lower_exponent_smaller _ _ _ _ Hy Hx E).
      rewrite Z.min_r, Z.sub_diag by lia. change (2 ^ 0) with 1. symmetry.
      apply Z.ltb_ge. lia.
Qed.

(** ** Subtraction and order *)

Lemma SFsub_neg x y :
  valid_binary x = true -> valid_binary y = true ->
  SFneg (SF64sub x y) = SFltb x y.
Proof.
  intros Hx Hy.
  destruct x as [sx|sx| |sx mx ex], y as [sy|sy| |sy my ey];
    try reflexivity; try (destruct sx; reflexivity); try (destruct sy; reflexivity);
    try (destruct sx, sy; reflexivity).
  cbn [valid_binary] in Hx, Hy.
  unfold SF64sub, SFsub. cbv zeta.
  rewrite binary_normalize_sign.
  - symmetry. apply SFltb_finite; assumption.
  - destruct (bounded_inv _ _ Hx) as (? & _). destruct (bounded_inv _ _ Hy) as (? & _). lia.
Qed.

Lemma sub_ltb_zero (a b : float) : (a - b <? 0)%float = (a <? b)%float.
Proof.
  rewrite ltb_zero, sub_spec, ltb_spec.
  apply SFsub_neg; apply Prim2SF_valid.
Qed.

Lemma Math_max_ltb_zero p q :
  (Math_max p q <? 0)%float = ((p <? 0)%float && (q <? 0)%float)%bool.
Proof.
  unfold Math_max. rewrite !ltb_zero.
  destruct (is_nan p) eqn:Ep.
  { apply is_nan_spec in Ep. rewrite Ep. reflexivity. }
  destruct (is_nan q) eqn:Eq.
  { apply is_nan_spec in Eq. rewrite Eq. cbn. symmetry. apply andb_false_r. }
  cbn [orb].
  assert (Prim2SF p <> S754_nan) as Hp by (intros H; apply is_nan_spec in H; congruence).
  assert (Prim2SF q <> S754_nan) as Hq by (intros H; apply is_nan_spec in H; congruence).
  rewrite !ltb_spec.
  destruct (SFltb (Prim2SF p) (Prim2SF q)) eqn:Epq.
  { destruct (SFneg (Prim2SF q)) eqn:Enq; [|symmetry; apply andb_false_r].
    rewrite (SFltb_neg_l _ _ Epq Enq). reflexivity. }
  destruct (SFltb (Prim2SF q) (Prim2SF p)) eqn:Eqp.
  { destruct (SFneg (Prim2SF p)) eqn:Enp; [|reflexivity].
    rewrite (SFltb_neg_l _ _ Eqp Enp). reflexivity. }
  pose proof (SFno_order_neg _ _ Hp Hq Epq Eqp) as E.
  destruct (get_sign p); rewrite E; destruct (SFneg (Prim2SF q)); reflexivity.
Qed.

(** ** InRange *)

(** C10. [InRange] returns [true] exactly when the box lies strictly
    across the world on both axes: on each axis the minimum of the box
    is below the maximum of the world and the minimum of the world is
    below the maximum of the box.  It returns a boolean and nothing
    else: the state it reads is left as it was. *)
Theorem C10_InRange_strict_overlap (aabb : AABB) (s : BroadPhase) :
  InRange aabb s
  = (((x (minVertex aabb) <? x (maxVertex (m_worldAABB s)))%float
      && (x (minVertex (m_worldAABB s)) <? x (maxVertex aabb))%float)
     && ((y (minVertex aabb) <? y (maxVertex (m_worldAABB s)))%float
         && (y (minVertex (m_worldAABB s)) <? y (maxVertex aabb))%float))%bool.
Proof.
  unfold InRange. cbv zeta.
  rewrite !Math_max_ltb_zero, !sub_ltb_zero. reflexivity.
Qed.

(** ** Rounding a dyadic number to an integer *)

(** [m / 2 ^ n] rounded to the nearest integer, to the even one of two
    nearest. *)
Definition rne (m n : Z) : Z :=
  let q := m / 2 ^ n in
  match 2 * (m mod 2 ^ n) ?= 2 ^ n with
  | Lt => q
  | Eq => if Z.even q then q else q + 1
  | Gt => q + 1
  end.

(** [m * 2 ^ (- n)] rounded to an integer. *)
Definition rnd (m n : Z) : Z := if n <=? 0 then m * 2 ^ (- n) else rne m n.

Lemma rne_bounds m n : m / 2 ^ n <= rne m n <= m / 2 ^ n + 1.
Proof.
  unfold rne. cbv zeta. destruct (_ ?= _); [destruct (Z.even _)|..]; lia.
Qed.

Lemma rne_mono m1 m2 n : 0 <= n -> m1 <= m2 -> rne m1 n <= rne m2 n.
Proof.
  intros Hn Hle.
  assert (0 < 2 ^ n) as Hp by (apply Z.pow_pos_nonneg; lia).
  pose proof (Z.div_le_mono m1 m2 (2 ^ n) Hp Hle) as Hq.
  destruct (Z.eq_dec (m1 / 2 ^ n) (m2 / 2 ^ n)) as [E|E].
  - assert (m1 mod 2 ^ n <= m2 mod 2 ^ n) as Hr.
    { rewrite !Z.mod_eq by lia. rewrite E. lia. }
    unfold rne. cbv zeta. rewrite E.
    destruct (Z.compare_spec (2 * (m1 mod 2 ^ n)) (2 ^ n));
      destruct (Z.compare_spec (2 * (m2 mod 2 ^ n)) (2 ^ n));
      destruct (Z.even (m2 / 2 ^ n)); lia.
  - pose proof (rne_bounds m1 n). pose proof (rne_bounds m2 n). lia.
Qed.

Lemma rne_scale m n k : 0 <= n -> 0 <= k -> rne (m * 2 ^ k) (n + k) = rne m n.
Proof.
  intros Hn Hk.
  assert (0 < 2 ^ n) as Hp by (apply Z.pow_pos_nonneg; lia).
  assert (0 < 2 ^ k) as Hp' by (apply Z.pow_pos_nonneg; lia).
  unfold rne. cbv zeta. rewrite Z.pow_add_r by lia.
  rewrite Z.div_mul_cancel_r by lia.
  rewrite Z.mul_mod_distr_r by lia.
  replace (2 * (m mod 2 ^ n * 2 ^ k)) with (2 * (m mod 2 ^ n) * 2 ^ k) by lia.
  destruct (Z.compare_spec (2 * (m mod 2 ^ n) * 2 ^ k) (2 ^ n * 2 ^ k)),
    (Z.compare_spec (2 * (m mod 2 ^ n)) (2 ^ n)); try reflexivity; nia.
Qed.

Lemma rne_exact q n : 0 < n -> rne (q * 2 ^ n) n = q.
Proof.
  intros Hn. assert (0 < 2 ^ n) as Hp by (apply Z.pow_pos_nonneg; lia).
  unfold rne. cbv zeta. rewrite Z.mod_mul, Z.div_mul by lia.
  destruct (Z.compare_spec (2 * 0) (2 ^ n)); lia.
Qed.

Lemma rnd_mono m1 m2 n : m1 <= m2 -> rnd m1 n <= rnd m2 n.
Proof.
  intros Hle. unfold rnd. destruct (Z.leb_spec n 0).
  - assert (0 < 2 ^ (- n)) by (apply Z.pow_pos_nonneg; lia). nia.
  - apply rne_mono; lia.
Qed.

Lemma rnd_scale m n k : 0 <= k -> rnd (m * 2 ^ k) (n + k) = rnd m n.
Proof.
  intros Hk. unfold rnd.
  destruct (Z.leb_spec n 0), (Z.leb_spec (n + k) 0); try lia.
  - rewrite <- Z.mul_assoc, <- Z.pow_add_r by lia. f_equal. f_equal. lia.
  - replace (m * 2 ^ k) with (m * 2 ^ (- n) * 2 ^ (n + k)).
    + apply rne_exact. lia.
    + rewrite <- Z.mul_assoc, <- Z.pow_add_r by lia. f_equal. f_equal. lia.
  - apply rne_scale; lia.
Qed.

(** The rounded number is between the integers around the number. *)
Lemma rnd_lower m n q : 0 <= m -> q * 2 ^ n <= m -> 0 <= n -> q <= rnd m n.
Proof.
  intros Hm Hq Hn. assert (0 < 2 ^ n) as Hp by (apply Z.pow_pos_nonneg; lia).
  unfold rnd. destruct (Z.leb_spec n 0).
  - replace n with 0 in * by lia. simpl in *. lia.
  - pose proof (rne_bounds m n).
    assert (q <= m / 2 ^ n) by (apply Z.div_le_lower_bound; lia). lia.
Qed.

Lemma rnd_upper m n q : 0 <= m -> m <= q * 2 ^ n -> 0 <= n -> rnd m n <= q.
Proof.
  intros Hm Hq Hn. assert (0 < 2 ^ n) as Hp by (apply Z.pow_pos_nonneg; lia).
  unfold rnd. destruct (Z.leb_spec n 0).
  - replace n with 0 in * by lia. simpl in *. lia.
  - replace q with (rne (q * 2 ^ n) n) by (apply rne_exact; lia).
    apply rne_mono; lia.
Qed.

Lemma rnd_nonneg m n : 0 <= m -> 0 <= rnd m n.
Proof.
  intros Hm. unfold rnd. destruct (Z.leb_spec n 0).
  - apply Z.mul_nonneg_nonneg; [lia|]. apply Z.pow_nonneg. lia.
  - pose proof (rne_bounds m n). assert (0 <= m / 2 ^ n) by (apply Z.div_pos; [lia|apply Z.pow_pos_nonneg; lia]).
    lia.
Qed.

Lemma rnd_le_pow m n b :
  0 < m -> 0 <= b -> Z.log2 m + 1 - n <= b -> rnd m n <= 2 ^ b.
Proof.
  intros Hm Hb Hlog.
  pose proof (Z.log2_spec m Hm) as [_ Hhi]. replace (Z.succ (Z.log2 m)) with (Z.log2 m + 1) in Hhi by lia.
  pose proof (Z.log2_nonneg m) as Hl0.
  unfold rnd. destruct (Z.leb_spec n 0).
  - assert (m * 2 ^ (- n) < 2 ^ (Z.log2 m + 1) * 2 ^ (- n)).
    { apply Z.mul_lt_mono_pos_r; [apply Z.pow_pos_nonneg; lia|lia]. }
    rewrite <- Z.pow_add_r in H0 by lia.
    assert (2 ^ (Z.log2 m + 1 + - n) <= 2 ^ b) by (apply Z.pow_le_mono_r; lia). lia.
  - replace (2 ^ b) with (rne (2 ^ b * 2 ^ n) n) by (apply rne_exact; lia).
    apply rne_mono; [lia|]. rewrite <- Z.pow_add_r by lia.
    assert (2 ^ (Z.log2 m + 1) <= 2 ^ (b + n)) by (apply Z.pow_le_mono_r; lia). lia.
Qed.

Lemma rnd_ge_pow m n a :
  0 < m -> 0 <= a -> a <= Z.log2 m - n -> 2 ^ a <= rnd m n.
Proof.
  intros Hm Ha Hlog.
  pose proof (Z.log2_spec m Hm) as [Hlo _].
  pose proof (Z.log2_nonneg m) as Hl0.
  unfold rnd. destruct (Z.leb_spec n 0).
  - assert (2 ^ Z.log2 m * 2 ^ (- n) <= m * 2 ^ (- n)).
    { apply Z.mul_le_mono_nonneg_r; [apply Z.pow_nonneg; lia|lia]. }
    rewrite <- Z.pow_add_r in H0 by lia.
    assert (2 ^ a <= 2 ^ (Z.log2 m + - n)) by (apply Z.pow_le_mono_r; lia). lia.
  - replace (2 ^ a) with (rne (2 ^ a * 2 ^ n) n) by (apply rne_exact; lia).
    apply rne_mono; [lia|]. rewrite <- Z.pow_add_r by lia.
    assert (2 ^ (a + n) <= 2 ^ Z.log2 m) by (apply Z.pow_le_mono_r; lia). lia.
Qed.

(** ** Rounding to binary64 *)

(** The exponent of the floats around a number of magnitude [l]. *)
Definition fexp64 (l : Z) : Z := Z.max (l - 53) (-1074).

(** The value, in units of [2 ^ -1074], of the float [m * 2 ^ e] is
    rounded to, when the range of the exponents had no upper end. *)
Definition Fval (m e : Z) : Z :=
  let E := fexp64 (Z.log2 m + 1 + e) in
  rnd m (E - e) * 2 ^ (E + 1074).

Lemma fexp64_ge l : -1074 <= fexp64 l.
Proof. unfold fexp64. lia. Qed.

Lemma Fval_nonneg m e : 0 < m -> 0 <= Fval m e.
Proof.
  intros Hm. unfold Fval. cbv zeta. apply Z.mul_nonneg_nonneg.
  - apply rnd_nonneg. lia.
  - apply Z.pow_nonneg. lia.
Qed.

Lemma Fval_scale m e k : 0 < m -> 0 <= k -> Fval (m * 2 ^ k) (e - k) = Fval m e.
Proof.
  intros Hm Hk. unfold Fval. cbv zeta.
  rewrite Z.log2_mul_pow2 by lia.
  replace (k + Z.log2 m + 1 + (e - k)) with (Z.log2 m + 1 + e) by lia.
  replace (fexp64 (Z.log2 m + 1 + e) - (e - k)) with (fexp64 (Z.log2 m + 1 + e) - e + k) by lia.
  rewrite rnd_scale by lia. reflexivity.
Qed.

Lemma Fval_mono_mantissa m1 m2 e : 0 < m1 -> m1 <= m2 -> Fval m1 e <= Fval m2 e.
Proof.
  intros Hm Hle. unfold Fval. cbv zeta.
  pose proof (Z.log2_le_mono m1 m2 Hle) as Hlog.
  set (E1 := fexp64 (Z.log2 m1 + 1 + e)). set (E2 := fexp64 (Z.log2 m2 + 1 + e)).
  assert (E1 <= E2) as HE by (unfold E1, E2, fexp64; lia).
  destruct (Z.eq_dec E1 E2) as [E|E].
  - rewrite E. apply Z.mul_le_mono_nonneg_r; [apply Z.pow_nonneg; lia|].
    apply rnd_mono. lia.
  - assert (rnd m1 (E1 - e) <= 2 ^ 53) as H1.
    { apply rnd_le_pow; [lia|lia|]. unfold E1, fexp64. lia. }
    assert (2 ^ 52 <= rnd m2 (E2 - e)) as H2.
    { apply rnd_ge_pow; [lia|lia|]. unfold E1, E2, fexp64 in *. lia. }
    assert (-1074 <= E1) by apply fexp64_ge.
    assert (2 ^ (E1 + 1074) * 2 <= 2 ^ (E2 + 1074)).
    { replace (2 ^ (E1 + 1074) * 2) with (2 ^ (E1 + 1074 + 1)) by (rewrite Z.pow_add_r by lia; reflexivity).
      apply Z.pow_le_mono_r; lia. }
    assert (0 < 2 ^ (E1 + 1074)) by (apply Z.pow_pos_nonneg; lia).
    change (2 ^ 53) with (2 ^ 52 * 2) in H1.
    assert (0 < 2 ^ 52) by reflexivity.
    generalize dependent (2 ^ 52). generalize dependent (2 ^ (E1 + 1074)).
    generalize dependent (2 ^ (E2 + 1074)). intros. nia.
Qed.

Lemma Fval_mono m1 e1 m2 e2 c :
  0 < m1 -> c <= e1 -> c <= e2 ->
  m1 * 2 ^ (e1 - c) <= m2 * 2 ^ (e2 - c) ->
  Fval m1 e1 <= Fval m2 e2.
Proof.
  intros Hm H1 H2 Hle.
  assert (0 < 2 ^ (e1 - c)) by (apply Z.pow_pos_nonneg; lia).
  assert (0 < 2 ^ (e2 - c)) by (apply Z.pow_pos_nonneg; lia).
  assert (0 < m2) by nia.
  rewrite <- (Fval_scale m1 e1 (e1 - c)) by lia.
  rewrite <- (Fval_scale m2 e2 (e2 - c)) by lia.
  replace (e1 - (e1 - c)) with c by lia. replace (e2 - (e2 - c)) with c by lia.
  apply Fval_mono_mantissa; nia.
Qed.

Lemma digits2_log2 m : Zpos (digits2_pos m) = Z.log2 (Zpos m) + 1.
Proof.
  pose proof (digits2_pos_bounds m) as [Hlo Hhi].
  assert (Z.log2 (Zpos m) = Zpos (digits2_pos m) - 1); [|lia].
  apply Z.log2_unique; [lia|].
  replace (Z.succ (Zpos (digits2_pos m) - 1)) with (Zpos (digits2_pos m)) by lia. lia.
Qed.

Lemma Fval_canonical m e :
  bounded prec emax m e = true -> Fval (Zpos m) e = Zpos m * 2 ^ (e + 1074).
Proof.
  unfold bounded, canonical_mantissa. rewrite fexp_eq.
  intros [H _]%andb_prop. apply Z.eqb_eq in H.
  unfold Fval, fexp64. cbv zeta. rewrite <- digits2_log2.
  replace (Z.max (Zpos (digits2_pos m) + e - 53) (-1074)) with e by lia.
  rewrite Z.sub_diag. unfold rnd. change (0 <=? 0) with true. cbv iota.
  change (2 ^ (- 0)) with 1. rewrite Z.mul_1_r. reflexivity.
Qed.

(** ** The shifts of SpecFloat *)

Lemma iter_pos_iter {A} (f : A -> A) p : forall x, SpecFloat.iter_pos f p x = Pos.iter f x p.
Proof.
  induction p as [p IH|p IH|]; intros x; cbn [SpecFloat.iter_pos Pos.iter].
  - rewrite !IH. rewrite <- !Pos.iter_swap. reflexivity.
  - rewrite !IH. reflexivity.
  - reflexivity.
Qed.

Lemma shr_1_spec q r s :
  0 <= q -> shr_1 (Build_shr_record q r s) = Build_shr_record (q / 2) (Z.odd q) (r || s).
Proof.
  intros Hq. destruct q as [|[p|p|]|p]; try lia; cbn [shr_1]; f_equal.
  - rewrite Pos2Z.inj_xI. rewrite Z.mul_comm, Z.div_add_l by lia. reflexivity.
  - rewrite Pos2Z.inj_xO. rewrite Z.mul_comm, Z.div_mul by lia. reflexivity.
Qed.

Lemma mod_pow2_succ m k :
  0 <= k -> m mod 2 ^ (k + 1) = m mod 2 ^ k + 2 ^ k * Z.b2z (Z.testbit m k).
Proof.
  intros Hk. rewrite Z.pow_add_r by lia. change (2 ^ 1) with 2.
  rewrite Z.testbit_spec' by lia.
  apply Z.rem_mul_r; [|lia]. apply Z.pow_nonzero; lia.
Qed.

(** After [p] shifts: the quotient, the bit below it, and whether any
    lower bit is set. *)
Lemma shr_iter_spec m p :
  0 <= m ->
  SpecFloat.iter_pos shr_1 p (Build_shr_record m false false)
  = Build_shr_record (m / 2 ^ Zpos p) (Z.testbit m (Zpos p - 1))
      (negb (m mod 2 ^ (Zpos p - 1) =? 0)).
Proof.
  intros Hm. rewrite iter_pos_iter.
  induction p as [|p IH] using Pos.peano_ind.
  - cbn [Pos.iter]. rewrite shr_1_spec by lia.
    change (Zpos 1 - 1) with 0. change (2 ^ Zpos 1) with 2. change (2 ^ 0) with 1.
    rewrite Z.bit0_odd, Z.mod_1_r. reflexivity.
  - rewrite Pos.iter_succ, IH.
    assert (0 < 2 ^ Zpos p) by (apply Z.pow_pos_nonneg; lia).
    rewrite shr_1_spec by (apply Z.div_pos; lia).
    rewrite Pos2Z.inj_succ.
    replace (Z.succ (Zpos p) - 1) with (Zpos p - 1 + 1) by lia.
    f_equal.
    + rewrite Z.div_div by lia. f_equal.
      replace (Z.succ (Zpos p)) with (Zpos p + 1) by lia.
      rewrite Z.pow_add_r by lia. reflexivity.
    + replace (Zpos p - 1 + 1) with (Zpos p) by lia.
      rewrite Z.testbit_odd, Z.shiftr_div_pow2 by lia. reflexivity.
    + rewrite mod_pow2_succ by lia.
      assert (0 <= m mod 2 ^ (Zpos p - 1)) by (apply Z.mod_pos_bound, Z.pow_pos_nonneg; lia).
      assert (0 < 2 ^ (Zpos p - 1)) by (apply Z.pow_pos_nonneg; lia).
      destruct (Z.testbit m (Zpos p - 1)); cbn [Z.b2z orb].
      * symmetry. apply negb_true_iff, Z.eqb_neq. lia.
      * rewrite Z.mul_0_r, Z.add_0_r. reflexivity.
Qed.

(** The rounding of SpecFloat after [p] shifts is the rounding to the
    nearest integer. *)
Lemma round_shr_rne m p :
  0 <= m ->
  round_nearest_even (m / 2 ^ Zpos p)
    (loc_of_shr_record
       (Build_shr_record (m / 2 ^ Zpos p) (Z.testbit m (Zpos p - 1))
          (negb (m mod 2 ^ (Zpos p - 1) =? 0))))
  = rne m (Zpos p).
Proof.
  intros Hm. unfold rne. cbv zeta.
  remember (Zpos p - 1) as k eqn:Ek.
  assert (Zpos p = k + 1) as -> by lia. assert (0 <= k) as Hk by lia. clear Ek.
  rewrite mod_pow2_succ by lia.
  rewrite (Z.pow_add_r 2 k 1) by lia. change (2 ^ 1) with 2.
  assert (0 <= m mod 2 ^ k < 2 ^ k) by (apply Z.mod_pos_bound, Z.pow_pos_nonneg; lia).
  destruct (Z.testbit m k); cbn [Z.b2z].
  - destruct (Z.eqb_spec (m mod 2 ^ k) 0) as [E|E]; cbn [negb loc_of_shr_record round_nearest_even].
    + rewrite E. rewrite Z.add_0_l, Z.mul_1_r, (Z.mul_comm 2), Z.compare_refl. reflexivity.
    + destruct (Z.compare_spec (2 * (m mod 2 ^ k + 2 ^ k * 1)) (2 ^ k * 2)); lia.
  - destruct (negb _); cbn [loc_of_shr_record round_nearest_even];
      destruct (Z.compare_spec (2 * (m mod 2 ^ k + 2 ^ k * 0)) (2 ^ k * 2)); lia.
Qed.

(** ** The value of a float *)

(** The value of the infinities, above the value of every float. *)
Definition CAP : Z := 2 ^ 2098.

(** The value of a float in units of [2 ^ -1074]. *)
Definition SFval (x : spec_float) : Z :=
  match x with
  | S754_zero _ => 0
  | S754_finite s m e => cond_Zopp s (Zpos m * 2 ^ (e + 1074))
  | S754_infinity s => cond_Zopp s CAP
  | S754_nan => 0
  end.

(** The second half of [binary_round_aux]: the rounded mantissa [q] at
    the exponent [E] becomes a float. *)
Definition finish (s : bool) (q E : Z) : spec_float :=
  let '(mrs, e) := shr_fexp prec emax q E loc_Exact in
  match shr_m mrs with
  | Z0 => S754_zero s
  | Zpos m => if e <=? emax - prec then S754_finite s m e else S754_infinity s
  | Zneg _ => S754_nan
  end.

Lemma binary_round_aux_finish s m e l :
  binary_round_aux prec emax s m e l
  = finish s (round_nearest_even (shr_m (fst (shr_fexp prec emax m e l)))
                (loc_of_shr_record (fst (shr_fexp prec emax m e l))))
      (snd (shr_fexp prec emax m e l)).
Proof.
  unfold binary_round_aux, finish. destruct (shr_fexp prec emax m e l) as [mrs e']. reflexivity.
Qed.

Lemma pow2_2098 a b : a + b = 2098 -> 0 <= a -> 0 <= b -> 2 ^ a * 2 ^ b = CAP.
Proof. intros H Ha Hb. unfold CAP. rewrite <- Z.pow_add_r by lia. f_equal. exact H. Qed.

Lemma finish_val s q E :
  0 <= q <= 2 ^ 53 -> -1074 <= E -> (971 < E -> 2 ^ 52 <= q) ->
  finish s q E <> S754_nan /\
  SFval (finish s q E) = cond_Zopp s (Z.min CAP (q * 2 ^ (E + 1074))).
Proof.
  intros Hq HE Hbig. unfold finish, shr_fexp, shr.
  assert (0 < 2 ^ (E + 1074)) as Hpow by (apply Z.pow_pos_nonneg; lia).
  assert (0 < CAP) as Hcap by (apply Z.pow_pos_nonneg; lia).
  destruct q as [|q|q]; [| |lia].
  - (* nothing is left *)
    cbn [Zdigits2 shr_record_of_loc]. rewrite fexp_eq.
    destruct (Z.max (0 + E - 53) (-1074) - E) as [|p|p] eqn:En; try lia; cbn [shr_m].
    all: split; [discriminate|]. all: cbn [SFval]. all: rewrite Z.mul_0_l, Z.min_r by lia.
    all: destruct s; reflexivity.
  - cbn [Zdigits2 shr_record_of_loc]. rewrite fexp_eq.
    pose proof (digits2_pos_bounds q) as [Hlo Hhi].
    destruct (Z.eq_dec (Zpos q) (2 ^ 53)) as [E53|N53].
    + (* the rounding has reached the next power of two *)
      assert (Zpos (digits2_pos q) = 54) as Hd.
      { rewrite digits2_log2, E53. reflexivity. }
      rewrite Hd.
      replace (Z.max (54 + E - 53) (-1074) - E) with 1 by lia.
      cbn [SpecFloat.iter_pos]. cbn [shr_record_of_loc]. rewrite shr_1_spec by lia.
      cbn [shr_m]. rewrite E53. change (2 ^ 53 / 2) with (Zpos (2 ^ 52)%positive).
      cbv iota.
      destruct (Z.leb_spec (E + 1) (emax - prec)) as [Hfin|Hinf]; (split; [discriminate|]).
      * cbn [SFval]. rewrite Z.min_r.
        -- f_equal. replace (E + 1 + 1074) with (1 + (E + 1074)) by lia.
           rewrite Z.pow_add_r by lia. change (Zpos (2 ^ 52)) with (2 ^ 52). lia.
        -- change (emax - prec) with 971 in Hfin.
           rewrite <- (pow2_2098 53 2045) by lia.
           apply Z.mul_le_mono_nonneg_l; [lia|]. apply Z.pow_le_mono_r; lia.
      * cbn [SFval]. rewrite Z.min_l; [reflexivity|].
        change (emax - prec) with 971 in Hinf.
        rewrite <- (pow2_2098 53 2045) by lia.
        apply Z.mul_le_mono_nonneg_l; [lia|]. apply Z.pow_le_mono_r; lia.
    + (* the mantissa fits *)
      assert (Zpos (digits2_pos q) <= 53) as Hd.
      { destruct (Z.le_gt_cases (Zpos (digits2_pos q)) 53) as [|Hgt]; [assumption|].
        assert (2 ^ 53 <= 2 ^ (Zpos (digits2_pos q) - 1)) by (apply Z.pow_le_mono_r; lia). lia. }
      assert (exists k, Z.max (Zpos (digits2_pos q) + E - 53) (-1074) - E = k /\ k <= 0)
        as (k & -> & Hk) by (eexists; split; [reflexivity|lia]).
      assert ((let (mrs, e) := match k with
                 | Zpos p => (SpecFloat.iter_pos shr_1 p (Build_shr_record (Zpos q) false false), E + k)
                 | _ => (Build_shr_record (Zpos q) false false, E)
                 end in
               match shr_m mrs with
               | 0 => S754_zero s
               | Zpos m => if e <=? emax - prec then S754_finite s m e else S754_infinity s
               | Zneg _ => S754_nan
               end)
              = if E <=? emax - prec then S754_finite s q E else S754_infinity s) as ->.
      { destruct k; try lia; reflexivity. }
      destruct (Z.leb_spec E (emax - prec)) as [Hfin|Hinf]; (split; [discriminate|]).
      * cbn [SFval]. rewrite Z.min_r; [reflexivity|].
        change (emax - prec) with 971 in Hfin.
        rewrite <- (pow2_2098 53 2045) by lia.
        assert (2 ^ (E + 1074) <= 2 ^ 2045) by (apply Z.pow_le_mono_r; lia).
        assert (Zpos q < 2 ^ 53) by lia.
        assert (0 < 2 ^ 53) by reflexivity.
        generalize dependent (2 ^ 53). generalize dependent (2 ^ 2045).
        generalize dependent (2 ^ (E + 1074)). intros. nia.
      * cbn [SFval]. rewrite Z.min_l; [reflexivity|].
        change (emax - prec) with 971 in Hinf. specialize (Hbig ltac:(lia)).
        rewrite <- (pow2_2098 52 2046) by lia.
        assert (2 ^ 2046 <= 2 ^ (E + 1074)) by (apply Z.pow_le_mono_r; lia).
        assert (0 < 2 ^ 52) by reflexivity. assert (0 < 2 ^ 2046) by (apply Z.pow_pos_nonneg; lia).
        generalize dependent (2 ^ 52). generalize dependent (2 ^ 2046).
        generalize dependent (2 ^ (E + 1074)). intros. nia.
Qed.

Lemma pos_lt_pow2_log2 m : 0 < m -> m < 2 ^ (Z.log2 m + 1).
Proof. intros H. pose proof (Z.log2_spec m H). replace (Z.log2 m + 1) with (Z.succ (Z.log2 m)) by lia. lia. Qed.

Lemma pow2_log2_le m : 0 < m -> 2 ^ Z.log2 m <= m.
Proof. intros H. pose proof (Z.log2_spec m H). lia. Qed.

Lemma shr_fexp_exact m e :
  shr_fexp prec emax (Zpos m) e loc_Exact
  = match fexp64 (Z.log2 (Zpos m) + 1 + e) - e with
    | Zpos p =>
        (Build_shr_record (Zpos m / 2 ^ Zpos p) (Z.testbit (Zpos m) (Zpos p - 1))
           (negb (Zpos m mod 2 ^ (Zpos p - 1) =? 0)),
         fexp64 (Z.log2 (Zpos m) + 1 + e))
    | _ => (Build_shr_record (Zpos m) false false, e)
    end.
Proof.
  unfold shr_fexp, shr. cbn [Zdigits2 shr_record_of_loc].
  rewrite fexp_eq, digits2_log2. fold (fexp64 (Z.log2 (Zpos m) + 1 + e)).
  destruct (fexp64 (Z.log2 (Zpos m) + 1 + e) - e) as [|p|p] eqn:En; try reflexivity.
  rewrite shr_iter_spec by lia. f_equal. lia.
Qed.

(** The value of the float [binary_round_aux] makes of an exact
    number, when the exponent of the number is not above the exponent
    of the floats around it. *)
Lemma binary_round_aux_val s m e :
  e <= fexp64 (Z.log2 (Zpos m) + 1 + e) ->
  binary_round_aux prec emax s (Zpos m) e loc_Exact <> S754_nan /\
  SFval (binary_round_aux prec emax s (Zpos m) e loc_Exact)
  = cond_Zopp s (Z.min CAP (Fval (Zpos m) e)).
Proof.
  intros Hn. rewrite binary_round_aux_finish, shr_fexp_exact.
  unfold Fval. cbv zeta.
  set (E := fexp64 (Z.log2 (Zpos m) + 1 + e)) in *.
  pose proof (fexp64_ge (Z.log2 (Zpos m) + 1 + e)) as HE. fold E in HE.
  pose proof (Z.log2_nonneg (Zpos m)) as Hl0.
  destruct (E - e) as [|p|p] eqn:En; [| |lia].
  - (* no shift *)
    cbn [fst snd shr_m loc_of_shr_record round_nearest_even].
    assert (E = e) as EE by lia.
    assert (rnd (Zpos m) 0 = Zpos m) as ->.
    { unfold rnd. change (0 <=? 0) with true. cbv iota. change (2 ^ (- 0)) with 1. lia. }
    rewrite <- EE at 1 2. apply finish_val.
    + split; [lia|]. pose proof (pos_lt_pow2_log2 (Zpos m) ltac:(lia)).
      assert (2 ^ (Z.log2 (Zpos m) + 1) <= 2 ^ 53) by (apply Z.pow_le_mono_r; unfold E, fexp64 in *; lia).
      lia.
    + lia.
    + intros Hbig. pose proof (pow2_log2_le (Zpos m) ltac:(lia)).
      assert (2 ^ 52 <= 2 ^ Z.log2 (Zpos m)) by (apply Z.pow_le_mono_r; unfold E, fexp64 in *; lia).
      lia.
  - (* a shift to the right and a rounding *)
    cbn [fst snd shr_m]. rewrite round_shr_rne by lia.
    assert (rne (Zpos m) (Zpos p) = rnd (Zpos m) (Zpos p)) as -> by reflexivity.
    apply finish_val.
    + split; [apply rnd_nonneg; lia|].
      apply rnd_le_pow; [lia|lia|]. unfold E, fexp64 in *. lia.
    + lia.
    + intros Hbig. apply rnd_ge_pow; [lia|lia|]. unfold E, fexp64 in *. lia.
Qed.

Lemma binary_round_val s m e :
  binary_round prec emax s m e <> S754_nan /\
  SFval (binary_round prec emax s m e) = cond_Zopp s (Z.min CAP (Fval (Zpos m) e)).
Proof.
  unfold binary_round. rewrite fexp_eq, digits2_log2.
  fold (fexp64 (Z.log2 (Zpos m) + 1 + e)).
  set (E := fexp64 (Z.log2 (Zpos m) + 1 + e)).
  unfold shl_align. destruct (E - e) as [|d|d] eqn:Ed.
  - apply binary_round_aux_val. fold E. lia.
  - apply binary_round_aux_val. fold E. lia.
  - assert (Zpos (Pos.iter xO m d) = Zpos m * 2 ^ (e - E)) as Hm.
    { rewrite iter_xO. f_equal. f_equal. lia. }
    assert (Fval (Zpos m) e = Fval (Zpos (Pos.iter xO m d)) E) as ->.
    { rewrite Hm. rewrite <- (Fval_scale (Zpos m) e (e - E)) by lia. f_equal. lia. }
    apply binary_round_aux_val.
    rewrite Hm, Z.log2_mul_pow2 by lia.
    replace (e - E + Z.log2 (Zpos m) + 1 + E) with (Z.log2 (Zpos m) + 1 + e) by lia.
    fold E. lia.
Qed.

Lemma binary_normalize_val d e :
  binary_normalize prec emax d e false <> S754_nan /\
  SFval (binary_normalize prec emax d e false)
  = match d with
    | 0 => 0
    | Zpos m => Z.min CAP (Fval (Zpos m) e)
    | Zneg m => - Z.min CAP (Fval (Zpos m) e)
    end.
Proof.
  destruct d as [|m|m]; cbn [binary_normalize].
  - split; [discriminate|reflexivity].
  - apply (binary_round_val false).
  - apply (binary_round_val true).
Qed.

(** ** Order and value *)

Lemma CAP_pos : 0 < CAP.
Proof. apply Z.pow_pos_nonneg; lia. Qed.

Lemma finite_val_bounds m e :
  bounded prec emax m e = true -> 0 < Zpos m * 2 ^ (e + 1074) < CAP.
Proof.
  intros H. destruct (bounded_inv _ _ H) as (He & Hm & _).
  unfold bounded in H. apply andb_prop in H as [_ Hmax]. apply Z.leb_le in Hmax.
  change (emax - prec) with 971 in Hmax.
  assert (0 < 2 ^ (e + 1074)) by (apply Z.pow_pos_nonneg; lia).
  split; [lia|].
  rewrite <- (pow2_2098 53 2045) by lia.
  assert (2 ^ (e + 1074) <= 2 ^ 2045) by (apply Z.pow_le_mono_r; lia).
  assert (0 < 2 ^ 53) by reflexivity.
  generalize dependent (2 ^ 53). generalize dependent (2 ^ 2045).
  generalize dependent (2 ^ (e + 1074)). intros. nia.
Qed.

Lemma finite_val_lt mx ex my ey :
  bounded prec emax mx ex = true -> bounded prec emax my ey = true ->
  ex < ey -> Zpos mx * 2 ^ (ex + 1074) < Zpos my * 2 ^ (ey + 1074).
Proof.
  intros Hx Hy Hlt.
  pose proof (lower_exponent_smaller _ _ _ _ Hx Hy Hlt) as H.
  destruct (bounded_inv _ _ Hx) as (He & _).
  replace (ey + 1074) with (ey - ex + (ex + 1074)) by lia.
  rewrite (Z.pow_add_r 2 (ey - ex) (ex + 1074)) by lia.
  assert (0 < 2 ^ (ex + 1074)) as Hp by (apply Z.pow_pos_nonneg; lia).
  rewrite Z.mul_assoc. apply Z.mul_lt_mono_pos_r; assumption.
Qed.

Lemma SFcompare_finite_val mx ex my ey :
  bounded prec emax mx ex = true -> bounded prec emax my ey = true ->
  match Z.compare ex ey with
  | Lt => Lt
  | Gt => Gt
  | Eq => Pos.compare_cont Eq mx my
  end = (Zpos mx * 2 ^ (ex + 1074) ?= Zpos my * 2 ^ (ey + 1074)).
Proof.
  intros Hx Hy. destruct (Z.compare_spec ex ey) as [E|E|E].
  - subst ey. rewrite Pos.compare_cont_spec. cbn [Pos.switch_Eq].
    destruct (bounded_inv _ _ Hx) as (He & _).
    assert (0 < 2 ^ (ex + 1074)) by (apply Z.pow_pos_nonneg; lia).
    change (mx ?= my)%positive with (Zpos mx ?= Zpos my).
    destruct (Z.compare_spec (Zpos mx) (Zpos my)); symmetry.
    + apply Z.compare_eq_iff. congruence.
    + apply Z.compare_lt_iff. nia.
    + apply Z.compare_gt_iff. nia.
  - symmetry. apply Z.compare_lt_iff. apply finite_val_lt; assumption.
  - symmetry. apply Z.compare_gt_iff. apply finite_val_lt; assumption.
Qed.

(** The order of the floats is the order of their values. *)
Lemma SFltb_val x y :
  valid_binary x = true -> valid_binary y = true ->
  x <> S754_nan -> y <> S754_nan ->
  SFltb x y = (SFval x <? SFval y).
Proof.
  intros Hx Hy Nx Ny. pose proof CAP_pos as Hcap.
  destruct x as [sx|sx| |sx mx ex], y as [sy|sy| |sy my ey]; try congruence;
    cbn [valid_binary] in Hx, Hy;
    try pose proof (finite_val_bounds _ _ Hx) as Bx;
    try pose proof (finite_val_bounds _ _ Hy) as By;
    unfold SFltb; cbn [SFcompare SFval].
  - reflexivity.
  - destruct sy; cbn [cond_Zopp]; symmetry; [apply Z.ltb_ge|apply Z.ltb_lt]; lia.
  - destruct sy; cbn [cond_Zopp]; symmetry; [apply Z.ltb_ge|apply Z.ltb_lt]; lia.
  - destruct sx; cbn [cond_Zopp]; symmetry; [apply Z.ltb_lt|apply Z.ltb_ge]; lia.
  - destruct sx, sy; cbn [cond_Zopp]; symmetry;
      [apply Z.ltb_ge|apply Z.ltb_lt|apply Z.ltb_ge|apply Z.ltb_ge]; lia.
  - destruct sx, sy; cbn [cond_Zopp]; symmetry;
      [apply Z.ltb_lt|apply Z.ltb_lt|apply Z.ltb_ge|apply Z.ltb_ge]; lia.
  - destruct sx; cbn [cond_Zopp]; symmetry; [apply Z.ltb_lt|apply Z.ltb_ge]; lia.
  - destruct sx, sy; cbn [cond_Zopp]; symmetry;
      [apply Z.ltb_ge|apply Z.ltb_lt|apply Z.ltb_ge|apply Z.ltb_lt]; lia.
  - pose proof (SFcompare_finite_val _ _ _ _ Hx Hy) as Hc.
    destruct sx, sy; cbn [cond_Zopp].
    + revert Hc. destruct (ex ?= ey); intros Hc; [rewrite Hc|symmetry in Hc|symmetry in Hc].
      * destruct (Z.compare_spec (Zpos mx * 2 ^ (ex + 1074)) (Zpos my * 2 ^ (ey + 1074)));
          cbn [CompOpp]; symmetry; [apply Z.ltb_ge|apply Z.ltb_ge|apply Z.ltb_lt]; lia.
      * apply (proj1 (Z.compare_lt_iff _ _)) in Hc. symmetry. apply Z.ltb_ge. lia.
      * apply (proj1 (Z.compare_gt_iff _ _)) in Hc. symmetry. apply Z.ltb_lt. lia.
    + symmetry. apply Z.ltb_lt. lia.
    + symmetry. apply Z.ltb_ge. lia.
    + rewrite Hc.
      destruct (Z.compare_spec (Zpos mx * 2 ^ (ex + 1074)) (Zpos my * 2 ^ (ey + 1074)));
        symmetry; [apply Z.ltb_ge|apply Z.ltb_lt|apply Z.ltb_ge]; lia.
Qed.

(** ** The values of numbers *)

(** The value of a number in units of [2 ^ -1074]. *)
Definition fval (x : float) : Z := SFval (Prim2SF x).

(** Zeros and the finite numbers. *)
Definition SFfin (x : spec_float) : bool :=
  match x with
  | S754_zero _ | S754_finite _ _ _ => true
  | _ => false
  end.

Lemma SFfin_bounds x : valid_binary x = true -> SFfin x = true -> - CAP < SFval x < CAP.
Proof.
  intros Hv Hf. pose proof CAP_pos.
  destruct x as [s|s| |s m e]; try discriminate; cbn [SFval]; [lia|].
  pose proof (finite_val_bounds _ _ Hv). destruct s; cbn [cond_Zopp]; lia.
Qed.

Lemma SFfin_val x : x <> S754_nan -> - CAP < SFval x < CAP -> SFfin x = true.
Proof.
  intros Hn Hb. destruct x as [s|s| |s m e]; try done.
  destruct s; cbn [SFval cond_Zopp] in Hb; lia.
Qed.

Lemma SFfin_zero x :
  valid_binary x = true -> SFfin x = true -> SFval x = 0 -> exists s, x = S754_zero s.
Proof.
  intros Hv Hf H0. destruct x as [s|s| |s m e]; try discriminate; [by exists s|].
  pose proof (finite_val_bounds _ _ Hv). destruct s; cbn [SFval cond_Zopp] in H0; lia.
Qed.

Lemma SFfin_pos x :
  valid_binary x = true -> SFfin x = true -> 0 < SFval x ->
  exists m e, x = S754_finite false m e /\ bounded prec emax m e = true.
Proof.
  intros Hv Hf H0. destruct x as [s|s| |s m e]; try discriminate.
  cbn [SFval] in H0. pose proof (finite_val_bounds _ _ Hv).
  destruct s; cbn [cond_Zopp] in H0; [lia|]. by exists m, e.
Qed.

Lemma not_nan_spec x : Prim2SF x <> S754_nan <-> is_nan x = false.
Proof.
  pose proof (is_nan_spec x) as H. destruct (is_nan x).
  - split; [intros Hn; by destruct Hn; apply H|done].
  - split; [done|]. intros _ Hn. apply H in Hn. done.
Qed.

Lemma ltb_val a b :
  Prim2SF a <> S754_nan -> Prim2SF b <> S754_nan ->
  (a <? b)%float = (fval a <? fval b).
Proof.
  intros Ha Hb. rewrite ltb_spec. apply SFltb_val; try done; apply Prim2SF_valid.
Qed.

Lemma ltb_not_nan a b :
  (a <? b)%float = true -> Prim2SF a <> S754_nan /\ Prim2SF b <> S754_nan.
Proof.
  rewrite ltb_spec. unfold SFltb.
  destruct (Prim2SF a) as [?|?| |? ? ?], (Prim2SF b) as [?|?| |? ? ?]; cbn [SFcompare]; done.
Qed.

Lemma Math_min_val a b :
  Prim2SF a <> S754_nan -> Prim2SF b <> S754_nan ->
  Prim2SF (Math_min a b) <> S754_nan /\
  fval (Math_min a b) = Z.min (fval a) (fval b).
Proof.
  intros Ha Hb. unfold Math_min.
  rewrite (proj1 (not_nan_spec a) Ha), (proj1 (not_nan_spec b) Hb). cbn [orb].
  rewrite !ltb_val by done.
  destruct (Z.ltb_spec (fval a) (fval b)); [split; [done|lia]|].
  destruct (Z.ltb_spec (fval b) (fval a)); [split; [done|lia]|].
  destruct (get_sign a); (split; [done|lia]).
Qed.

Lemma Math_max_val a b :
  Prim2SF a <> S754_nan -> Prim2SF b <> S754_nan ->
  Prim2SF (Math_max a b) <> S754_nan /\
  fval (Math_max a b) = Z.max (fval a) (fval b).
Proof.
  intros Ha Hb. unfold Math_max.
  rewrite (proj1 (not_nan_spec a) Ha), (proj1 (not_nan_spec b) Hb). cbn [orb].
  rewrite !ltb_val by done.
  destruct (Z.ltb_spec (fval a) (fval b)); [split; [done|lia]|].
  destruct (Z.ltb_spec (fval b) (fval a)); [split; [done|lia]|].
  destruct (get_sign a); (split; [done|lia]).
Qed.

(** ** Subtraction *)

(** A multiple of [2 ^ -1074] rounded to a number. *)
Definition RN (z : Z) : Z :=
  match z with
  | 0 => 0
  | Zpos p => Z.min CAP (Fval (Zpos p) (-1074))
  | Zneg p => - Z.min CAP (Fval (Zpos p) (-1074))
  end.

Lemma RN_pos z : 0 < z -> RN z = Z.min CAP (Fval z (-1074)).
Proof. by destruct z. Qed.

Lemma RN_neg z : z < 0 -> RN z = - Z.min CAP (Fval (- z) (-1074)).
Proof. by destruct z. Qed.

Lemma RN_sign z : (0 < z -> 0 <= RN z) /\ (z < 0 -> RN z <= 0).
Proof.
  pose proof CAP_pos.
  destruct z as [|p|p]; cbn [RN]; (split; [try lia|try lia]); intros _;
    pose proof (Fval_nonneg (Zpos p) (-1074) ltac:(lia)); lia.
Qed.

Lemma RN_mono z1 z2 : z1 <= z2 -> RN z1 <= RN z2.
Proof.
  intros Hle. pose proof CAP_pos.
  destruct (Z.lt_trichotomy z1 0) as [H1|[->|H1]],
           (Z.lt_trichotomy z2 0) as [H2|[->|H2]]; try lia.
  - rewrite !RN_neg by done.
    pose proof (Fval_mono_mantissa (- z2) (- z1) (-1074) ltac:(lia) ltac:(lia)). lia.
  - pose proof (proj2 (RN_sign z1) H1). done.
  - pose proof (proj2 (RN_sign z1) H1). pose proof (proj1 (RN_sign z2) H2). lia.
  - pose proof (proj1 (RN_sign z2) H2). done.
  - rewrite !RN_pos by done.
    pose proof (Fval_mono_mantissa z1 z2 (-1074) ltac:(lia) ltac:(lia)). lia.
Qed.

Lemma RN_canonical m e :
  bounded prec emax m e = true -> RN (Zpos m * 2 ^ (e + 1074)) = Zpos m * 2 ^ (e + 1074).
Proof.
  intros Hb. pose proof (finite_val_bounds _ _ Hb) as Hv.
  destruct (bounded_inv _ _ Hb) as (He & _).
  rewrite RN_pos by lia.
  replace (-1074) with (e - (e + 1074)) by lia.
  rewrite Fval_scale by lia. rewrite Fval_canonical by done. lia.
Qed.

Lemma RN_scaled d e :
  -1074 <= e ->
  RN (d * 2 ^ (e + 1074))
  = match d with
    | 0 => 0
    | Zpos m => Z.min CAP (Fval (Zpos m) e)
    | Zneg m => - Z.min CAP (Fval (Zpos m) e)
    end.
Proof.
  intros He. assert (0 < 2 ^ (e + 1074)) as Hp by (apply Z.pow_pos_nonneg; lia).
  destruct d as [|m|m].
  - reflexivity.
  - rewrite RN_pos by lia.
    replace (-1074) with (e - (e + 1074)) at 1 by lia. by rewrite Fval_scale by lia.
  - rewrite RN_neg by lia.
    replace (- (Z.neg m * 2 ^ (e + 1074))) with (Zpos m * 2 ^ (e + 1074)) by lia.
    replace (-1074) with (e - (e + 1074)) at 1 by lia. by rewrite Fval_scale by lia.
Qed.

Lemma RN_opp z : RN (- z) = - RN z.
Proof.
  destruct z as [|p|p]; [reflexivity|reflexivity|].
  symmetry. apply (Z.opp_involutive (Z.min CAP (Fval (Zpos p) (-1074)))).
Qed.

(** The difference of two finite numbers is the rounded difference of
    their values. *)
Lemma SFsub_val x y :
  valid_binary x = true -> valid_binary y = true ->
  SFfin x = true -> SFfin y = true ->
  SF64sub x y <> S754_nan /\ SFval (SF64sub x y) = RN (SFval x - SFval y).
Proof.
  intros Hx Hy Fx Fy.
  destruct x as [sx|sx| |sx mx ex], y as [sy|sy| |sy my ey]; try discriminate;
    cbn [valid_binary] in Hx, Hy; unfold SF64sub; cbn [SFsub SFval].
  - destruct sx, sy; (split; [done|reflexivity]).
  - split; [done|]. cbn [SFval]. rewrite Z.sub_0_l.
    destruct sy; cbn [cond_Zopp negb].
    + rewrite Z.opp_involutive. by rewrite RN_canonical.
    + by rewrite RN_opp, RN_canonical.
  - split; [done|]. rewrite Z.sub_0_r.
    destruct sx; cbn [cond_Zopp]; [rewrite RN_opp|]; by rewrite RN_canonical.
  - destruct (bounded_inv _ _ Hx) as (Hex & _), (bounded_inv _ _ Hy) as (Hey & _).
    set (ez := Z.min ex ey).
    destruct (binary_normalize_val
      (cond_Zopp sx (Zpos (fst (shl_align mx ex ez)))
       - cond_Zopp sy (Zpos (fst (shl_align my ey ez)))) ez) as [Hn Hv].
    split; [done|]. rewrite Hv, <- RN_scaled by lia. f_equal.
    rewrite !shl_align_val by lia.
    assert (forall m e, ez <= e -> Zpos m * 2 ^ (e - ez) * 2 ^ (ez + 1074)
                                   = Zpos m * 2 ^ (e + 1074)) as Hs.
    { intros m e Hle. rewrite <- Z.mul_assoc, <- Z.pow_add_r by lia. do 2 f_equal. lia. }
    rewrite Z.mul_sub_distr_r.
    destruct sx, sy; cbn [cond_Zopp]; rewrite ?Z.mul_opp_l, !Hs by lia; done.
Qed.

Lemma SFsub_finite_fin x y s m e :
  SF64sub x y = S754_finite s m e -> SFfin x = true /\ SFfin y = true.
Proof.
  unfold SF64sub.
  destruct x as [sx|sx| |sx mx ex], y as [sy|sy| |sy my ey]; cbn [SFsub SFfin];
    try done; try (by destruct sx, sy).
Qed.

(** ** Multiplication *)

(** The product of two positive numbers is the rounded product of their
    values; the product of two values is in units of [2 ^ -2148]. *)
Lemma SFmul_val mf ef mt et :
  bounded prec emax mf ef = true -> bounded prec emax mt et = true ->
  SF64mul (S754_finite false mf ef) (S754_finite false mt et) <> S754_nan /\
  SFval (SF64mul (S754_finite false mf ef) (S754_finite false mt et))
  = Z.min CAP (Fval (Zpos mf * 2 ^ (ef + 1074) * (Zpos mt * 2 ^ (et + 1074))) (-2148)).
Proof.
  intros Hf Ht. unfold SF64mul. cbn [SFmul xorb].
  destruct (bounded_inv _ _ Hf) as (Hef & Hmf & Hnf).
  destruct (bounded_inv _ _ Ht) as (Het & Hmt & Hnt).
  destruct (binary_round_aux_val false (mf * mt) (ef + et)) as [Hn Hv].
  { unfold fexp64. rewrite Pos2Z.inj_mul.
    destruct (decide (ef = -1074)) as [->|]; [destruct (decide (et = -1074)) as [->|]|];
      [lia| |].
    all: assert (2 ^ 52 <= Zpos mf * Zpos mt) as Hm by nia.
    all: apply Z.log2_le_pow2 in Hm; lia. }
  split; [done|]. rewrite Hv. cbn [cond_Zopp]. f_equal.
  rewrite Pos2Z.inj_mul.
  replace (-2148) with (ef + et - (ef + et + 2148)) by lia.
  rewrite <- (Fval_scale (Zpos mf * Zpos mt) (ef + et) (ef + et + 2148)) by lia.
  f_equal. replace (ef + et + 2148) with ((ef + 1074) + (et + 1074)) by lia.
  rewrite Z.pow_add_r by lia. lia.
Qed.

(** ** Conversion to an integer *)

Lemma ToInt32_val p :
  0 <= fval p < 2 ^ 31 * 2 ^ 1074 -> ToInt32 p = fval p / 2 ^ 1074.
Proof.
  unfold fval, ToInt32. pose proof (Prim2SF_valid p) as Hv.
  assert (2 ^ 31 * 2 ^ 1074 < CAP) as Hcap.
  { rewrite <- (pow2_2098 1024 1074) by lia.
    apply Z.mul_lt_mono_pos_r; [by apply Z.pow_pos_nonneg|by apply Z.pow_lt_mono_r]. }
  destruct (Prim2SF p) as [s|s| |s m e]; cbn [SFval]; intros Hb.
  - done.
  - destruct s; cbn [cond_Zopp] in Hb; lia.
  - done.
  - cbn [valid_binary] in Hv. pose proof (finite_val_bounds _ _ Hv) as Hp.
    destruct (bounded_inv _ _ Hv) as (He & _).
    destruct s; cbn [cond_Zopp] in *; [lia|].
    assert (0 < 2 ^ 1074) as H1 by (by apply Z.pow_pos_nonneg).
    assert ((if 0 <=? e then Z.shiftl (Zpos m) e else Z.shiftr (Zpos m) (- e))
            = Zpos m * 2 ^ (e + 1074) / 2 ^ 1074) as ->.
    { destruct (Z.leb_spec 0 e).
      - rewrite Z.shiftl_mul_pow2, Z.pow_add_r, Z.mul_assoc, Z.div_mul by lia. done.
      - rewrite Z.shiftr_div_pow2 by lia.
        replace (2 ^ 1074) with (2 ^ (- e) * 2 ^ (e + 1074)) at 1
          by (rewrite <- Z.pow_add_r by lia; f_equal; lia).
        rewrite Z.div_mul_cancel_r; [done| |].
        + apply Z.pow_nonzero; lia.
        + apply Z.pow_nonzero; lia. }
    set (V := Zpos m * 2 ^ (e + 1074)) in *.
    assert (0 <= V / 2 ^ 1074 < 2 ^ 31) as Hq.
    { split; [apply Z.div_pos; lia|]. apply Z.div_lt_upper_bound; lia. }
    change 4294967296 with (2 ^ 32). change 2147483648 with (2 ^ 31).
    rewrite Z.mod_small by lia.
    destruct (Z.leb_spec (2 ^ 31) (V / 2 ^ 1074)); lia.
Qed.

Lemma ToInt32_mul_zero f t s : Prim2SF t = S754_zero s -> ToInt32 (f * t) = 0.
Proof.
  intros Ht. unfold ToInt32. rewrite mul_spec, Ht. unfold SF64mul.
  by destruct (Prim2SF f) as [?|?| |? ? ?].
Qed.

(** Multiplying by a factor that is not a finite non-zero number gives
    no finite non-zero number. *)
Lemma ToInt32_mul_special f t :
  (forall s m e, Prim2SF f <> S754_finite s m e) -> ToInt32 (f * t) = 0.
Proof.
  intros Hf. unfold ToInt32. rewrite mul_spec. unfold SF64mul.
  destruct (Prim2SF f) as [?|?| |s m e], (Prim2SF t) as [?|?| |? ? ?]; cbn [SFmul]; try done.
  all: by destruct (Hf s m e).
Qed.

(** ** Division *)

Lemma round_nearest_even_bounds m l : m <= round_nearest_even m l <= m + 1.
Proof.
  unfold round_nearest_even. destruct l as [|[]]; try lia. destruct (Z.even m); lia.
Qed.

Lemma shr_m_record_of_loc m l : shr_m (shr_record_of_loc m l) = m.
Proof. by destruct l as [|[]]. Qed.

Lemma binary_round_aux_finite_sign s m e l s' m' e' :
  binary_round_aux prec emax s m e l = S754_finite s' m' e' -> s' = s.
Proof.
  unfold binary_round_aux. destruct (shr_fexp prec emax m e l) as [mrs e1].
  destruct (shr_fexp _ _ _ e1 loc_Exact) as [mrs2 e2].
  destruct (shr_m mrs2); [done| |done]. destruct (e2 <=? _); congruence.
Qed.

(** A quotient of 53 or 54 digits is rounded up by less than two of its
    units. *)
Lemma binary_round_aux_upper s q e l :
  2 ^ 52 <= Zpos q < 2 ^ 54 -> -1074 <= e ->
  exists v, SFval (binary_round_aux prec emax s (Zpos q) e l) = cond_Zopp s v /\
            v <= (Zpos q + 2) * 2 ^ (e + 1074).
Proof.
  intros Hq He. rewrite binary_round_aux_finish.
  assert (0 < 2 ^ (e + 1074)) as Hp by (apply Z.pow_pos_nonneg; lia).
  unfold shr_fexp. cbn [Zdigits2]. rewrite fexp_eq, digits2_log2.
  destruct (decide (Zpos q < 2 ^ 53)) as [Hs|Hs].
  - assert (Z.log2 (Zpos q) = 52) as -> by (apply Z.log2_unique; lia).
    match goal with |- context [shr _ _ ?n] => replace n with 0 by lia end.
    cbn [shr fst snd]. rewrite shr_m_record_of_loc.
    pose proof (round_nearest_even_bounds (Zpos q)
      (loc_of_shr_record (shr_record_of_loc (Zpos q) l))) as Hr.
    set (q' := round_nearest_even _ _) in *.
    destruct (finish_val s q' e) as [_ Hv]; [lia|lia|lia|].
    rewrite Hv. eexists; split; [done|]. nia.
  - assert (Z.log2 (Zpos q) = 53) as -> by (apply Z.log2_unique; lia).
    match goal with |- context [shr _ _ ?n] => replace n with 1 by lia end.
    cbn [shr SpecFloat.iter_pos fst snd].
    rewrite shr_m_shr_1 by (rewrite shr_m_record_of_loc; lia).
    rewrite shr_m_record_of_loc, Z.div2_div.
    pose proof (round_nearest_even_bounds (Zpos q / 2)
      (loc_of_shr_record (shr_1 (shr_record_of_loc (Zpos q) l)))) as Hr.
    set (q' := round_nearest_even _ _) in *.
    assert (2 ^ 52 <= Zpos q / 2 < 2 ^ 53) as Hh.
    { split; [apply Z.div_le_lower_bound; lia|apply Z.div_lt_upper_bound; lia]. }
    pose proof (Z.mul_div_le (Zpos q) 2 ltac:(lia)) as Hd.
    destruct (finish_val s q' (e + 1)) as [_ Hv]; [lia|lia|lia|].
    rewrite Hv. eexists; split; [done|].
    replace (e + 1 + 1074) with (Z.succ (e + 1074)) by lia.
    rewrite Z.pow_succ_r by lia. nia.
Qed.

Lemma div_eucl_div a b : Z.div_eucl a b = (a / b, a mod b).
Proof. unfold Z.div, Z.modulo. by destruct (Z.div_eucl a b). Qed.

Lemma bounded_emax m e : bounded prec emax m e = true -> e <= 971.
Proof.
  unfold bounded. intros H. apply andb_prop in H as [_ H]. by apply Z.leb_le in H.
Qed.

(** [65535 / d] times [d] is not above [65535.5]. *)
Lemma SFdiv_USHRT_MAX sd md ed s mf ef :
  bounded prec emax md ed = true ->
  SF64div (Prim2SF USHRT_MAX_f) (S754_finite sd md ed) = S754_finite s mf ef ->
  s = sd /\
  Zpos mf * 2 ^ (ef + 1074) * (Zpos md * 2 ^ (ed + 1074)) <= 131071 * 2 ^ 2147.
Proof.
  intros Hd. change (Prim2SF USHRT_MAX_f) with (S754_finite false 9007061815787520 (-37)).
  unfold SF64div. cbn [SFdiv xorb]. unfold SFdiv_core_binary.
  change (Zdigits2 9007061815787520) with 53. cbn [Zdigits2].
  pose proof (digits2_pos_bounds md) as [Hlo Hhi].
  destruct (bounded_inv _ _ Hd) as (Hed & Hmd & _).
  pose proof (bounded_emax _ _ Hd) as Hmax.
  set (d2 := digits2_pos md) in *.
  assert (Zpos d2 <= 53) as Hd2.
  { destruct (Z.le_gt_cases (Zpos d2) 53) as [|Hgt]; [done|].
    assert (2 ^ 53 <= 2 ^ (Zpos d2 - 1)) by (apply Z.pow_le_mono_r; lia). lia. }
  rewrite fexp_eq.
  replace (Z.min (Z.max (53 + -37 - (Zpos d2 + ed) - 53) (-1074)) (-37 - ed))
    with (-37 - Zpos d2 - ed) by lia.
  replace (-37 - ed - (-37 - Zpos d2 - ed)) with (Zpos d2) by lia.
  cbv zeta. rewrite div_eucl_div.
  intros Hr. pose proof (binary_round_aux_finite_sign _ _ _ _ _ _ _ Hr) as ->.
  split; [done|].
  rewrite Z.shiftl_mul_pow2 in Hr by lia.
  set (A := 2 ^ Zpos d2) in *.
  assert (0 < A) as HA by (apply Z.pow_pos_nonneg; lia).
  assert (2 * Zpos md >= A) as HloA.
  { unfold A. replace (Zpos d2) with (Z.succ (Zpos d2 - 1)) by lia.
    rewrite Z.pow_succ_r by lia. lia. }
  pose proof (Z.mul_div_le (9007061815787520 * A) (Zpos md) ltac:(lia)) as Hq1.
  pose proof (Z.mod_pos_bound (9007061815787520 * A) (Zpos md) ltac:(lia)) as Hq2.
  pose proof (Z.div_mod (9007061815787520 * A) (Zpos md) ltac:(lia)) as Hq3.
  set (q := 9007061815787520 * A / Zpos md) in *.
  assert (2 ^ 52 <= q < 2 ^ 54) as Hq by nia.
  destruct q as [|q|q]; [lia| |lia].
  destruct (binary_round_aux_upper sd q (-37 - Zpos d2 - ed)
    (new_location (Zpos md) ((9007061815787520 * A) `mod` Zpos md))) as (v & Hv & Hle);
    [done|lia|].
  rewrite Hr in Hv. cbn [SFval] in Hv.
  assert (Zpos mf * 2 ^ (ef + 1074) = v) as -> by (destruct sd; cbn [cond_Zopp] in Hv; lia).
  assert (2 ^ (-37 - Zpos d2 - ed + 1074) * 2 ^ (ed + 1074) * A = 2 ^ 2111) as HK.
  { unfold A. rewrite <- !Z.pow_add_r by lia. f_equal. lia. }
  change (2 ^ 2147) with (2 ^ 36 * 2 ^ 2111).
  assert (0 < 2 ^ (-37 - Zpos d2 - ed + 1074)) as HP1 by (apply Z.pow_pos_nonneg; lia).
  assert (0 < 2 ^ (ed + 1074)) as HP2 by (apply Z.pow_pos_nonneg; lia).
  change (2 ^ 36) with 68719476736.
  generalize dependent (2 ^ 2111). generalize dependent (2 ^ (ed + 1074)).
  generalize dependent (2 ^ (-37 - Zpos d2 - ed + 1074)).
  intros P1 Hle HP1 P2 HP2 K HK.
  assert (0 < P1 * P2) as HPP by nia.
  assert (v * (Zpos md * P2) <= (Zpos q + 2) * P1 * (Zpos md * P2)) as H1
    by (apply Z.mul_le_mono_nonneg_r; nia).
  assert ((Zpos q + 2) * Zpos md <= 9007061815787522 * A) as H2 by nia.
  assert ((Zpos q + 2) * Zpos md * (P1 * P2) <= 9007061815787522 * A * (P1 * P2)) as H3
    by (apply Z.mul_le_mono_nonneg_r; lia).
  replace ((Zpos q + 2) * P1 * (Zpos md * P2))
    with ((Zpos q + 2) * Zpos md * (P1 * P2)) in H1 by ring.
  replace (9007061815787522 * A * (P1 * P2)) with (9007061815787522 * K) in H3
    by (rewrite <- HK; ring).
  assert (0 < K) by nia. lia.
Qed.

(** ** The quantizer *)

Lemma SFfin_not_nan x : SFfin x = true -> x <> S754_nan.
Proof. by destruct x. Qed.

(** The clamped coordinate relative to the lower end of the world. *)
Lemma clamp_sub_val w0 w1 v :
  SFfin (Prim2SF w0) = true -> SFfin (Prim2SF w1) = true -> Prim2SF v <> S754_nan ->
  Prim2SF (Math_max (Math_min v w1) w0 - w0) <> S754_nan /\
  fval (Math_max (Math_min v w1) w0 - w0)
  = RN (Z.max (Z.min (fval v) (fval w1)) (fval w0) - fval w0).
Proof.
  intros F0 F1 Hv.
  pose proof (SFfin_bounds _ (Prim2SF_valid w0) F0) as B0.
  pose proof (SFfin_bounds _ (Prim2SF_valid w1) F1) as B1.
  destruct (Math_min_val v w1 Hv (SFfin_not_nan _ F1)) as [Hn1 Hv1].
  destruct (Math_max_val (Math_min v w1) w0 Hn1 (SFfin_not_nan _ F0)) as [Hn2 Hv2].
  rewrite Hv1 in Hv2. fold (fval w0) (fval w1) in B0, B1.
  assert (SFfin (Prim2SF (Math_max (Math_min v w1) w0)) = true) as Fc.
  { apply SFfin_val; [done|]. fold (fval (Math_max (Math_min v w1) w0)). lia. }
  rewrite sub_spec. unfold fval at 1. rewrite sub_spec.
  destruct (SFsub_val _ _ (Prim2SF_valid (Math_max (Math_min v w1) w0))
              (Prim2SF_valid w0) Fc F0) as [Hn Hs].
  split; [done|]. rewrite Hs. fold (fval (Math_max (Math_min v w1) w0)) (fval w0).
  by rewrite Hv2.
Qed.

(** The value of the product of a positive factor [F] and an offset
    [T]. *)
Definition scaled (F T : Z) : Z :=
  if T =? 0 then 0 else Z.min CAP (Fval (F * T) (-2148)).

Lemma scaled_mono F T1 T2 : 0 < F -> 0 <= T1 <= T2 -> 0 <= scaled F T1 <= scaled F T2.
Proof.
  intros HF HT. unfold scaled. pose proof CAP_pos.
  destruct (Z.eqb_spec T1 0) as [->|], (Z.eqb_spec T2 0) as [->|]; try lia.
  - pose proof (Fval_nonneg (F * T2) (-2148) ltac:(nia)). lia.
  - pose proof (Fval_nonneg (F * T1) (-2148) ltac:(nia)).
    pose proof (Fval_mono_mantissa (F * T1) (F * T2) (-2148) ltac:(nia) ltac:(nia)). lia.
Qed.

Lemma mul_val f t mf ef :
  Prim2SF f = S754_finite false mf ef -> Prim2SF t <> S754_nan -> 0 <= fval t < CAP ->
  fval (f * t) = scaled (fval f) (fval t).
Proof.
  intros Hf Hn Ht. pose proof (Prim2SF_valid f) as Vf. pose proof (Prim2SF_valid t) as Vt.
  assert (SFfin (Prim2SF t) = true) as Ft by (apply SFfin_val; [done|fold (fval t); lia]).
  unfold fval at 1 2. rewrite mul_spec, Hf. rewrite Hf in Vf. cbn [valid_binary] in Vf.
  unfold scaled. destruct (Z.eqb_spec (fval t) 0) as [H0|H0].
  - destruct (SFfin_zero _ Vt Ft H0) as [s ->]. reflexivity.
  - destruct (SFfin_pos _ Vt Ft) as (mt & et & Et & Bt); [fold (fval t); lia|].
    unfold fval. rewrite Et. cbn [SFval cond_Zopp].
    by destruct (SFmul_val mf ef mt et Vf Bt) as [_ ->].
Qed.

Lemma scaled_USHRT_MAX F D :
  0 < F -> 0 < D -> F * D <= 131071 * 2 ^ 2147 -> scaled F D <= 131071 * 2 ^ 1073.
Proof.
  intros HF HD Hle. unfold scaled. destruct (Z.eqb_spec D 0); [lia|].
  pose proof (Fval_mono_mantissa (F * D) (131071 * 2 ^ 2147) (-2148) ltac:(nia) Hle) as Hm.
  assert (Fval (131071 * 2 ^ 2147) (-2148) = 131071 * 2 ^ 1073) as E; [|lia].
  change (131071 * 2 ^ 2147) with (9007130535264256 * 2 ^ 2111).
  change (-2148) with (-37 - 2111).
  rewrite Fval_scale by lia. by rewrite Fval_canonical.
Qed.

(** Both ends of an interval are mapped, in their order, into the range
    of the 16-bit values. *)
Lemma quantize_order (w0 w1 v1 v2 : float) :
  Prim2SF v1 <> S754_nan -> Prim2SF v2 <> S754_nan -> fval v1 <= fval v2 ->
  0 <= ToInt32 (USHRT_MAX_f / (w1 - w0) * (Math_max (Math_min v1 w1) w0 - w0))
    <= ToInt32 (USHRT_MAX_f / (w1 - w0) * (Math_max (Math_min v2 w1) w0 - w0))
  /\ ToInt32 (USHRT_MAX_f / (w1 - w0) * (Math_max (Math_min v2 w1) w0 - w0)) <= 65535.
Proof.
  intros N1 N2 Hle. set (f := (USHRT_MAX_f / (w1 - w0))%float).
  destruct (Prim2SF f) as [s|s| |s mf ef] eqn:Ef;
    try (rewrite !ToInt32_mul_special by (rewrite Ef; done); lia).
  pose proof Ef as Ef'. unfold f in Ef'. rewrite div_spec in Ef'.
  pose proof (Prim2SF_valid (w1 - w0)) as Vd.
  destruct (Prim2SF (w1 - w0)) as [?|?| |sd md ed] eqn:Ed;
    try (change (Prim2SF USHRT_MAX_f) with (S754_finite false 9007061815787520 (-37)) in Ef';
         discriminate).
  cbn [valid_binary] in Vd.
  destruct (SFdiv_USHRT_MAX _ _ _ _ _ _ Vd Ef') as [-> Hb].
  pose proof Ed as Ed'. rewrite sub_spec in Ed'.
  destruct (SFsub_finite_fin _ _ _ _ _ Ed') as [F1 F0].
  destruct (SFsub_val _ _ (Prim2SF_valid w1) (Prim2SF_valid w0) F1 F0) as [_ HD].
  rewrite Ed' in HD. cbn [SFval] in HD. fold (fval w1) (fval w0) in HD.
  pose proof (finite_val_bounds _ _ Vd) as BD.
  destruct (clamp_sub_val w0 w1 v1 F0 F1 N1) as [Hn1 Ht1].
  destruct (clamp_sub_val w0 w1 v2 F0 F1 N2) as [Hn2 Ht2].
  pose proof CAP_pos as HC.
  destruct sd; cbn [cond_Zopp] in HD.
  - (* the world is inverted: both ends are clamped to its lower end *)
    assert (fval w1 < fval w0) as Hw.
    { destruct (Z.lt_ge_cases (fval w1) (fval w0)) as [|Hge]; [done|].
      pose proof (RN_mono 0 (fval w1 - fval w0) ltac:(lia)) as Hm.
      change (RN 0) with 0 in Hm. lia. }
    assert (forall v, Prim2SF v <> S754_nan ->
      ToInt32 (f * (Math_max (Math_min v w1) w0 - w0)) = 0) as H0.
    { intros v Nv. destruct (clamp_sub_val w0 w1 v F0 F1 Nv) as [Hn Ht].
      replace (Z.max (Z.min (fval v) (fval w1)) (fval w0) - fval w0) with 0 in Ht by lia.
      change (RN 0) with 0 in Ht.
      destruct (SFfin_zero _ (Prim2SF_valid _) (SFfin_val _ Hn ltac:(fold (fval (Math_max (Math_min v w1) w0 - w0)); lia)) Ht)
        as [s Hz].
      by apply (ToInt32_mul_zero _ _ s). }
    rewrite !H0 by done. lia.
  - assert (fval w0 < fval w1) as Hw.
    { destruct (Z.lt_ge_cases (fval w0) (fval w1)) as [|Hge]; [done|].
      pose proof (RN_mono (fval w1 - fval w0) 0 ltac:(lia)) as Hm.
      change (RN 0) with 0 in Hm. lia. }
    set (D := Zpos md * 2 ^ (ed + 1074)) in *.
    set (T := λ v, RN (Z.max (Z.min (fval v) (fval w1)) (fval w0) - fval w0)).
    assert (forall v, 0 <= T v <= D) as HT.
    { intros v. unfold T. split.
      - pose proof (RN_mono 0 (Z.max (Z.min (fval v) (fval w1)) (fval w0) - fval w0)
          ltac:(lia)) as Hm. by change (RN 0) with 0 in Hm.
      - rewrite HD. apply RN_mono. lia. }
    assert (T v1 <= T v2) as H12 by (unfold T; apply RN_mono; lia).
    fold (T v1) in Ht1. fold (T v2) in Ht2.
    assert (fval f = Zpos mf * 2 ^ (ef + 1074)) as EF by (unfold fval; by rewrite Ef).
    assert (0 < fval f) as HF.
    { rewrite EF. pose proof (Prim2SF_valid f) as Vf. rewrite Ef in Vf.
      apply (finite_val_bounds _ _ Vf). }
    pose proof (mul_val f _ mf ef Ef Hn1 ltac:(rewrite Ht1; specialize (HT v1); lia)) as P1.
    pose proof (mul_val f _ mf ef Ef Hn2 ltac:(rewrite Ht2; specialize (HT v2); lia)) as P2.
    rewrite Ht1 in P1. rewrite Ht2 in P2.
    pose proof (scaled_mono (fval f) (T v1) (T v2) HF ltac:(specialize (HT v1); lia)) as M12.
    pose proof (scaled_mono (fval f) (T v2) D HF ltac:(specialize (HT v2); lia)) as M2D.
    pose proof (scaled_USHRT_MAX (fval f) D HF ltac:(lia) ltac:(by rewrite EF)) as MD.
    assert (0 < 2 ^ 1073) as HK by (by apply Z.pow_pos_nonneg).
    assert (2 ^ 1074 = 2 * 2 ^ 1073) as HK2 by (by rewrite <- Z.pow_succ_r).
    assert (2 ^ 31 = 2147483648) as HK3 by done.
    rewrite !ToInt32_val by (rewrite ?P1, ?P2, HK2, HK3; lia).
    rewrite P1, P2. split; [split|].
    + apply Z.div_pos; lia.
    + apply Z.div_le_mono; lia.
    + apply Z.lt_succ_r. apply Z.div_lt_upper_bound; lia.
Qed.

(** ** The values of ComputeBounds *)

(** A [NaN] coordinate is mapped to 0. *)
Lemma quantize_nan (f w0 w1 v : float) :
  Prim2SF v = S754_nan -> ToInt32 (f * (Math_max (Math_min v w1) w0 - w0)) = 0.
Proof.
  intros Hv. unfold Math_min. rewrite (proj2 (is_nan_spec v) Hv). cbn [orb].
  unfold Math_max. change (is_nan nan) with true. cbn [orb].
  unfold ToInt32. rewrite mul_spec, sub_spec. change (Prim2SF nan) with S754_nan.
  unfold SF64sub, SF64mul. cbn [SFsub]. by destruct (Prim2SF f).
Qed.

Lemma quantize_range (w0 w1 v : float) :
  0 <= ToInt32 (USHRT_MAX_f / (w1 - w0) * (Math_max (Math_min v w1) w0 - w0)) <= 65535.
Proof.
  destruct (is_nan v) eqn:Hn.
  - apply is_nan_spec in Hn. by rewrite quantize_nan.
  - apply not_nan_spec in Hn.
    pose proof (quantize_order w0 w1 v v Hn Hn ltac:(lia)). lia.
Qed.

(** Clearing and setting bit 0 of a 16-bit value. *)
Lemma clear_bit0 q : 0 <= q <= 65535 -> Z.land q 65534 = 2 * (q / 2).
Proof.
  intros Hq. change 65534 with (Z.land (Z.ones 16) (Z.lnot (Z.ones 1))).
  rewrite Z.land_assoc, Z.land_ones, <- Z.ldiff_land, Z.ldiff_ones_r by lia.
  change (2 ^ 16) with 65536. rewrite Z.mod_small by lia.
  rewrite Z.shiftr_div_pow2, Z.shiftl_mul_pow2 by lia. change (2 ^ 1) with 2. lia.
Qed.

Lemma set_bit0 q : 0 <= q <= 65535 -> Z.lor (Z.land q 65535) 1 = 2 * (q / 2) + 1.
Proof.
  intros Hq. change 65535 with (Z.ones 16). rewrite Z.land_ones by lia.
  change (2 ^ 16) with 65536. rewrite Z.mod_small by lia.
  pose proof (Z.add_lor_land q 1) as H. change 1 with (Z.ones 1) in H at 2.
  rewrite Z.land_ones in H by lia. change (2 ^ 1) with 2 in H.
  pose proof (Z.div_mod q 2 ltac:(lia)). pose proof (Z.mod_pos_bound q 2 ltac:(lia)).
  assert (Z.land (Z.lor q 1) 1 = 1) as Hodd.
  { rewrite Z.land_lor_distr_l. change (Z.land 1 1) with 1.
    change 1 with (Z.ones 1) at 1. rewrite Z.land_ones by lia. change (2 ^ 1) with 2.
    assert (q mod 2 = 0 \/ q mod 2 = 1) as [-> | ->] by lia; done. }
  change 1 with (Z.ones 1) in Hodd at 2. rewrite Z.land_ones in Hodd by lia.
  change (2 ^ 1) with 2 in Hodd.
  pose proof (Z.div_mod (Z.lor q 1) 2 ltac:(lia)). lia.
Qed.

(** The quantization factor is the one the constructor computes from the
    world box; no method assigns either of the two fields. *)
Definition constructed (s : BroadPhase) : Prop :=
  m_quantizationFactor s = m_quantizationFactor (new_BroadPhase (m_worldAABB s)).

Lemma constructed_factor a s :
  constructed s ->
  coord a (m_quantizationFactor s)
  = (USHRT_MAX_f / (coord a (maxVertex (m_worldAABB s))
                    - coord a (minVertex (m_worldAABB s))))%float.
Proof. intros ->. by destruct a. Qed.

Lemma quantize_constructed a s v :
  constructed s ->
  ToInt32 (quantize a (clamp_to_world a v s) s)
  = ToInt32
      (USHRT_MAX_f / (coord a (maxVertex (m_worldAABB s)) - coord a (minVertex (m_worldAABB s)))
       * (Math_max (Math_min v (coord a (maxVertex (m_worldAABB s))))
                   (coord a (minVertex (m_worldAABB s)))
          - coord a (minVertex (m_worldAABB s)))).
Proof. intros Hc. unfold quantize, clamp_to_world. by rewrite (constructed_factor a s Hc). Qed.

(** Every reachable state is a constructed one. *)
Lemma reachable_constructed ids s : settings_ok -> reachable ids s -> constructed s.
Proof.
  intros Hset Hr. unfold constructed.
  assert (forall s s', constructed s -> m_worldAABB s' = m_worldAABB s ->
            m_quantizationFactor s' = m_quantizationFactor s -> constructed s') as Hk.
  { intros s1 s2 Hc Hw Hf. unfold constructed. by rewrite Hw, Hf. }
  induction Hr as [w|ids s aabb data pid s' Hr IH HQ Hc|ids s pid s' Hr IH Hin Hd
                  |ids s pid aabb s' Hr IH Hin HQ Hm|ids s pid aabb s' Hr IH Hg Hm
                  |ids s aabb out maxCount n out' s' Hr IH Hq|ids s Hr IH];
    try destruct (reachable_Inv _ _ Hset Hr) as [HI Hnd].
  - reflexivity.
  - assert (m_freeProxy s ≠ b2_nullProxy) as Hfree.
    { intros E. unfold CreateProxy in Hc. rewrite E in Hc.
      destruct (js_get (proxyPool s) b2_nullProxy) as [px|] eqn:Hg; [|done].
      apply js_get_Some in Hg. destruct Hset as [_ Hnull]. apply Hnull.
      rewrite <- (inv_pool _ _ HI). lia. }
    destruct (CreateProxy_spec _ s aabb data HI Hfree HQ)
      as (s'' & E & _ & _ & _ & _ & _ & Hw & Hf).
    rewrite E in Hc. injection Hc as <- <-. by apply (Hk s).
  - destruct (DestroyProxy_spec _ s pid HI Hin) as (s'' & E & _ & _ & _ & _ & Hw & Hf).
    rewrite E in Hd. injection Hd as <-. by apply (Hk s).
  - destruct (MoveProxy_spec _ s pid aabb HI Hin HQ) as (s'' & E & _ & K & _).
    rewrite E in Hm. injection Hm as <-. apply (Hk s); [done|apply K..].
  - rewrite MoveProxy_rejected in Hm by done. by injection Hm as <-.
  - destruct (QueryAABB_spec _ s aabb out maxCount HI)
      as (n' & o' & s'' & E & _ & _ & _ & _ & Hw & Hf & _).
    rewrite E in Hq. injection Hq as <- <- <-. by apply (Hk s).
  - by apply (Hk s).
Qed.

(** A box with [max > min] on both axes is one the operations of a
    constructed state accept. *)
Lemma ordered_box_quantizes aabb s :
  constructed s ->
  (forall a, (coord a (minVertex aabb) <? coord a (maxVertex aabb))%float = true) ->
  quantizes aabb s.
Proof.
  intros Hc Hlt a. specialize (Hlt a). destruct (ltb_not_nan _ _ Hlt) as [N1 N2].
  rewrite ltb_val in Hlt by done. apply Z.ltb_lt in Hlt.
  pose proof (quantize_order (coord a (minVertex (m_worldAABB s)))
    (coord a (maxVertex (m_worldAABB s))) _ _ N1 N2 ltac:(lia)) as [Ho Hu].
  rewrite <- (quantize_constructed a s (coord a (minVertex aabb)) Hc),
    <- (quantize_constructed a s (coord a (maxVertex aabb)) Hc) in Ho.
  rewrite <- (quantize_constructed a s (coord a (maxVertex aabb)) Hc) in Hu.
  unfold ComputeBounds_lower, ComputeBounds_upper. change (USHRT_MAX - 1) with 65534.
  rewrite clear_bit0, set_bit0 by lia.
  pose proof (Z.div_mod (ToInt32 (quantize a (clamp_to_world a (coord a (minVertex aabb)) s) s))
                2 ltac:(lia)).
  pose proof (Z.mod_pos_bound
                (ToInt32 (quantize a (clamp_to_world a (coord a (minVertex aabb)) s) s))
                2 ltac:(lia)).
  pose proof (Z.div_mod (ToInt32 (quantize a (clamp_to_world a (coord a (maxVertex aabb)) s) s))
                2 ltac:(lia)).
  pose proof (Z.mod_pos_bound
                (ToInt32 (quantize a (clamp_to_world a (coord a (maxVertex aabb)) s) s))
                2 ltac:(lia)).
  lia.
Qed.

(** ** The quantizer in the words of the specification *)

(** What the specification says of the quantizer, to be compared with
    [ComputeBounds].  The numbers are values in units of [2 ^ -1074]:
    [w0] and [w1] are the ends of the world on an axis, [v] a
    coordinate, [F] the quantization factor of the axis. *)

(** A coordinate is clamped into the world. *)
Definition spec_clamped (w0 w1 v : Z) : Z := Z.max (Z.min v w1) w0.

(** A clamped coordinate [c] is mapped linearly with the factor: its
    offset from the lower end of the world, times the factor, as an
    integer.  The offset and the product are rounded to binary64, as
    every result of the arithmetic of the code is, and the product is
    truncated. *)
Definition spec_linearly_mapped (F w0 c : Z) : Z := scaled F (RN (c - w0)) / 2 ^ 1074.

(** The quantized coordinate: 0 for [NaN] and where the factor is not a
    positive finite number (a world without extent, or inverted). *)
Definition spec_quantized (f w0 w1 v : float) : Z :=
  if is_nan v || negb ((0 <? fval f) && (fval f <? CAP)) then 0
  else spec_linearly_mapped (fval f) (fval w0) (spec_clamped (fval w0) (fval w1) (fval v)).

(** The code computes the quantized coordinate. *)
Lemma quantize_value (w0 w1 v : float) :
  ToInt32 (USHRT_MAX_f / (w1 - w0) * (Math_max (Math_min v w1) w0 - w0))
  = spec_quantized (USHRT_MAX_f / (w1 - w0)) w0 w1 v.
Proof.
  unfold spec_quantized. set (f := (USHRT_MAX_f / (w1 - w0))%float).
  destruct (is_nan v) eqn:Nv; cbn [orb].
  { apply is_nan_spec in Nv. by apply quantize_nan. }
  apply not_nan_spec in Nv. pose proof CAP_pos as HC.
  destruct (Prim2SF f) as [s|s| |s mf ef] eqn:Ef.
  - rewrite ToInt32_mul_special by (rewrite Ef; done).
    unfold fval. rewrite Ef. cbn [SFval]. done.
  - rewrite ToInt32_mul_special by (rewrite Ef; done).
    unfold fval. rewrite Ef. cbn [SFval].
    destruct s; cbn [cond_Zopp].
    + destruct (Z.ltb_spec 0 (- CAP)); [lia|done].
    + rewrite Z.ltb_irrefl. by rewrite andb_false_r.
  - rewrite ToInt32_mul_special by (rewrite Ef; done).
    unfold fval. rewrite Ef. cbn [SFval]. done.
  - pose proof Ef as Ef'. unfold f in Ef'. rewrite div_spec in Ef'.
    pose proof (Prim2SF_valid (w1 - w0)) as Vd.
    destruct (Prim2SF (w1 - w0)) as [?|?| |sd md ed] eqn:Ed;
      try (change (Prim2SF USHRT_MAX_f) with (S754_finite false 9007061815787520 (-37)) in Ef';
           discriminate).
    cbn [valid_binary] in Vd.
    destruct (SFdiv_USHRT_MAX _ _ _ _ _ _ Vd Ef') as [-> Hb].
    pose proof Ed as Ed'. rewrite sub_spec in Ed'.
    destruct (SFsub_finite_fin _ _ _ _ _ Ed') as [F1 F0].
    destruct (SFsub_val _ _ (Prim2SF_valid w1) (Prim2SF_valid w0) F1 F0) as [_ HD].
    rewrite Ed' in HD. cbn [SFval] in HD. fold (fval w1) (fval w0) in HD.
    pose proof (finite_val_bounds _ _ Vd) as BD.
    destruct (clamp_sub_val w0 w1 v F0 F1 Nv) as [Hn1 Ht1].
    assert (fval f = cond_Zopp sd (Zpos mf * 2 ^ (ef + 1074))) as EF
      by (unfold fval; by rewrite Ef).
    pose proof (Prim2SF_valid f) as Vf. rewrite Ef in Vf. cbn [valid_binary] in Vf.
    pose proof (finite_val_bounds _ _ Vf) as BF.
    destruct sd; cbn [cond_Zopp] in HD, EF.
    + (* the world is inverted: the coordinate is clamped to its lower end *)
      assert (fval w1 < fval w0) as Hw.
      { destruct (Z.lt_ge_cases (fval w1) (fval w0)) as [|Hge]; [done|].
        pose proof (RN_mono 0 (fval w1 - fval w0) ltac:(lia)) as Hm.
        change (RN 0) with 0 in Hm. lia. }
      destruct (Z.ltb_spec 0 (fval f)); [lia|]. cbn [andb negb].
      replace (Z.max (Z.min (fval v) (fval w1)) (fval w0) - fval w0) with 0 in Ht1 by lia.
      change (RN 0) with 0 in Ht1.
      destruct (SFfin_zero _ (Prim2SF_valid _)
                  (SFfin_val _ Hn1 ltac:(fold (fval (Math_max (Math_min v w1) w0 - w0)); lia))
                  Ht1) as [s Hz].
      by apply (ToInt32_mul_zero _ _ s).
    + assert (fval w0 < fval w1) as Hw.
      { destruct (Z.lt_ge_cases (fval w0) (fval w1)) as [|Hge]; [done|].
        pose proof (RN_mono (fval w1 - fval w0) 0 ltac:(lia)) as Hm.
        change (RN 0) with 0 in Hm. lia. }
      destruct (Z.ltb_spec 0 (fval f)); [|lia].
      destruct (Z.ltb_spec (fval f) CAP); [|lia]. cbn [andb negb].
      set (D := Zpos md * 2 ^ (ed + 1074)) in *.
      set (T := RN (Z.max (Z.min (fval v) (fval w1)) (fval w0) - fval w0)) in *.
      assert (0 <= T <= D) as HT.
      { unfold T. split.
        - pose proof (RN_mono 0 (Z.max (Z.min (fval v) (fval w1)) (fval w0) - fval w0)
            ltac:(lia)) as Hm. by change (RN 0) with 0 in Hm.
        - rewrite HD. apply RN_mono. lia. }
      pose proof (mul_val f _ mf ef Ef Hn1 ltac:(rewrite Ht1; lia)) as P1.
      rewrite Ht1 in P1.
      pose proof (scaled_mono (fval f) T D ltac:(lia) ltac:(lia)) as M2D.
      pose proof (scaled_USHRT_MAX (fval f) D ltac:(lia) ltac:(lia) ltac:(by rewrite EF))
        as MD.
      assert (0 < 2 ^ 1073) as HK by (by apply Z.pow_pos_nonneg).
      assert (2 ^ 1074 = 2 * 2 ^ 1073) as HK2 by (by rewrite <- Z.pow_succ_r).
      assert (2 ^ 31 = 2147483648) as HK3 by done.
      rewrite ToInt32_val by (rewrite P1, HK2, HK3; lia).
      rewrite P1. done.
Qed.

(** C4: [ComputeBounds] has no error path.  On each axis each end of
    the box is clamped into the world and mapped linearly with the
    quantization factor of the axis, which gives an integer of
    [0, 65535]; the lower value returned is that of the lower end with
    bit 0 cleared, so it is even, and the upper value is that of the
    upper end with bit 0 set, so it is odd; and wherever the box has
    [max > min], the lower value is strictly below the upper value. *)
Theorem C4_ComputeBounds_even_odd_ordered (aabb : AABB) (s : BroadPhase) (a : Axis) :
  constructed s ->
  let q v := spec_quantized (coord a (m_quantizationFactor s))
               (coord a (minVertex (m_worldAABB s))) (coord a (maxVertex (m_worldAABB s))) v in
  let lower := sel a (fst (ComputeBounds aabb s)) in
  let upper := sel a (snd (ComputeBounds aabb s)) in
  (0 <= q (coord a (minVertex aabb)) <= 65535 /\
   0 <= q (coord a (maxVertex aabb)) <= 65535) /\
  (lower = 2 * (q (coord a (minVertex aabb)) / 2) /\ Z.land lower 1 = 0 /\
   0 <= lower <= 65534) /\
  (upper = 2 * (q (coord a (maxVertex aabb)) / 2) + 1 /\ Z.land upper 1 = 1 /\
   1 <= upper <= 65535) /\
  ((coord a (minVertex aabb) <? coord a (maxVertex aabb))%float = true -> lower < upper).
Proof.
  intros Hc q lower upper.
  assert (forall v, ToInt32 (quantize a (clamp_to_world a v s) s) = q v) as Eq.
  { intros v. rewrite (quantize_constructed a s v Hc). rewrite quantize_value.
    unfold q. by rewrite (constructed_factor a s Hc). }
  assert (forall v, 0 <= q v <= 65535) as Hr.
  { intros v. rewrite <- Eq, (quantize_constructed a s v Hc). apply quantize_range. }
  assert (lower = 2 * (q (coord a (minVertex aabb)) / 2)) as El.
  { unfold lower. rewrite sel_ComputeBounds_fst. unfold ComputeBounds_lower.
    change (USHRT_MAX - 1) with 65534. rewrite Eq. by apply clear_bit0. }
  assert (upper = 2 * (q (coord a (maxVertex aabb)) / 2) + 1) as Eu.
  { unfold upper. rewrite sel_ComputeBounds_snd. unfold ComputeBounds_upper.
    rewrite Eq. by apply set_bit0. }
  pose proof (Hr (coord a (minVertex aabb))) as H1.
  pose proof (Hr (coord a (maxVertex aabb))) as H2.
  pose proof (Z.div_mod (q (coord a (minVertex aabb))) 2 ltac:(lia)) as D1.
  pose proof (Z.mod_pos_bound (q (coord a (minVertex aabb))) 2 ltac:(lia)) as M1.
  pose proof (Z.div_mod (q (coord a (maxVertex aabb))) 2 ltac:(lia)) as D2.
  pose proof (Z.mod_pos_bound (q (coord a (maxVertex aabb))) 2 ltac:(lia)) as M2.
  split_and!; try done; try lia.
  - unfold lower. rewrite sel_ComputeBounds_fst. apply ComputeBounds_lower_even.
  - unfold upper. rewrite sel_ComputeBounds_snd. apply ComputeBounds_upper_odd.
  - intros Hlt. destruct (ltb_not_nan _ _ Hlt) as [N1 N2].
    rewrite ltb_val in Hlt by done. apply Z.ltb_lt in Hlt.
    pose proof (quantize_order (coord a (minVertex (m_worldAABB s)))
      (coord a (maxVertex (m_worldAABB s))) _ _ N1 N2 ltac:(lia)) as [Ho _].
    rewrite <- !(quantize_constructed a s _ Hc), !Eq in Ho. lia.
Qed.

(** * The claims about the reachable states *)

(** C1 (amended). In every state reached from a freshly constructed
    broad phase by [CreateProxy] with boxes that are not inverted once
    quantized, by [DestroyProxy] and [MoveProxy] on proxies in use, by
    [QueryAABB] and by [Commit], the first [2 * m_proxyCount] bounds of
    each axis are in non-decreasing order of their values. *)
Theorem C1_bounds_sorted (ids : list Z) (s : BroadPhase) (a : Axis) :
  settings_ok → reachable ids s →
  ∀ i j, 0 ≤ i → i ≤ j → j < 2 * m_proxyCount s →
    value (bound_at (bounds_of a s) i) ≤ value (bound_at (bounds_of a s) j).
Proof.
  intros Hset Hr. destruct (reachable_Inv ids s Hset Hr) as [HI _].
  apply (sorted_inv_sorted _ _ _ _ _ (inv_axis _ _ HI a)).
Qed.

(** C2 (amended). In every such state the scan of [Validate] over an
    axis, adding one at each lower bound and subtracting one at each
    upper bound, finds at every position the stored stabbing count, and
    this count is the number of proxies in use whose lower bound is at
    or before the position and whose upper bound is after it. *)
Theorem C2_stabbing_counts (ids : list Z) (s : BroadPhase) (a : Axis) :
  settings_ok → reachable ids s →
  ∃ cs, Validate_axis a s = Some cs ∧
    Z.of_nat (length cs) = 2 * m_proxyCount s ∧
    ∀ i, 0 ≤ i < 2 * m_proxyCount s →
      cs !! Z.to_nat i = Some (stabbingCount (bound_at (bounds_of a s) i)) ∧
      stabbingCount (bound_at (bounds_of a s) i)
      = Z.of_nat (length (filter (contains a s i) ids)).
Proof.
  intros Hset Hr. destruct (reachable_Inv ids s Hset Hr) as [HI Hnd].
  destruct (Validate_axis_scan a s _ (inv_axis _ _ HI a)) as (cs & Hv & Hlen & Hcs).
  exists cs. split_and!; try done. intros i Hi. split; [by apply Hcs|].
  by apply stab_count_live; [apply (inv_axis _ _ HI a)|..].
Qed.

(** C3 (amended). In a generation of marks that starts in a state
    between two operations, a call of [IncrementOverlapCount] appends
    its proxy to the query results exactly when it has been called for
    this proxy before in the generation.  [QueryAABB] returns, and every
    payload it reports belongs to a proxy marked in the pass over axis 0
    and in the pass over axis 1; when the query box is not inverted once
    quantized, the quantized interval of such a proxy meets the
    quantized query range on both axes. *)
Theorem C3_reported_on_both_axes (ids : list Z) (s : BroadPhase) (aabb : AABB)
    (out : list (option (option UserData))) (maxCount : Z) :
  settings_ok → reachable ids s →
  (∀ pre id s1 s2,
     marks pre s = Some s1 → IncrementOverlapCount id s1 = Some s2 →
     (id ∈ pre →
        m_queryResultCount s2 = m_queryResultCount s1 + 1 ∧
        js_read (m_queryResults s2) (m_queryResultCount s1) = Some id) ∧
     (id ∉ pre →
        m_queryResultCount s2 = m_queryResultCount s1 ∧
        m_queryResults s2 = m_queryResults s1)) ∧
  ∃ n out' s',
    QueryAABB aabb out maxCount s = Some (n, out', s') ∧
    ∀ i, 0 ≤ i < n →
      ∃ r, js_read out' i = Some (userData (proxy_at (proxyPool s) r)) ∧
           r ∈ marked_on axis0 aabb s ∧ r ∈ marked_on axis1 aabb s ∧
           (quantizes aabb s →
            ∀ a, value (bound_at (bounds_of a s) (ptr a true (proxy_at (proxyPool s) r)))
                   ≤ ComputeBounds_upper a aabb s ∧
                 ComputeBounds_lower a aabb s
                   ≤ value (bound_at (bounds_of a s)
                              (ptr a false (proxy_at (proxyPool s) r)))).
Proof.
  intros Hset Hr. destruct (reachable_Inv ids s Hset Hr) as [HI Hnd]. split.
  - intros pre id s1 s2 Hm Hinc.
    apply IncrementOverlapCount_Some in Hinc as [Hin ->].
    assert (marking s pre s1) as Hmk.
    { apply (marking_marks s pre [] s s1); [by rewrite (inv_results _ _ HI)| | |done].
      - apply marking_start. by eapply Inv_fresh.
      - by apply (marks_Some pre s s1). }
    destruct (marking_step s pre s1 id) as (_ & H1 & H2); try done.
    by rewrite (inv_results _ _ HI).
  - destruct (QueryAABB_spec _ s aabb out maxCount HI)
      as (n & out' & s' & E & _ & _ & _ & _ & _ & _ & _ & Hout).
    exists n, out', s'. split; [done|]. intros i Hi.
    destruct (Hout i Hi) as (r & Hr0 & H0 & H1). exists r. split_and!; try done.
    intros HQ a.
    assert (r ∈ marked_on a aabb s) as Ha by (by destruct a).
    unfold marked_on in Ha. cbv zeta in Ha.
    pose proof (inv_axis _ _ HI a) as Hax.
    pose proof (ai_range _ _ _ _ _ _ _ Hax) as Hbc.
    pose proof (sorted_inv_sorted _ _ _ _ _ Hax) as Hs.
    destruct (BinarySearch_spec (bounds_of a s) (2 * m_proxyCount s)
                (ComputeBounds_lower a aabb s) Hbc Hs) as (lq & Hlq & Rlq).
    destruct (BinarySearch_spec (bounds_of a s) (2 * m_proxyCount s)
                (ComputeBounds_upper a aabb s) Hbc Hs) as (uq & Huq & Ruq).
    rewrite Hlq, Huq in Ha.
    by apply (query_ids_overlap Hax _ _ lq uq r eq_refl eq_refl Rlq Ruq (HQ a)).
Qed.

(** C5. From a state between two operations, [CreateProxy] with a
    valid box, one that is not inverted once quantized, followed by
    [DestroyProxy] of the proxy it returns: whenever [CreateProxy]
    returns a proxy, and it does while the pool is not exhausted,
    [DestroyProxy] returns as well, and the length of the bound arrays
    in use ([2 * m_proxyCount]), the head of the free list and every
    link of the pool are as they were before [CreateProxy]. *)
Theorem C5_create_then_destroy (L : Z → Prop) (s : BroadPhase) (aabb : AABB)
    (data : option UserData) :
  settings_ok → Inv L s → quantizes aabb s →
  (m_freeProxy s ≠ b2_nullProxy → ∃ pid s1, CreateProxy aabb data s = Some (pid, s1)) ∧
  ∀ pid s1, CreateProxy aabb data s = Some (pid, s1) →
    ∃ s2, DestroyProxy pid s1 = Some s2 ∧
      2 * m_proxyCount s2 = 2 * m_proxyCount s ∧
      m_freeProxy s2 = m_freeProxy s ∧
      (∀ p, next (proxy_at (proxyPool s2) p) = next (proxy_at (proxyPool s) p)) ∧
      Inv L s2.
Proof.
  intros Hset HI HQ. split.
  { intros Hfree.
    destruct (CreateProxy_spec L s aabb data HI Hfree HQ) as (s1 & E1 & _).
    by exists (m_freeProxy s), s1. }
  intros pid s1 E.
  assert (m_freeProxy s ≠ b2_nullProxy) as Hfree.
  { intros E0. unfold CreateProxy in E. rewrite E0 in E.
    destruct (js_get (proxyPool s) b2_nullProxy) as [px|] eqn:Hg; [|done].
    apply js_get_Some in Hg. rewrite (inv_pool _ _ HI) in Hg.
    destruct Hset as [_ Hnull]. by destruct Hnull. }
  destruct (CreateProxy_spec L s aabb data HI Hfree HQ)
    as (s1' & E1 & HnL & HI1 & Hc1 & Hf1 & Hn1 & _).
  rewrite E1 in E. injection E as <- <-.
  destruct (DestroyProxy_spec _ s1' (m_freeProxy s) HI1 ltac:(by right))
    as (s2 & E2 & HI2 & Hc2 & Hf2 & Hn2 & _).
  exists s2. split_and!; try done.
  - lia.
  - intros p. rewrite Hn2. case_decide as E; [|apply Hn1].
    rewrite Hf1, E. done.
  - apply (Inv_live (λ p, (L p ∨ p = m_freeProxy s) ∧ p ≠ m_freeProxy s)); [|done].
    intros p. split; [tauto|]. intros Hp. split; [by left|]. by intros ->.
Qed.
(** * Further properties of the reachable states *)

(** ** The bounds and their proxies *)

(** What the disabled assertions of [Validate] say about the owners:
    every bound in use belongs to a proxy in use that records its
    position; every proxy in use has its lower bound before its upper
    bound on each axis. *)
Theorem Validate_owners (ids : list Z) (s : BroadPhase) (a : Axis) :
  settings_ok → reachable ids s →
  (∀ i, 0 ≤ i < 2 * m_proxyCount s →
     ∃ bound proxy,
       js_get (bounds_of a s) i = Some bound ∧
       proxyId bound ∈ ids ∧
       js_get (proxyPool s) (proxyId bound) = Some proxy ∧
       (if IsLower bound then sel a (lowerBounds proxy) else sel a (upperBounds proxy)) = i) ∧
  (∀ p, p ∈ ids →
     ∃ proxy lower upper,
       js_get (proxyPool s) p = Some proxy ∧
       0 ≤ sel a (lowerBounds proxy) ∧
       sel a (lowerBounds proxy) < sel a (upperBounds proxy) ∧
       sel a (upperBounds proxy) < 2 * m_proxyCount s ∧
       js_get (bounds_of a s) (sel a (lowerBounds proxy)) = Some lower ∧
       js_get (bounds_of a s) (sel a (upperBounds proxy)) = Some upper ∧
       proxyId lower = p ∧ IsLower lower = true ∧
       proxyId upper = p ∧ IsUpper upper = true ∧
       value lower < value upper).
Proof.
  intros Hset Hr. destruct (reachable_Inv ids s Hset Hr) as [HI _].
  pose proof (inv_axis _ _ HI a) as Hax.
  pose proof (ai_range _ _ _ _ _ _ _ Hax) as Hbc. split.
  - intros i Hi. destruct (ai_owner _ _ _ _ _ _ _ Hax i Hi) as (HL & Hin & Hp).
    exists (bound_at (bounds_of a s) i), (proxy_at (proxyPool s) (proxyId (bound_at (bounds_of a s) i))).
    split_and!; [apply js_get_bound_at; lia|done|by apply js_get_proxy_at|].
    unfold ptr in Hp. by destruct (IsLower _).
  - intros p Hp.
    destruct (ai_proxy _ _ _ _ _ _ _ Hax p Hp) as (Hin & H0 & Hlu & Hu & Hl1 & Hl2 & Hu1 & Hu2).
    unfold ptr in *.
    exists (proxy_at (proxyPool s) p),
      (bound_at (bounds_of a s) (sel a (lowerBounds (proxy_at (proxyPool s) p)))),
      (bound_at (bounds_of a s) (sel a (upperBounds (proxy_at (proxyPool s) p)))).
    split_and!; try done.
    + by apply js_get_proxy_at.
    + apply js_get_bound_at; lia.
    + apply js_get_bound_at; lia.
    + by rewrite IsUpper_IsLower, Hu2.
    + assert (value (bound_at (bounds_of a s)
                      (sel a (lowerBounds (proxy_at (proxyPool s) p))))
              ≤ value (bound_at (bounds_of a s)
                         (sel a (upperBounds (proxy_at (proxyPool s) p))))) as Hle
        by (apply (sorted_inv_sorted _ _ _ _ _ Hax); lia).
      destruct (decide (value (bound_at (bounds_of a s)
                                 (sel a (lowerBounds (proxy_at (proxyPool s) p))))
                        = value (bound_at (bounds_of a s)
                                   (sel a (upperBounds (proxy_at (proxyPool s) p))))))
        as [E|]; [|lia].
      unfold IsLower in Hl2, Hu2. rewrite E in Hl2. by rewrite Hl2 in Hu2.
Qed.

(** ** The proxies in use and the free list *)

(** The positions of the lower and of the upper bounds of the proxies
    in use are the positions in use. *)
Lemma positions_in_use ids s a :
  axis_inv (-1) (-1) a (bounds_of a s) (2 * m_proxyCount s) (proxyPool s) (λ p, p ∈ ids) →
  NoDup ids →
  ((λ p, ptr a true (proxy_at (proxyPool s) p)) <$> ids)
    ++ ((λ p, ptr a false (proxy_at (proxyPool s) p)) <$> ids)
  ≡ₚ seqZ 0 (2 * m_proxyCount s).
Proof.
  intros Hax Hnd. pose proof (ai_range _ _ _ _ _ _ _ Hax) as Hbc.
  assert (∀ r, NoDup ((λ p, ptr a r (proxy_at (proxyPool s) p)) <$> ids)) as Hnd1.
  { intros r. apply NoDup_fmap_2_strong; [|done].
    intros p q Hp Hq E.
    destruct (ai_proxy _ _ _ _ _ _ _ Hax p Hp) as (_ & _ & _ & _ & Hl1 & _ & Hu1 & _).
    destruct (ai_proxy _ _ _ _ _ _ _ Hax q Hq) as (_ & _ & _ & _ & Hl1' & _ & Hu1' & _).
    destruct r; cbn [ptr] in *; congruence. }
  apply NoDup_Permutation.
  - apply NoDup_app. split_and!; [apply Hnd1| |apply Hnd1].
    intros i (p & -> & Hp)%list_elem_of_fmap (q & E & Hq)%list_elem_of_fmap.
    destruct (ai_proxy _ _ _ _ _ _ _ Hax p Hp) as (_ & _ & _ & _ & _ & Hl2 & _ & _).
    destruct (ai_proxy _ _ _ _ _ _ _ Hax q Hq) as (_ & _ & _ & _ & _ & _ & _ & Hu2).
    rewrite E in Hl2. congruence.
  - apply NoDup_seqZ.
  - intros i. rewrite elem_of_app, !list_elem_of_fmap, elem_of_seqZ. split.
    + intros [(p & -> & Hp)|(p & -> & Hp)];
        destruct (ai_proxy _ _ _ _ _ _ _ Hax p Hp) as (_ & ? & ? & ? & _); lia.
    + intros Hi. destruct (ai_owner _ _ _ _ _ _ _ Hax i ltac:(lia)) as (HL & _ & Hp).
      destruct (IsLower (bound_at (bounds_of a s) i)); [left|right]; eauto.
Qed.

Lemma in_use_count (ids : list Z) (s : BroadPhase) :
  settings_ok → reachable ids s →
  m_proxyCount s = Z.of_nat (length ids) ∧ NoDup ids ∧
  (∀ p, p ∈ ids → 0 ≤ p < b2_maxProxies ∧ p ≠ b2_nullProxy) ∧
  m_proxyCount s ≤ b2_maxProxies ∧
  (m_freeProxy s = b2_nullProxy ↔ m_proxyCount s = b2_maxProxies) ∧
  (m_freeProxy s ≠ b2_nullProxy → 0 ≤ m_freeProxy s < b2_maxProxies ∧ (m_freeProxy s ∉ ids)).
Proof.
  intros Hset Hr. destruct (reachable_Inv ids s Hset Hr) as [HI Hnd].
  pose proof (inv_axis _ _ HI axis0) as Hax.
  pose proof (positions_in_use ids s axis0 Hax Hnd) as Hperm.
  apply Permutation_length in Hperm.
  rewrite length_app, !length_fmap, length_seqZ in Hperm.
  pose proof (ai_range _ _ _ _ _ _ _ Hax) as Hbc.
  destruct (inv_free _ _ HI) as (fl & Hch & Hndf & HflL & Hcnt).
  pose proof (inv_pool _ _ HI) as Hpool. destruct Hset as [Hmax Hnull].
  assert (∀ p, in_pool (proxyPool s) p → 0 ≤ p < b2_maxProxies ∧ p ≠ b2_nullProxy) as Hin.
  { intros p Hp. unfold in_pool in Hp. split; [lia|]. intros ->. apply Hnull. lia. }
  split_and!; try done.
  - lia.
  - intros p Hp. apply Hin. by destruct (ai_proxy _ _ _ _ _ _ _ Hax p Hp).
  - lia.
  - destruct fl as [|q fl']; cbn [chain length] in *.
    + split; [lia|done].
    + destruct Hch as (-> & Hq & _). split; [|lia]. intros E.
      by destruct (Hin _ Hq).
  - intros Hne. destruct fl as [|q fl']; cbn [chain] in Hch; [done|].
    destruct Hch as (-> & Hq & _). split; [by apply Hin|]. apply HflL. set_solver.
Qed.

(** The proxy count is the number of the proxies in use, which are
    distinct ids of the pool; the free list is empty exactly when the
    pool is exhausted. *)
Theorem proxyCount_in_use (ids : list Z) (s : BroadPhase) :
  settings_ok → reachable ids s →
  m_proxyCount s = Z.of_nat (length ids) ∧ NoDup ids ∧
  (∀ p, p ∈ ids → 0 ≤ p < b2_maxProxies ∧ p ≠ b2_nullProxy) ∧
  m_proxyCount s ≤ b2_maxProxies ∧
  (m_freeProxy s = b2_nullProxy ↔ m_proxyCount s = b2_maxProxies) ∧
  (m_freeProxy s ≠ b2_nullProxy → 0 ≤ m_freeProxy s < b2_maxProxies ∧ (m_freeProxy s ∉ ids)).
Proof. apply in_use_count. Qed.

(** ** Creating proxies *)

(** [CreateProxy] returns exactly when the pool is not exhausted: it
    then hands out the head of the free list, an id that is not in
    use; on an exhausted pool it reads the proxy of the null id and
    raises. *)
Theorem CreateProxy_exhaustion (ids : list Z) (s : BroadPhase) (aabb : AABB)
    (data : option UserData) :
  settings_ok → reachable ids s → quantizes aabb s →
  (m_proxyCount s < b2_maxProxies →
     ∃ s', CreateProxy aabb data s = Some (m_freeProxy s, s') ∧
           (m_freeProxy s ∉ ids) ∧ 0 ≤ m_freeProxy s < b2_maxProxies ∧
           m_proxyCount s' = m_proxyCount s + 1 ∧
           reachable (m_freeProxy s :: ids) s') ∧
  (b2_maxProxies ≤ m_proxyCount s → CreateProxy aabb data s = None).
Proof.
  intros Hset Hr HQ. destruct (reachable_Inv ids s Hset Hr) as [HI Hnd].
  destruct (in_use_count ids s Hset Hr) as (_ & _ & _ & Hle & Hfull & Hfree).
  split.
  - intros Hlt. assert (m_freeProxy s ≠ b2_nullProxy) as Hne by (rewrite Hfull; lia).
    destruct (CreateProxy_spec _ s aabb data HI Hne HQ) as (s' & E & _ & _ & Hc & _).
    exists s'. destruct (Hfree Hne). split_and!; try done; try lia.
    by apply (reach_create ids s aabb data).
  - intros Hge. assert (m_freeProxy s = b2_nullProxy) as E by (apply Hfull; lia).
    unfold CreateProxy. rewrite E.
    destruct (js_get (proxyPool s) b2_nullProxy) as [px|] eqn:Hg; [|done].
    apply js_get_Some in Hg. rewrite (inv_pool _ _ HI) in Hg.
    destruct Hset as [_ Hnull]. by destruct Hnull.
Qed.

(** The free list is a stack: the id [DestroyProxy] frees is the one the
    next [CreateProxy] hands out. *)
Theorem DestroyProxy_then_CreateProxy (ids : list Z) (s : BroadPhase) (pid : Z)
    (aabb : AABB) (data : option UserData) :
  settings_ok → reachable ids s → pid ∈ ids → quantizes aabb s →
  ∃ s1 s2, DestroyProxy pid s = Some s1 ∧ CreateProxy aabb data s1 = Some (pid, s2) ∧
           m_proxyCount s2 = m_proxyCount s ∧ m_freeProxy s2 = m_freeProxy s.
Proof.
  intros Hset Hr Hin HQ. destruct (reachable_Inv ids s Hset Hr) as [HI Hnd].
  destruct (in_use_count ids s Hset Hr) as (_ & _ & Hids & _).
  destruct (DestroyProxy_spec _ s pid HI Hin) as (s1 & E1 & HI1 & Hc1 & Hf1 & Hn1 & Hw & Hf).
  assert (quantizes aabb s1) as HQ1.
  { intros a. specialize (HQ a).
    rewrite <- !sel_ComputeBounds_fst, <- !sel_ComputeBounds_snd in *.
    by rewrite (ComputeBounds_ext aabb s s1). }
  destruct (CreateProxy_spec _ s1 aabb data HI1) as (s2 & E2 & _ & _ & Hc2 & Hf2 & _);
    [rewrite Hf1; by apply Hids|done|].
  exists s1, s2. rewrite Hf1 in E2. split_and!; try done; [lia|].
  rewrite Hf2, Hn1, Hf1. by rewrite decide_True.
Qed.

(** ** BinarySearch on any array *)

Lemma BinarySearch_loop_range bs v fuel : ∀ low high,
  0 ≤ low → high < Z.of_nat (length bs) → low ≤ high + 1 →
  high - low + 1 ≤ Z.of_nat fuel →
  ∃ r, BinarySearch_loop fuel bs v low high = Some r ∧ low ≤ r ≤ high + 1.
Proof.
  induction fuel as [|fuel IH]; intros low high Hlow Hhigh Hlh Hfuel.
  - simpl. destruct (low <=? high) eqn:E; [lia|]. exists low. split; [done|lia].
  - simpl. destruct (low <=? high) eqn:E.
    + apply Z.leb_le in E.
      assert (low ≤ (low + high) / 2 ≤ high) as Hmid.
      { split; [apply Z.div_le_lower_bound|apply Z.div_le_upper_bound]; lia. }
      set (mid := (low + high) / 2) in *.
      rewrite (js_get_bound_at bs mid) by lia. simpl.
      destruct (value (bound_at bs mid) >? v) eqn:E1.
      * destruct (IH low (mid - 1)) as (r & -> & Hr); try lia.
        exists r. split; [done|lia].
      * destruct (value (bound_at bs mid) <? v) eqn:E2.
        -- destruct (IH (mid + 1) high) as (r & -> & Hr); try lia.
           exists r. split; [done|lia].
        -- exists mid. split; [done|lia].
    + exists low. split; [done|]. lia.
Qed.

(** Whatever the order of the values, [BinarySearch] over the first
    [count] entries of an array that has them returns an index from 0
    to [count]: it reads no entry outside of them and its loop ends.
    Over no entries it returns 0. *)
Theorem BinarySearch_in_range (bounds : list Bound) (count v : Z) :
  count ≤ Z.of_nat (length bounds) →
  ∃ r, BinarySearch bounds count v = Some r ∧ 0 ≤ r ≤ Z.max 0 count ∧
       (count ≤ 0 → r = 0).
Proof.
  intros Hc. unfold BinarySearch. destruct (decide (count ≤ 0)) as [H0|H0].
  - exists 0. split; [|lia].
    destruct (Z.to_nat count); simpl; destruct (0 <=? count - 1) eqn:E; try done; lia.
  - destruct (BinarySearch_loop_range bounds v (Z.to_nat count) 0 (count - 1))
      as (r & -> & Hr); try lia.
    exists r. split; [done|lia].
Qed.

(** ** The order of the quantized values *)

Lemma SFcompare_antisym x y c :
  SFcompare x y = Some c → SFcompare y x = Some (CompOpp c).
Proof.
  destruct x as [sx|sx| |sx mx ex], y as [sy|sy| |sy my ey]; cbn [SFcompare];
    try discriminate; intros [= <-]; try (by destruct sx); try (by destruct sy);
    try (by destruct sx, sy).
  f_equal. destruct sx, sy; try done.
  - rewrite (Z.compare_antisym ex ey). destruct (ex ?= ey); cbn [CompOpp]; try done.
    by rewrite (Pos.compare_cont_antisym mx my Eq).
  - rewrite (Z.compare_antisym ex ey). destruct (ex ?= ey); cbn [CompOpp]; try done.
    by rewrite (Pos.compare_cont_antisym mx my Eq).
Qed.

Lemma SFleb_ltb x y : x ≠ S754_nan → y ≠ S754_nan → SFleb x y = negb (SFltb y x).
Proof.
  intros Hx Hy. unfold SFleb, SFltb.
  destruct (SFcompare x y) as [c|] eqn:E.
  - rewrite (SFcompare_antisym _ _ _ E). by destruct c.
  - by destruct x as [?|?| |? ? ?], y as [?|?| |? ? ?].
Qed.

Lemma leb_val a b :
  Prim2SF a ≠ S754_nan → Prim2SF b ≠ S754_nan →
  (a <=? b)%float = (fval a <=? fval b).
Proof.
  intros Ha Hb. rewrite leb_spec, SFleb_ltb by done.
  rewrite <- ltb_spec, ltb_val by done.
  destruct (Z.ltb_spec (fval b) (fval a)), (Z.leb_spec (fval a) (fval b)); try done; lia.
Qed.

Lemma leb_not_nan a b :
  (a <=? b)%float = true → Prim2SF a ≠ S754_nan ∧ Prim2SF b ≠ S754_nan.
Proof.
  rewrite leb_spec. unfold SFleb.
  destruct (Prim2SF a) as [?|?| |? ? ?], (Prim2SF b) as [?|?| |? ? ?]; cbn [SFcompare]; done.
Qed.

(** A coordinate at or below the lower end of the world is mapped to 0. *)
Lemma quantize_lower_end (w0 w1 v : float) :
  (v <=? w0)%float = true →
  ToInt32 (USHRT_MAX_f / (w1 - w0) * (Math_max (Math_min v w1) w0 - w0)) = 0.
Proof.
  intros Hle. destruct (leb_not_nan _ _ Hle) as [Nv N0].
  rewrite leb_val in Hle by done. apply Z.leb_le in Hle.
  set (f := (USHRT_MAX_f / (w1 - w0))%float).
  destruct (Prim2SF f) as [s|s| |s mf ef] eqn:Ef;
    try (apply ToInt32_mul_special; rewrite Ef; done).
  pose proof Ef as Ef'. unfold f in Ef'. rewrite div_spec in Ef'.
  destruct (Prim2SF (w1 - w0)) as [?|?| |sd md ed] eqn:Ed;
    try (change (Prim2SF USHRT_MAX_f) with (S754_finite false 9007061815787520 (-37)) in Ef';
         discriminate).
  rewrite sub_spec in Ed. destruct (SFsub_finite_fin _ _ _ _ _ Ed) as [F1 F0].
  destruct (clamp_sub_val w0 w1 v F0 F1 Nv) as [Hn Ht].
  replace (Z.max (Z.min (fval v) (fval w1)) (fval w0) - fval w0) with 0 in Ht by lia.
  change (RN 0) with 0 in Ht. pose proof CAP_pos.
  destruct (SFfin_zero _ (Prim2SF_valid _)
              (SFfin_val _ Hn ltac:(fold (fval (Math_max (Math_min v w1) w0 - w0)); lia)) Ht)
    as [sz Hz].
  by apply (ToInt32_mul_zero _ _ sz).
Qed.

(** [ComputeBounds] keeps the order of the coordinates: a lower end
    that is not above another gets a lower value that is not above the
    other's, and likewise for the upper ends. *)
Theorem ComputeBounds_monotone (A B : AABB) (s : BroadPhase) (a : Axis) :
  constructed s →
  ((coord a (minVertex A) <=? coord a (minVertex B))%float = true →
   ComputeBounds_lower a A s ≤ ComputeBounds_lower a B s) ∧
  ((coord a (maxVertex A) <=? coord a (maxVertex B))%float = true →
   ComputeBounds_upper a A s ≤ ComputeBounds_upper a B s).
Proof.
  intros Hc.
  assert (∀ v1 v2, (v1 <=? v2)%float = true →
    0 ≤ ToInt32 (quantize a (clamp_to_world a v1 s) s)
      ≤ ToInt32 (quantize a (clamp_to_world a v2 s) s) ∧
    ToInt32 (quantize a (clamp_to_world a v2 s) s) ≤ 65535) as Hq.
  { intros v1 v2 Hle. destruct (leb_not_nan _ _ Hle) as [N1 N2].
    rewrite leb_val in Hle by done. apply Z.leb_le in Hle.
    rewrite !quantize_constructed by done. by apply quantize_order. }
  unfold ComputeBounds_lower, ComputeBounds_upper. change (USHRT_MAX - 1) with 65534.
  split; intros Hle; destruct (Hq _ _ Hle) as [H1 H2].
  - rewrite !clear_bit0 by lia.
    pose proof (Z.div_le_mono _ _ 2 ltac:(lia) (proj2 H1)). lia.
  - rewrite !set_bit0 by lia.
    pose proof (Z.div_le_mono _ _ 2 ltac:(lia) (proj2 H1)). lia.
Qed.

(** Quantization loses no overlap: when, on an axis, neither box begins
    above the end of the other, the quantized intervals of the two
    boxes overlap strictly, so that the tests of the broad phase on
    quantized values report the pair. *)
Theorem ComputeBounds_keeps_overlap (A B : AABB) (s : BroadPhase) (a : Axis) :
  constructed s →
  (coord a (minVertex A) <=? coord a (maxVertex B))%float = true →
  (coord a (minVertex B) <=? coord a (maxVertex A))%float = true →
  ComputeBounds_lower a A s < ComputeBounds_upper a B s ∧
  ComputeBounds_lower a B s < ComputeBounds_upper a A s.
Proof.
  intros Hc HAB HBA.
  assert (∀ v1 v2, (v1 <=? v2)%float = true →
    Z.land (ToInt32 (quantize a (clamp_to_world a v1 s) s)) 65534
    < Z.lor (Z.land (ToInt32 (quantize a (clamp_to_world a v2 s) s)) 65535) 1) as Hq.
  { intros v1 v2 Hle. destruct (leb_not_nan _ _ Hle) as [N1 N2].
    rewrite leb_val in Hle by done. apply Z.leb_le in Hle.
    rewrite !quantize_constructed by done.
    destruct (quantize_order (coord a (minVertex (m_worldAABB s)))
                (coord a (maxVertex (m_worldAABB s))) v1 v2 N1 N2 Hle) as [H1 H2].
    rewrite clear_bit0, set_bit0 by lia.
    match goal with |- 2 * (?x / 2) < 2 * (?y / 2) + 1 =>
      pose proof (Z.div_le_mono x y 2 ltac:(lia) (proj2 H1)) end. lia. }
  unfold ComputeBounds_lower, ComputeBounds_upper. change (USHRT_MAX - 1) with 65534.
  split; by apply Hq.
Qed.

(** A box that ends at or before the lower end of the world on an axis
    is clamped onto that end: its values are 0 and 1. *)
Theorem ComputeBounds_below_world (aabb : AABB) (s : BroadPhase) (a : Axis) :
  constructed s →
  (coord a (minVertex aabb) <=? coord a (minVertex (m_worldAABB s)))%float = true →
  (coord a (maxVertex aabb) <=? coord a (minVertex (m_worldAABB s)))%float = true →
  ComputeBounds_lower a aabb s = 0 ∧ ComputeBounds_upper a aabb s = 1.
Proof.
  intros Hc Hmin Hmax. unfold ComputeBounds_lower, ComputeBounds_upper.
  rewrite !quantize_constructed by done.
  by rewrite !quantize_lower_end.
Qed.

(** ** The interval of a proxy *)

Lemma TestOverlap_axis_live a b p s bc L :
  sorted_inv a (bounds_of a s) bc (proxyPool s) L → L p →
  TestOverlap_axis a b p s
  = Some ((sel a (fst b) <=? valof a s p false) && (valof a s p true <=? sel a (snd b))).
Proof.
  intros HI HL. pose proof (ai_range _ _ _ _ _ _ _ HI) as Hbc.
  destruct (ai_proxy _ _ _ _ _ _ _ HI p HL) as (Hin & H0 & Hlu & Hu & _).
  unfold TestOverlap_axis, valof, ptr in *. rewrite (js_get_proxy_at _ _ Hin).
  cbn [mbind option_bind].
  rewrite !(js_get_bound_at (bounds_of a s)) by lia. cbn [mbind option_bind].
  rewrite Z.gtb_ltb.
  destruct (Z.ltb_spec (value (bound_at (bounds_of a s)
                                 (sel a (upperBounds (proxy_at (proxyPool s) p)))))
                       (sel a (fst b))) as [H1|H1].
  - rewrite (proj2 (Z.leb_gt _ _)) by lia. done.
  - rewrite (proj2 (Z.leb_le _ _)) by lia. cbn [andb].
    destruct (Z.ltb_spec (sel a (snd b))
                (value (bound_at (bounds_of a s)
                          (sel a (lowerBounds (proxy_at (proxyPool s) p)))))) as [H2|H2].
    + by rewrite (proj2 (Z.leb_gt _ _)) by lia.
    + by rewrite (proj2 (Z.leb_le _ _)) by lia.
Qed.

(** For a proxy in use [TestOverlap] returns, and tells whether the
    intervals of the values given meet the intervals of the proxy on
    both axes. *)
Lemma TestOverlap_live b p s L :
  Inv L s → L p →
  TestOverlap b p s
  = Some (((sel axis0 (fst b) <=? valof axis0 s p false)
           && (valof axis0 s p true <=? sel axis0 (snd b)))
          && ((sel axis1 (fst b) <=? valof axis1 s p false)
              && (valof axis1 s p true <=? sel axis1 (snd b)))).
Proof.
  intros HI HL. unfold TestOverlap.
  rewrite !(TestOverlap_axis_live _ _ _ _ _ _ (inv_axis _ _ HI _) HL).
  cbn [mbind option_bind]. by destruct (_ && _).
Qed.

(** ** What a query marks *)

Lemma IsLower_parity b : Z.land (value b) 1 = if IsLower b then 0 else 1.
Proof.
  unfold IsLower.
  pose proof (Z.land_ones (value b) 1 ltac:(lia)) as H.
  change (Z.ones 1) with 1 in H. change (2 ^ 1) with 2 in H. rewrite H.
  pose proof (Z.mod_pos_bound (value b) 2 ltac:(lia)).
  destruct (Z.eqb_spec (value b mod 2) 0); lia.
Qed.

(** The proxies a query marks on an axis are the proxies in use whose
    interval meets the query range. *)
Lemma query_ids_exact a bs bc pool L lv uv lq uq id :
  sorted_inv a bs bc pool L →
  search_result bs bc lv lq → search_result bs bc uv uq →
  lv < uv → Z.land lv 1 = 0 → Z.land uv 1 = 1 →
  id ∈ query_ids bs a pool lq uq ↔
  L id ∧ lv ≤ value (bound_at bs (ptr a false (proxy_at pool id)))
       ∧ value (bound_at bs (ptr a true (proxy_at pool id))) ≤ uv.
Proof.
  intros HI Rl Ru Hlt Hev Hodd.
  pose proof (sorted_inv_sorted _ _ _ _ _ HI) as Hs.
  pose proof (search_results_le _ _ _ _ _ _ Hs Rl Ru Hlt) as Hle.
  destruct (search_result_split _ _ _ _ Hs Rl) as [Hl1 Hl2].
  destruct (search_result_split _ _ _ _ Hs Ru) as [Hu1 Hu2].
  assert (0 ≤ lq ∧ uq ≤ bc) as [Hlq Huq] by (destruct Rl, Ru; lia).
  split.
  - intros Hin.
    destruct (query_ids_owner bs a pool lq uq bc id) as (k & Hk & Hlow & Hid & Hpos);
      [lia|lia|done|].
    destruct (ai_owner _ _ _ _ _ _ _ HI k Hk) as (HL & _ & Hp).
    rewrite Hid in HL. split; [done|].
    destruct (query_ids_overlap HI lv uv lq uq id eq_refl eq_refl Rl Ru Hlt Hin). done.
  - intros (HL & Hup & Hlo).
    destruct (ai_proxy _ _ _ _ _ _ _ HI id HL) as (_ & H0 & Hlu & Hub & Hid & Hlow & _ & Hupp).
    set (l := ptr a true (proxy_at pool id)) in *.
    set (u := ptr a false (proxy_at pool id)) in *.
    pose proof (IsLower_parity (bound_at bs l)) as Pl. rewrite Hlow in Pl.
    pose proof (IsLower_parity (bound_at bs u)) as Pu. rewrite Hupp in Pu.
    assert (l < uq) as Hluq.
    { destruct (decide (l < uq)) as [|Hge]; [done|].
      specialize (Hu2 l ltac:(lia)).
      assert (value (bound_at bs l) = uv) as E by lia. rewrite E in Pl. lia. }
    assert (lq ≤ u) as Hlqu.
    { destruct (decide (lq ≤ u)) as [|Hge]; [done|].
      specialize (Hl1 u ltac:(lia)).
      assert (value (bound_at bs u) = lv) as E by lia. rewrite E in Pu. lia. }
    unfold query_ids. apply elem_of_app.
    destruct (decide (lq ≤ l)).
    + left. apply easy_ids_elem. exists l. split; [lia|done].
    + right. apply hard_ids_elem. exists l. split; [lia|]. split; [|done].
      unfold spans. rewrite Hlow, Hid. cbn [andb]. apply Z.leb_le. done.
Qed.

(** ** The results of a generation of marks *)

(** The proxies of [ids] that occur in [pre] or earlier in [ids]: the
    calls of [IncrementOverlapCount] that find their proxy marked. *)
Fixpoint seconds (pre ids : list Z) : list Z :=
  match ids with
  | [] => []
  | id :: ids' =>
      (if decide (id ∈ pre) then [id] else []) ++ seconds (pre ++ [id]) ids'
  end.

Lemma seconds_NoDup pre ids : NoDup ids → seconds pre ids = filter (λ r, r ∈ pre) ids.
Proof.
  revert pre. induction ids as [|id ids IH]; intros pre Hnd; [done|].
  inversion_clear Hnd as [|? ? Hnot Hnd']. cbn [seconds].
  rewrite filter_cons, IH by done.
  assert (filter (λ r, r ∈ pre ++ [id]) ids = filter (λ r, r ∈ pre) ids) as ->.
  { clear IH Hnd'. induction ids as [|x ids IH]; [done|].
    rewrite !filter_cons, IH by set_solver.
    destruct (decide (x ∈ pre ++ [id])) as [Hx|Hx], (decide (x ∈ pre)) as [Hx'|Hx'];
      try done; set_solver. }
  by destruct (decide (id ∈ pre)).
Qed.

Lemma seconds_app pre ids1 ids2 :
  seconds pre (ids1 ++ ids2) = seconds pre ids1 ++ seconds (pre ++ ids1) ids2.
Proof.
  revert pre. induction ids1 as [|id ids1 IH]; intros pre; cbn [seconds app].
  - by rewrite app_nil_r.
  - rewrite IH, <- !(assoc_L (++)). done.
Qed.

Lemma mark_results_old id s i :
  0 ≤ i < m_queryResultCount s →
  js_read (m_queryResults (mark id s)) i = js_read (m_queryResults s) i.
Proof.
  intros Hi. unfold mark. cbv zeta. destruct (_ <? _); [done|].
  cbn [m_queryResults with_queryResults]. rewrite js_read_set by lia.
  by rewrite decide_False by lia.
Qed.

(** The results a generation of marks appends are the second calls, in
    their order. *)
Lemma marks_results s0 ids : ∀ pre s s',
  0 ≤ m_queryResultCount s0 → marking s0 pre s →
  (∀ id, id ∈ ids → in_pool (proxyPool s0) id) →
  marks ids s = Some s' →
  m_queryResultCount s' = m_queryResultCount s + Z.of_nat (length (seconds pre ids)) ∧
  (∀ j r, seconds pre ids !! j = Some r →
     js_read (m_queryResults s') (m_queryResultCount s + Z.of_nat j) = Some r) ∧
  (∀ i, 0 ≤ i < m_queryResultCount s →
     js_read (m_queryResults s') i = js_read (m_queryResults s) i).
Proof.
  induction ids as [|id ids IH]; intros pre s s' Hc0 Hm Hin; cbn [marks seconds].
  - intros [= <-]. cbn. split; [lia|]. split; [|done]. intros j r Hj. done.
  - assert (in_pool (proxyPool s) id) as Hid.
    { unfold in_pool. rewrite (mk_len _ _ _ Hm). apply Hin. set_solver. }
    rewrite IncrementOverlapCount_in by done. cbn [mbind option_bind]. intros Hs'.
    pose proof (mk_count _ _ _ Hm) as Hcs.
    destruct (marking_step s0 pre s id Hc0 Hm Hid) as (Hm' & Hyes & Hno).
    destruct (IH (pre ++ [id]) (mark id s) s' Hc0 Hm') as (Hc & Hnew & Hold); [|done|].
    { intros ??. apply Hin. set_solver. }
    destruct (decide (id ∈ pre)) as [Hp|Hp].
    + destruct (Hyes Hp) as [Ec Er]. rewrite Ec in Hc, Hnew, Hold.
      cbn [app length]. split; [lia|]. split.
      * intros [|j] r Hj; cbn in Hj.
        -- injection Hj as <-. rewrite Z.add_0_r. rewrite Hold by lia. done.
        -- replace (m_queryResultCount s + Z.of_nat (S j))
             with (m_queryResultCount s + 1 + Z.of_nat j) by lia. by apply Hnew.
      * intros i Hi. rewrite Hold by lia. by apply mark_results_old.
    + destruct (Hno Hp) as [Ec Er]. rewrite Ec in Hc, Hnew, Hold. rewrite Er in Hold.
      cbn [app]. split; [done|]. split; [done|]. done.
Qed.

(** ** The results of QueryAABB *)

Lemma QueryAABB_results (ids : list Z) (s : BroadPhase) (aabb : AABB)
    (out : list (option (option UserData))) (maxCount : Z) :
  settings_ok → reachable ids s → quantizes aabb s →
  ∃ rs out' s',
    QueryAABB aabb out maxCount s
    = Some (Z.max 0 (Z.min (Z.of_nat (length rs)) maxCount), out', s') ∧
    NoDup rs ∧
    (∀ p, p ∈ rs ↔ p ∈ ids ∧ TestOverlap (ComputeBounds aabb s) p s = Some true) ∧
    (∀ i r, rs !! i = Some r → Z.of_nat i < maxCount →
       js_read out' (Z.of_nat i) = Some (userData (proxy_at (proxyPool s) r))) ∧
    reachable ids s'.
Proof.
  intros Hset Hr HQ. destruct (reachable_Inv ids s Hset Hr) as [HI Hnd].
  pose proof HI as [Hpool Hblen Hax (fl & Hch & Hndf & HflL & Hcnt) Hst Hres].
  assert (∃ rs out' s', QueryAABB aabb out maxCount s
            = Some (Z.max 0 (Z.min (Z.of_nat (length rs)) maxCount), out', s') ∧
            rs = filter (λ r, r ∈ marked_on axis0 aabb s) (marked_on axis1 aabb s) ∧
            NoDup (marked_on axis1 aabb s) ∧
            (∀ i r, rs !! i = Some r → Z.of_nat i < maxCount →
               js_read out' (Z.of_nat i) = Some (userData (proxy_at (proxyPool s) r))))
    as (rs & out' & s' & E & Ers & Hnd1 & Hout).
  { unfold QueryAABB. cbv beta iota delta [ComputeBounds sel fst snd].
    set (bc := 2 * m_proxyCount s) in *.
    destruct (Query_spec (ComputeBounds_lower axis0 aabb s) (ComputeBounds_upper axis0 aabb s)
                axis0 (bounds_of axis0 s) bc s _ (Hax axis0))
      as (lq0 & uq0 & s1 & -> & Bl0 & Rl0 & Bu0 & Ru0 & Hm0 & Hmf0 & HL0).
    cbn [mbind option_bind].
    set (ids0 := query_ids (bounds_of axis0 s) axis0 (proxyPool s) lq0 uq0) in *.
    assert (marked_on axis0 aabb s = ids0) as E0.
    { unfold marked_on. cbv zeta. fold bc. by rewrite Bl0, Bu0. }
    assert (bounds_of axis1 s1 = bounds_of axis1 s) as Eb1
      by (unfold bounds_of; by rewrite (mf_bounds _ _ _ Hmf0)).
    rewrite Eb1, (mf_count _ _ _ Hmf0). fold bc.
    destruct (Query_spec (ComputeBounds_lower axis1 aabb s) (ComputeBounds_upper axis1 aabb s)
                axis1 (bounds_of axis1 s) bc s1 (λ p, p ∈ ids))
      as (lq1 & uq1 & s2 & -> & Bl1 & Rl1 & Bu1 & Ru1 & Hm1 & Hmf1 & HL1).
    { eapply marked_from_axis_inv; [done|apply Hax]. }
    cbn [mbind option_bind].
    rewrite (query_ids_agree _ _ (proxyPool s) (proxyPool s1)) in Hm1, Hmf1, HL1
      by apply (mf_upper _ _ _ Hmf0).
    set (ids1 := query_ids (bounds_of axis1 s) axis1 (proxyPool s) lq1 uq1) in *.
    assert (marked_on axis1 aabb s = ids1) as E1.
    { unfold marked_on. cbv zeta. fold bc. by rewrite Bl1, Bu1. }
    rewrite E0, E1.
    assert (∀ id, id ∈ ids → in_pool (proxyPool s) id) as HLin.
    { intros id Hid. by destruct (ai_proxy _ _ _ _ _ _ _ (Hax axis0) id Hid). }
    assert (marking s ids0 s1) as Hmk0.
    { apply (marking_marks s ids0 [] s); [lia| |by intros; apply HLin, HL0|done].
      apply marking_start. by eapply Inv_fresh. }
    assert (marking s (ids0 ++ ids1) s2) as Hmk
      by (apply (marking_marks s ids1 ids0 s1); [lia|done|by intros; apply HLin, HL1|done]).
    assert (NoDup ids0) as Hnd0.
    { apply (NoDup_query_ids (Hax axis0)); destruct Rl0, Ru0; lia. }
    assert (NoDup ids1) as Hnd1.
    { apply (NoDup_query_ids (Hax axis1)); destruct Rl1, Ru1; lia. }
    destruct (marks_results s ids0 [] s s1) as (Hc1 & _ & _);
      [lia|apply marking_start; by eapply Inv_fresh|by intros; apply HLin, HL0|done|].
    rewrite seconds_NoDup in Hc1 by done.
    assert (filter (λ r, r ∈ []) ids0 = []) as Hnil.
    { clear. induction ids0 as [|x l IH]; [done|]. rewrite filter_cons_False; set_solver. }
    rewrite Hnil, Hres in Hc1. cbn in Hc1.
    destruct (marks_results s ids1 ids0 s1 s2) as (Hc2 & Hnew2 & _);
      [lia|done|by intros; apply HLin, HL1|done|].
    rewrite seconds_NoDup in Hc2, Hnew2 by done. rewrite Hc1 in Hc2, Hnew2.
    set (rs := filter (λ r, r ∈ ids0) ids1) in *.
    rewrite Z.add_0_l in Hc2.
    assert (∀ j r, rs !! j = Some r → js_read (m_queryResults s2) (Z.of_nat j) = Some r)
      as Hres2 by (intros j r Hj; by rewrite <- (Hnew2 j r Hj)).
    rewrite Hc2. set (n := Z.min (Z.of_nat (length rs)) maxCount).
    assert (∃ out', for_loop 0 n
              (λ i (out : list (option (option UserData))),
                 r ← js_read (m_queryResults s2) i;
                 proxy ← js_get (proxyPool s2) r;
                 Some (js_set out i (userData proxy))) out = Some out' ∧
              ∀ i r, rs !! i = Some r → Z.of_nat i < n →
                js_read out' (Z.of_nat i) = Some (userData (proxy_at (proxyPool s) r)))
      as (out' & -> & Hout).
    { destruct (decide (n ≤ 0)) as [Hn|Hn].
      { exists out. rewrite for_loop_done by lia. split; [done|]. intros; lia. }
      apply (for_loop_inv
        (λ k (o : list (option (option UserData))),
           ∀ i r, rs !! i = Some r → Z.of_nat i < k →
             js_read o (Z.of_nat i) = Some (userData (proxy_at (proxyPool s) r))));
        [lia|intros; lia|].
      intros i o Hi Ho.
      destruct (lookup_lt_is_Some_2 rs (Z.to_nat i)) as [r Hr']; [unfold n in Hi; lia|].
      pose proof (Hres2 _ _ Hr') as Hread. rewrite Z2Nat.id in Hread by lia.
      rewrite Hread. cbn [mbind option_bind].
      assert (r ∈ ids1) as Hr1.
      { apply list_elem_of_lookup_2 in Hr'. unfold rs in Hr'.
        apply list_elem_of_filter in Hr'. tauto. }
      assert (in_pool (proxyPool s2) r) as Hrin.
      { unfold in_pool. rewrite (mk_len _ _ _ Hmk). by apply HLin, HL1. }
      rewrite (js_get_proxy_at _ _ Hrin). cbn [mbind option_bind].
      eexists. split; [done|]. intros j r' Hj Hlt. rewrite js_read_set by lia.
      case_decide as E.
      - assert (j = Z.to_nat i) as -> by lia. rewrite Hr' in Hj. injection Hj as <-.
        by rewrite (mk_data _ _ _ Hmk).
      - apply Ho; [done|lia]. }
    cbn [mbind option_bind].
    pose proof (kept_trans _ _ _ (marked_from_kept _ _ _ Hmf0) (marked_from_kept _ _ _ Hmf1))
      as K.
    rewrite IncrementTimeStamp_tick by (cbn; rewrite (kp_len _ _ K); lia).
    cbn [mbind option_bind].
    exists rs, out'. eexists. split_and!; try done.
    intros i r Hi Hlt. apply Hout; [done|].
    apply lookup_lt_Some in Hi. unfold n. lia. }
  exists rs, out', s'. split_and!; try done.
  - rewrite Ers. by apply NoDup_filter.
  - intros p. rewrite Ers, list_elem_of_filter.
    assert (∀ a, p ∈ marked_on a aabb s ↔
      p ∈ ids ∧ ComputeBounds_lower a aabb s ≤ valof a s p false
              ∧ valof a s p true ≤ ComputeBounds_upper a aabb s) as Hmark.
    { intros a. unfold marked_on. cbv zeta.
      pose proof (ai_range _ _ _ _ _ _ _ (Hax a)) as Hbc.
      pose proof (sorted_inv_sorted _ _ _ _ _ (Hax a)) as Hs.
      destruct (BinarySearch_spec (bounds_of a s) (2 * m_proxyCount s)
                  (ComputeBounds_lower a aabb s) Hbc Hs) as (lq & -> & Rlq).
      destruct (BinarySearch_spec (bounds_of a s) (2 * m_proxyCount s)
                  (ComputeBounds_upper a aabb s) Hbc Hs) as (uq & -> & Ruq).
      apply (query_ids_exact a _ _ _ _ _ _ lq uq p (Hax a) Rlq Ruq (HQ a)).
      - apply ComputeBounds_lower_even.
      - apply ComputeBounds_upper_odd. }
    rewrite !Hmark. split.
    + intros [(Hp & H0l & H0u) (_ & H1l & H1u)]. split; [done|].
      rewrite (TestOverlap_live _ _ _ _ HI Hp). f_equal.
      cbv beta iota delta [ComputeBounds sel fst snd].
      rewrite !(proj2 (Z.leb_le _ _)); done.
    + intros [Hp Ht]. rewrite (TestOverlap_live _ _ _ _ HI Hp) in Ht.
      injection Ht as Ht. cbv beta iota delta [ComputeBounds sel fst snd] in Ht.
      apply andb_prop in Ht as [[H0l H0u]%andb_prop [H1l H1u]%andb_prop].
      apply Z.leb_le in H0l, H0u, H1l, H1u. done.
  - eapply reach_query; [exact Hr|exact E].
Qed.

(** [QueryAABB] finds the proxies in use whose quantized box meets the
    quantized query box on both axes, the proxies [TestOverlap] accepts:
    each of them once.  It returns the number of them, or [maxCount] if
    that is less, and writes the user data of that many to the array of
    the caller; the state it leaves is one between two operations. *)
Theorem QueryAABB_exact (ids : list Z) (s : BroadPhase) (aabb : AABB)
    (out : list (option (option UserData))) (maxCount : Z) :
  settings_ok → reachable ids s → quantizes aabb s →
  ∃ rs out' s',
    QueryAABB aabb out maxCount s
    = Some (Z.max 0 (Z.min (Z.of_nat (length rs)) maxCount), out', s') ∧
    NoDup rs ∧
    (∀ p, p ∈ rs ↔ p ∈ ids ∧ TestOverlap (ComputeBounds aabb s) p s = Some true) ∧
    (∀ i r, rs !! i = Some r → Z.of_nat i < maxCount →
       js_read out' (Z.of_nat i) = Some (userData (proxy_at (proxyPool s) r))) ∧
    reachable ids s'.
Proof. apply QueryAABB_results. Qed.

(** ** What the operations do to the proxies *)

Lemma quantizes_ext aabb s s' :
  m_worldAABB s' = m_worldAABB s → m_quantizationFactor s' = m_quantizationFactor s →
  quantizes aabb s → quantizes aabb s'.
Proof.
  intros Hw Hf HQ a. specialize (HQ a).
  rewrite <- !sel_ComputeBounds_fst, <- !sel_ComputeBounds_snd in *.
  by rewrite (ComputeBounds_ext aabb s s').
Qed.

Lemma room_free ids s :
  settings_ok → reachable ids s → m_proxyCount s < b2_maxProxies →
  m_freeProxy s ≠ b2_nullProxy.
Proof.
  intros Hset Hr Hlt.
  destruct (in_use_count ids s Hset Hr) as (_ & _ & _ & _ & Hfull & _).
  rewrite Hfull. lia.
Qed.

(** [CreateProxy] gives the new proxy the quantized box and the user
    data it was called with; the intervals and the user data of the
    proxies in use stay as they were, and so does the quantizer. *)
Theorem CreateProxy_new_proxy (ids : list Z) (s : BroadPhase) (aabb : AABB)
    (data : option UserData) :
  settings_ok → reachable ids s → m_proxyCount s < b2_maxProxies → quantizes aabb s →
  ∃ pid s', CreateProxy aabb data s = Some (pid, s') ∧
    (∀ a, valof a s' pid true = sel a (fst (ComputeBounds aabb s)) ∧
          valof a s' pid false = sel a (snd (ComputeBounds aabb s))) ∧
    userData (proxy_at (proxyPool s') pid) = data ∧
    (∀ p, p ∈ ids →
       userData (proxy_at (proxyPool s') p) = userData (proxy_at (proxyPool s) p) ∧
       ∀ a r, valof a s' p r = valof a s p r) ∧
    (∀ b, ComputeBounds b s' = ComputeBounds b s).
Proof.
  intros Hset Hr Hlt HQ. destruct (reachable_Inv ids s Hset Hr) as [HI Hnd].
  pose proof (room_free ids s Hset Hr Hlt) as Hfree.
  destruct (CreateProxy_full _ s aabb data HI Hfree HQ)
    as (s' & E & HnL & _ & _ & _ & _ & Hw & Hf & Hv & Hnew & Hd & _).
  exists (m_freeProxy s), s'. split_and!; try done.
  - intros a. rewrite sel_ComputeBounds_fst, sel_ComputeBounds_snd. apply Hnew.
  - by rewrite Hd, decide_True.
  - intros p Hp. split; [|by intros a r; apply Hv].
    rewrite Hd, decide_False; [done|]. by intros ->.
  - intros b. by apply ComputeBounds_ext.
Qed.

(** [MoveProxy] gives the proxy the quantized new box; the intervals of
    the other proxies in use stay as they were, and so do the user data
    and the overlap counter of every proxy, the proxy count, the free
    list and the time stamp. *)
Theorem MoveProxy_moves (ids : list Z) (s : BroadPhase) (pid : Z) (aabb : AABB) :
  settings_ok → reachable ids s → pid ∈ ids → AABB_IsValid aabb = true → quantizes aabb s →
  ∃ s', MoveProxy pid aabb s = Some s' ∧
    (∀ a, valof a s' pid true = sel a (fst (ComputeBounds aabb s)) ∧
          valof a s' pid false = sel a (snd (ComputeBounds aabb s))) ∧
    (∀ p, p ∈ ids → p ≠ pid → ∀ a r, valof a s' p r = valof a s p r) ∧
    (∀ p, userData (proxy_at (proxyPool s') p) = userData (proxy_at (proxyPool s) p) ∧
          overlapCount (proxy_at (proxyPool s') p) = overlapCount (proxy_at (proxyPool s) p) ∧
          next (proxy_at (proxyPool s') p) = next (proxy_at (proxyPool s) p)) ∧
    m_proxyCount s' = m_proxyCount s ∧ m_freeProxy s' = m_freeProxy s ∧
    m_timeStamp s' = m_timeStamp s ∧
    (∀ b, ComputeBounds b s' = ComputeBounds b s).
Proof.
  intros Hset Hr Hin Hv HQ. destruct (reachable_Inv ids s Hset Hr) as [HI Hnd].
  destruct (in_use_count ids s Hset Hr) as (_ & _ & Hids & _).
  destruct (MoveProxy_spec _ s pid aabb HI Hin HQ) as (s' & E & _ & K & Ho & Hn & Hc).
  exists s'. split_and!; try done; try apply K.
  - intros a. rewrite sel_ComputeBounds_fst, sel_ComputeBounds_snd.
    apply Hn; [by apply Hids|done].
  - intros p Hp Hne a r. by apply Ho.
  - intros p. split_and!; [apply K|apply Hc|apply K].
  - intros b. apply ComputeBounds_ext; apply K.
Qed.

(** [DestroyProxy] clears the proxy (no user data, the invalid mark in
    its overlap counter and in its four bound positions) and pushes it
    on the free list; the intervals and the user data of the other
    proxies in use stay as they were. *)
Theorem DestroyProxy_frees (ids : list Z) (s : BroadPhase) (pid : Z) :
  settings_ok → reachable ids s → pid ∈ ids →
  ∃ s', DestroyProxy pid s = Some s' ∧
    userData (proxy_at (proxyPool s') pid) = None ∧
    Proxy_IsValid (proxy_at (proxyPool s') pid) = false ∧
    lowerBounds (proxy_at (proxyPool s') pid) = (invalid, invalid) ∧
    upperBounds (proxy_at (proxyPool s') pid) = (invalid, invalid) ∧
    m_freeProxy s' = pid ∧ next (proxy_at (proxyPool s') pid) = m_freeProxy s ∧
    m_proxyCount s' = m_proxyCount s - 1 ∧
    (∀ p, p ∈ ids → p ≠ pid →
       userData (proxy_at (proxyPool s') p) = userData (proxy_at (proxyPool s) p) ∧
       ∀ a r, valof a s' p r = valof a s p r) ∧
    (∀ b, ComputeBounds b s' = ComputeBounds b s).
Proof.
  intros Hset Hr Hin. destruct (reachable_Inv ids s Hset Hr) as [HI Hnd].
  destruct (DestroyProxy_full _ s pid HI Hin)
    as (s' & E & _ & Hc & Hfr & Hnx & Hw & Hf & Hv & Hd & Ho & _ & Hlb & Hub & _).
  exists s'. split_and!; try done.
  - by rewrite Hd, decide_True.
  - unfold Proxy_IsValid. by rewrite Ho, Z.eqb_refl.
  - by rewrite Hnx, decide_True.
  - intros p Hp Hne. split; [|by intros a r; apply Hv].
    by rewrite Hd, decide_False.
  - intros b. by apply ComputeBounds_ext.
Qed.

(** [QueryAABB] returns for every box, and changes neither a bound nor
    the interval, the user data or the free-list link of a proxy, nor
    the proxy count, the free list or the quantizer. *)
Theorem QueryAABB_changes_no_proxy (ids : list Z) (s : BroadPhase) (aabb : AABB)
    (out : list (option (option UserData))) (maxCount : Z) :
  settings_ok → reachable ids s →
  ∃ n out' s', QueryAABB aabb out maxCount s = Some (n, out', s') ∧
    0 ≤ n ≤ Z.max 0 maxCount ∧
    (∀ a, bounds_of a s' = bounds_of a s) ∧
    (∀ p, userData (proxy_at (proxyPool s') p) = userData (proxy_at (proxyPool s) p) ∧
          next (proxy_at (proxyPool s') p) = next (proxy_at (proxyPool s) p) ∧
          ∀ a r, valof a s' p r = valof a s p r) ∧
    m_proxyCount s' = m_proxyCount s ∧ m_freeProxy s' = m_freeProxy s ∧
    (∀ b, ComputeBounds b s' = ComputeBounds b s).
Proof.
  intros Hset Hr. destruct (reachable_Inv ids s Hset Hr) as [HI Hnd].
  destruct (QueryAABB_full _ s aabb out maxCount HI)
    as (n & out' & s' & E & HI' & Hn & Hc & Hfr & Hw & Hf & Hb & _ & Hv & Hd & _ & Hnx & _).
  exists n, out', s'. split_and!; try done; try lia.
  intros b. by apply ComputeBounds_ext.
Qed.

(** ** Queries after an operation *)

(** Two quantized boxes meet: on each axis the lower value of each is
    not above the upper value of the other. *)
Definition meets (b1 b2 : (Z * Z) * (Z * Z)) : Prop :=
  ∀ a, sel a (fst b1) ≤ sel a (snd b2) ∧ sel a (fst b2) ≤ sel a (snd b1).

Lemma TestOverlap_true b p s L :
  Inv L s → L p →
  TestOverlap b p s = Some true ↔
  ∀ a, sel a (fst b) ≤ valof a s p false ∧ valof a s p true ≤ sel a (snd b).
Proof.
  intros HI HL. rewrite (TestOverlap_live b p s L HI HL). split.
  - intros Ht. injection Ht as Ht.
    apply andb_prop in Ht as [[H0l H0u]%andb_prop [H1l H1u]%andb_prop].
    apply Z.leb_le in H0l, H0u, H1l, H1u. by intros [].
  - intros H. destruct (H axis0) as [H0l H0u]. destruct (H axis1) as [H1l H1u].
    by rewrite !(proj2 (Z.leb_le _ _)).
Qed.

Lemma TestOverlap_same b p s s' L L' :
  Inv L s → L p → Inv L' s' → L' p →
  (∀ a r, valof a s' p r = valof a s p r) →
  TestOverlap b p s' = Some true ↔ TestOverlap b p s = Some true.
Proof.
  intros HI HL HI' HL' Hv.
  rewrite (TestOverlap_true b p s' L' HI' HL'), (TestOverlap_true b p s L HI HL).
  by setoid_rewrite Hv.
Qed.

(** A query that follows [CreateProxy], with a query box that is not
    inverted once quantized, finds the new proxy exactly when the
    quantized query box meets the quantized box the proxy was created
    with, and writes the user data the proxy was created with; among
    the other proxies it finds those [TestOverlap] accepted before. *)
Theorem CreateProxy_then_QueryAABB (ids : list Z) (s : BroadPhase) (aabb : AABB)
    (data : option UserData) (qbox : AABB) (out : list (option (option UserData)))
    (maxCount : Z) :
  settings_ok → reachable ids s → m_proxyCount s < b2_maxProxies →
  quantizes aabb s → quantizes qbox s →
  ∃ pid s1 rs out' s2,
    CreateProxy aabb data s = Some (pid, s1) ∧
    QueryAABB qbox out maxCount s1
    = Some (Z.max 0 (Z.min (Z.of_nat (length rs)) maxCount), out', s2) ∧
    NoDup rs ∧
    (pid ∈ rs ↔ meets (ComputeBounds qbox s) (ComputeBounds aabb s)) ∧
    (∀ p, p ≠ pid →
       p ∈ rs ↔ p ∈ ids ∧ TestOverlap (ComputeBounds qbox s) p s = Some true) ∧
    (∀ i, rs !! i = Some pid → Z.of_nat i < maxCount →
       js_read out' (Z.of_nat i) = Some data).
Proof.
  intros Hset Hr Hlt HQ HQq. destruct (reachable_Inv ids s Hset Hr) as [HI Hnd].
  pose proof (room_free ids s Hset Hr Hlt) as Hfree.
  destruct (CreateProxy_full _ s aabb data HI Hfree HQ)
    as (s1 & E & HnL & _ & _ & _ & _ & Hw & Hf & Hv & Hnew & Hd & _).
  set (pid := m_freeProxy s) in *.
  pose proof (reach_create ids s aabb data pid s1 Hr HQ E) as Hr1.
  destruct (reachable_Inv _ s1 Hset Hr1) as [HI1 Hnd1].
  destruct (QueryAABB_results (pid :: ids) s1 qbox out maxCount Hset Hr1
              (quantizes_ext qbox s s1 Hw Hf HQq))
    as (rs & out' & s2 & Eq & Hndr & Hrs & Hout & _).
  rewrite (ComputeBounds_ext qbox s s1 Hw Hf) in Hrs.
  exists pid, s1, rs, out', s2. split_and!; try done.
  - rewrite Hrs, (TestOverlap_true _ pid s1 _ HI1) by set_solver.
    split.
    + intros [_ H] a. destruct (Hnew a) as [El Eu]. specialize (H a).
      rewrite El, Eu, <- sel_ComputeBounds_fst, <- sel_ComputeBounds_snd in H. done.
    + intros H. split; [set_solver|]. intros a. destruct (Hnew a) as [El Eu].
      rewrite El, Eu, <- sel_ComputeBounds_fst, <- sel_ComputeBounds_snd. apply H.
  - intros p Hne. rewrite Hrs. split.
    + intros [Hp Ht]. assert (p ∈ ids) as Hp' by set_solver. split; [done|].
      apply (TestOverlap_same _ p s s1 _ _ HI Hp' HI1 Hp); [|done].
      intros a r. by apply Hv.
    + intros [Hp Ht]. split; [set_solver|].
      apply (TestOverlap_same _ p s s1 _ _ HI Hp HI1 ltac:(set_solver)); [|done].
      intros a r. by apply Hv.
  - intros i Hi Hlti. rewrite (Hout i pid Hi Hlti). f_equal.
    by rewrite Hd, decide_True.
Qed.

(** A query that follows [MoveProxy], with a query box that is not
    inverted once quantized, finds the moved proxy exactly when the
    quantized query box meets the quantized new box; among the other
    proxies it finds those [TestOverlap] accepted before. *)
Theorem MoveProxy_then_QueryAABB (ids : list Z) (s : BroadPhase) (pid : Z) (aabb : AABB)
    (qbox : AABB) (out : list (option (option UserData))) (maxCount : Z) :
  settings_ok → reachable ids s → pid ∈ ids → AABB_IsValid aabb = true →
  quantizes aabb s → quantizes qbox s →
  ∃ s1 rs out' s2,
    MoveProxy pid aabb s = Some s1 ∧
    QueryAABB qbox out maxCount s1
    = Some (Z.max 0 (Z.min (Z.of_nat (length rs)) maxCount), out', s2) ∧
    NoDup rs ∧
    (pid ∈ rs ↔ meets (ComputeBounds qbox s) (ComputeBounds aabb s)) ∧
    (∀ p, p ≠ pid →
       p ∈ rs ↔ p ∈ ids ∧ TestOverlap (ComputeBounds qbox s) p s = Some true).
Proof.
  intros Hset Hr Hin Hval HQ HQq. destruct (reachable_Inv ids s Hset Hr) as [HI Hnd].
  destruct (in_use_count ids s Hset Hr) as (_ & _ & Hids & _).
  destruct (MoveProxy_spec _ s pid aabb HI Hin HQ) as (s1 & E & _ & K & Ho & Hn & Hc).
  pose proof (reach_move ids s pid aabb s1 Hr Hin HQ E) as Hr1.
  destruct (reachable_Inv _ s1 Hset Hr1) as [HI1 Hnd1].
  destruct (QueryAABB_results ids s1 qbox out maxCount Hset Hr1
              (quantizes_ext qbox s s1 (kp_world _ _ K) (kp_factor _ _ K) HQq))
    as (rs & out' & s2 & Eq & Hndr & Hrs & Hout & _).
  rewrite (ComputeBounds_ext qbox s s1 (kp_world _ _ K) (kp_factor _ _ K)) in Hrs.
  specialize (Hn (proj2 (Hids pid Hin)) Hval).
  exists s1, rs, out', s2. split_and!; try done.
  - rewrite Hrs, (TestOverlap_true _ pid s1 _ HI1) by done.
    split.
    + intros [_ H] a. destruct (Hn a) as [El Eu]. specialize (H a).
      rewrite El, Eu, <- sel_ComputeBounds_fst, <- sel_ComputeBounds_snd in H. done.
    + intros H. split; [done|]. intros a. destruct (Hn a) as [El Eu].
      rewrite El, Eu, <- sel_ComputeBounds_fst, <- sel_ComputeBounds_snd. apply H.
  - intros p Hne. rewrite Hrs. split.
    + intros [Hp Ht]. split; [done|].
      apply (TestOverlap_same _ p s s1 _ _ HI Hp HI1 Hp); [|done].
      intros a r. by apply Ho.
    + intros [Hp Ht]. split; [done|].
      apply (TestOverlap_same _ p s s1 _ _ HI Hp HI1 Hp); [|done].
      intros a r. by apply Ho.
Qed.

(** A query that follows [DestroyProxy], with a query box that is not
    inverted once quantized, does not find the destroyed proxy, and
    finds the other proxies [TestOverlap] accepted before. *)
Theorem DestroyProxy_then_QueryAABB (ids : list Z) (s : BroadPhase) (pid : Z)
    (qbox : AABB) (out : list (option (option UserData))) (maxCount : Z) :
  settings_ok → reachable ids s → pid ∈ ids → quantizes qbox s →
  ∃ s1 rs out' s2,
    DestroyProxy pid s = Some s1 ∧
    QueryAABB qbox out maxCount s1
    = Some (Z.max 0 (Z.min (Z.of_nat (length rs)) maxCount), out', s2) ∧
    NoDup rs ∧ (pid ∉ rs) ∧
    (∀ p, p ≠ pid →
       p ∈ rs ↔ p ∈ ids ∧ TestOverlap (ComputeBounds qbox s) p s = Some true).
Proof.
  intros Hset Hr Hin HQq. destruct (reachable_Inv ids s Hset Hr) as [HI Hnd].
  destruct (DestroyProxy_full _ s pid HI Hin)
    as (s1 & E & _ & _ & _ & _ & Hw & Hf & Hv & _).
  pose proof (reach_destroy ids s pid s1 Hr Hin E) as Hr1.
  destruct (reachable_Inv _ s1 Hset Hr1) as [HI1 Hnd1].
  destruct (QueryAABB_results _ s1 qbox out maxCount Hset Hr1
              (quantizes_ext qbox s s1 Hw Hf HQq))
    as (rs & out' & s2 & Eq & Hndr & Hrs & Hout & _).
  rewrite (ComputeBounds_ext qbox s s1 Hw Hf) in Hrs.
  exists s1, rs, out', s2. split_and!; try done.
  - rewrite Hrs, list_elem_of_filter. tauto.
  - intros p Hne. rewrite Hrs, list_elem_of_filter. split.
    + intros [[_ Hp] Ht]. split; [done|].
      apply (TestOverlap_same _ p s s1 _ _ HI Hp HI1); [|by intros a r; apply Hv|done].
      apply list_elem_of_filter. done.
    + intros [Hp Ht]. split; [done|].
      apply (TestOverlap_same _ p s s1 _ _ HI Hp HI1); [|by intros a r; apply Hv|done].
      apply list_elem_of_filter. done.
Qed.

(** ** The overlap counters *)

(** Between two operations the overlap counter of a proxy in use is 0,
    1 or 2, and that of a free proxy is the invalid mark. *)
Lemma reachable_counts ids s :
  settings_ok → reachable ids s →
  ∀ p, in_pool (proxyPool s) p →
    (p ∈ ids → 0 ≤ overlapCount (proxy_at (proxyPool s) p) ≤ 2) ∧
    (p ∉ ids → overlapCount (proxy_at (proxyPool s) p) = invalid).
Proof.
  intros Hset Hr.
  induction Hr as [w|ids s aabb data pid s' Hr IH HQ Hc|ids s pid s' Hr IH Hin Hd
                  |ids s pid aabb s' Hr IH Hin HQ Hm|ids s pid aabb s' Hr IH Hg Hm
                  |ids s aabb out maxCount n out' s' Hr IH Hq|ids s Hr IH];
    intros p Hp.
  - split; [by intros ?%elem_of_nil|]. intros _.
    pose proof (inv_pool _ _ (new_BroadPhase_Inv w Hset)) as Hlen.
    unfold in_pool in Hp. rewrite Hlen in Hp. destruct Hset as [Hmax _].
    cbn [new_BroadPhase proxyPool]. by rewrite new_pool_at.
  - destruct (reachable_Inv ids s Hset Hr) as [HI Hnd].
    assert (m_freeProxy s ≠ b2_nullProxy) as Hfree.
    { intros E. unfold CreateProxy in Hc. rewrite E in Hc.
      destruct (js_get (proxyPool s) b2_nullProxy) as [px|] eqn:Hg; [|done].
      apply js_get_Some in Hg. destruct Hset as [_ Hnull]. apply Hnull.
      rewrite <- (inv_pool _ _ HI). lia. }
    destruct (CreateProxy_full _ s aabb data HI Hfree HQ)
      as (s'' & E & HnL & HI' & _ & _ & _ & _ & _ & _ & _ & _ & H0 & Hoth & _).
    rewrite E in Hc. injection Hc as <- <-.
    assert (in_pool (proxyPool s) p) as Hp'.
    { unfold in_pool in *. by rewrite (inv_pool _ _ HI), <- (inv_pool _ _ HI'). }
    destruct (decide (p = m_freeProxy s)) as [->|Hne].
    + rewrite H0. split; [lia|]. intros Hn. exfalso. apply Hn. set_solver.
    + destruct (IH p Hp') as [IH1 IH2].
      destruct (Hoth p Hne) as [->|[HL H12]].
      * split; [intros Hin; apply IH1; set_solver|intros Hn; apply IH2; set_solver].
      * split; [lia|]. intros Hn. exfalso. apply Hn. set_solver.
  - destruct (reachable_Inv ids s Hset Hr) as [HI Hnd].
    destruct (DestroyProxy_full _ s pid HI Hin)
      as (s'' & E & HI' & _ & _ & _ & _ & _ & _ & _ & H0 & Hoth & _).
    rewrite E in Hd. injection Hd as <-.
    assert (in_pool (proxyPool s) p) as Hp'.
    { unfold in_pool in *. by rewrite (inv_pool _ _ HI), <- (inv_pool _ _ HI'). }
    rewrite list_elem_of_filter.
    destruct (decide (p = pid)) as [->|Hne].
    + rewrite H0. split; [by intros [? _]|done].
    + destruct (IH p Hp') as [IH1 IH2].
      destruct (Hoth p Hne) as [->|[HL H12]].
      * split; [intros [_ Hi]; by apply IH1|intros Hn; apply IH2; tauto].
      * split; [lia|]. intros Hn. exfalso. apply Hn. done.
  - destruct (reachable_Inv ids s Hset Hr) as [HI Hnd].
    destruct (MoveProxy_spec _ s pid aabb HI Hin HQ) as (s'' & E & _ & K & _ & _ & Hc).
    rewrite E in Hm. injection Hm as <-. rewrite Hc. apply IH.
    unfold in_pool in *. by rewrite <- (kp_len _ _ K).
  - rewrite MoveProxy_rejected in Hm by done. injection Hm as <-. by apply IH.
  - destruct (reachable_Inv ids s Hset Hr) as [HI Hnd].
    destruct (QueryAABB_full _ s aabb out maxCount HI)
      as (n' & o' & s'' & E & HI' & _ & _ & _ & _ & _ & _ & _ & _ & _ & Hc & _).
    rewrite E in Hq. injection Hq as <- <- <-.
    assert (in_pool (proxyPool s) p) as Hp'.
    { unfold in_pool in *. by rewrite (inv_pool _ _ HI), <- (inv_pool _ _ HI'). }
    destruct (IH p Hp') as [IH1 IH2].
    destruct (Hc p) as [->|[HL H12]]; [done|]. split; [lia|done].
  - by apply IH.
Qed.

(** ** GetProxy *)

(** With an invalid mark that is none of the counts 0, 1 and 2,
    [GetProxy] returns the proxy for an id in use, [null] for the null
    id and for the free ids of the pool, and raises for any other id. *)
Theorem GetProxy_in_use (ids : list Z) (s : BroadPhase) (pid : Z) :
  settings_ok → invalid ≠ 0 ∧ invalid ≠ 1 ∧ invalid ≠ 2 → reachable ids s →
  (pid ∈ ids →
     ∃ proxy, GetProxy pid s = Some (Some proxy) ∧
              js_get (proxyPool s) pid = Some proxy) ∧
  ((pid ∉ ids) → pid = b2_nullProxy ∨ 0 ≤ pid < b2_maxProxies →
     GetProxy pid s = Some None) ∧
  (pid ≠ b2_nullProxy → ¬ (0 ≤ pid < b2_maxProxies) → GetProxy pid s = None).
Proof.
  intros Hset (Hi0 & Hi1 & Hi2) Hr. destruct (reachable_Inv ids s Hset Hr) as [HI Hnd].
  pose proof (inv_pool _ _ HI) as Hlen.
  pose proof (reachable_counts ids s Hset Hr pid) as Hc.
  unfold GetProxy. split_and!.
  - intros Hin.
    destruct (in_use_count ids s Hset Hr) as (_ & _ & Hids & _).
    destruct (Hids pid Hin) as [Hrange Hnn].
    assert (in_pool (proxyPool s) pid) as Hp by (unfold in_pool; lia).
    destruct (Hc Hp) as [H012 _]. specialize (H012 Hin).
    exists (proxy_at (proxyPool s) pid).
    destruct (Z.eqb_spec pid b2_nullProxy); [done|].
    rewrite (js_get_proxy_at _ _ Hp). cbn [mbind option_bind]. split; [|done].
    unfold Proxy_IsValid.
    destruct (Z.eqb_spec (overlapCount (proxy_at (proxyPool s) pid)) invalid); [lia|done].
  - intros Hn Hcase. destruct (Z.eqb_spec pid b2_nullProxy) as [|Hne]; [done|].
    destruct Hcase as [|Hrange]; [done|].
    assert (in_pool (proxyPool s) pid) as Hp by (unfold in_pool; lia).
    destruct (Hc Hp) as [_ Hinv]. specialize (Hinv Hn).
    rewrite (js_get_proxy_at _ _ Hp). cbn [mbind option_bind].
    unfold Proxy_IsValid. by rewrite Hinv, Z.eqb_refl.
  - intros Hne Hrange. destruct (Z.eqb_spec pid b2_nullProxy); [done|].
    rewrite js_get_None; [done|]. by rewrite Hlen.
Qed.

(** ** TestOverlapValidate *)

Lemma TestOverlapValidate_axis_live a p1 p2 s bc L :
  sorted_inv a (bounds_of a s) bc (proxyPool s) L → L p1 → L p2 →
  TestOverlapValidate_axis a p1 p2 s
  = Some ((valof a s p1 true <=? valof a s p2 false)
          && (valof a s p2 true <=? valof a s p1 false)).
Proof.
  intros HI HL1 HL2. pose proof (ai_range _ _ _ _ _ _ _ HI) as Hbc.
  destruct (ai_proxy _ _ _ _ _ _ _ HI p1 HL1) as (Hin1 & H01 & Hlu1 & Hu1 & _).
  destruct (ai_proxy _ _ _ _ _ _ _ HI p2 HL2) as (Hin2 & H02 & Hlu2 & Hu2 & _).
  unfold TestOverlapValidate_axis, valof, ptr in *.
  rewrite (js_get_proxy_at _ _ Hin1), (js_get_proxy_at _ _ Hin2).
  cbn [mbind option_bind].
  rewrite !(js_get_bound_at (bounds_of a s)) by lia. cbn [mbind option_bind].
  rewrite Z.gtb_ltb.
  set (l1 := value (bound_at (bounds_of a s) (sel a (lowerBounds (proxy_at (proxyPool s) p1))))).
  set (u1 := value (bound_at (bounds_of a s) (sel a (upperBounds (proxy_at (proxyPool s) p1))))).
  set (l2 := value (bound_at (bounds_of a s) (sel a (lowerBounds (proxy_at (proxyPool s) p2))))).
  set (u2 := value (bound_at (bounds_of a s) (sel a (upperBounds (proxy_at (proxyPool s) p2))))).
  destruct (Z.ltb_spec u2 l1) as [H1|H1].
  - by rewrite (proj2 (Z.leb_gt _ _)) by lia.
  - rewrite (proj2 (Z.leb_le l1 u2)) by lia. cbn [andb].
    destruct (Z.ltb_spec u1 l2) as [H2|H2].
    + by rewrite (proj2 (Z.leb_gt _ _)) by lia.
    + by rewrite (proj2 (Z.leb_le _ _)) by lia.
Qed.

(** For two proxies in use [TestOverlapValidate] returns, and tells
    whether their intervals meet on both axes; the answer does not
    depend on the order of the two, is the one of [TestOverlap] for the
    values of the first proxy, and is [true] for a proxy and itself. *)
Theorem TestOverlapValidate_in_use (ids : list Z) (s : BroadPhase) (p1 p2 : Z) :
  settings_ok → reachable ids s → p1 ∈ ids → p2 ∈ ids →
  ∃ b : bool,
    TestOverlapValidate p1 p2 s = Some b ∧
    TestOverlapValidate p2 p1 s = Some b ∧
    (b = true ↔ ∀ a, valof a s p1 true ≤ valof a s p2 false ∧
                     valof a s p2 true ≤ valof a s p1 false) ∧
    TestOverlap ((valof axis0 s p1 true, valof axis1 s p1 true),
                 (valof axis0 s p1 false, valof axis1 s p1 false)) p2 s = Some b ∧
    (p1 = p2 → b = true).
Proof.
  intros Hset Hr H1 H2. destruct (reachable_Inv ids s Hset Hr) as [HI Hnd].
  set (c a := (valof a s p1 true <=? valof a s p2 false)
              && (valof a s p2 true <=? valof a s p1 false)).
  assert (∀ q1 q2, q1 ∈ ids → q2 ∈ ids →
            TestOverlapValidate q1 q2 s
            = Some (((valof axis0 s q1 true <=? valof axis0 s q2 false)
                     && (valof axis0 s q2 true <=? valof axis0 s q1 false))
                    && ((valof axis1 s q1 true <=? valof axis1 s q2 false)
                        && (valof axis1 s q2 true <=? valof axis1 s q1 false)))) as HT.
  { intros q1 q2 Hq1 Hq2. unfold TestOverlapValidate.
    rewrite !(TestOverlapValidate_axis_live _ _ _ _ _ _ (inv_axis _ _ HI _) Hq1 Hq2).
    cbn [mbind option_bind]. by destruct (_ && _). }
  exists (c axis0 && c axis1). split_and!.
  - by rewrite HT.
  - rewrite HT by done. unfold c. ztest.
  - unfold c. split.
    + intros [[A B]%andb_prop [C D]%andb_prop]%andb_prop.
      apply Z.leb_le in A, B, C, D. by intros [].
    + intros H. destruct (H axis0) as [A B]. destruct (H axis1) as [C D].
      by rewrite !(proj2 (Z.leb_le _ _)).
  - rewrite (TestOverlap_live _ _ _ _ HI H2). cbn [sel fst snd]. unfold c. ztest.
  - intros <-. unfold c.
    assert (∀ a, valof a s p1 true ≤ valof a s p1 false) as Hle.
    { intros a. pose proof (inv_axis _ _ HI a) as Hax.
      destruct (ai_proxy _ _ _ _ _ _ _ Hax p1 H1) as (_ & ? & ? & ? & _).
      apply (sorted_inv_sorted _ _ _ _ _ Hax); lia. }
    by rewrite !(proj2 (Z.leb_le _ _)).
Qed.

(** ** A destroyed proxy *)

(** With an invalid mark that is no position of the bound arrays,
    destroying a proxy a second time raises, and so does moving a
    destroyed proxy: both read the bound at the invalid position. *)
Theorem use_after_DestroyProxy (ids : list Z) (s : BroadPhase) (pid : Z) (aabb : AABB) :
  settings_ok → reachable ids s → pid ∈ ids →
  ¬ (0 ≤ invalid < 2 * b2_maxProxies) → AABB_IsValid aabb = true →
  ∃ s', DestroyProxy pid s = Some s' ∧
        DestroyProxy pid s' = None ∧ MoveProxy pid aabb s' = None.
Proof.
  intros Hset Hr Hin Hinv Hval. destruct (reachable_Inv ids s Hset Hr) as [HI Hnd].
  destruct (in_use_count ids s Hset Hr) as (_ & _ & Hids & _).
  destruct (Hids pid Hin) as [Hrange Hnn].
  destruct (DestroyProxy_full _ s pid HI Hin)
    as (s' & E & HI' & _ & _ & _ & _ & _ & _ & _ & _ & _ & Hlb & Hub & _).
  exists s'. split; [done|].
  assert (in_pool (proxyPool s') pid) as Hp.
  { unfold in_pool. rewrite (inv_pool _ _ HI'). lia. }
  assert (js_get (bounds_of axis0 s') invalid = None) as Hnone.
  { apply js_get_None. by rewrite (inv_bounds _ _ HI'). }
  split.
  - unfold DestroyProxy. rewrite (js_get_proxy_at _ _ Hp). cbn [mbind option_bind]. cbv zeta.
    unfold DestroyProxy_axis at 2. rewrite (js_get_proxy_at _ _ Hp). cbn [mbind option_bind].
    rewrite Hlb. cbn [sel fst]. by rewrite Hnone.
  - unfold MoveProxy.
    destruct (Z.eqb_spec pid b2_nullProxy); [done|].
    destruct (Z.leb_spec b2_maxProxies pid); [lia|]. cbn [orb].
    rewrite Hval. cbn [negb]. cbv zeta.
    unfold old_values. rewrite (js_get_proxy_at _ _ Hp). cbn [mbind option_bind].
    rewrite Hlb. cbn [sel fst]. by rewrite Hnone.
Qed.

(** ** The time stamp *)

Lemma tick_stamp_range s :
  1 ≤ m_timeStamp s ≤ 65535 → 1 ≤ m_timeStamp (tick s) ≤ 65535.
Proof. intros H. unfold tick. case_decide; cbn; lia. Qed.

Lemma reachable_stamp ids s :
  settings_ok → reachable ids s → 1 ≤ m_timeStamp s ≤ 65535.
Proof.
  intros Hset Hr.
  induction Hr as [w|ids s aabb data pid s' Hr IH HQ Hc|ids s pid s' Hr IH Hin Hd
                  |ids s pid aabb s' Hr IH Hin HQ Hm|ids s pid aabb s' Hr IH Hg Hm
                  |ids s aabb out maxCount n out' s' Hr IH Hq|ids s Hr IH].
  - cbn. lia.
  - destruct (reachable_Inv ids s Hset Hr) as [HI Hnd].
    assert (m_freeProxy s ≠ b2_nullProxy) as Hfree.
    { intros E. unfold CreateProxy in Hc. rewrite E in Hc.
      destruct (js_get (proxyPool s) b2_nullProxy) as [px|] eqn:Hg; [|done].
      apply js_get_Some in Hg. destruct Hset as [_ Hnull]. apply Hnull.
      rewrite <- (inv_pool _ _ HI). lia. }
    destruct (CreateProxy_full _ s aabb data HI Hfree HQ)
      as (s'' & E & _ & _ & _ & _ & _ & _ & _ & _ & _ & _ & _ & _ & Ht).
    rewrite E in Hc. injection Hc as <- <-. rewrite Ht. by apply tick_stamp_range.
  - destruct (reachable_Inv ids s Hset Hr) as [HI Hnd].
    destruct (DestroyProxy_full _ s pid HI Hin)
      as (s'' & E & _ & _ & _ & _ & _ & _ & _ & _ & _ & _ & _ & _ & Ht).
    rewrite E in Hd. injection Hd as <-. rewrite Ht. by apply tick_stamp_range.
  - destruct (reachable_Inv ids s Hset Hr) as [HI Hnd].
    destruct (MoveProxy_spec _ s pid aabb HI Hin HQ) as (s'' & E & _ & K & _).
    rewrite E in Hm. injection Hm as <-. by rewrite (kp_stamp _ _ K).
  - rewrite MoveProxy_rejected in Hm by done. by injection Hm as <-.
  - destruct (reachable_Inv ids s Hset Hr) as [HI Hnd].
    destruct (QueryAABB_full _ s aabb out maxCount HI)
      as (n' & o' & s'' & E & _ & _ & _ & _ & _ & _ & _ & _ & _ & _ & _ & _ & Ht).
    rewrite E in Hq. injection Hq as <- <- <-. rewrite Ht. by apply tick_stamp_range.
  - done.
Qed.

(** Between two operations the time stamp of the broad phase is within
    1 .. USHRT_MAX, the time stamp of every proxy of the pool lies
    below it, and no query result is pending. *)
Theorem timeStamp_range (ids : list Z) (s : BroadPhase) :
  settings_ok → reachable ids s →
  1 ≤ m_timeStamp s ≤ USHRT_MAX ∧
  (∀ p proxy, js_get (proxyPool s) p = Some proxy → timeStamp proxy < m_timeStamp s) ∧
  m_queryResultCount s = 0.
Proof.
  intros Hset Hr. destruct (reachable_Inv ids s Hset Hr) as [HI Hnd].
  split_and!; try apply (reachable_stamp ids s Hset Hr).
  - intros p proxy Hg. rewrite <- (proxy_at_Some _ _ _ Hg).
    apply (inv_stamps _ _ HI). by apply js_get_Some in Hg.
  - apply HI.
Qed.

(** ** The pairs CreateProxy and DestroyProxy report *)

(** The calls of the pair manager for the query results [rs]. *)
Definition buffered (f : Z → Z → PairManager → PairManager) (pid : Z) (rs : list Z)
    (pm : PairManager) : PairManager :=
  foldl (λ pm r, f pid r pm) pm rs.

Lemma buffer_results_list f pid s rs :
  m_queryResultCount s = Z.of_nat (length rs) →
  (∀ j r, rs !! j = Some r → js_read (m_queryResults s) (Z.of_nat j) = Some r) →
  buffer_results f pid s = Some (with_pairManager (buffered f pid rs (m_pairManager s)) s).
Proof.
  intros Hc Hr. unfold buffer_results.
  destruct (for_loop_inv
              (λ k (s' : BroadPhase),
                 s' = with_pairManager
                        (buffered f pid (take (Z.to_nat k) rs) (m_pairManager s)) s)
              0 (m_queryResultCount s)
              (λ i (s : BroadPhase), r ← js_read (m_queryResults s) i;
                 Some (with_pairManager (f pid r (m_pairManager s)) s)) s)
    as (s' & -> & ->).
  - lia.
  - cbn. by destruct s.
  - intros i s1 Hi ->. cbn [m_queryResults with_pairManager].
    destruct (lookup_lt_is_Some_2 rs (Z.to_nat i)) as [r Hri]; [lia|].
    pose proof (Hr _ _ Hri) as Hread. rewrite Z2Nat.id in Hread by lia.
    rewrite Hread. cbn [mbind option_bind]. eexists. split; [done|].
    replace (Z.to_nat (i + 1)) with (S (Z.to_nat i)) by lia.
    rewrite (take_S_r _ _ _ Hri). unfold buffered. rewrite foldl_app. done.
  - rewrite Hc, Nat2Z.id, firstn_all. done.
Qed.

Lemma marking_reindexed s0 pre sq a B' pool' :
  marking s0 pre sq → reindexed a (proxyPool sq) pool' →
  marking s0 pre (with_proxyPool pool' (with_bounds a B' sq)).
Proof.
  intros Hm Hri. split; cbn [proxyPool with_proxyPool with_bounds m_timeStamp
                            m_queryResultCount m_queryResults].
  - apply Hm.
  - rewrite (ri_len _ _ _ Hri). apply Hm.
  - intros p Hp. rewrite (ri_stamp _ _ _ Hri). apply (mk_le _ _ _ Hm).
    unfold in_pool in *. by rewrite <- (ri_len _ _ _ Hri).
  - intros p Hp. rewrite (ri_stamp _ _ _ Hri). apply (mk_seen _ _ _ Hm).
    unfold in_pool in *. by rewrite <- (ri_len _ _ _ Hri).
  - intros p. rewrite (ri_data _ _ _ Hri). apply Hm.
  - apply Hm.
  - apply Hm.
  - apply Hm.
Qed.

(** What one generation of marks leaves in the result buffer. *)
Record results (s0 : BroadPhase) (rs : list Z) (s : BroadPhase) : Prop := {
  rs_count : m_queryResultCount s = m_queryResultCount s0 + Z.of_nat (length rs);
  rs_read : ∀ j r, rs !! j = Some r →
              js_read (m_queryResults s) (m_queryResultCount s0 + Z.of_nat j) = Some r;
  rs_pm : m_pairManager s = m_pairManager s0
}.

Lemma results_marks s0 pre ids rs s s' :
  0 ≤ m_queryResultCount s0 → marking s0 pre s → results s0 rs s →
  (∀ id, id ∈ ids → in_pool (proxyPool s0) id) →
  marks ids s = Some s' →
  marking s0 (pre ++ ids) s' ∧ results s0 (rs ++ seconds pre ids) s'.
Proof.
  intros Hc0 Hm [Hc Hr Hp] Hin Hmarks.
  split; [by apply (marking_marks s0 ids pre s s')|].
  destruct (marks_results s0 ids pre s s' Hc0 Hm Hin Hmarks) as (Hc' & Hnew & Hold).
  split.
  - rewrite Hc', Hc, length_app. lia.
  - intros j r Hj. apply lookup_app_Some in Hj as [Hj|[Hge Hj]].
    + rewrite Hold; [by apply Hr|]. apply lookup_lt_Some in Hj. lia.
    + specialize (Hnew _ _ Hj). rewrite Hc in Hnew.
      replace (m_queryResultCount s0 + Z.of_nat j)
        with (m_queryResultCount s0 + Z.of_nat (length rs) + Z.of_nat (j - length rs)) by lia.
      done.
  - rewrite <- Hp.
    destruct (marks_marked_from ids s (marks_Some _ _ _ Hmarks)) as (s1 & E1 & Hmf).
    rewrite E1 in Hmarks. injection Hmarks as <-. apply Hmf.
Qed.

Lemma results_reindexed s0 rs sq a B' pool' :
  results s0 rs sq → results s0 rs (with_proxyPool pool' (with_bounds a B' sq)).
Proof. intros [H1 H2 H3]. by split. Qed.

Lemma filter_nil_pre (ids : list Z) : filter (λ r, r ∈ @nil Z) ids = [].
Proof. induction ids as [|x l IH]; [done|]. rewrite filter_cons_False; set_solver. Qed.


Lemma tick_pm s : m_pairManager (tick s) = m_pairManager s.
Proof. unfold tick. by case_decide. Qed.



Lemma TestOverlapValidate_live p1 p2 s L :
  Inv L s → L p1 → L p2 →
  TestOverlapValidate p1 p2 s
  = Some (((valof axis0 s p1 true <=? valof axis0 s p2 false)
           && (valof axis0 s p2 true <=? valof axis0 s p1 false))
          && ((valof axis1 s p1 true <=? valof axis1 s p2 false)
              && (valof axis1 s p2 true <=? valof axis1 s p1 false))).
Proof.
  intros HI H1 H2. unfold TestOverlapValidate.
  rewrite !(TestOverlapValidate_axis_live _ _ _ _ _ _ (inv_axis _ _ HI _) H1 H2).
  cbn [mbind option_bind]. by destruct (_ && _).
Qed.

(** The interval of a proxy in use: an even value below an odd one. *)
Lemma interval_live a s bc L p :
  sorted_inv a (bounds_of a s) bc (proxyPool s) L → L p →
  valof a s p true < valof a s p false ∧
  Z.land (valof a s p true) 1 = 0 ∧ Z.land (valof a s p false) 1 = 1.
Proof.
  intros HI HL.
  destruct (ai_proxy _ _ _ _ _ _ _ HI p HL) as (_ & H0 & Hlu & Hu & _ & Hl2 & _ & Hu2).
  assert (valof a s p true ≤ valof a s p false) as Hle
    by (apply (sorted_inv_sorted _ _ _ _ _ HI); lia).
  unfold valof in *.
  pose proof (IsLower_parity (bound_at (bounds_of a s) (ptr a true (proxy_at (proxyPool s) p))))
    as P1.
  pose proof (IsLower_parity (bound_at (bounds_of a s) (ptr a false (proxy_at (proxyPool s) p))))
    as P2.
  rewrite Hl2 in P1. rewrite Hu2 in P2. split_and!; try done.
  destruct (decide (value (bound_at (bounds_of a s) (ptr a true (proxy_at (proxyPool s) p)))
                    = value (bound_at (bounds_of a s) (ptr a false (proxy_at (proxyPool s) p)))))
    as [E|]; [|lia].
  rewrite E in P1. congruence.
Qed.

(** One axis of [DestroyProxy] within a generation of marks. *)
Lemma DestroyProxy_axis_results a pid bc s L s0 pre rs s' :
  sorted_inv a (bounds_of a s) bc (proxyPool s) L → L pid →
  0 ≤ m_queryResultCount s0 → marking s0 pre s → results s0 rs s →
  DestroyProxy_axis pid bc a s = Some s' →
  ∃ idsq, NoDup idsq ∧
    (∀ id, id ∈ idsq ↔
       (L id ∧ id ≠ pid) ∧ valof a s pid true ≤ valof a s id false
                         ∧ valof a s id true ≤ valof a s pid false) ∧
    marking s0 (pre ++ idsq) s' ∧ results s0 (rs ++ seconds pre idsq) s'.
Proof.
  intros HI HL Hc0 Hm Hrs E.
  destruct (DestroyProxy_axis_spec a pid bc s L HI HL)
    as (B' & pool' & lq & uq & sq & E' & HlenB & Hri & HI' & Hmarks & Hmf & HinL & Hv
        & Rl & Ru).
  rewrite E' in E. injection E as <-.
  destruct (interval_live a s bc L pid HI HL) as (Hlt & Hev & Hodd).
  set (idsq := query_ids B' a pool' lq uq) in *.
  assert (∀ id, id ∈ idsq → in_pool (proxyPool s0) id) as Hin0.
  { intros id Hid. destruct (ai_proxy _ _ _ _ _ _ _ HI' id (HinL id Hid)) as [Hin _].
    unfold in_pool in *. by rewrite <- (mk_len _ _ _ Hm), <- (ri_len _ _ _ Hri). }
  exists idsq. split_and!.
  - apply (NoDup_query_ids HI'); destruct Rl, Ru; lia.
  - intros id. unfold idsq.
    rewrite (query_ids_exact a _ _ _ _ _ _ lq uq id HI' Rl Ru Hlt Hev Hodd).
    split.
    + intros ([Hid Hne] & H1 & H2). rewrite !Hv in H1, H2 by done. done.
    + intros ([Hid Hne] & H1 & H2). rewrite !Hv by done. done.
  - apply (marking_marks s0 idsq pre (with_proxyPool pool' (with_bounds a B' s)) sq);
      try done.
    by apply marking_reindexed.
  - apply (results_marks s0 pre idsq rs (with_proxyPool pool' (with_bounds a B' s)) sq);
      try done; [by apply marking_reindexed|by apply results_reindexed].
Qed.

(** [DestroyProxy] buffers one removed pair for each other proxy in use
    whose interval meets the interval of the destroyed proxy on both
    axes, the proxies [TestOverlapValidate] accepts, each once, and
    then commits. *)
Theorem DestroyProxy_buffers_pairs (ids : list Z) (s : BroadPhase) (pid : Z) :
  settings_ok → reachable ids s → pid ∈ ids →
  ∃ s' rs, DestroyProxy pid s = Some s' ∧
    NoDup rs ∧
    (∀ p, p ∈ rs ↔ p ∈ ids ∧ p ≠ pid ∧ TestOverlapValidate pid p s = Some true) ∧
    m_pairManager s'
    = snd (PairManager_Commit (buffered RemoveBufferedPair pid rs (m_pairManager s))).
Proof.
  intros Hset Hr HL. destruct (reachable_Inv ids s Hset Hr) as [HI Hnd0].
  pose proof HI as [Hpool Hblen Hax (fl & Hch & Hnd & HflL & Hcnt) Hst Hres].
  destruct (ai_proxy _ _ _ _ _ _ _ (Hax axis0) pid HL) as (Hin & _).
  set (bc := 2 * m_proxyCount s) in *.
  assert (results_ok s) as Hr0 by (split; rewrite Hres; [done|lia]).
  assert (stamps_le s) as Hs0 by (intros p Hp; specialize (Hst p Hp); lia).
  unfold DestroyProxy. rewrite (js_get_proxy_at _ _ Hin). cbn [mbind option_bind]. cbv zeta.
  fold bc.
  destruct (DestroyProxy_axis_step axis0 pid bc bc s (λ p, p ∈ ids) (λ p, p ∈ ids))
    as (s1 & E1 & I0 & I1 & K1 & R1 & S1 & V1 & W1 & _); try done; [apply Hax..|].
  assert (0 ≤ m_queryResultCount s) as Hc0 by lia.
  assert (marking s [] s) as Hm0 by (apply marking_start; by eapply Inv_fresh).
  assert (results s [] s) as Hrs0 by (split; [cbn; lia|done|done]).
  destruct (DestroyProxy_axis_results axis0 pid bc s (λ p, p ∈ ids) s [] [] s1
              (Hax axis0) HL Hc0 Hm0 Hrs0 E1)
    as (ids0 & Hnd0' & Hids0 & Hm1 & Hrs1).
  rewrite E1. cbn [mbind option_bind]. cbn [other] in I1, W1.
  destruct (DestroyProxy_axis_step axis1 pid bc (bc - 2) s1 (λ p, p ∈ ids)
              (λ p, p ∈ ids ∧ p ≠ pid))
    as (s2 & E2 & J1 & J0 & K2 & R2 & S2 & _); try done.
  destruct (DestroyProxy_axis_results axis1 pid bc s1 (λ p, p ∈ ids) s ([] ++ ids0)
              ([] ++ seconds [] ids0) s2 I1 HL Hc0 Hm1 Hrs1 E2)
    as (ids1 & Hnd1 & Hids1 & Hm2 & Hrs2).
  rewrite E2. cbn [mbind option_bind].
  rewrite seconds_NoDup, filter_nil_pre in Hrs2 by done.
  cbn [app] in Hrs2. rewrite seconds_NoDup in Hrs2 by done.
  set (rs := filter (λ r, r ∈ ids0) ids1) in *.
  destruct Hrs2 as [Hc2 Hread2 Hpm2]. rewrite Hres in Hc2, Hread2.
  rewrite (buffer_results_list RemoveBufferedPair pid _ rs).
  2:{ lia. }
  2:{ intros j r Hj. by apply Hread2. }
  cbn [mbind option_bind].
  pose proof (kept_trans _ _ _ K1 K2) as K.
  rewrite IncrementTimeStamp_tick by (cbn; rewrite (kp_len _ _ K); lia).
  cbn [mbind option_bind].
  set (s3 := with_queryResults _ 0 _).
  assert (proxyPool s3 = proxyPool s2) as E3 by done.
  assert (in_pool (proxyPool (tick s3)) pid) as Hin3.
  { unfold in_pool in *. rewrite tick_length, E3, (kp_len _ _ K). done. }
  do 7 upd_step.
  eexists. exists rs. split; [done|]. split_and!.
  - by apply NoDup_filter.
  - intros p. unfold rs. rewrite list_elem_of_filter, Hids0, Hids1.
    rewrite !W1. split.
    + intros [([Hp Hne] & H0l & H0u) (_ & H1l & H1u)]. split; [done|]. split; [done|].
      rewrite (TestOverlapValidate_live _ _ _ _ HI HL Hp).
      rewrite !(proj2 (Z.leb_le _ _)); done.
    + intros (Hp & Hne & Ht). rewrite (TestOverlapValidate_live _ _ _ _ HI HL Hp) in Ht.
      injection Ht as Ht.
      apply andb_prop in Ht as [[H0l H0u]%andb_prop [H1l H1u]%andb_prop].
      apply Z.leb_le in H0l, H0u, H1l, H1u. done.
  - cbn [m_pairManager with_proxyCount with_freeProxy with_proxyPool].
    rewrite tick_pm. unfold s3. cbn. by rewrite Hpm2.
Qed.

(** ** A move that changes no value *)

Lemma js_put_same (bs : list Bound) i :
  0 ≤ i < Z.of_nat (length bs) → js_put bs i (bound_at bs i) = bs.
Proof.
  intros Hi. apply js_ext. intros j. destruct (decide (i = j)) as [<-|Hne].
  - by rewrite js_get_put_eq, js_get_bound_at.
  - by rewrite js_get_put_ne.
Qed.

Lemma MoveProxy_axis_same pid nv ov bc a s L :
  sorted_inv a (bounds_of a s) bc (proxyPool s) L → L pid →
  bc ≤ Z.of_nat (length (bounds_of a s)) →
  valof a s pid true = sel a (fst nv) → valof a s pid false = sel a (snd nv) →
  MoveProxy_axis pid nv ov bc a s = Some s.
Proof.
  intros HI HL Hlen El Eu. unfold valof, ptr in El, Eu.
  destruct (ai_proxy _ _ _ _ _ _ _ HI pid HL) as (Hin & H0 & Hlu & Hu & _).
  unfold ptr in *.
  unfold MoveProxy_axis. rewrite (js_get_proxy_at _ _ Hin). cbn [mbind option_bind]. cbv zeta.
  rewrite !(js_get_bound_at (bounds_of a s)) by lia. cbn [mbind option_bind].
  rewrite <- El, <- Eu, !Z.sub_diag.
  rewrite upd_bound_in by lia. cbn [mbind option_bind].
  assert (∀ b, set_value (value b) b = b) as Hsv by (by intros []).
  rewrite Hsv, js_put_same, with_bounds_same by lia.
  rewrite upd_bound_in by lia. cbn [mbind option_bind].
  rewrite Hsv, js_put_same, with_bounds_same by lia.
  done.
Qed.

(** A move to a box with the quantized values the proxy has already
    changes nothing: the state, with its pair manager, stays as it is. *)
Theorem MoveProxy_same_values (ids : list Z) (s : BroadPhase) (pid : Z) (aabb : AABB) :
  settings_ok → reachable ids s → pid ∈ ids →
  (∀ a, valof a s pid true = sel a (fst (ComputeBounds aabb s)) ∧
        valof a s pid false = sel a (snd (ComputeBounds aabb s))) →
  MoveProxy pid aabb s = Some s.
Proof.
  intros Hset Hr Hin Hv. destruct (reachable_Inv ids s Hset Hr) as [HI Hnd].
  unfold MoveProxy.
  destruct (_ || _); [done|]. destruct (negb _); [done|]. cbv zeta.
  destruct (old_values_total _ s pid HI Hin) as [ov ->]. cbn [mbind option_bind].
  pose proof (ai_range _ _ _ _ _ _ _ (inv_axis _ _ HI axis0)) as R0.
  pose proof (ai_range _ _ _ _ _ _ _ (inv_axis _ _ HI axis1)) as R1.
  rewrite (MoveProxy_axis_same pid _ ov _ axis0 s _ (inv_axis _ _ HI axis0) Hin);
    [|lia|apply Hv..].
  cbn [mbind option_bind].
  rewrite (MoveProxy_axis_same pid _ ov _ axis1 s _ (inv_axis _ _ HI axis1) Hin);
    [done|lia|apply Hv..].
Qed.

(** Moving a proxy twice to the same box is moving it once. *)
Theorem MoveProxy_idempotent (ids : list Z) (s : BroadPhase) (pid : Z) (aabb : AABB) :
  settings_ok → reachable ids s → pid ∈ ids → quantizes aabb s →
  ∃ s', MoveProxy pid aabb s = Some s' ∧ MoveProxy pid aabb s' = Some s'.
Proof.
  intros Hset Hr Hin HQ. destruct (reachable_Inv ids s Hset Hr) as [HI Hnd].
  destruct (in_use_count ids s Hset Hr) as (_ & _ & Hids & _).
  destruct (MoveProxy_spec _ s pid aabb HI Hin HQ) as (s' & E & HI' & K & Ho & Hn & Hc).
  exists s'. split; [done|].
  destruct (AABB_IsValid aabb) eqn:Hval.
  - pose proof (reach_move ids s pid aabb s' Hr Hin HQ E) as Hr'.
    destruct (reachable_Inv ids s' Hset Hr') as [HI'' _].
    unfold MoveProxy.
    destruct (_ || _); [done|]. rewrite Hval. cbn [negb]. cbv zeta.
    destruct (old_values_total _ s' pid HI'' Hin) as [ov ->]. cbn [mbind option_bind].
    pose proof (ai_range _ _ _ _ _ _ _ (inv_axis _ _ HI'' axis0)) as R0.
    pose proof (ai_range _ _ _ _ _ _ _ (inv_axis _ _ HI'' axis1)) as R1.
    specialize (Hn (proj2 (Hids pid Hin)) eq_refl).
    rewrite (ComputeBounds_ext aabb s s' (kp_world _ _ K) (kp_factor _ _ K)).
    rewrite (MoveProxy_axis_same pid _ ov _ axis0 s' _ (inv_axis _ _ HI'' axis0) Hin);
      [|lia|rewrite ?sel_ComputeBounds_fst, ?sel_ComputeBounds_snd; apply Hn..].
    cbn [mbind option_bind].
    rewrite (MoveProxy_axis_same pid _ ov _ axis1 s' _ (inv_axis _ _ HI'' axis1) Hin);
      [done|lia|rewrite ?sel_ComputeBounds_fst, ?sel_ComputeBounds_snd; apply Hn..].
  - unfold MoveProxy in E |- *. rewrite Hval in E |- *. cbn [negb] in *.
    destruct (_ || _); by injection E as <-.
Qed.

(** ** The pairs MoveProxy reports *)

(** The values [b] meet the interval of proxy [q] on both axes. *)
Definition hits (b : (Z * Z) * (Z * Z)) (s : BroadPhase) (q : Z) : Prop :=
  ∀ ax, sel ax (fst b) ≤ valof ax s q false ∧ valof ax s q true ≤ sel ax (snd b).

Lemma TestOverlap_axis_any e1 e2 a b p s bc L :
  axis_inv e1 e2 a (bounds_of a s) bc (proxyPool s) L → L p →
  TestOverlap_axis a b p s
  = Some ((sel a (fst b) <=? valof a s p false) && (valof a s p true <=? sel a (snd b))).
Proof.
  intros HI HL. pose proof (ai_range _ _ _ _ _ _ _ HI) as Hbc.
  destruct (ai_proxy _ _ _ _ _ _ _ HI p HL) as (Hin & H0 & Hlu & Hu & _).
  unfold TestOverlap_axis, valof, ptr in *. rewrite (js_get_proxy_at _ _ Hin).
  cbn [mbind option_bind].
  rewrite !(js_get_bound_at (bounds_of a s)) by lia. cbn [mbind option_bind].
  rewrite Z.gtb_ltb.
  destruct (Z.ltb_spec (value (bound_at (bounds_of a s)
                                 (sel a (upperBounds (proxy_at (proxyPool s) p)))))
                       (sel a (fst b))) as [H1|H1].
  - rewrite (proj2 (Z.leb_gt _ _)) by lia. done.
  - rewrite (proj2 (Z.leb_le _ _)) by lia. cbn [andb].
    destruct (Z.ltb_spec (sel a (snd b))
                (value (bound_at (bounds_of a s)
                          (sel a (lowerBounds (proxy_at (proxyPool s) p)))))) as [H2|H2].
    + by rewrite (proj2 (Z.leb_gt _ _)) by lia.
    + by rewrite (proj2 (Z.leb_le _ _)) by lia.
Qed.

(** [TestOverlap] accepts the proxies in use that the values hit, also
    while a bound of another proxy is on its way. *)
Lemma TestOverlap_hits e1 e2 e3 e4 a bc bc' b p s L :
  axis_inv e1 e2 a (bounds_of a s) bc (proxyPool s) L →
  axis_inv e3 e4 (other a) (bounds_of (other a) s) bc' (proxyPool s) L → L p →
  TestOverlap b p s = Some true ↔ hits b s p.
Proof.
  intros HI HO HL.
  assert (∀ ax, TestOverlap_axis ax b p s
                = Some ((sel ax (fst b) <=? valof ax s p false)
                        && (valof ax s p true <=? sel ax (snd b)))) as Hax.
  { intros ax. destruct (decide (ax = a)) as [->|Hne].
    - by apply (TestOverlap_axis_any e1 e2 a b p s bc L).
    - replace ax with (other a) by (by destruct a, ax).
      by apply (TestOverlap_axis_any e3 e4 (other a) b p s bc' L). }
  unfold TestOverlap, hits. rewrite !Hax. cbn [mbind option_bind]. split.
  - intros Ht. destruct (_ && _) eqn:E0 in Ht; [|done]. injection Ht as Ht.
    apply andb_prop in E0 as [H0l H0u]. apply andb_prop in Ht as [H1l H1u].
    apply Z.leb_le in H0l, H0u, H1l, H1u. by intros [].
  - intros H. destruct (H axis0) as [H0l H0u]. destruct (H axis1) as [H1l H1u].
    by rewrite !(proj2 (Z.leb_le _ _)).
Qed.

(** The lower bound of [p] is left of the upper bound of [q]. *)
Definition before (a : Axis) (s : BroadPhase) (p q : Z) : Prop :=
  ptr a true (proxy_at (proxyPool s) p) < ptr a false (proxy_at (proxyPool s) q).

(** What the bound of role [rm] of the mover [pid] can change for [q]
    as it moves: the lower bound of the mover is left of the upper bound
    of [q], or the lower bound of [q] is left of the upper bound of the
    mover. *)
Definition facing (a : Axis) (s : BroadPhase) (pid : Z) (rm : bool) (q : Z) : Prop :=
  if rm then before a s pid q else before a s q pid.

(** The direction in which a bound of the mover comes to face more
    proxies: down for its lower bound, up for its upper bound. *)
Definition outward (rm : bool) : Z := if rm then -1 else 1.

Lemma crossed_facing a s s' bc L k d o pid rm :
  axis_inv k o a (bounds_of a s) bc (proxyPool s) L → L pid →
  k = ptr a rm (proxy_at (proxyPool s) pid) →
  o = ptr a (negb rm) (proxy_at (proxyPool s) pid) →
  0 ≤ k + d < bc → d = -1 ∨ d = 1 → k + d ≠ o →
  crossed a k (k + d) pid rm s s' →
  let n := bound_at (bounds_of a s) (k + d) in
  L (proxyId n) ∧ proxyId n ≠ pid ∧
  (IsLower n = negb rm →
     (facing a s pid rm (proxyId n) ↔ d = - outward rm) ∧
     (facing a s' pid rm (proxyId n) ↔ d = outward rm)) ∧
  (∀ q ρ, L q → q ≠ pid → ¬ (ρ = rm ∧ q = proxyId n ∧ IsLower n = negb rm) →
     facing a s' pid ρ q ↔ facing a s pid ρ q).
Proof.
  intros HI HL Hk Ho Hk' Hd Hko [pm ->] n.
  assert (k + d = k - 1 ∨ k + d = k + 1) as Hadj by lia.
  pose proof (cross_mover a _ bc _ L k (k + d) o pid rm HI HL Hk Ho Hk' Hadj Hko)
    as (Hkr & Hor & Hkne & Hin & Hmk & Hml & Hok & Hol & Hord).
  pose proof (cross_neighbour a _ bc _ L k (k + d) o pid rm HI HL Hk Ho Hk' Hadj Hko)
    as (Hne & Hinn & HLn & Hpn).
  pose proof (cross_ptr a _ bc _ L k (k + d) o pid rm HI HL Hk Ho Hk' Hadj Hko) as Hptr.
  fold n in Hne, Hinn, HLn, Hpn, Hptr.
  assert (∀ q r, L q → q ≠ pid →
            ptr a r (proxy_at (proxyPool s) q) ≠ k ∧ ptr a r (proxy_at (proxyPool s) q) ≠ o ∧
            (ptr a r (proxy_at (proxyPool s) q) = k + d → q = proxyId n ∧ r = IsLower n))
    as Hq.
  { intros q r Hq Hne'.
    destruct (ai_proxy _ _ _ _ _ _ _ HI q Hq) as (_ & _ & _ & _ & Hl1 & Hl2 & Hu1 & Hu2).
    assert (proxyId (bound_at (bounds_of a s) (ptr a r (proxy_at (proxyPool s) q))) = q ∧
            IsLower (bound_at (bounds_of a s) (ptr a r (proxy_at (proxyPool s) q))) = r)
      as [Hid Hrole] by (by destruct r).
    split_and!; intros E; rewrite E in Hid, Hrole; [congruence..|]. by fold n in Hid, Hrole. }
  split; [done|]. split; [done|].
  unfold facing, before. cbn [proxyPool with_pairManager with_proxyPool with_bounds]. split.
  - intros Hrole. rewrite Hrole in Hpn. rewrite !Hptr.
    destruct rm; cbn [negb outward] in *.
    + rewrite decide_True by done. rewrite decide_False by (by intros [? _]).
      rewrite decide_True by done. rewrite <- Hk, Hpn. lia.
    + rewrite decide_False by (by intros [? _]). rewrite decide_True by done.
      rewrite decide_True by done. rewrite <- Hk, Hpn. lia.
  - intros q ρ HLq Hneq Hnot.
    destruct (Hq q true HLq Hneq) as (Q1 & Q2 & Q3).
    destruct (Hq q false HLq Hneq) as (Q4 & Q5 & Q6).
    assert (ptr a (IsLower n) (proxy_at (proxyPool s) q) = k + d ∨ q ≠ proxyId n) as Hqn
      by (destruct (decide (q = proxyId n)) as [->|]; [by left|by right]).
    rewrite !Hptr. clear Hptr Hq.
    destruct ρ, rm; cbn [negb] in *.
    all: rewrite ?(decide_True (P := pid = pid ∧ true = true)) by done.
    all: rewrite ?(decide_True (P := pid = pid ∧ false = false)) by done.
    all: rewrite ?(decide_False (P := pid = pid ∧ true = false)) by (by intros [_ ?]).
    all: rewrite ?(decide_False (P := pid = pid ∧ false = true)) by (by intros [_ ?]).
    all: rewrite ?(decide_False (P := q = pid ∧ _)) by (by intros [? _]).
    all: rewrite ?(decide_False (P := pid = proxyId n ∧ _)) by (by intros [? _]).
    all: case_decide as Hc; [destruct Hc as [Hc1 Hc2]|]; try lia.
    all: try (exfalso; apply Hnot; by rewrite <- Hc2).
    all: try (rewrite <- Hc2 in Hqn; destruct Hqn as [Hqn|]; [|done]; lia).
    all: rewrite <- ?Hk, <- ?Ho.
    + assert (ptr a false (proxy_at (proxyPool s) q) ≠ k + d)
        by (intros E; by apply Hc, Q6).
      lia.
    + assert (ptr a true (proxy_at (proxyPool s) q) ≠ k + d)
        by (intros E; by apply Hc, Q3).
      lia.
Qed.

(** One call of the pair manager for the mover [pid]: [(true, q)] is
    [AddBufferedPair(pid, q)], [(false, q)] is
    [RemoveBufferedPair(pid, q)]. *)
Definition buffer_event (pid : Z) (pm : PairManager) (e : bool * Z) : PairManager :=
  if fst e then AddBufferedPair pid (snd e) pm else RemoveBufferedPair pid (snd e) pm.

(** How far the new value takes the bound of role [rm] of the mover
    outward. *)
Definition gain (a : Axis) (nv : (Z * Z) * (Z * Z)) (s0 : BroadPhase) (pid : Z)
    (rm : bool) : Z :=
  outward rm * (sel a (if rm then fst nv else snd nv) - valof a s0 pid rm).

(** [P] has become true ([c = true]) or has become false. *)
Definition turned (c : bool) (P0 P : Prop) : Prop :=
  if c then ¬ P0 ∧ P else P0 ∧ ¬ P.

Lemma turned_iff c (P0 P P' : Prop) : (P' ↔ P) → turned c P0 P' ↔ turned c P0 P.
Proof. unfold turned. destruct c; tauto. Qed.

(** The calls [evs] of the pair manager since [MoveProxy] began its
    work on axis [a] in state [s0]: a pair is added for a proxy the new
    values hit that the mover has come to face, and removed for a proxy
    the old values hit that the mover faces no more. *)
Definition traced (a : Axis) (pid : Z) (L : Z → Prop) (nv ov : (Z * Z) * (Z * Z))
    (s0 s : BroadPhase) (evs : list (bool * Z)) : Prop :=
  m_pairManager s = foldl (buffer_event pid) (m_pairManager s0) evs ∧
  (∀ q b r, L q → q ≠ pid → valof b s q r = valof b s0 q r) ∧
  (∀ q ρ, L q → q ≠ pid →
     (0 ≤ gain a nv s0 pid ρ → facing a s0 pid ρ q → facing a s pid ρ q) ∧
     (gain a nv s0 pid ρ ≤ 0 → facing a s pid ρ q → facing a s0 pid ρ q)) ∧
  (∀ (c : bool) (q : Z), (c, q) ∈ evs ↔
     L q ∧ q ≠ pid ∧ hits (if c then nv else ov) s0 q ∧
     ∃ ρ, turned c (facing a s0 pid ρ q) (facing a s pid ρ q)).

Lemma traced_keeps a pid bc L nv ov s0 rm (add : bool) :
  (if add then 0 < gain a nv s0 pid rm else gain a nv s0 pid rm < 0) →
  keeps (λ s, ∃ evs, traced a pid L nv ov s0 s evs) a pid bc L rm
    (if add then outward rm else - outward rm)
    (if add then AddBufferedPair else RemoveBufferedPair) (negb rm)
    (if add then nv else ov).
Proof.
  intros Hg s k o s' HI HO HL Hk Ho Hk' Hko Hcr Hpm (evs & Epm & Hv & Hm & He).
  set (d := if add then outward rm else - outward rm) in *.
  assert (d = -1 ∨ d = 1) as Hd by (unfold d, outward; destruct add, rm; lia).
  destruct (crossed_facing a s s' bc L k d o pid rm HI HL Hk Ho Hk' Hd Hko Hcr)
    as (HLn & Hne & Hflip & Hsame).
  destruct (walking_crossed a pid rm bc bc L (-1) (-1) (value (bound_at (bounds_of a s) k))
              (value (bound_at (bounds_of a s) o)) k (k + d) o s s')
    as (_ & M & _ & V); [by split|lia|lia|done|done|].
  assert (∀ q b r, L q → valof b s' q r = valof b s q r) as Hv'.
  { intros q b r Hq. destruct (decide (b = a)) as [->|Hb]; [by apply V|].
    replace b with (other a) by (by destruct a, b). by apply moved_valof_other. }
  set (n := bound_at (bounds_of a s) (k + d)) in *. set (q' := proxyId n) in *.
  unfold pm_crossed in Hpm. cbv zeta in Hpm. fold n q' in Hpm.
  set (vals := if add then nv else ov) in *.
  assert (TestOverlap vals q' s = Some true ↔ hits vals s0 q') as Hhit.
  { rewrite (TestOverlap_hits k o (-1) (-1) a bc bc vals q' s L HI HO HLn).
    unfold hits. by setoid_rewrite (Hv q' _ _ HLn Hne). }
  assert (∀ q b r, L q → q ≠ pid → valof b s' q r = valof b s0 q r) as Hv2.
  { intros q b r Hq Hneq. rewrite Hv' by done. by apply Hv. }
  destruct (decide (IsLower n = negb rm)) as [Hrole|Hrole].
  2:{ (* a bound of the same role: nothing to report *)
    assert (∀ q ρ, L q → q ≠ pid → facing a s' pid ρ q ↔ facing a s pid ρ q) as Hs.
    { intros q ρ Hq Hneq. apply Hsame; [done..|]. by intros (_ & _ & ?). }
    exists evs. split_and!; [by rewrite Hpm|done| |].
    - intros q ρ Hq Hneq. rewrite (Hs q ρ Hq Hneq). by apply Hm.
    - intros c q. rewrite He. split; intros (Hq & Hneq & Hh & ρ & Ht);
        (split_and!; [done..|]); exists ρ;
        by apply (turned_iff _ _ _ _ (Hs q ρ Hq Hneq)). }
  destruct (Hflip Hrole) as [Hbef Haft].
  (* the position of the mover and the neighbour before and after *)
  assert (turned add (facing a s pid rm q') (facing a s' pid rm q')) as Hturn.
  { unfold turned. subst d. destruct add; split.
    - intros H%Hbef. unfold outward in H. destruct rm; lia.
    - by apply Haft.
    - by apply Hbef.
    - intros H%Haft. unfold outward in H. destruct rm; lia. }
  assert (facing a s0 pid rm q' ↔ facing a s pid rm q') as H0.
  { destruct (Hm q' rm HLn Hne) as [Hm1 Hm2].
    unfold turned in Hturn. destruct add; split; intros HF; try tauto.
    - exfalso. apply (proj1 Hturn). apply Hm1; [lia|done].
    - apply Hm2; [lia|done]. }
  assert (∀ q ρ, L q → q ≠ pid → ¬ (ρ = rm ∧ q = q') →
            facing a s' pid ρ q ↔ facing a s pid ρ q) as Hs.
  { intros q ρ Hq Hneq Hn. apply Hsame; [done..|]. by intros (? & ? & _); apply Hn. }
  set (h := match TestOverlap vals q' s with Some true => true | _ => false end).
  assert (h = true ↔ hits vals s0 q') as Hh.
  { rewrite <- Hhit. unfold h. destruct (TestOverlap vals q' s) as [[|]|]; naive_solver. }
  exists (evs ++ (if h then [(add, q')] else [])). split_and!.
  - rewrite foldl_app, <- Epm, Hpm. unfold h.
    destruct (TestOverlap vals q' s) as [[|]|]; [|done..].
    cbn. unfold buffer_event. cbn. by destruct add.
  - done.
  - intros q ρ Hq Hneq. destruct (decide (ρ = rm ∧ q = q')) as [[-> ->]|Hn].
    + destruct (Hm q' rm HLn Hne) as [Hm1 Hm2]. unfold turned in Hturn.
      destruct add; split; intros HG HF; try lia; tauto.
    + rewrite (Hs q ρ Hq Hneq Hn). by apply Hm.
  - intros c q. rewrite elem_of_app, He. split.
    + intros [(Hq & Hneq & Hhq & ρ & Ht)|Hnew].
      * split_and!; [done..|]. exists ρ.
        destruct (decide (ρ = rm ∧ q = q')) as [[-> ->]|Hn].
        -- exfalso. unfold turned in Ht, Hturn. destruct c, add; tauto.
        -- by apply (turned_iff _ _ _ _ (Hs q ρ Hq Hneq Hn)).
      * destruct h eqn:Eh; [|by apply elem_of_nil in Hnew].
        apply list_elem_of_singleton in Hnew. injection Hnew as -> ->.
        split_and!; [done|done|by apply Hh|]. exists rm.
        unfold turned in *. destruct add; tauto.
    + intros (Hq & Hneq & Hhq & ρ & Ht).
      destruct (decide (ρ = rm ∧ q = q')) as [[-> ->]|Hn].
      * right. assert (c = add) as ->.
        { unfold turned in Ht, Hturn. destruct c, add; tauto. }
        rewrite (proj2 Hh Hhq). apply list_elem_of_singleton. done.
      * left. split_and!; [done..|]. exists ρ.
        by apply (turned_iff _ _ _ _ (Hs q ρ Hq Hneq Hn)).
Qed.

(** In a sorted array the positions of a lower and an upper bound are
    ordered as their values are. *)
Lemma before_sorted a s bc L p q :
  sorted_inv a (bounds_of a s) bc (proxyPool s) L → L p → L q →
  before a s p q ↔ valof a s p true < valof a s q false.
Proof.
  intros HI Hp Hq. unfold before, valof.
  destruct (ai_proxy _ _ _ _ _ _ _ HI p Hp) as (_ & Hp0 & Hplu & Hpu & _ & Hpl & _ & _).
  destruct (ai_proxy _ _ _ _ _ _ _ HI q Hq) as (_ & Hq0 & Hqlu & Hqu & _ & _ & _ & Hql).
  set (i := ptr a true (proxy_at (proxyPool s) p)) in *.
  set (j := ptr a false (proxy_at (proxyPool s) q)) in *.
  pose proof (IsLower_parity (bound_at (bounds_of a s) i)) as Pi. rewrite Hpl in Pi.
  pose proof (IsLower_parity (bound_at (bounds_of a s) j)) as Pj. rewrite Hql in Pj.
  assert (value (bound_at (bounds_of a s) i) ≠ value (bound_at (bounds_of a s) j)) as Hne
    by (intros E; rewrite E in Pi; congruence).
  assert (i ≠ j) as Hij by (intros E; rewrite E in Hne; done).
  split.
  - intros Hlt.
    pose proof (ai_sorted _ _ _ _ _ _ _ HI i j
                  ltac:(lia) ltac:(lia) ltac:(lia) ltac:(lia) ltac:(lia) ltac:(lia) ltac:(lia)).
    lia.
  - intros Hlt. destruct (Z.lt_ge_cases i j) as [|Hge]; [done|].
    pose proof (ai_sorted _ _ _ _ _ _ _ HI j i
                  ltac:(lia) ltac:(lia) ltac:(lia) ltac:(lia) ltac:(lia) ltac:(lia) ltac:(lia)).
    lia.
Qed.

(** The interval of [q] meets the interval from [lo] to [hi] on axis
    [a]. *)
Definition meets_on (a : Axis) (lo hi : Z) (s : BroadPhase) (q : Z) : Prop :=
  lo ≤ valof a s q false ∧ valof a s q true ≤ hi.

(** One axis of [MoveProxy]: the calls of the pair manager. *)
Lemma MoveProxy_axis_events pid nv ov bc a s L :
  sorted_inv a (bounds_of a s) bc (proxyPool s) L →
  sorted_inv (other a) (bounds_of (other a) s) bc (proxyPool s) L →
  L pid →
  Z.land (sel a (fst nv)) 1 = 0 → Z.land (sel a (snd nv)) 1 = 1 →
  sel a (fst nv) < sel a (snd nv) →
  sel a (fst ov) = valof a s pid true → sel a (snd ov) = valof a s pid false →
  ∃ s' evs, MoveProxy_axis pid nv ov bc a s = Some s' ∧
    sorted_inv a (bounds_of a s') bc (proxyPool s') L ∧
    sorted_inv (other a) (bounds_of (other a) s') bc (proxyPool s') L ∧
    moved a s s' ∧
    (∀ p r, L p → p ≠ pid → valof a s' p r = valof a s p r) ∧
    m_pairManager s' = foldl (buffer_event pid) (m_pairManager s) evs ∧
    (∀ q, (true, q) ∈ evs ↔
       L q ∧ q ≠ pid ∧ hits nv s q ∧ ¬ meets_on a (sel a (fst ov)) (sel a (snd ov)) s q) ∧
    (∀ q, (false, q) ∈ evs ↔
       L q ∧ q ≠ pid ∧ hits ov s q ∧ ¬ meets_on a (sel a (fst nv)) (sel a (snd nv)) s q).
Proof.
  intros HI HO HL Hlv Huv Hlt Eol Eou.
  set (T := λ s', ∃ evs, traced a pid L nv ov s s' evs).
  destruct (MoveProxy_axis_trace pid nv ov bc a s L T HI HO HL Hlv Huv Hlt)
    as (s' & E & I' & O' & M & Vl & Vu & Vo & evs & Epm & Hv & _ & He).
  - intros H. apply (traced_keeps a pid bc L nv ov s true true).
    unfold gain, outward. lia.
  - intros H. apply (traced_keeps a pid bc L nv ov s false true).
    unfold gain, outward. lia.
  - intros H. apply (traced_keeps a pid bc L nv ov s true false).
    unfold gain, outward. lia.
  - intros H. apply (traced_keeps a pid bc L nv ov s false false).
    unfold gain, outward. lia.
  - exists []. unfold traced, revalued. cbv zeta. split_and!.
    + done.
    + intros q b r Hq Hne. unfold valof. cbn [proxyPool with_bounds].
      destruct (decide (b = a)) as [->|Hb].
      * rewrite bounds_of_with_bounds.
        pose proof (ai_range _ _ _ _ _ _ _ HI) as Hrange.
        destruct (ai_proxy _ _ _ _ _ _ _ HI q Hq) as (_ & _ & _ & _ & Hl1 & _ & Hu1 & _).
        destruct (ai_proxy _ _ _ _ _ _ _ HI pid HL)
          as (_ & H0 & Hlu & Hu & Hm1 & _ & Hm2 & _).
        assert (ptr a r (proxy_at (proxyPool s) q) ≠ ptr a true (proxy_at (proxyPool s) pid) ∧
                ptr a r (proxy_at (proxyPool s) q) ≠ ptr a false (proxy_at (proxyPool s) pid))
          as [Hnl Hnu] by (destruct r; split; intros E; rewrite E in *; congruence).
        rewrite !bound_at_put by (rewrite ?length_js_put; lia).
        by rewrite !decide_False by done.
      * replace b with (other a) by (by destruct a, b).
        by rewrite bounds_of_with_bounds_other.
    + intros q ρ Hq Hne. done.
    + intros c q. split; [by intros ?%elem_of_nil|].
      intros (_ & _ & _ & ρ & Ht). exfalso. revert Ht.
      unfold turned, facing, before. cbn [proxyPool with_bounds]. destruct c; tauto.
  - exists s', evs. split_and!; try done.
    + (* added pairs *)
      intros q. rewrite (He true q). unfold meets_on. rewrite Eol, Eou.
      split.
      * intros (Hq & Hne & Hh & ρ & Ht). split_and!; [done..|].
        intros [H1 H2]. unfold turned, facing in Ht.
        destruct ρ; destruct Ht as [Ht _]; apply Ht.
        -- rewrite (before_sorted a s bc L pid q HI HL Hq).
           destruct (interval_live a s bc L pid HI HL) as (_ & P1 & _).
           destruct (interval_live a s bc L q HI Hq) as (_ & _ & P2).
           destruct (decide (valof a s pid true = valof a s q false)) as [Ev|]; [|lia].
           rewrite Ev in P1. congruence.
        -- rewrite (before_sorted a s bc L q pid HI Hq HL).
           destruct (interval_live a s bc L pid HI HL) as (_ & _ & P1).
           destruct (interval_live a s bc L q HI Hq) as (_ & P2 & _).
           destruct (decide (valof a s q true = valof a s pid false)) as [Ev|]; [|lia].
           rewrite Ev in P2. congruence.
      * intros (Hq & Hne & Hh & Hn). split_and!; [done..|].
        destruct (Hh a) as [Hh1 Hh2].
        destruct (interval_live a s' bc L pid I' HL) as (_ & P1 & P1').
        destruct (interval_live a s' bc L q I' Hq) as (_ & P2 & P2').
        unfold valof in P1, P1'. rewrite Vl in P1. rewrite Vu in P1'.
        rewrite (Vo q true Hq Hne) in P2. rewrite (Vo q false Hq Hne) in P2'.
        assert (sel a (fst nv) < valof a s q false) as N1.
        { destruct (decide (sel a (fst nv) = valof a s q false)) as [Ev|]; [|lia].
          rewrite Ev in P1. congruence. }
        assert (valof a s q true < sel a (snd nv)) as N2.
        { destruct (decide (valof a s q true = sel a (snd nv))) as [Ev|]; [|lia].
          rewrite Ev in P2. congruence. }
        destruct (Z.lt_ge_cases (valof a s pid true) (valof a s q false)) as [O1|O1].
        -- exists false. unfold turned, facing.
           rewrite (before_sorted a s bc L q pid HI Hq HL).
           rewrite (before_sorted a s' bc L q pid I' Hq HL).
           unfold valof at 4. rewrite Vu, (Vo q true Hq Hne). split; [|done].
           intros O2. apply Hn. lia.
        -- exists true. unfold turned, facing.
           rewrite (before_sorted a s bc L pid q HI HL Hq).
           rewrite (before_sorted a s' bc L pid q I' HL Hq).
           unfold valof at 3. rewrite Vl, (Vo q false Hq Hne). split; [lia|done].
    + (* removed pairs *)
      intros q. rewrite (He false q). unfold meets_on.
      split.
      * intros (Hq & Hne & Hh & ρ & Ht). split_and!; [done..|].
        intros [H1 H2]. unfold turned, facing in Ht.
        destruct (interval_live a s' bc L pid I' HL) as (_ & P1 & P1').
        destruct (interval_live a s' bc L q I' Hq) as (_ & P2 & P2').
        unfold valof in P1, P1'. rewrite Vl in P1. rewrite Vu in P1'.
        rewrite (Vo q true Hq Hne) in P2. rewrite (Vo q false Hq Hne) in P2'.
        destruct ρ; destruct Ht as [_ Ht]; apply Ht.
        -- rewrite (before_sorted a s' bc L pid q I' HL Hq).
           unfold valof at 1. rewrite Vl, (Vo q false Hq Hne).
           destruct (decide (sel a (fst nv) = valof a s q false)) as [Ev|]; [|lia].
           rewrite Ev in P1. congruence.
        -- rewrite (before_sorted a s' bc L q pid I' Hq HL).
           unfold valof at 2. rewrite Vu, (Vo q true Hq Hne).
           destruct (decide (valof a s q true = sel a (snd nv))) as [Ev|]; [|lia].
           rewrite Ev in P2. congruence.
      * intros (Hq & Hne & Hh & Hn). split_and!; [done..|].
        destruct (Hh a) as [Hh1 Hh2]. rewrite Eol in Hh1. rewrite Eou in Hh2.
        destruct (interval_live a s bc L pid HI HL) as (_ & P1 & P1').
        destruct (interval_live a s bc L q HI Hq) as (_ & P2 & P2').
        assert (valof a s pid true < valof a s q false) as N1.
        { destruct (decide (valof a s pid true = valof a s q false)) as [Ev|]; [|lia].
          rewrite Ev in P1. congruence. }
        assert (valof a s q true < valof a s pid false) as N2.
        { destruct (decide (valof a s q true = valof a s pid false)) as [Ev|]; [|lia].
          rewrite Ev in P2. congruence. }
        destruct (Z.lt_ge_cases (sel a (fst nv)) (valof a s q false)) as [O1|O1].
        -- exists false. unfold turned, facing.
           rewrite (before_sorted a s bc L q pid HI Hq HL).
           rewrite (before_sorted a s' bc L q pid I' Hq HL).
           unfold valof at 4. rewrite Vu, (Vo q true Hq Hne). split; [done|].
           intros O2. apply Hn. lia.
        -- exists true. unfold turned, facing.
           rewrite (before_sorted a s bc L pid q HI HL Hq).
           rewrite (before_sorted a s' bc L pid q I' HL Hq).
           unfold valof at 3. rewrite Vl, (Vo q false Hq Hne). split; [done|lia].
Qed.

Lemma old_values_valof L s pid :
  Inv L s → L pid →
  old_values pid s = Some ((valof axis0 s pid true, valof axis1 s pid true),
                           (valof axis0 s pid false, valof axis1 s pid false)).
Proof.
  intros HI HL. unfold old_values, valof.
  destruct (ai_proxy _ _ _ _ _ _ _ (inv_axis _ _ HI axis0) pid HL)
    as (Hin & H0 & Hlu0 & Hu0 & _).
  destruct (ai_proxy _ _ _ _ _ _ _ (inv_axis _ _ HI axis1) pid HL)
    as (_ & H1 & Hlu1 & Hu1 & _).
  pose proof (ai_range _ _ _ _ _ _ _ (inv_axis _ _ HI axis0)) as R0.
  pose proof (ai_range _ _ _ _ _ _ _ (inv_axis _ _ HI axis1)) as R1.
  change (ptr axis0 true ?p) with (sel axis0 (lowerBounds p)) in *.
  change (ptr axis0 false ?p) with (sel axis0 (upperBounds p)) in *.
  change (ptr axis1 true ?p) with (sel axis1 (lowerBounds p)) in *.
  change (ptr axis1 false ?p) with (sel axis1 (upperBounds p)) in *.
  rewrite (js_get_proxy_at _ _ Hin). cbn [mbind option_bind].
  rewrite !js_get_bound_at by lia. done.
Qed.

Lemma TestOverlap_false b p s L :
  Inv L s → L p → TestOverlap b p s = Some false ↔ ¬ hits b s p.
Proof.
  intros HI HL.
  rewrite <- (TestOverlap_hits (-1) (-1) (-1) (-1) axis0 _ _ b p s L
                (inv_axis _ _ HI axis0) (inv_axis _ _ HI axis1) HL).
  rewrite (TestOverlap_live b p s L HI HL). destruct (_ && _); naive_solver.
Qed.

(** [TestOverlapValidate] tells whether the values of the first proxy
    hit the second. *)
Lemma TestOverlapValidate_hits p q s L :
  Inv L s → L p → L q →
  let vp := ((valof axis0 s p true, valof axis1 s p true),
             (valof axis0 s p false, valof axis1 s p false)) in
  (TestOverlapValidate p q s = Some true ↔ hits vp s q) ∧
  (TestOverlapValidate p q s = Some false ↔ ¬ hits vp s q).
Proof.
  intros HI Hp Hq vp.
  assert (TestOverlapValidate p q s = Some true ↔ hits vp s q) as Ht.
  { rewrite (TestOverlapValidate_live p q s L HI Hp Hq). unfold hits, vp. split.
    - intros Ht. injection Ht as Ht.
      apply andb_prop in Ht as [[H0l H0u]%andb_prop [H1l H1u]%andb_prop].
      apply Z.leb_le in H0l, H0u, H1l, H1u. by intros [].
    - intros H. destruct (H axis0) as [H0l H0u]. destruct (H axis1) as [H1l H1u].
      cbn [sel fst snd] in *. by rewrite !(proj2 (Z.leb_le _ _)). }
  split; [done|]. rewrite <- Ht.
  rewrite (TestOverlapValidate_live p q s L HI Hp Hq). destruct (_ && _); naive_solver.
Qed.

Lemma hits_meets_on b s q :
  hits b s q ↔ meets_on axis0 (sel axis0 (fst b)) (sel axis0 (snd b)) s q ∧
               meets_on axis1 (sel axis1 (fst b)) (sel axis1 (snd b)) s q.
Proof.
  unfold hits, meets_on. split; [intros H; split; apply H|]. intros [H0 H1] []; done.
Qed.

Lemma meets_on_dec a lo hi s q : meets_on a lo hi s q ∨ ¬ meets_on a lo hi s q.
Proof. unfold meets_on. lia. Qed.

(** [MoveProxy] calls the pair manager for the moved proxy only, and does
    not commit: it buffers an added pair for the other proxies in use
    that the quantized new box overlaps ([TestOverlap]) and the old
    interval did not ([TestOverlapValidate]), buffers a removed pair for
    those the old interval overlapped and the new box does not, and
    makes no other call. *)
Theorem MoveProxy_buffers_pairs (ids : list Z) (s : BroadPhase) (pid : Z) (aabb : AABB) :
  settings_ok → reachable ids s → pid ∈ ids → AABB_IsValid aabb = true → quantizes aabb s →
  ∃ s' evs, MoveProxy pid aabb s = Some s' ∧
    m_pairManager s' = foldl (buffer_event pid) (m_pairManager s) evs ∧
    (∀ q, (true, q) ∈ evs ↔
       q ∈ ids ∧ q ≠ pid ∧ TestOverlap (ComputeBounds aabb s) q s = Some true ∧
       TestOverlapValidate pid q s = Some false) ∧
    (∀ q, (false, q) ∈ evs ↔
       q ∈ ids ∧ q ≠ pid ∧ TestOverlapValidate pid q s = Some true ∧
       TestOverlap (ComputeBounds aabb s) q s = Some false).
Proof.
  intros Hset Hr HL Hval HQ. destruct (reachable_Inv ids s Hset Hr) as [HI Hnd].
  destruct (in_use_count ids s Hset Hr) as (_ & _ & Hids & _).
  destruct (Hids pid HL) as [Hrange Hnull].
  unfold MoveProxy.
  destruct (Z.eqb_spec pid b2_nullProxy); [done|].
  destruct (Z.leb_spec b2_maxProxies pid); [lia|]. cbn [orb].
  rewrite Hval. cbn [negb]. cbv zeta.
  rewrite (old_values_valof _ s pid HI HL). cbn [mbind option_bind].
  set (ov := ((valof axis0 s pid true, valof axis1 s pid true),
              (valof axis0 s pid false, valof axis1 s pid false))).
  set (bc := 2 * m_proxyCount s). set (nv := ComputeBounds aabb s).
  assert (∀ a, Z.land (sel a (fst nv)) 1 = 0) as Hev.
  { intros a. unfold nv. rewrite sel_ComputeBounds_fst. apply ComputeBounds_lower_even. }
  assert (∀ a, Z.land (sel a (snd nv)) 1 = 1) as Hodd.
  { intros a. unfold nv. rewrite sel_ComputeBounds_snd. apply ComputeBounds_upper_odd. }
  assert (∀ a, sel a (fst nv) < sel a (snd nv)) as Hlt.
  { intros a. unfold nv. rewrite sel_ComputeBounds_fst, sel_ComputeBounds_snd. apply HQ. }
  destruct (MoveProxy_axis_events pid nv ov bc axis0 s (λ p, p ∈ ids))
    as (s1 & evs0 & -> & I0 & I1 & M1 & O0 & Epm0 & Ha0 & Hr0); try done;
    try apply (inv_axis _ _ HI).
  cbn [mbind option_bind]. cbn [other] in I1.
  assert (∀ p r, valof axis1 s1 p r = valof axis1 s p r) as X1
    by (intros p r; apply (moved_valof_other axis0 s s1 p r M1)).
  destruct (MoveProxy_axis_events pid nv ov bc axis1 s1 (λ p, p ∈ ids))
    as (s2 & evs1 & -> & J1 & J0 & M2 & O1 & Epm1 & Ha1 & Hr1); try done.
  assert (∀ b q, q ∈ ids → q ≠ pid → hits b s1 q ↔ hits b s q) as Hh1.
  { intros b q Hq Hne. unfold hits. split; intros Hb [].
    - rewrite <- !(O0 q _ Hq Hne). apply (Hb axis0).
    - rewrite <- !X1. apply (Hb axis1).
    - rewrite !(O0 q _ Hq Hne). apply (Hb axis0).
    - rewrite !X1. apply (Hb axis1). }
  assert (∀ lo hi q, meets_on axis1 lo hi s1 q ↔ meets_on axis1 lo hi s q) as Hm1.
  { intros lo hi q. unfold meets_on. by rewrite !X1. }
  exists s2, (evs0 ++ evs1). split; [done|]. split_and!.
  - by rewrite foldl_app, <- Epm0.
  - intros q. rewrite elem_of_app, Ha0, Ha1. split.
    + intros [(Hq & Hne & Hh & Hn)|(Hq & Hne & Hh & Hn)].
      * split_and!; [done..| |].
        -- by apply (TestOverlap_hits (-1) (-1) (-1) (-1) axis0 bc bc nv q s (λ p, p ∈ ids)
                       (inv_axis _ _ HI axis0) (inv_axis _ _ HI axis1) Hq).
        -- apply (TestOverlapValidate_hits pid q s _ HI HL Hq). fold ov.
           rewrite hits_meets_on. by intros [? _].
      * rewrite Hh1 in Hh by done. rewrite Hm1 in Hn. split_and!; [done..| |].
        -- by apply (TestOverlap_hits (-1) (-1) (-1) (-1) axis0 bc bc nv q s (λ p, p ∈ ids)
                       (inv_axis _ _ HI axis0) (inv_axis _ _ HI axis1) Hq).
        -- apply (TestOverlapValidate_hits pid q s _ HI HL Hq). fold ov.
           rewrite hits_meets_on. by intros [_ ?].
    + intros (Hq & Hne & Ht & Hv).
      apply (TestOverlap_hits (-1) (-1) (-1) (-1) axis0 bc bc nv q s (λ p, p ∈ ids)
               (inv_axis _ _ HI axis0) (inv_axis _ _ HI axis1) Hq) in Ht.
      apply (TestOverlapValidate_hits pid q s _ HI HL Hq) in Hv. fold ov in Hv.
      rewrite hits_meets_on in Hv.
      destruct (meets_on_dec axis0 (sel axis0 (fst ov)) (sel axis0 (snd ov)) s q) as [Y|N].
      * right. rewrite Hh1 by done. rewrite Hm1. split_and!; [done..|]. tauto.
      * left. by split_and!.
  - intros q. rewrite elem_of_app, Hr0, Hr1. split.
    + intros [(Hq & Hne & Hh & Hn)|(Hq & Hne & Hh & Hn)].
      * split_and!; [done..| |].
        -- by apply (TestOverlapValidate_hits pid q s _ HI HL Hq).
        -- apply (TestOverlap_false nv q s _ HI Hq).
           rewrite hits_meets_on. by intros [? _].
      * rewrite Hh1 in Hh by done. rewrite Hm1 in Hn. split_and!; [done..| |].
        -- by apply (TestOverlapValidate_hits pid q s _ HI HL Hq).
        -- apply (TestOverlap_false nv q s _ HI Hq).
           rewrite hits_meets_on. by intros [_ ?].
    + intros (Hq & Hne & Hv & Ht).
      apply (TestOverlap_false nv q s _ HI Hq) in Ht.
      apply (TestOverlapValidate_hits pid q s _ HI HL Hq) in Hv. fold ov in Hv.
      rewrite hits_meets_on in Ht.
      destruct (meets_on_dec axis0 (sel axis0 (fst nv)) (sel axis0 (snd nv)) s q) as [Y|N].
      * right. rewrite Hh1 by done. rewrite Hm1. split_and!; [done..|]. tauto.
      * left. by split_and!.
Qed.

End BroadPhase.

(** * A small world *)

(** A pair manager that records the buffered calls, a pool of four
    proxies, and the settings of the library: the null proxy and the
    invalid value are both [USHRT_MAX]. *)
#[local] Instance demo : Environment := {|
  UserData := nat;
  PairManager := list (bool * Z * Z);
  Pairs := unit;
  PairManager_Initialize := [];
  AddBufferedPair p q pm := pm ++ [(true, p, q)];
  RemoveBufferedPair p q pm := pm ++ [(false, p, q)];
  PairManager_Commit pm := (tt, pm);
  AABB_IsValid a := true;
  b2_maxProxies := 4;
  b2_nullProxy := 65535;
  invalid := 65535
|}.

Definition box (x0 y0 x1 y1 : float) : AABB := mkAABB (mkVec2 x0 y0) (mkVec2 x1 y1).

(** The world is the square from (0, 0) to (100, 100). *)
Definition demo_world : AABB := box 0 0 100 100.
Definition demo_new : BroadPhase := new_BroadPhase demo_world.

Definition after (r : option (Z * BroadPhase)) : BroadPhase := from_option snd demo_new r.

(** One proxy for the box from (10, 10) to (20, 20). *)
Definition demo_one : BroadPhase :=
  after (CreateProxy (box 10 10 20 20) (Some 7%nat) demo_new).

(** Then a box whose corners are exchanged. *)
Definition demo_inverted : BroadPhase :=
  after (CreateProxy (box 50 50 10 10) None demo_one).

(** The pool in use up to its last proxy. *)
Definition demo_two : BroadPhase := after (CreateProxy (box 15 15 25 25) None demo_one).
Definition demo_three : BroadPhase := after (CreateProxy (box 30 30 40 40) None demo_two).
Definition demo_full : BroadPhase := after (CreateProxy (box 60 60 70 70) None demo_three).

Lemma demo_settings : settings_ok.
Proof. split; cbn; lia. Qed.

Lemma demo_quantizes (x0 y0 x1 y1 : float) s :
  (ComputeBounds_lower axis0 (box x0 y0 x1 y1) s
     <? ComputeBounds_upper axis0 (box x0 y0 x1 y1) s) = true →
  (ComputeBounds_lower axis1 (box x0 y0 x1 y1) s
     <? ComputeBounds_upper axis1 (box x0 y0 x1 y1) s) = true →
  quantizes (box x0 y0 x1 y1) s.
Proof. intros H0 H1 []; by apply Z.ltb_lt. Qed.

Lemma demo_one_reachable : reachable [0] demo_one.
Proof.
  apply (reach_create [] demo_new (box 10 10 20 20) (Some 7%nat)).
  - apply reach_new.
  - apply demo_quantizes; vm_compute; reflexivity.
  - vm_compute. reflexivity.
Qed.

Lemma demo_two_reachable : reachable [1; 0] demo_two.
Proof.
  apply (reach_create [0] demo_one (box 15 15 25 25) None).
  - apply demo_one_reachable.
  - apply demo_quantizes; vm_compute; reflexivity.
  - vm_compute. reflexivity.
Qed.

Lemma demo_full_reachable : reachable [3; 2; 1; 0] demo_full.
Proof.
  apply (reach_create [2; 1; 0] demo_three (box 60 60 70 70) None).
  - apply (reach_create [1; 0] demo_two (box 30 30 40 40) None).
    + apply demo_two_reachable.
    + apply demo_quantizes; vm_compute; reflexivity.
    + vm_compute. reflexivity.
  - apply demo_quantizes; vm_compute; reflexivity.
  - vm_compute. reflexivity.
Qed.

(** * The claims at concrete inputs *)

(** ** Sortedness (C1) *)

Lemma C1_bounds_sorted_witness :
  settings_ok ∧ reachable [0] demo_one ∧ 0 ≤ 0 ∧ 0 ≤ 1 ∧ 1 < 2 * m_proxyCount demo_one ∧
  value (bound_at (bounds_of axis0 demo_one) 0) ≤ value (bound_at (bounds_of axis0 demo_one) 1).
Proof.
  assert (1 < 2 * m_proxyCount demo_one) as H by (vm_compute; reflexivity).
  split_and!; [exact demo_settings|exact demo_one_reachable|lia|lia|exact H|].
  exact (C1_bounds_sorted [0] demo_one axis0 demo_settings demo_one_reachable 0 1
           ltac:(lia) ltac:(lia) H).
Defined.

(** [CreateProxy] takes the box whose corners are exchanged, and leaves
    the two bounds of axis 0 in decreasing order. *)
Lemma C1_inverted_box_counterexample :
  CreateProxy (box 50 50 10 10) None demo_new
    = Some (0, after (CreateProxy (box 50 50 10 10) None demo_new)) ∧
  m_proxyCount (after (CreateProxy (box 50 50 10 10) None demo_new)) = 1 ∧
  value (bound_at (bounds_of axis0 (after (CreateProxy (box 50 50 10 10) None demo_new))) 0)
    = 32766 ∧
  value (bound_at (bounds_of axis0 (after (CreateProxy (box 50 50 10 10) None demo_new))) 1)
    = 6553.
Proof. split_and!; vm_compute; reflexivity. Qed.

(** ** Stabbing counts (C2) *)

Lemma C2_stabbing_counts_witness :
  settings_ok ∧ reachable [0] demo_one ∧
  ∃ cs, Validate_axis axis0 demo_one = Some cs ∧
    Z.of_nat (length cs) = 2 * m_proxyCount demo_one ∧
    ∀ i, 0 ≤ i < 2 * m_proxyCount demo_one →
      cs !! Z.to_nat i = Some (stabbingCount (bound_at (bounds_of axis0 demo_one) i)) ∧
      stabbingCount (bound_at (bounds_of axis0 demo_one) i)
      = Z.of_nat (length (filter (contains axis0 demo_one i) [0])).
Proof.
  split; [exact demo_settings|]. split; [exact demo_one_reachable|].
  exact (C2_stabbing_counts [0] demo_one axis0 demo_settings demo_one_reachable).
Defined.

(** After the box whose corners are exchanged, the scan of [Validate]
    over axis 0 finds -1 at position 2, where the stored count is 0. *)
Lemma C2_inverted_box_counterexample :
  CreateProxy (box 50 50 10 10) None demo_one = Some (1, demo_inverted) ∧
  m_proxyCount demo_inverted = 2 ∧
  Validate_axis axis0 demo_inverted = Some [1; 0; -1; -2] ∧
  stabbingCount (bound_at (bounds_of axis0 demo_inverted) 2) = 0.
Proof. split_and!; vm_compute; reflexivity. Qed.

(** ** Query results (C3) *)

Lemma C3_reported_on_both_axes_witness :
  settings_ok ∧ reachable [0] demo_one ∧
  (∀ pre id s1 s2,
     marks pre demo_one = Some s1 → IncrementOverlapCount id s1 = Some s2 →
     (id ∈ pre →
        m_queryResultCount s2 = m_queryResultCount s1 + 1 ∧
        js_read (m_queryResults s2) (m_queryResultCount s1) = Some id) ∧
     (id ∉ pre →
        m_queryResultCount s2 = m_queryResultCount s1 ∧
        m_queryResults s2 = m_queryResults s1)) ∧
  ∃ n out' s',
    QueryAABB (box 5 5 15 15) [] 10 demo_one = Some (n, out', s') ∧
    ∀ i, 0 ≤ i < n →
      ∃ r, js_read out' i = Some (userData (proxy_at (proxyPool demo_one) r)) ∧
           r ∈ marked_on axis0 (box 5 5 15 15) demo_one ∧
           r ∈ marked_on axis1 (box 5 5 15 15) demo_one ∧
           (quantizes (box 5 5 15 15) demo_one →
            ∀ a, value (bound_at (bounds_of a demo_one)
                          (ptr a true (proxy_at (proxyPool demo_one) r)))
                   ≤ ComputeBounds_upper a (box 5 5 15 15) demo_one ∧
                 ComputeBounds_lower a (box 5 5 15 15) demo_one
                   ≤ value (bound_at (bounds_of a demo_one)
                              (ptr a false (proxy_at (proxyPool demo_one) r)))).
Proof.
  split; [exact demo_settings|]. split; [exact demo_one_reachable|].
  exact (C3_reported_on_both_axes [0] demo_one (box 5 5 15 15) [] 10
           demo_settings demo_one_reachable).
Defined.

(** [QueryAABB] with the box from (15, 15) to (5, 5) reports the proxy
    of the box from (10, 10) to (20, 20): it is marked on both axes,
    though its lower value, 6552, is above the upper value of the
    query, 3277. *)
Lemma C3_inverted_query_counterexample :
  fst <$> QueryAABB (box 15 15 5 5) [] 10 demo_one = Some (1, [Some (Some 7%nat)]) ∧
  userData (proxy_at (proxyPool demo_one) 0) = Some 7%nat ∧
  ComputeBounds_upper axis0 (box 15 15 5 5) demo_one = 3277 ∧
  value (bound_at (bounds_of axis0 demo_one)
           (ptr axis0 true (proxy_at (proxyPool demo_one) 0))) = 6552.
Proof. split_and!; vm_compute; reflexivity. Qed.

(** ** ComputeBounds (C4) *)

(** A box of a thousandth of a unit at the corner of the world: its
    quantized values are 0 and 1 on both axes.  A box inside the world:
    its ends are mapped to 6553 and 13107, and the values are 6552 and
    13107. *)
Lemma C4_ComputeBounds_even_odd_ordered_witness :
  constructed demo_new ∧
  (coord axis0 (minVertex (box 0 0 0.001 0.001))
     <? coord axis0 (maxVertex (box 0 0 0.001 0.001)))%float = true ∧
  ComputeBounds (box 0 0 0.001 0.001) demo_new = ((0, 0), (1, 1)) ∧
  sel axis0 (fst (ComputeBounds (box 0 0 0.001 0.001) demo_new))
    < sel axis0 (snd (ComputeBounds (box 0 0 0.001 0.001) demo_new)) ∧
  spec_quantized (coord axis0 (m_quantizationFactor demo_new)) 0 100 10 = 6553 ∧
  spec_quantized (coord axis0 (m_quantizationFactor demo_new)) 0 100 20 = 13107 ∧
  sel axis0 (fst (ComputeBounds (box 10 10 20 20) demo_new))
    = 2 * (spec_quantized (coord axis0 (m_quantizationFactor demo_new)) 0 100 10 / 2) ∧
  sel axis0 (snd (ComputeBounds (box 10 10 20 20) demo_new))
    = 2 * (spec_quantized (coord axis0 (m_quantizationFactor demo_new)) 0 100 20 / 2) + 1 ∧
  ComputeBounds (box 10 10 20 20) demo_new = ((6552, 6552), (13107, 13107)).
Proof.
  assert (constructed demo_new) as Hc by reflexivity.
  pose proof (C4_ComputeBounds_even_odd_ordered (box 0 0 0.001 0.001) demo_new axis0 Hc) as H.
  pose proof (C4_ComputeBounds_even_odd_ordered (box 10 10 20 20) demo_new axis0 Hc) as H'.
  cbv zeta in H, H'. destruct H as (_ & _ & _ & H). destruct H' as (_ & (El & _) & (Eu & _) & _).
  split_and!; [exact Hc|reflexivity|vm_compute; reflexivity|apply H; reflexivity
              |vm_compute; reflexivity|vm_compute; reflexivity|exact El|exact Eu
              |vm_compute; reflexivity].
Defined.

(** ** Creating and destroying (C5) *)

Lemma C5_create_then_destroy_witness :
  settings_ok ∧ Inv (λ p, p ∈ [1; 0]) demo_two ∧ quantizes (box 30 30 40 40) demo_two ∧
  m_freeProxy demo_two ≠ b2_nullProxy ∧
  (∃ pid s1, CreateProxy (box 30 30 40 40) None demo_two = Some (pid, s1)) ∧
  ∃ s2, DestroyProxy 2 demo_three = Some s2 ∧
    2 * m_proxyCount s2 = 2 * m_proxyCount demo_two ∧
    m_freeProxy s2 = m_freeProxy demo_two ∧
    (∀ p, next (proxy_at (proxyPool s2) p) = next (proxy_at (proxyPool demo_two) p)) ∧
    Inv (λ p, p ∈ [1; 0]) s2.
Proof.
  assert (Inv (λ p, p ∈ [1; 0]) demo_two) as HI
    by apply (reachable_Inv _ _ demo_settings demo_two_reachable).
  assert (m_freeProxy demo_two ≠ b2_nullProxy) as Hf by (vm_compute; discriminate).
  assert (quantizes (box 30 30 40 40) demo_two) as HQ
    by (apply demo_quantizes; vm_compute; reflexivity).
  assert (CreateProxy (box 30 30 40 40) None demo_two = Some (2, demo_three)) as E
    by (vm_compute; reflexivity).
  pose proof (C5_create_then_destroy (λ p, p ∈ [1; 0]) demo_two (box 30 30 40 40) None
                demo_settings HI HQ) as [H1 H2].
  split_and!; [exact demo_settings|exact HI|exact HQ|exact Hf|exact (H1 Hf)|].
  exact (H2 2 demo_three E).
Defined.

(** ** BinarySearch (C6) *)

Definition demo_bounds : list Bound := [mkBound 2 0 1; mkBound 5 0 0; mkBound 9 1 0].

Lemma demo_bounds_sorted : sorted_upto demo_bounds 3.
Proof.
  intros i j Hi Hij Hj.
  assert (i = 0 ∨ i = 1 ∨ i = 2) as [-> | [-> | ->]] by lia;
    assert (j = 0 ∨ j = 1 ∨ j = 2) as [-> | [-> | ->]] by lia;
    try lia; vm_compute; discriminate.
Qed.

Lemma C6_BinarySearch_insertion_point_witness :
  0 ≤ 3 ≤ Z.of_nat (length demo_bounds) ∧ sorted_upto demo_bounds 3 ∧
  ∃ r, BinarySearch demo_bounds 3 4 = Some r ∧
    ((∀ i, 0 ≤ i < 3 → value (bound_at demo_bounds i) ≠ 4) →
       0 ≤ r ≤ 3 ∧
       (∀ i, 0 ≤ i < r → value (bound_at demo_bounds i) < 4) ∧
       (r < 3 → 4 ≤ value (bound_at demo_bounds r))) ∧
    ((∃ i, 0 ≤ i < 3 ∧ value (bound_at demo_bounds i) = 4) →
       0 ≤ r < 3 ∧ value (bound_at demo_bounds r) = 4).
Proof.
  assert (0 ≤ 3 ≤ Z.of_nat (length demo_bounds)) as H by (simpl; lia).
  split; [exact H|]. split; [exact demo_bounds_sorted|].
  exact (C6_BinarySearch_insertion_point demo_bounds 3 4 H demo_bounds_sorted).
Defined.

(** ** The guards of MoveProxy (C7) *)

Lemma C7_MoveProxy_guards_witness :
  (65535 = b2_nullProxy ∨ b2_maxProxies ≤ 65535 ∨ AABB_IsValid (box 0 0 1 1) = false) ∧
  MoveProxy 65535 (box 0 0 1 1) demo_one = Some demo_one.
Proof.
  assert (65535 = b2_nullProxy ∨ b2_maxProxies ≤ 65535 ∨ AABB_IsValid (box 0 0 1 1) = false)
    as H by (left; reflexivity).
  split; [exact H|].
  exact (C7_MoveProxy_guards demo_one 65535 (box 0 0 1 1) H).
Defined.

(** ** IncrementTimeStamp (C8) *)

Lemma C8_IncrementTimeStamp_witness :
  Z.of_nat (length (proxyPool demo_one)) = b2_maxProxies ∧
  (m_timeStamp demo_one = 65535 →
     IncrementTimeStamp demo_one
     = Some (with_timeStamp 1
               (with_proxyPool (set_timeStamp 0 <$> proxyPool demo_one) demo_one))) ∧
  (m_timeStamp demo_one ≠ 65535 →
     IncrementTimeStamp demo_one = Some (with_timeStamp (m_timeStamp demo_one + 1) demo_one)).
Proof.
  assert (Z.of_nat (length (proxyPool demo_one)) = b2_maxProxies) as H
    by (vm_compute; reflexivity).
  split; [exact H|].
  exact (C8_IncrementTimeStamp demo_one H).
Defined.

(** ** The quantization factor (C9) *)

(** For the world from (0, 0) to (100, 100) the stored factor is
    655.35 on both axes, and not 100 / 65535. *)
Lemma C9_extent_over_range_counterexample :
  Prim2SF (x (m_quantizationFactor demo_new)) = Prim2SF (65535 / (100 - 0))%float ∧
  Prim2SF (x (m_quantizationFactor demo_new)) ≠ Prim2SF ((100 - 0) / 65535)%float.
Proof. split; [vm_compute; reflexivity|vm_compute; discriminate]. Qed.

(** * The further properties at concrete inputs *)

(** ** The bounds and their proxies *)

Lemma Validate_owners_witness :
  settings_ok ∧ reachable [0] demo_one ∧
  ∃ proxy lower upper,
    js_get (proxyPool demo_one) 0 = Some proxy ∧
    0 ≤ sel axis0 (lowerBounds proxy) ∧
    sel axis0 (lowerBounds proxy) < sel axis0 (upperBounds proxy) ∧
    sel axis0 (upperBounds proxy) < 2 * m_proxyCount demo_one ∧
    js_get (bounds_of axis0 demo_one) (sel axis0 (lowerBounds proxy)) = Some lower ∧
    js_get (bounds_of axis0 demo_one) (sel axis0 (upperBounds proxy)) = Some upper ∧
    proxyId lower = 0 ∧ IsLower lower = true ∧
    proxyId upper = 0 ∧ IsUpper upper = true ∧
    value lower < value upper.
Proof.
  split; [exact demo_settings|]. split; [exact demo_one_reachable|].
  exact (proj2 (Validate_owners [0] demo_one axis0 demo_settings demo_one_reachable)
           0 ltac:(set_solver)).
Defined.

Lemma proxyCount_in_use_witness :
  settings_ok ∧ reachable [3; 2; 1; 0] demo_full ∧
  m_proxyCount demo_full = Z.of_nat (length [3; 2; 1; 0]) ∧
  (m_freeProxy demo_full = b2_nullProxy ↔ m_proxyCount demo_full = b2_maxProxies).
Proof.
  split; [exact demo_settings|]. split; [exact demo_full_reachable|].
  destruct (proxyCount_in_use [3; 2; 1; 0] demo_full demo_settings demo_full_reachable)
    as (H1 & _ & _ & _ & H2 & _).
  exact (conj H1 H2).
Defined.

(** ** Creating proxies *)

Lemma CreateProxy_exhaustion_witness :
  settings_ok ∧ reachable [0] demo_one ∧ quantizes (box 15 15 25 25) demo_one ∧
  m_proxyCount demo_one < b2_maxProxies ∧
  ∃ s', CreateProxy (box 15 15 25 25) None demo_one = Some (m_freeProxy demo_one, s') ∧
        (m_freeProxy demo_one ∉ [0]) ∧ 0 ≤ m_freeProxy demo_one < b2_maxProxies ∧
        m_proxyCount s' = m_proxyCount demo_one + 1 ∧
        reachable (m_freeProxy demo_one :: [0]) s'.
Proof.
  assert (quantizes (box 15 15 25 25) demo_one) as HQ
    by (apply demo_quantizes; vm_compute; reflexivity).
  assert (m_proxyCount demo_one < b2_maxProxies) as Hlt by (vm_compute; reflexivity).
  split_and!; [exact demo_settings|exact demo_one_reachable|exact HQ|exact Hlt|].
  exact (proj1 (CreateProxy_exhaustion [0] demo_one (box 15 15 25 25) None
                  demo_settings demo_one_reachable HQ) Hlt).
Defined.

Lemma DestroyProxy_then_CreateProxy_witness :
  settings_ok ∧ reachable [0] demo_one ∧ 0 ∈ [0] ∧ quantizes (box 15 15 25 25) demo_one ∧
  ∃ s1 s2, DestroyProxy 0 demo_one = Some s1 ∧
           CreateProxy (box 15 15 25 25) None s1 = Some (0, s2) ∧
           m_proxyCount s2 = m_proxyCount demo_one ∧ m_freeProxy s2 = m_freeProxy demo_one.
Proof.
  assert (quantizes (box 15 15 25 25) demo_one) as HQ
    by (apply demo_quantizes; vm_compute; reflexivity).
  assert (0 ∈ [0]) as Hin by set_solver.
  split_and!; [exact demo_settings|exact demo_one_reachable|exact Hin|exact HQ|].
  exact (DestroyProxy_then_CreateProxy [0] demo_one 0 (box 15 15 25 25) None
           demo_settings demo_one_reachable Hin HQ).
Defined.

(** ** BinarySearch on any array *)

Lemma BinarySearch_in_range_witness :
  3 ≤ Z.of_nat (length [mkBound 9 0 0; mkBound 2 0 0; mkBound 5 0 0]) ∧
  ∃ r, BinarySearch [mkBound 9 0 0; mkBound 2 0 0; mkBound 5 0 0] 3 4 = Some r ∧
       0 ≤ r ≤ Z.max 0 3 ∧ (3 ≤ 0 → r = 0).
Proof.
  assert (3 ≤ Z.of_nat (length [mkBound 9 0 0; mkBound 2 0 0; mkBound 5 0 0])) as H
    by (cbn; lia).
  split; [exact H|].
  exact (BinarySearch_in_range [mkBound 9 0 0; mkBound 2 0 0; mkBound 5 0 0] 3 4 H).
Defined.

(** ** The order of the quantized values *)

Lemma ComputeBounds_monotone_witness :
  constructed demo_new ∧
  (coord axis0 (minVertex (box 10 10 20 20)) <=? coord axis0 (minVertex (box 15 15 25 25)))%float
    = true ∧
  ComputeBounds_lower axis0 (box 10 10 20 20) demo_new
    ≤ ComputeBounds_lower axis0 (box 15 15 25 25) demo_new ∧
  (coord axis0 (maxVertex (box 10 10 20 20)) <=? coord axis0 (maxVertex (box 15 15 25 25)))%float
    = true ∧
  ComputeBounds_upper axis0 (box 10 10 20 20) demo_new
    ≤ ComputeBounds_upper axis0 (box 15 15 25 25) demo_new.
Proof.
  assert (constructed demo_new) as Hc by reflexivity.
  pose proof (ComputeBounds_monotone (box 10 10 20 20) (box 15 15 25 25) demo_new axis0 Hc)
    as [H1 H2].
  split_and!; [exact Hc|reflexivity|apply H1; reflexivity|reflexivity|apply H2; reflexivity].
Defined.

(** Two boxes that share the corner (20, 20). *)
Lemma ComputeBounds_keeps_overlap_witness :
  constructed demo_new ∧
  (coord axis0 (minVertex (box 10 10 20 20)) <=? coord axis0 (maxVertex (box 20 20 30 30)))%float
    = true ∧
  (coord axis0 (minVertex (box 20 20 30 30)) <=? coord axis0 (maxVertex (box 10 10 20 20)))%float
    = true ∧
  ComputeBounds_lower axis0 (box 10 10 20 20) demo_new
    < ComputeBounds_upper axis0 (box 20 20 30 30) demo_new ∧
  ComputeBounds_lower axis0 (box 20 20 30 30) demo_new
    < ComputeBounds_upper axis0 (box 10 10 20 20) demo_new.
Proof.
  assert (constructed demo_new) as Hc by reflexivity.
  split_and!; [exact Hc|reflexivity|reflexivity|..];
    apply (ComputeBounds_keeps_overlap (box 10 10 20 20) (box 20 20 30 30) demo_new axis0 Hc);
    reflexivity.
Defined.

(** A box to the left of the world. *)
Lemma ComputeBounds_below_world_witness :
  constructed demo_new ∧
  (coord axis0 (minVertex (box (-7) 10 (-3) 20))
     <=? coord axis0 (minVertex (m_worldAABB demo_new)))%float = true ∧
  (coord axis0 (maxVertex (box (-7) 10 (-3) 20))
     <=? coord axis0 (minVertex (m_worldAABB demo_new)))%float = true ∧
  ComputeBounds_lower axis0 (box (-7) 10 (-3) 20) demo_new = 0 ∧
  ComputeBounds_upper axis0 (box (-7) 10 (-3) 20) demo_new = 1.
Proof.
  assert (constructed demo_new) as Hc by reflexivity.
  split_and!; [exact Hc|reflexivity|reflexivity|..];
    apply (ComputeBounds_below_world (box (-7) 10 (-3) 20) demo_new axis0 Hc); reflexivity.
Defined.

(** ** The results of QueryAABB *)

Lemma QueryAABB_exact_witness :
  settings_ok ∧ reachable [0] demo_one ∧ quantizes (box 5 5 15 15) demo_one ∧
  ∃ rs out' s',
    QueryAABB (box 5 5 15 15) [] 10 demo_one
    = Some (Z.max 0 (Z.min (Z.of_nat (length rs)) 10), out', s') ∧
    NoDup rs ∧
    (∀ p, p ∈ rs ↔
          p ∈ [0] ∧ TestOverlap (ComputeBounds (box 5 5 15 15) demo_one) p demo_one = Some true) ∧
    (∀ i r, rs !! i = Some r → Z.of_nat i < 10 →
       js_read out' (Z.of_nat i) = Some (userData (proxy_at (proxyPool demo_one) r))) ∧
    reachable [0] s'.
Proof.
  assert (quantizes (box 5 5 15 15) demo_one) as HQ
    by (apply demo_quantizes; vm_compute; reflexivity).
  split_and!; [exact demo_settings|exact demo_one_reachable|exact HQ|].
  exact (QueryAABB_exact [0] demo_one (box 5 5 15 15) [] 10
           demo_settings demo_one_reachable HQ).
Defined.

(** ** What the operations do to the proxies *)

Lemma CreateProxy_new_proxy_witness :
  settings_ok ∧ reachable [0] demo_one ∧ m_proxyCount demo_one < b2_maxProxies ∧
  quantizes (box 15 15 25 25) demo_one ∧
  ∃ pid s', CreateProxy (box 15 15 25 25) (Some 9%nat) demo_one = Some (pid, s') ∧
    (∀ a, valof a s' pid true = sel a (fst (ComputeBounds (box 15 15 25 25) demo_one)) ∧
          valof a s' pid false = sel a (snd (ComputeBounds (box 15 15 25 25) demo_one))) ∧
    userData (proxy_at (proxyPool s') pid) = Some 9%nat ∧
    (∀ p, p ∈ [0] →
       userData (proxy_at (proxyPool s') p) = userData (proxy_at (proxyPool demo_one) p) ∧
       ∀ a r, valof a s' p r = valof a demo_one p r) ∧
    (∀ b, ComputeBounds b s' = ComputeBounds b demo_one).
Proof.
  assert (quantizes (box 15 15 25 25) demo_one) as HQ
    by (apply demo_quantizes; vm_compute; reflexivity).
  assert (m_proxyCount demo_one < b2_maxProxies) as Hlt by (vm_compute; reflexivity).
  split_and!; [exact demo_settings|exact demo_one_reachable|exact Hlt|exact HQ|].
  exact (CreateProxy_new_proxy [0] demo_one (box 15 15 25 25) (Some 9%nat)
           demo_settings demo_one_reachable Hlt HQ).
Defined.

Lemma MoveProxy_moves_witness :
  settings_ok ∧ reachable [0] demo_one ∧ 0 ∈ [0] ∧
  AABB_IsValid (box 30 30 40 40) = true ∧ quantizes (box 30 30 40 40) demo_one ∧
  ∃ s', MoveProxy 0 (box 30 30 40 40) demo_one = Some s' ∧
    (∀ a, valof a s' 0 true = sel a (fst (ComputeBounds (box 30 30 40 40) demo_one)) ∧
          valof a s' 0 false = sel a (snd (ComputeBounds (box 30 30 40 40) demo_one))) ∧
    (∀ p, p ∈ [0] → p ≠ 0 → ∀ a r, valof a s' p r = valof a demo_one p r) ∧
    (∀ p, userData (proxy_at (proxyPool s') p) = userData (proxy_at (proxyPool demo_one) p) ∧
          overlapCount (proxy_at (proxyPool s') p)
          = overlapCount (proxy_at (proxyPool demo_one) p) ∧
          next (proxy_at (proxyPool s') p) = next (proxy_at (proxyPool demo_one) p)) ∧
    m_proxyCount s' = m_proxyCount demo_one ∧ m_freeProxy s' = m_freeProxy demo_one ∧
    m_timeStamp s' = m_timeStamp demo_one ∧
    (∀ b, ComputeBounds b s' = ComputeBounds b demo_one).
Proof.
  assert (quantizes (box 30 30 40 40) demo_one) as HQ
    by (apply demo_quantizes; vm_compute; reflexivity).
  assert (0 ∈ [0]) as Hin by set_solver.
  assert (AABB_IsValid (box 30 30 40 40) = true) as Hv by reflexivity.
  split_and!; [exact demo_settings|exact demo_one_reachable|exact Hin|exact Hv|exact HQ|].
  exact (MoveProxy_moves [0] demo_one 0 (box 30 30 40 40)
           demo_settings demo_one_reachable Hin Hv HQ).
Defined.

Lemma DestroyProxy_frees_witness :
  settings_ok ∧ reachable [1; 0] demo_two ∧ 0 ∈ [1; 0] ∧
  ∃ s', DestroyProxy 0 demo_two = Some s' ∧
    userData (proxy_at (proxyPool s') 0) = None ∧
    Proxy_IsValid (proxy_at (proxyPool s') 0) = false ∧
    lowerBounds (proxy_at (proxyPool s') 0) = (invalid, invalid) ∧
    upperBounds (proxy_at (proxyPool s') 0) = (invalid, invalid) ∧
    m_freeProxy s' = 0 ∧ next (proxy_at (proxyPool s') 0) = m_freeProxy demo_two ∧
    m_proxyCount s' = m_proxyCount demo_two - 1 ∧
    (∀ p, p ∈ [1; 0] → p ≠ 0 →
       userData (proxy_at (proxyPool s') p) = userData (proxy_at (proxyPool demo_two) p) ∧
       ∀ a r, valof a s' p r = valof a demo_two p r) ∧
    (∀ b, ComputeBounds b s' = ComputeBounds b demo_two).
Proof.
  assert (0 ∈ [1; 0]) as Hin by set_solver.
  split_and!; [exact demo_settings|exact demo_two_reachable|exact Hin|].
  exact (DestroyProxy_frees [1; 0] demo_two 0 demo_settings demo_two_reachable Hin).
Defined.

Lemma QueryAABB_changes_no_proxy_witness :
  settings_ok ∧ reachable [0] demo_one ∧
  ∃ n out' s', QueryAABB (box 5 5 15 15) [] 10 demo_one = Some (n, out', s') ∧
    0 ≤ n ≤ Z.max 0 10 ∧
    (∀ a, bounds_of a s' = bounds_of a demo_one) ∧
    (∀ p, userData (proxy_at (proxyPool s') p) = userData (proxy_at (proxyPool demo_one) p) ∧
          next (proxy_at (proxyPool s') p) = next (proxy_at (proxyPool demo_one) p) ∧
          ∀ a r, valof a s' p r = valof a demo_one p r) ∧
    m_proxyCount s' = m_proxyCount demo_one ∧ m_freeProxy s' = m_freeProxy demo_one ∧
    (∀ b, ComputeBounds b s' = ComputeBounds b demo_one).
Proof.
  split_and!; [exact demo_settings|exact demo_one_reachable|].
  exact (QueryAABB_changes_no_proxy [0] demo_one (box 5 5 15 15) [] 10
           demo_settings demo_one_reachable).
Defined.

(** ** Queries after an operation *)

Lemma CreateProxy_then_QueryAABB_witness :
  settings_ok ∧ reachable [0] demo_one ∧ m_proxyCount demo_one < b2_maxProxies ∧
  quantizes (box 15 15 25 25) demo_one ∧ quantizes (box 22 22 30 30) demo_one ∧
  ∃ pid s1 rs out' s2,
    CreateProxy (box 15 15 25 25) (Some 9%nat) demo_one = Some (pid, s1) ∧
    QueryAABB (box 22 22 30 30) [] 10 s1
    = Some (Z.max 0 (Z.min (Z.of_nat (length rs)) 10), out', s2) ∧
    NoDup rs ∧
    (pid ∈ rs ↔ meets (ComputeBounds (box 22 22 30 30) demo_one)
                      (ComputeBounds (box 15 15 25 25) demo_one)) ∧
    (∀ p, p ≠ pid →
       p ∈ rs ↔ p ∈ [0] ∧
                TestOverlap (ComputeBounds (box 22 22 30 30) demo_one) p demo_one = Some true) ∧
    (∀ i, rs !! i = Some pid → Z.of_nat i < 10 →
       js_read out' (Z.of_nat i) = Some (Some 9%nat)).
Proof.
  assert (quantizes (box 15 15 25 25) demo_one) as HQ
    by (apply demo_quantizes; vm_compute; reflexivity).
  assert (quantizes (box 22 22 30 30) demo_one) as HQq
    by (apply demo_quantizes; vm_compute; reflexivity).
  assert (m_proxyCount demo_one < b2_maxProxies) as Hlt by (vm_compute; reflexivity).
  split_and!; [exact demo_settings|exact demo_one_reachable|exact Hlt|exact HQ|exact HQq|].
  exact (CreateProxy_then_QueryAABB [0] demo_one (box 15 15 25 25) (Some 9%nat)
           (box 22 22 30 30) [] 10 demo_settings demo_one_reachable Hlt HQ HQq).
Defined.

Lemma MoveProxy_then_QueryAABB_witness :
  settings_ok ∧ reachable [0] demo_one ∧ 0 ∈ [0] ∧
  AABB_IsValid (box 30 30 40 40) = true ∧
  quantizes (box 30 30 40 40) demo_one ∧ quantizes (box 5 5 15 15) demo_one ∧
  ∃ s1 rs out' s2,
    MoveProxy 0 (box 30 30 40 40) demo_one = Some s1 ∧
    QueryAABB (box 5 5 15 15) [] 10 s1
    = Some (Z.max 0 (Z.min (Z.of_nat (length rs)) 10), out', s2) ∧
    NoDup rs ∧
    (0 ∈ rs ↔ meets (ComputeBounds (box 5 5 15 15) demo_one)
                    (ComputeBounds (box 30 30 40 40) demo_one)) ∧
    (∀ p, p ≠ 0 →
       p ∈ rs ↔ p ∈ [0] ∧
                TestOverlap (ComputeBounds (box 5 5 15 15) demo_one) p demo_one = Some true).
Proof.
  assert (quantizes (box 30 30 40 40) demo_one) as HQ
    by (apply demo_quantizes; vm_compute; reflexivity).
  assert (quantizes (box 5 5 15 15) demo_one) as HQq
    by (apply demo_quantizes; vm_compute; reflexivity).
  assert (0 ∈ [0]) as Hin by set_solver.
  assert (AABB_IsValid (box 30 30 40 40) = true) as Hv by reflexivity.
  split_and!; [exact demo_settings|exact demo_one_reachable|exact Hin|exact Hv|exact HQ
              |exact HQq|].
  exact (MoveProxy_then_QueryAABB [0] demo_one 0 (box 30 30 40 40) (box 5 5 15 15) [] 10
           demo_settings demo_one_reachable Hin Hv HQ HQq).
Defined.

Lemma DestroyProxy_then_QueryAABB_witness :
  settings_ok ∧ reachable [1; 0] demo_two ∧ 0 ∈ [1; 0] ∧
  quantizes (box 5 5 15 15) demo_two ∧
  ∃ s1 rs out' s2,
    DestroyProxy 0 demo_two = Some s1 ∧
    QueryAABB (box 5 5 15 15) [] 10 s1
    = Some (Z.max 0 (Z.min (Z.of_nat (length rs)) 10), out', s2) ∧
    NoDup rs ∧ (0 ∉ rs) ∧
    (∀ p, p ≠ 0 →
       p ∈ rs ↔ p ∈ [1; 0] ∧
                TestOverlap (ComputeBounds (box 5 5 15 15) demo_two) p demo_two = Some true).
Proof.
  assert (quantizes (box 5 5 15 15) demo_two) as HQq
    by (apply demo_quantizes; vm_compute; reflexivity).
  assert (0 ∈ [1; 0]) as Hin by set_solver.
  split_and!; [exact demo_settings|exact demo_two_reachable|exact Hin|exact HQq|].
  exact (DestroyProxy_then_QueryAABB [1; 0] demo_two 0 (box 5 5 15 15) [] 10
           demo_settings demo_two_reachable Hin HQq).
Defined.

(** ** GetProxy *)

Lemma GetProxy_in_use_witness :
  settings_ok ∧ (invalid ≠ 0 ∧ invalid ≠ 1 ∧ invalid ≠ 2) ∧ reachable [0] demo_one ∧
  0 ∈ [0] ∧
  ∃ proxy, GetProxy 0 demo_one = Some (Some proxy) ∧
           js_get (proxyPool demo_one) 0 = Some proxy.
Proof.
  assert (invalid ≠ 0 ∧ invalid ≠ 1 ∧ invalid ≠ 2) as Hi by (cbn; lia).
  assert (0 ∈ [0]) as Hin by set_solver.
  split_and!; [exact demo_settings|apply Hi..|exact demo_one_reachable|exact Hin|].
  exact (proj1 (GetProxy_in_use [0] demo_one 0 demo_settings Hi demo_one_reachable) Hin).
Defined.

(** ** TestOverlapValidate *)

Lemma TestOverlapValidate_in_use_witness :
  settings_ok ∧ reachable [1; 0] demo_two ∧ 0 ∈ [1; 0] ∧ 1 ∈ [1; 0] ∧
  ∃ b : bool,
    TestOverlapValidate 0 1 demo_two = Some b ∧
    TestOverlapValidate 1 0 demo_two = Some b ∧
    (b = true ↔ ∀ a, valof a demo_two 0 true ≤ valof a demo_two 1 false ∧
                     valof a demo_two 1 true ≤ valof a demo_two 0 false) ∧
    TestOverlap ((valof axis0 demo_two 0 true, valof axis1 demo_two 0 true),
                 (valof axis0 demo_two 0 false, valof axis1 demo_two 0 false)) 1 demo_two
    = Some b ∧
    (0 = 1 → b = true).
Proof.
  assert (0 ∈ [1; 0]) as H0 by set_solver.
  assert (1 ∈ [1; 0]) as H1 by set_solver.
  split_and!; [exact demo_settings|exact demo_two_reachable|exact H0|exact H1|].
  exact (TestOverlapValidate_in_use [1; 0] demo_two 0 1
           demo_settings demo_two_reachable H0 H1).
Defined.

(** ** A destroyed proxy *)

Lemma use_after_DestroyProxy_witness :
  settings_ok ∧ reachable [0] demo_one ∧ 0 ∈ [0] ∧
  ¬ (0 ≤ invalid < 2 * b2_maxProxies) ∧ AABB_IsValid (box 30 30 40 40) = true ∧
  ∃ s', DestroyProxy 0 demo_one = Some s' ∧
        DestroyProxy 0 s' = None ∧ MoveProxy 0 (box 30 30 40 40) s' = None.
Proof.
  assert (0 ∈ [0]) as Hin by set_solver.
  assert (¬ (0 ≤ invalid < 2 * b2_maxProxies)) as Hinv by (cbn; lia).
  assert (AABB_IsValid (box 30 30 40 40) = true) as Hv by reflexivity.
  split_and!; [exact demo_settings|exact demo_one_reachable|exact Hin|exact Hinv|exact Hv|].
  exact (use_after_DestroyProxy [0] demo_one 0 (box 30 30 40 40)
           demo_settings demo_one_reachable Hin Hinv Hv).
Defined.

(** ** The time stamp *)

Lemma timeStamp_range_witness :
  settings_ok ∧ reachable [3; 2; 1; 0] demo_full ∧
  1 ≤ m_timeStamp demo_full ≤ USHRT_MAX ∧
  (∀ p proxy, js_get (proxyPool demo_full) p = Some proxy →
     timeStamp proxy < m_timeStamp demo_full) ∧
  m_queryResultCount demo_full = 0.
Proof.
  split; [exact demo_settings|]. split; [exact demo_full_reachable|].
  exact (timeStamp_range [3; 2; 1; 0] demo_full demo_settings demo_full_reachable).
Defined.

(** ** The pairs CreateProxy and DestroyProxy report *)


Lemma DestroyProxy_buffers_pairs_witness :
  settings_ok ∧ reachable [1; 0] demo_two ∧ 0 ∈ [1; 0] ∧
  ∃ s' rs, DestroyProxy 0 demo_two = Some s' ∧
    NoDup rs ∧
    (∀ p, p ∈ rs ↔ p ∈ [1; 0] ∧ p ≠ 0 ∧ TestOverlapValidate 0 p demo_two = Some true) ∧
    m_pairManager s'
    = snd (PairManager_Commit (buffered RemoveBufferedPair 0 rs (m_pairManager demo_two))).
Proof.
  assert (0 ∈ [1; 0]) as Hin by set_solver.
  split_and!; [exact demo_settings|exact demo_two_reachable|exact Hin|].
  exact (DestroyProxy_buffers_pairs [1; 0] demo_two 0
           demo_settings demo_two_reachable Hin).
Defined.

Lemma MoveProxy_same_values_witness :
  settings_ok ∧ reachable [0] demo_one ∧ 0 ∈ [0] ∧
  (∀ a, valof a demo_one 0 true = sel a (fst (ComputeBounds (box 10 10 20 20) demo_one)) ∧
        valof a demo_one 0 false = sel a (snd (ComputeBounds (box 10 10 20 20) demo_one))) ∧
  MoveProxy 0 (box 10 10 20 20) demo_one = Some demo_one.
Proof.
  assert (0 ∈ [0]) as Hin by set_solver.
  assert (∀ a, valof a demo_one 0 true
               = sel a (fst (ComputeBounds (box 10 10 20 20) demo_one)) ∧
               valof a demo_one 0 false
               = sel a (snd (ComputeBounds (box 10 10 20 20) demo_one))) as Hv
    by (intros []; split; vm_compute; reflexivity).
  split_and!; [exact demo_settings|exact demo_one_reachable|exact Hin|exact Hv|].
  exact (MoveProxy_same_values [0] demo_one 0 (box 10 10 20 20)
           demo_settings demo_one_reachable Hin Hv).
Defined.

Lemma MoveProxy_idempotent_witness :
  settings_ok ∧ reachable [0] demo_one ∧ 0 ∈ [0] ∧ quantizes (box 30 30 40 40) demo_one ∧
  ∃ s', MoveProxy 0 (box 30 30 40 40) demo_one = Some s' ∧
        MoveProxy 0 (box 30 30 40 40) s' = Some s'.
Proof.
  assert (quantizes (box 30 30 40 40) demo_one) as HQ
    by (apply demo_quantizes; vm_compute; reflexivity).
  assert (0 ∈ [0]) as Hin by set_solver.
  split_and!; [exact demo_settings|exact demo_one_reachable|exact Hin|exact HQ|].
  exact (MoveProxy_idempotent [0] demo_one 0 (box 30 30 40 40)
           demo_settings demo_one_reachable Hin HQ).
Defined.

Lemma MoveProxy_buffers_pairs_witness :
  settings_ok ∧ reachable [1; 0] demo_two ∧ 0 ∈ [1; 0] ∧
  AABB_IsValid (box 30 30 40 40) = true ∧ quantizes (box 30 30 40 40) demo_two ∧
  ∃ s' evs, MoveProxy 0 (box 30 30 40 40) demo_two = Some s' ∧
    m_pairManager s' = foldl (buffer_event 0) (m_pairManager demo_two) evs ∧
    (∀ q, (true, q) ∈ evs ↔
       q ∈ [1; 0] ∧ q ≠ 0 ∧
       TestOverlap (ComputeBounds (box 30 30 40 40) demo_two) q demo_two = Some true ∧
       TestOverlapValidate 0 q demo_two = Some false) ∧
    (∀ q, (false, q) ∈ evs ↔
       q ∈ [1; 0] ∧ q ≠ 0 ∧ TestOverlapValidate 0 q demo_two = Some true ∧
       TestOverlap (ComputeBounds (box 30 30 40 40) demo_two) q demo_two = Some false).
Proof.
  assert (quantizes (box 30 30 40 40) demo_two) as HQ
    by (apply demo_quantizes; vm_compute; reflexivity).
  assert (0 ∈ [1; 0]) as Hin by set_solver.
  assert (AABB_IsValid (box 30 30 40 40) = true) as Hv by reflexivity.
  split_and!; [exact demo_settings|exact demo_two_reachable|exact Hin|exact Hv|exact HQ|].
  exact (MoveProxy_buffers_pairs [1; 0] demo_two 0 (box 30 30 40 40)
           demo_settings demo_two_reachable Hin Hv HQ).
Defined.
